(** * Sudoku difficulty engine: candidate bookkeeping, technique detectors
    and the rating loop

    A shallow embedding of [solving_techniques.py] (class
    [SudokuTechniques]), [difficulty_engine.py] (class [DifficultyEngine])
    and the class [SudokuBoard] of [SUDOKU.py]: its constructor, [is_valid],
    [find_empty], [solve], [count_solve_steps] and [has_unique_solution].
    [score_difficulty] (floating point) and [generate] (random numbers) are
    not embedded.

    Conventions of the embedding:
    - row, column and box indices are [nat] (they always come from
      [range(9)]); the contents of a cell is a Python integer, a [Z];
    - a grid is the list of its rows, [list (list Z)]; an index that does
      not exist raises [IndexError], as in Python;
    - the rows of a grid are list objects, and one list can be the row at
      several positions: a board records which positions hold the same
      list, and an assignment to a cell shows in every row that is the
      list written to;
    - the candidate dictionary [{(row, col): set}] is a
      [gmap (nat * nat) (gset Z)];
    - the objects a caller can observe (the boards) live in a store, so that
      [copy.deepcopy] and the assignments of the engine are visible as
      store updates;
    - the recursive methods of [SudokuBoard] take and return the board they
      mutate, and the depth of their recursion is bounded by a fuel. *)

From stdpp Require Import gmap list sorting strings.
From Stdlib Require Import ZArith Lia.

Local Open Scope Z_scope.
Local Open Scope nat_scope.

#[local] Set Warnings "-clear-no-such-hyp".

(** ** Exceptions and results *)

Inductive exn := IndexError.

Inductive result (A : Type) :=
  | Ok (a : A)
  | Raise (e : exn).
Arguments Ok {A} a.
Arguments Raise {A} e.

#[global] Instance result_ret : MRet result := λ A a, Ok a.
#[global] Instance result_bind : MBind result := λ A B f m,
  match m with
  | Ok a => f a
  | Raise e => Raise e
  end.

(** A [for] loop whose body can raise: the accumulator is threaded through
    the iterations, the first exception leaves the loop. *)
Fixpoint for_each {A S : Type} (body : S → A → result S) (s : S) (l : list A)
  : result S :=
  match l with
  | [] => Ok s
  | x :: l' => s' ← body s x; for_each body s' l'
  end.

(** ** Grids *)

Abbreviation Grid := (list (list Z)).
Abbreviation cell := (nat * nat)%type.
Abbreviation candidates_map := (gmap (nat * nat) (gset Z)).

(** [grid[row][col]] *)
Definition grid_at (g : Grid) (row col : nat) : result Z :=
  match g !! row with
  | None => Raise IndexError
  | Some r => match r !! col with
              | None => Raise IndexError
              | Some v => Ok v
              end
  end.

(** [grid[row]] *)
Definition grid_row (g : Grid) (row : nat) : result (list Z) :=
  match g !! row with
  | None => Raise IndexError
  | Some r => Ok r
  end.

(** [range(9)] and [range(1, 10)] *)
Definition range9 : list nat := seq 0 9.
Definition digits : list Z := seqZ 1 9.

(** The cells visited by
    [for r in range(box_row, box_row + 3): for c in range(box_col, box_col + 3)] *)
Definition box_cells (box_row box_col : nat) : list cell :=
  r ← seq box_row 3; c ← seq box_col 3; [(r, c)].

(** The cells visited by [for row in range(9): for col in range(9)] *)
Definition all_cells : list cell :=
  r ← range9; c ← range9; [(r, c)].

(** ** SudokuTechniques: the candidate map *)

(** One step of the three exclusion loops of [_get_candidates]:
    [if self.grid[r][c] != 0: possible.discard(self.grid[r][c])]. *)
Definition discard_placed (g : Grid) (possible : gset Z) (rc : cell)
  : result (gset Z) :=
  v ← grid_at g rc.1 rc.2;
  Ok (if decide (v ≠ 0%Z) then possible ∖ {[v]} else possible).

Definition _get_candidates (g : Grid) (row col : nat) : result (gset Z) :=
  v ← grid_at g row col;
  if decide (v ≠ 0%Z) then Ok ∅
  else
    let possible : gset Z := list_to_set digits in
    possible ← for_each (discard_placed g) possible ((λ c, (row, c)) <$> range9);
    possible ← for_each (discard_placed g) possible ((λ r, (r, col)) <$> range9);
    let box_row := (row / 3) * 3 in
    let box_col := (col / 3) * 3 in
    for_each (discard_placed g) possible (box_cells box_row box_col).

Definition _init_candidates (g : Grid) : result candidates_map :=
  for_each (λ (candidates : candidates_map) '(row, col),
      v ← grid_at g row col;
      if decide (v = 0%Z)
      then s ← _get_candidates g row col; Ok (<[(row, col) := s]> candidates)
      else Ok candidates)
    ∅ all_cells.

(** ** SudokuTechniques: the single-cell detectors *)

(** [(row, col) in self.candidates and num in self.candidates[(row, col)]] *)
Definition has_candidate (candidates : candidates_map) (num : Z) (rc : cell)
  : bool :=
  match candidates !! rc with
  | Some s => bool_decide (num ∈ s)
  | None => false
  end.

(** [self.candidates.items()]: a Python dictionary is iterated in the order
    its keys were inserted, and [_init_candidates] inserts the keys in the
    order of [all_cells]; no key is inserted or deleted afterwards. *)
Definition candidates_items (candidates : candidates_map)
  : list (cell * gset Z) :=
  omap (λ rc, pair rc <$> candidates !! rc) all_cells.

(** [tuple(sorted(s))] *)
Definition sorted (s : gset Z) : list Z := merge_sort Z.le (elements s).
Definition sorted_nat (s : gset nat) : list nat := merge_sort le (elements s).

Definition find_naked_singles (candidates : candidates_map)
  : list (nat * nat * Z) :=
  '(rc, cands) ← candidates_items candidates;
  if decide (size cands = 1)
  then match elements cands with
       | num :: _ => [(rc.1, rc.2, num)]
       | [] => []
       end
  else [].

(** The part of the three [_find_hidden_in_*] methods that follows the
    test "is [num] already placed in the unit": collect the cells of the
    unit that still have [num] as a candidate and report the cell when it
    is the only one. *)
Definition hidden_at (candidates : candidates_map) (unit_cells : list cell)
    (num : Z) : list (nat * nat * Z) :=
  let possible_positions := filter (λ rc, has_candidate candidates num rc) unit_cells in
  match possible_positions with
  | [rc] => [(rc.1, rc.2, num)]
  | _ => []
  end.

Definition _find_hidden_in_row (g : Grid) (candidates : candidates_map)
    (row : nat) : result (list (nat * nat * Z)) :=
  for_each (λ results num,
      r ← grid_row g row;
      if decide (num ∈ r) then Ok results
      else Ok (results ++ hidden_at candidates ((λ col, (row, col)) <$> range9) num))
    [] digits.

Definition _find_hidden_in_col (g : Grid) (candidates : candidates_map)
    (col : nat) : result (list (nat * nat * Z)) :=
  for_each (λ results num,
      column ← mapM (λ r, grid_at g r col) range9;
      if decide (num ∈ column) then Ok results
      else Ok (results ++ hidden_at candidates ((λ row, (row, col)) <$> range9) num))
    [] digits.

(** The search loop of [_find_hidden_in_box] with its two [break]s: the
    cells of the box are read in order until one holds [num]. *)
Fixpoint box_has (g : Grid) (num : Z) (cells : list cell) : result bool :=
  match cells with
  | [] => Ok false
  | rc :: cells' =>
      v ← grid_at g rc.1 rc.2;
      if decide (v = num) then Ok true else box_has g num cells'
  end.

Definition _find_hidden_in_box (g : Grid) (candidates : candidates_map)
    (box_idx : nat) : result (list (nat * nat * Z)) :=
  let box_row := (box_idx / 3) * 3 in
  let box_col := (box_idx mod 3) * 3 in
  for_each (λ results num,
      found ← box_has g num (box_cells box_row box_col);
      if found : bool then Ok results
      else Ok (results ++ hidden_at candidates (box_cells box_row box_col) num))
    [] digits.

(** [results.extend(f(i))] for [i] in [range(9)] *)
Definition extend_each {A : Type} (f : nat → result (list A)) (results : list A)
  : result (list A) :=
  for_each (λ results i, r ← f i; Ok (results ++ r)) results range9.

Section hidden_singles.
(** [list(set(results))]: the order in which CPython iterates over a set
    of integer triples is fixed by their hashes and by the order of
    insertion, so it is a function of the list [results]; it is left
    abstract here. What the rating relies on is stated where it is
    used: the list has the same elements as [results]. *)
Variable list_of_set : list (nat * nat * Z) → list (nat * nat * Z).

Definition find_hidden_singles (g : Grid) (candidates : candidates_map)
  : result (list (nat * nat * Z)) :=
  results ← extend_each (_find_hidden_in_row g candidates) [];
  results ← extend_each (_find_hidden_in_col g candidates) results;
  results ← extend_each (_find_hidden_in_box g candidates) results;
  Ok (list_of_set results).
End hidden_singles.

(** ** SudokuTechniques: naked pairs and pointing pairs *)

Record NakedPair := mkNakedPair {
  np_unit_type : string;
  np_unit_idx : nat;
  np_cells : list cell;
  np_nums : list Z }.

Record PointingPair := mkPointingPair {
  pp_box_idx : nat;
  pp_num : Z;
  pp_line_type : string;
  pp_line_idx : nat;
  pp_positions : list cell }.

(** The pairs visited by
    [for i in range(len(l)): for j in range(i + 1, len(l))] *)
Fixpoint pairs_of {A : Type} (l : list A) : list (A * A) :=
  match l with
  | [] => []
  | x :: l' => (pair x <$> l') ++ pairs_of l'
  end.

(** The triples visited by the three nested loops of the Swordfish search *)
Fixpoint triples_of {A : Type} (l : list A) : list (A * A * A) :=
  match l with
  | [] => []
  | x :: l' => ((λ p : A * A, (x, p.1, p.2)) <$> pairs_of l') ++ triples_of l'
  end.

(** The cells of a unit with exactly two candidates, with their sets *)
Definition bi_value_in (candidates : candidates_map) (unit_cells : list cell)
  : list (cell * gset Z) :=
  omap (λ rc, match candidates !! rc with
              | Some s => if decide (size s = 2) then Some (rc, s) else None
              | None => None
              end) unit_cells.

(** The common body of [_find_pairs_in_row], [_find_pairs_in_col] and
    [_find_pairs_in_box], which differ in the cells they scan and in the
    tag they report. *)
Definition find_pairs_in (candidates : candidates_map) (unit_type : string)
    (unit_idx : nat) (unit_cells : list cell) : list NakedPair :=
  '(cell1, cell2) ← pairs_of (bi_value_in candidates unit_cells);
  if decide (cell1.2 = cell2.2)
  then [mkNakedPair unit_type unit_idx [cell1.1; cell2.1] (sorted cell1.2)]
  else [].

Definition _find_pairs_in_row (candidates : candidates_map) (row : nat) :=
  find_pairs_in candidates "row" row ((λ col, (row, col)) <$> range9).
Definition _find_pairs_in_col (candidates : candidates_map) (col : nat) :=
  find_pairs_in candidates "col" col ((λ row, (row, col)) <$> range9).
Definition _find_pairs_in_box (candidates : candidates_map) (box_idx : nat) :=
  find_pairs_in candidates "box" box_idx
    (box_cells ((box_idx / 3) * 3) ((box_idx mod 3) * 3)).

Definition find_naked_pairs (candidates : candidates_map) : list NakedPair :=
  (range9 ≫= _find_pairs_in_row candidates)
  ++ (range9 ≫= _find_pairs_in_col candidates)
  ++ (range9 ≫= _find_pairs_in_box candidates).

Definition find_pointing_pairs (candidates : candidates_map)
  : list PointingPair :=
  box_idx ← range9;
  let box_row := (box_idx / 3) * 3 in
  let box_col := (box_idx mod 3) * 3 in
  num ← digits;
  let positions :=
    filter (λ rc, has_candidate candidates num rc) (box_cells box_row box_col) in
  if decide (length positions < 2) then []
  else if decide (size (list_to_set (fst <$> positions) : gset nat) = 1)
  then match positions with
       | p :: _ => [mkPointingPair box_idx num "row" p.1 positions]
       | [] => []
       end
  else if decide (size (list_to_set (snd <$> positions) : gset nat) = 1)
  then match positions with
       | p :: _ => [mkPointingPair box_idx num "col" p.2 positions]
       | [] => []
       end
  else [].

(** The elimination step shared by all appliers:
    [if (r, c) in self.candidates and num in self.candidates[(r, c)]:
         self.candidates[(r, c)].discard(num); eliminated += 1] *)
Definition eliminate (num : Z) (st : candidates_map * nat) (rc : cell)
  : candidates_map * nat :=
  match st.1 !! rc with
  | Some s =>
      if decide (num ∈ s) then (<[rc := s ∖ {[num]}]> st.1, S st.2) else st
  | None => st
  end.

Definition apply_naked_pairs (candidates : candidates_map)
    (pairs : list NakedPair) : candidates_map * nat :=
  foldl (λ st pair_info,
      let others st unit_cells :=
        foldl (λ st rc,
            if decide (is_Some (st.1 !! rc) ∧ rc ∉ np_cells pair_info)
            then foldl (λ st num, eliminate num st rc) st (np_nums pair_info)
            else st) st unit_cells in
      let unit_idx := np_unit_idx pair_info in
      if String.eqb (np_unit_type pair_info) "row"
      then others st ((λ col, (unit_idx, col)) <$> range9)
      else if String.eqb (np_unit_type pair_info) "col"
      then others st ((λ row, (row, unit_idx)) <$> range9)
      else if String.eqb (np_unit_type pair_info) "box"
      then others st (box_cells ((unit_idx / 3) * 3) ((unit_idx mod 3) * 3))
      else st)
    (candidates, 0) pairs.

Definition apply_pointing_pairs (candidates : candidates_map)
    (pointings : list PointingPair) : candidates_map * nat :=
  foldl (λ st pointing_info,
      let num := pp_num pointing_info in
      let box_row := (pp_box_idx pointing_info / 3) * 3 in
      let box_col := (pp_box_idx pointing_info mod 3) * 3 in
      let outside_box (rc : cell) : bool :=
        negb (bool_decide (box_row ≤ rc.1 ∧ rc.1 < box_row + 3
                           ∧ box_col ≤ rc.2 ∧ rc.2 < box_col + 3)) in
      let line (st : candidates_map * nat) (line_cells : list cell) :=
        foldl (λ st rc, if outside_box rc then eliminate num st rc else st)
          st line_cells in
      if String.eqb (pp_line_type pointing_info) "row"
      then line st ((λ col, (pp_line_idx pointing_info, col)) <$> range9)
      else if String.eqb (pp_line_type pointing_info) "col"
      then line st ((λ row, (row, pp_line_idx pointing_info)) <$> range9)
      else st)
    (candidates, 0) pointings.

(** ** SudokuTechniques: X-Wing and Swordfish *)

Record XWing := mkXWing {
  xw_pattern_type : string;
  xw_lines : nat * nat;
  xw_cross_lines : nat * nat;
  xw_num : Z }.

Record Swordfish := mkSwordfish {
  sf_pattern_type : string;
  sf_lines : list nat;
  sf_cross_lines : list nat;
  sf_num : Z }.

(** [positions]: the indices [i] of [range(9)] at which the cell [at i]
    has [num] as a candidate *)
Definition positions_of (candidates : candidates_map) (num : Z)
    (at_ : nat → cell) : list nat :=
  filter (λ i, has_candidate candidates num (at_ i)) range9.

(** [row_candidates] (resp. [col_candidates]) of the X-Wing search, as the
    list of its items in insertion order: the lines with exactly two
    positions, each with the tuple of its positions. *)
Definition x_wing_lines (candidates : candidates_map) (num : Z)
    (at_ : nat → nat → cell) : list (nat * (nat * nat)) :=
  omap (λ line, match positions_of candidates num (at_ line) with
                | [p1; p2] => Some (line, (p1, p2))
                | _ => None
                end) range9.

Definition find_x_wing_in (candidates : candidates_map) (num : Z)
    (pattern_type : string) (at_ : nat → nat → cell) : list XWing :=
  '(l1, l2) ← pairs_of (x_wing_lines candidates num at_);
  if decide (l1.2 = l2.2)
  then [mkXWing pattern_type (l1.1, l2.1) l1.2 num]
  else [].

Definition _find_x_wing_in_rows (candidates : candidates_map) (num : Z) :=
  find_x_wing_in candidates num "rows" (λ row col, (row, col)).
Definition _find_x_wing_in_cols (candidates : candidates_map) (num : Z) :=
  find_x_wing_in candidates num "cols" (λ col row, (row, col)).

Definition find_x_wing (candidates : candidates_map) : list XWing :=
  (digits ≫= _find_x_wing_in_rows candidates)
  ++ (digits ≫= _find_x_wing_in_cols candidates).

Definition apply_x_wing (candidates : candidates_map) (x_wings : list XWing)
  : candidates_map * nat :=
  foldl (λ st x_wing_info,
      let num := xw_num x_wing_info in
      if String.eqb (xw_pattern_type x_wing_info) "rows"
      then
        let '(row1, row2) := xw_lines x_wing_info in
        let '(col1, col2) := xw_cross_lines x_wing_info in
        foldl (λ st row,
            if decide (row ≠ row1 ∧ row ≠ row2)
            then eliminate num (eliminate num st (row, col1)) (row, col2)
            else st) st range9
      else if String.eqb (xw_pattern_type x_wing_info) "cols"
      then
        let '(col1, col2) := xw_lines x_wing_info in
        let '(row1, row2) := xw_cross_lines x_wing_info in
        foldl (λ st col,
            if decide (col ≠ col1 ∧ col ≠ col2)
            then eliminate num (eliminate num st (row1, col)) (row2, col)
            else st) st range9
      else st)
    (candidates, 0) x_wings.

(** [row_candidates] (resp. [col_candidates]) of the Swordfish search: the
    lines with two or three positions, each with the set of its positions *)
Definition swordfish_lines (candidates : candidates_map) (num : Z)
    (at_ : nat → nat → cell) : list (nat * gset nat) :=
  omap (λ line,
      let positions := positions_of candidates num (at_ line) in
      if decide (2 ≤ length positions ≤ 3)
      then Some (line, list_to_set positions)
      else None) range9.

Definition find_swordfish_in (candidates : candidates_map) (num : Z)
    (pattern_type : string) (at_ : nat → nat → cell) : list Swordfish :=
  '(l1, l2, l3) ← triples_of (swordfish_lines candidates num at_);
  let union := l1.2 ∪ l2.2 ∪ l3.2 in
  if decide (size union = 3)
  then [mkSwordfish pattern_type [l1.1; l2.1; l3.1] (sorted_nat union) num]
  else [].

Definition _find_swordfish_in_rows (candidates : candidates_map) (num : Z) :=
  find_swordfish_in candidates num "rows" (λ row col, (row, col)).
Definition _find_swordfish_in_cols (candidates : candidates_map) (num : Z) :=
  find_swordfish_in candidates num "cols" (λ col row, (row, col)).

Definition find_swordfish (candidates : candidates_map) : list Swordfish :=
  (digits ≫= _find_swordfish_in_rows candidates)
  ++ (digits ≫= _find_swordfish_in_cols candidates).

Definition apply_swordfish (candidates : candidates_map)
    (swordfish_patterns : list Swordfish) : candidates_map * nat :=
  foldl (λ st pattern,
      let num := sf_num pattern in
      if String.eqb (sf_pattern_type pattern) "rows"
      then
        foldl (λ st col,
            foldl (λ st row,
                if decide (row ∉ sf_lines pattern)
                then eliminate num st (row, col) else st) st range9)
          st (sf_cross_lines pattern)
      else
        foldl (λ st row,
            foldl (λ st col,
                if decide (col ∉ sf_lines pattern)
                then eliminate num st (row, col) else st) st range9)
          st (sf_cross_lines pattern))
    (candidates, 0) swordfish_patterns.

(** ** SudokuTechniques: XY-Wing *)

Record XYWing := mkXYWing {
  xy_pivot : cell;
  xy_wing1 : cell;
  xy_wing2 : cell;
  xy_Z : Z }.

Definition _can_see (r1 c1 r2 c2 : nat) : bool :=
  if decide (r1 = r2) then true
  else if decide (c1 = c2) then true
  else if decide (r1 / 3 = r2 / 3 ∧ c1 / 3 = c2 / 3) then true
  else false.

(** [bi_value_cells] of [find_xy_wing]: the cells with exactly two
    candidates, each with the sorted pair of its candidates *)
Definition bi_value_cells (candidates : candidates_map)
  : list (cell * (Z * Z)) :=
  omap (λ rc, match candidates !! rc with
              | Some s =>
                  if decide (size s = 2)
                  then match sorted s with
                       | [a; b] => Some (rc, (a, b))
                       | _ => None
                       end
                  else None
              | None => None
              end) all_cells.

(** The digit that the source calls [Z] is [Z'] here, [Z] being the type
    of the integers. *)
Definition find_xy_wing (candidates : candidates_map) : list XYWing :=
  let bi := bi_value_cells candidates in
  '(pivot, (X, Y)) ← bi;
  '(wing1, wing1_cands) ← bi;
  if decide (wing1 = pivot) then []
  else if negb (_can_see pivot.1 pivot.2 wing1.1 wing1.2) then []
  else if decide (X ≠ wing1_cands.1 ∧ X ≠ wing1_cands.2) then []
  else
    let Z' : Z := if decide (wing1_cands.1 ≠ X) then wing1_cands.1
                  else wing1_cands.2 in
    '(wing2, wing2_cands) ← bi;
    if decide (wing2 = pivot) then []
    else if decide (wing2 = wing1) then []
    else if negb (_can_see pivot.1 pivot.2 wing2.1 wing2.2) then []
    else if decide (({[wing2_cands.1; wing2_cands.2]} : gset Z) = {[Y; Z']})
    then [mkXYWing pivot wing1 wing2 Z']
    else [].

Definition apply_xy_wing (candidates : candidates_map)
    (xy_wing_patterns : list XYWing) : candidates_map * nat :=
  foldl (λ st pattern,
      let wing1 := xy_wing1 pattern in
      let wing2 := xy_wing2 pattern in
      foldl (λ st rc,
          if decide (rc ∈ [xy_pivot pattern; wing1; wing2]) then st
          else if decide (st.1 !! rc = None) then st
          else if _can_see rc.1 rc.2 wing1.1 wing1.2
                  && _can_see rc.1 rc.2 wing2.1 wing2.2
          then eliminate (xy_Z pattern) st rc
          else st) st all_cells)
    (candidates, 0) xy_wing_patterns.

(** ** The store of board objects *)

(** [SudokuBoard.__init__]: [self.grid = copy.deepcopy(grid)],
    [self.size = 9]. The grid of a board is owned by the board alone (both
    the constructor and the engine deep-copy), which is why it is a value
    inside the object here.

    A grid is a list of row objects, and one list object can stand at
    several positions of it: in [[[0] * 9] * 9] the nine rows are one
    list. [copy.deepcopy] keeps this: positions that held one object hold
    one object in the copy. A board therefore carries, next to the
    content of its rows, the identity of the row object at each position
    ([row_ids], what [[id(row) for row in self.grid]] lists); two
    positions with the same identity are the same list. The identities
    are those inside one grid: no row is shared between two boards, since
    every board is made by a deep copy. *)
Record SudokuBoard := mkSudokuBoard {
  grid : Grid;
  size : nat;
  row_ids : list nat }.

#[global] Instance SudokuBoard_inhabited : Inhabited SudokuBoard :=
  populate (mkSudokuBoard [] 9 []).

(** The positions [i] and [j] of a grid hold the same list object. *)
Definition same_row (ids : list nat) (i j : nat) : Prop :=
  i = j ∨ ∃ k, ids !! i = Some k ∧ ids !! j = Some k.

#[global] Instance same_row_dec ids i j : Decision (same_row ids i j).
Proof.
  unfold same_row. destruct (decide (i = j)) as [->|Hne]; [left; by left|].
  destruct (ids !! i) as [k|] eqn:Hi, (ids !! j) as [k'|] eqn:Hj.
  - destruct (decide (k = k')) as [->|Hk].
    + left. right. by exists k'.
    + right. intros [?|(k0 & [= <-] & [= <-])]; done.
  - right. intros [?|(k0 & _ & ?)]; done.
  - right. intros [?|(k0 & ? & _)]; done.
  - right. intros [?|(k0 & ? & _)]; done.
Defined.

(** [grid[row][col] = num]: the item [col] of the list object at position
    [row] is replaced, and the change shows at every position of the grid
    that holds this object. An index that does not exist raises like a
    read does. *)
Definition grid_write (ids : list nat) (g : Grid) (row col : nat) (num : Z)
  : result Grid :=
  match g !! row with
  | None => Raise IndexError
  | Some r => match r !! col with
              | None => Raise IndexError
              | Some _ =>
                  Ok (imap (λ i r',
                        if decide (same_row ids i row)
                        then <[col := num]> r' else r') g)
              end
  end.

(** Objects are named by references; a reference held by a Python program
    always denotes an object, so reads use the total lookup. *)
Abbreviation store := (gmap nat SudokuBoard).

(** Computations that read and update the store and may raise *)
Definition M (A : Type) : Type := store → result A * store.

#[global] Instance M_ret : MRet M := λ A a σ, (Ok a, σ).
#[global] Instance M_bind : MBind M := λ A B f m σ,
  match m σ with
  | (Ok a, σ') => f a σ'
  | (Raise e, σ') => (Raise e, σ')
  end.

Definition lift {A : Type} (r : result A) : M A := λ σ, (r, σ).

(** [SudokuBoard(grid)], for a grid with the rows [g] whose row objects
    are [ids]: the deep copy in the constructor keeps the shared rows. *)
Definition new_SudokuBoard (g : Grid) (ids : list nat) : M nat := λ σ,
  let ref := fresh (dom σ) in (Ok ref, <[ref := mkSudokuBoard g 9 ids]> σ).

(** [copy.deepcopy(board)]: a new object with a copy of the grid, in
    which the rows are shared as they are in the grid of [board] *)
Definition deepcopy (board : nat) : M nat := λ σ,
  let ref := fresh (dom σ) in (Ok ref, <[ref := σ !!! board]> σ).

(** [board.grid], read *)
Definition get_grid (board : nat) : M Grid := λ σ,
  (Ok (grid (σ !!! board)), σ).

(** [board.grid[row][col] = num] *)
Definition set_cell (board : nat) (row col : nat) (num : Z) : M unit := λ σ,
  let b := σ !!! board in
  match grid_write (row_ids b) (grid b) row col num with
  | Ok g' => (Ok (), <[board := mkSudokuBoard g' (size b) (row_ids b)]> σ)
  | Raise e => (Raise e, σ)
  end.

(** [for row, col, num in findings: board.grid[row][col] = num] *)
Fixpoint assign_all (board : nat) (findings : list (nat * nat * Z)) : M unit :=
  match findings with
  | [] => mret ()
  | (row, col, num) :: findings' =>
      _ ← set_cell board row col num; assign_all board findings'
  end.

(** ** DifficultyEngine *)

Definition TECHNIQUE_SCORES : gmap string Z :=
  list_to_map
    [ ("naked_single", 15%Z); ("hidden_single", 15%Z); ("naked_pair", 65%Z);
      ("hidden_pair", 70%Z); ("pointing_pair", 80%Z); ("x_wing", 120%Z);
      ("swordfish", 160%Z); ("xy_wing", 180%Z) ].

Definition max_iterations : nat := 1000.

(** [_is_solved]: no row of the grid contains a zero *)
Definition _is_solved (board : nat) : M bool :=
  g ← get_grid board;
  mret (forallb (λ row : list Z, negb (bool_decide (0%Z ∈ row))) g).

(** The local variables of [rate_puzzle] that live across iterations *)
Record locals := mkLocals {
  iteration : nat;
  max_score : Z;
  techniques_used : list string }.

(** [techniques_used.append(tag);
     max_score = max(max_score, self.TECHNIQUE_SCORES[tag])] *)
Definition record_technique (tag : string) (st : locals) : locals :=
  mkLocals (iteration st)
    (Z.max (max_score st) (TECHNIQUE_SCORES !!! tag))
    (techniques_used st ++ [tag]).

(** How an iteration ends: [continue] or [break] *)
Inductive control := Continue | Break.

(** The pattern of steps 3 to 7 of the loop body:
    [if found := tech.find_X(): eliminated = tech.apply_X(found);
     if eliminated > 0: ...]. The applier works on the candidates of
    [tech], which the next detector reads when the step falls through. *)
Definition try_elimination {F : Type}
    (find : candidates_map → list F)
    (apply : candidates_map → list F → candidates_map * nat)
    (candidates : candidates_map) : candidates_map * bool :=
  match find candidates with
  | [] => (candidates, false)
  | found =>
      let '(candidates', eliminated) := apply candidates found in
      (candidates', bool_decide (0 < eliminated))
  end.

(** How the [while] loop was left; [rate_puzzle] does not look at it, it
    names the terminal states of a rating. *)
Inductive exit := Solved | Stuck | IterationCapped.

Section engine.
Variable list_of_set : list (nat * nat * Z) → list (nat * nat * Z).

(** The body of the [while] loop of [rate_puzzle] *)
Definition iteration_body (working_board : nat) (st : locals)
  : M (control * locals) :=
  let st := mkLocals (S (iteration st)) (max_score st) (techniques_used st) in
  (* tech = SudokuTechniques(working_board): tech.grid is the list object
     working_board.grid, which nothing writes to before the detectors
     have run *)
  g ← get_grid working_board;
  candidates ← lift (_init_candidates g);
  match find_naked_singles candidates with
  | (_ :: _) as singles =>
      _ ← assign_all working_board singles;
      mret (Continue, record_technique "naked_single" st)
  | [] =>
  hidden ← lift (find_hidden_singles list_of_set g candidates);
  match hidden with
  | _ :: _ =>
      _ ← assign_all working_board hidden;
      mret (Continue, record_technique "hidden_single" st)
  | [] =>
  let '(candidates, applied) :=
    try_elimination find_naked_pairs apply_naked_pairs candidates in
  if applied then mret (Continue, record_technique "naked_pair" st) else
  let '(candidates, applied) :=
    try_elimination find_pointing_pairs apply_pointing_pairs candidates in
  if applied then mret (Continue, record_technique "pointing_pair" st) else
  let '(candidates, applied) :=
    try_elimination find_x_wing apply_x_wing candidates in
  if applied then mret (Continue, record_technique "x_wing" st) else
  let '(candidates, applied) :=
    try_elimination find_swordfish apply_swordfish candidates in
  if applied then mret (Continue, record_technique "swordfish" st) else
  let '(candidates, applied) :=
    try_elimination find_xy_wing apply_xy_wing candidates in
  if applied then mret (Continue, record_technique "xy_wing" st) else
  mret (Break,
        mkLocals (iteration st) (Z.max (max_score st) 200)
          (techniques_used st ++ ["requires_expert_technique"]))
  end
  end.

(** [while not self._is_solved(working_board) and iteration < max_iterations];
    [remaining] is [max_iterations - iteration], so that the test
    [iteration < max_iterations] is [remaining ≠ 0]. *)
Fixpoint rate_loop (remaining : nat) (working_board : nat) (st : locals)
  : M (exit * locals) :=
  solved ← _is_solved working_board;
  if solved : bool then mret (Solved, st)
  else
    match remaining with
    | 0 => mret (IterationCapped, st)
    | S remaining' =>
        '(c, st') ← iteration_body working_board st;
        match c with
        | Break => mret (Stuck, st')
        | Continue => rate_loop remaining' working_board st'
        end
    end.

(** The classification at the end of [rate_puzzle] *)
Definition difficulty_of (max_score : Z) : string :=
  if decide (max_score ≤ 15)%Z then "Easy"
  else if decide (max_score ≤ 90)%Z then "Medium"
  else "Hard".

(** [rate_puzzle] up to the end of its loop: the working copy is made
    and the loop is run; the result is the terminal state of the loop
    with the final values of the local variables. *)
Definition rate_puzzle_run (board : nat) : M (exit * locals) :=
  working_board ← deepcopy board;
  rate_loop max_iterations working_board (mkLocals 0 0 []).

Definition rate_puzzle (board : nat) : M (string * Z * list string) :=
  '(_, st) ← rate_puzzle_run board;
  mret (difficulty_of (max_score st), max_score st, techniques_used st).
End engine.

(** ** SudokuTechniques.update_candidates *)

(** [if rc in self.candidates: self.candidates[rc].discard(num)] *)
Definition discard_candidate (num : Z) (candidates : candidates_map)
    (rc : cell) : candidates_map :=
  match candidates !! rc with
  | Some s => <[rc := s ∖ {[num]}]> candidates
  | None => candidates
  end.

Definition update_candidates (candidates : candidates_map) (row col : nat)
    (num : Z) : candidates_map :=
  let candidates :=
    match candidates !! (row, col) with
    | Some _ => delete (row, col) candidates
    | None => candidates
    end in
  let candidates :=
    foldl (discard_candidate num) candidates ((λ c, (row, c)) <$> range9) in
  let candidates :=
    foldl (discard_candidate num) candidates ((λ r, (r, col)) <$> range9) in
  foldl (discard_candidate num) candidates
    (box_cells ((row / 3) * 3) ((col / 3) * 3)).

(** ** SudokuBoard: validity test, search for an empty cell, backtracking *)

(** The three loops of [is_valid], each left by [return False] at the first
    cell that holds [num]; [box_has] is that search over a list of cells. *)
Definition is_valid (self : SudokuBoard) (row col : nat) (num : Z)
  : result bool :=
  found ← box_has (grid self) num ((λ i, (row, i)) <$> seq 0 (size self));
  if found : bool then Ok false else
  found ← box_has (grid self) num ((λ i, (i, col)) <$> seq 0 (size self));
  if found : bool then Ok false else
  found ← box_has (grid self) num (box_cells (3 * (row / 3)) (3 * (col / 3)));
  if found : bool then Ok false else Ok true.

(** The loop of [find_empty] over a list of cells: the first cell that
    holds 0, [None] when there is none *)
Fixpoint first_empty (g : Grid) (cells : list cell) : result (option cell) :=
  match cells with
  | [] => Ok None
  | rc :: cells' =>
      v ← grid_at g rc.1 rc.2;
      if decide (v = 0%Z) then Ok (Some rc) else first_empty g cells'
  end.

Definition find_empty (self : SudokuBoard) : result (option cell) :=
  first_empty (grid self) (i ← seq 0 (size self); j ← seq 0 (size self); [(i, j)]).

(** [self.grid[row][col] = num] *)
Definition assign (self : SudokuBoard) (row col : nat) (num : Z)
  : result SudokuBoard :=
  g ← grid_write (row_ids self) (grid self) row col num;
  Ok (mkSudokuBoard g (size self) (row_ids self)).

(** [solve(randomize=False)]. The method mutates the board and recurses on
    it; here a call takes the board and returns it with the result, also
    when it raises. The recursion of the source has no bound written in
    it: [fuel] bounds the depth of the calls, and [None] says that the
    bound was too small. *)
Fixpoint solve (fuel : nat) (self : SudokuBoard)
  : option (result bool * SudokuBoard) :=
  match fuel with
  | 0 => None
  | S fuel' =>
      match find_empty self with
      | Raise e => Some (Raise e, self)
      | Ok None => Some (Ok true, self)
      | Ok (Some (row, col)) =>
          (fix try_numbers (numbers : list Z) (self : SudokuBoard)
             : option (result bool * SudokuBoard) :=
             match numbers with
             | [] => Some (Ok false, self)
             | num :: numbers' =>
                 match is_valid self row col num with
                 | Raise e => Some (Raise e, self)
                 | Ok false => try_numbers numbers' self
                 | Ok true =>
                     match assign self row col num with
                     | Raise e => Some (Raise e, self)
                     | Ok self1 =>
                         match solve fuel' self1 with
                         | None => None
                         | Some (Raise e, self2) => Some (Raise e, self2)
                         | Some (Ok true, self2) => Some (Ok true, self2)
                         | Some (Ok false, self2) =>
                             (* backtrack *)
                             match assign self2 row col 0 with
                             | Raise e => Some (Raise e, self2)
                             | Ok self3 => try_numbers numbers' self3
                             end
                         end
                     end
                 end
             end) (seqZ 1 (Z.of_nat (size self))) self
      end
  end.

(** [solve_with_count] of [count_solve_steps]: [solve] with the counter
    [steps[0]] of its calls *)
Fixpoint solve_with_count (fuel : nat) (self : SudokuBoard) (steps : nat)
  : option (result bool * SudokuBoard * nat) :=
  match fuel with
  | 0 => None
  | S fuel' =>
      let steps := S steps in
      match find_empty self with
      | Raise e => Some (Raise e, self, steps)
      | Ok None => Some (Ok true, self, steps)
      | Ok (Some (row, col)) =>
          (fix try_numbers (numbers : list Z) (self : SudokuBoard) (steps : nat)
             : option (result bool * SudokuBoard * nat) :=
             match numbers with
             | [] => Some (Ok false, self, steps)
             | num :: numbers' =>
                 match is_valid self row col num with
                 | Raise e => Some (Raise e, self, steps)
                 | Ok false => try_numbers numbers' self steps
                 | Ok true =>
                     match assign self row col num with
                     | Raise e => Some (Raise e, self, steps)
                     | Ok self1 =>
                         match solve_with_count fuel' self1 steps with
                         | None => None
                         | Some (Raise e, self2, steps) =>
                             Some (Raise e, self2, steps)
                         | Some (Ok true, self2, steps) =>
                             Some (Ok true, self2, steps)
                         | Some (Ok false, self2, steps) =>
                             match assign self2 row col 0 with
                             | Raise e => Some (Raise e, self2, steps)
                             | Ok self3 => try_numbers numbers' self3 steps
                             end
                         end
                     end
                 end
             end) (seqZ 1 (Z.of_nat (size self))) self steps
      end
  end.

(** [count_solve_steps]: the final value of the counter, with the board as
    the search leaves it *)
Definition count_solve_steps (fuel : nat) (self : SudokuBoard)
  : option (result nat * SudokuBoard) :=
  match solve_with_count fuel self 0 with
  | None => None
  | Some (Raise e, self', _) => Some (Raise e, self')
  | Some (Ok _, self', steps) => Some (Ok steps, self')
  end.

(** [count_solutions] of [has_unique_solution], with the [nonlocal]
    counter [solution_count] passed in and out *)
Fixpoint count_solutions (fuel : nat) (self : SudokuBoard)
    (solution_count : nat) : option (result unit * SudokuBoard * nat) :=
  match fuel with
  | 0 => None
  | S fuel' =>
      match find_empty self with
      | Raise e => Some (Raise e, self, solution_count)
      | Ok None => Some (Ok (), self, S solution_count)
      | Ok (Some (row, col)) =>
          (fix try_numbers (numbers : list Z) (self : SudokuBoard)
               (solution_count : nat)
             : option (result unit * SudokuBoard * nat) :=
             match numbers with
             | [] => Some (Ok (), self, solution_count)
             | num :: numbers' =>
                 match is_valid self row col num with
                 | Raise e => Some (Raise e, self, solution_count)
                 | Ok false => try_numbers numbers' self solution_count
                 | Ok true =>
                     match assign self row col num with
                     | Raise e => Some (Raise e, self, solution_count)
                     | Ok self1 =>
                         match count_solutions fuel' self1 solution_count with
                         | None => None
                         | Some (Raise e, self2, solution_count) =>
                             Some (Raise e, self2, solution_count)
                         | Some (Ok _, self2, solution_count) =>
                             match assign self2 row col 0 with
                             | Raise e => Some (Raise e, self2, solution_count)
                             | Ok self3 =>
                                 (* stop early once a second solution is found *)
                                 if decide (1 < solution_count)
                                 then Some (Ok (), self3, solution_count)
                                 else try_numbers numbers' self3 solution_count
                             end
                         end
                     end
                 end
             end) (seqZ 1 (Z.of_nat (size self))) self solution_count
      end
  end.

Definition has_unique_solution (fuel : nat) (self : SudokuBoard)
  : option (result bool * SudokuBoard) :=
  match count_solutions fuel self 0 with
  | None => None
  | Some (Raise e, self', _) => Some (Raise e, self')
  | Some (Ok _, self', solution_count) =>
      Some (Ok (bool_decide (solution_count = 1)), self')
  end.

(** * Specification-side definitions *)

(** The content of a cell, for cells that exist *)
Definition cell_value (g : Grid) (r c : nat) : Z :=
  default 0%Z (g !! r ≫= (.!! c)).

(** Nine rows of nine integers *)
Definition is_9x9 (g : Grid) : Prop :=
  length g = 9 ∧ Forall (λ row : list Z, length row = 9) g.

(** The change of one cell, and of nothing else: what
    [grid[row][col] = num] does to a grid whose row [row] stands at no
    other position. An index that does not exist raises like a read
    does. *)
Definition grid_set (g : Grid) (row col : nat) (num : Z) : result Grid :=
  match g !! row with
  | None => Raise IndexError
  | Some r => match r !! col with
              | None => Raise IndexError
              | Some _ => Ok (<[row := <[col := num]> r]> g)
              end
  end.

(** The non-zero digits found in the given cells of a grid *)
Definition placed (g : Grid) (cells : list cell) : gset Z :=
  list_to_set (filter (λ v, v ≠ 0%Z) ((λ rc, cell_value g rc.1 rc.2) <$> cells)).

(** A sequence of elimination steps, each removing one digit from the
    candidates of one cell; every applier turns out to run such a
    sequence, fixed by the findings it is given. *)
Definition run_eliminations (steps : list (Z * cell))
    (st : candidates_map * nat) : candidates_map * nat :=
  foldl (λ st step, eliminate step.1 st step.2) st steps.

(** The digits that a sequence of steps removes at a cell *)
Definition eliminated_at (steps : list (Z * cell)) (rc : cell) : gset Z :=
  list_to_set (fst <$> filter (λ step, step.2 = rc) steps).

Definition naked_pair_steps (p : NakedPair) : list (Z * cell) :=
  let unit_idx := np_unit_idx p in
  let unit_cells :=
    if String.eqb (np_unit_type p) "row"
    then (λ col, (unit_idx, col)) <$> range9
    else if String.eqb (np_unit_type p) "col"
    then (λ row, (row, unit_idx)) <$> range9
    else if String.eqb (np_unit_type p) "box"
    then box_cells ((unit_idx / 3) * 3) ((unit_idx mod 3) * 3)
    else [] in
  rc ← unit_cells;
  if decide (rc ∉ np_cells p) then (λ num, (num, rc)) <$> np_nums p else [].

Definition pointing_pair_steps (p : PointingPair) : list (Z * cell) :=
  let box_row := (pp_box_idx p / 3) * 3 in
  let box_col := (pp_box_idx p mod 3) * 3 in
  let line_cells :=
    if String.eqb (pp_line_type p) "row"
    then (λ col, (pp_line_idx p, col)) <$> range9
    else if String.eqb (pp_line_type p) "col"
    then (λ row, (row, pp_line_idx p)) <$> range9
    else [] in
  rc ← line_cells;
  if decide (box_row ≤ rc.1 ∧ rc.1 < box_row + 3
             ∧ box_col ≤ rc.2 ∧ rc.2 < box_col + 3)
  then [] else [(pp_num p, rc)].

Definition x_wing_steps (p : XWing) : list (Z * cell) :=
  if String.eqb (xw_pattern_type p) "rows"
  then
    row ← range9;
    if decide (row ≠ (xw_lines p).1 ∧ row ≠ (xw_lines p).2)
    then [(xw_num p, (row, (xw_cross_lines p).1));
          (xw_num p, (row, (xw_cross_lines p).2))]
    else []
  else if String.eqb (xw_pattern_type p) "cols"
  then
    col ← range9;
    if decide (col ≠ (xw_lines p).1 ∧ col ≠ (xw_lines p).2)
    then [(xw_num p, ((xw_cross_lines p).1, col));
          (xw_num p, ((xw_cross_lines p).2, col))]
    else []
  else [].

Definition swordfish_steps (p : Swordfish) : list (Z * cell) :=
  if String.eqb (sf_pattern_type p) "rows"
  then
    col ← sf_cross_lines p; row ← range9;
    if decide (row ∉ sf_lines p) then [(sf_num p, (row, col))] else []
  else
    row ← sf_cross_lines p; col ← range9;
    if decide (col ∉ sf_lines p) then [(sf_num p, (row, col))] else [].

Definition xy_wing_steps (p : XYWing) : list (Z * cell) :=
  rc ← all_cells;
  if decide (rc ∈ [xy_pivot p; xy_wing1 p; xy_wing2 p]) then []
  else if _can_see rc.1 rc.2 (xy_wing1 p).1 (xy_wing1 p).2
          && _can_see rc.1 rc.2 (xy_wing2 p).1 (xy_wing2 p).2
  then [(xy_Z p, rc)]
  else [].

(** Two cells share a unit: same row, same column or same 3×3 box *)
Definition shares_unit (a b : cell) : Prop :=
  a.1 = b.1 ∨ a.2 = b.2 ∨ (a.1 / 3 = b.1 / 3 ∧ a.2 / 3 = b.2 / 3).

(** A digit is a candidate of a cell *)
Definition candidate_at (candidates : candidates_map) (rc : cell) (d : Z)
  : Prop :=
  ∃ s, candidates !! rc = Some s ∧ d ∈ s.

(** *** The iteration as an ordered table of techniques

    The reading of one iteration that the design describes: the seven
    techniques form an ordered table, each entry is tried on the candidate
    map rebuilt from the current grid, and the first entry with a nonzero
    effect wins. *)

(** What applying a technique does: it assigns cells of the grid, or it
    eliminates a number of candidates. *)
Inductive effect :=
  | Assignments (findings : list (nat * nat * Z))
  | Eliminations (eliminated : nat).

Definition nonzero (e : effect) : bool :=
  match e with
  | Assignments findings => bool_decide (findings ≠ [])
  | Eliminations eliminated => bool_decide (0 < eliminated)
  end.

Section technique_table.
Variable list_of_set : list (nat * nat * Z) → list (nat * nat * Z).

Definition technique_table
  : list (string * (Grid → candidates_map → result effect)) :=
  [ ("naked_single", λ _ cm, Ok (Assignments (find_naked_singles cm)));
    ("hidden_single", λ g cm,
       hidden ← find_hidden_singles list_of_set g cm; Ok (Assignments hidden));
    ("naked_pair", λ _ cm,
       Ok (Eliminations (apply_naked_pairs cm (find_naked_pairs cm)).2));
    ("pointing_pair", λ _ cm,
       Ok (Eliminations (apply_pointing_pairs cm (find_pointing_pairs cm)).2));
    ("x_wing", λ _ cm,
       Ok (Eliminations (apply_x_wing cm (find_x_wing cm)).2));
    ("swordfish", λ _ cm,
       Ok (Eliminations (apply_swordfish cm (find_swordfish cm)).2));
    ("xy_wing", λ _ cm,
       Ok (Eliminations (apply_xy_wing cm (find_xy_wing cm)).2)) ].

(** The first entry of a table whose effect on [(g, cm)] is nonzero *)
Fixpoint first_effective (g : Grid) (cm : candidates_map)
    (table : list (string * (Grid → candidates_map → result effect)))
  : result (option (string * effect)) :=
  match table with
  | [] => Ok None
  | (tag, technique) :: table' =>
      e ← technique g cm;
      if nonzero e then Ok (Some (tag, e)) else first_effective g cm table'
  end.

Definition table_iteration (working_board : nat) (st : locals)
  : M (control * locals) :=
  let st := mkLocals (S (iteration st)) (max_score st) (techniques_used st) in
  g ← get_grid working_board;
  cm ← lift (_init_candidates g);
  winner ← lift (first_effective g cm technique_table);
  match winner with
  | Some (tag, e) =>
      _ ← match e with
          | Assignments findings => assign_all working_board findings
          | Eliminations _ => mret ()
          end;
      mret (Continue,
            mkLocals (iteration st)
              (Z.max (max_score st) (TECHNIQUE_SCORES !!! tag))
              (techniques_used st ++ [tag]))
  | None =>
      mret (Break,
            mkLocals (iteration st) (Z.max (max_score st) 200)
              (techniques_used st ++ ["requires_expert_technique"]))
  end.
End technique_table.

(** *** What a computation does to the store *)

(** A computation writes to no object other than [ref]. *)
Definition writes_only {A : Type} (ref : nat) (m : M A) : Prop :=
  ∀ σ other, other ≠ ref → (m σ).2 !! other = σ !! other.

(** Two boards have the same grid: the same rows, shared in the same
    way. *)
Definition same_grid (b b' : SudokuBoard) : Prop :=
  grid b = grid b' ∧ row_ids b = row_ids b'.

(** Two computations, one on the board [ref] and one on the board [ref'],
    do the same whenever the two boards have the same grid: same result,
    and the same grid in the two boards afterwards. *)
Definition same_on_grid {A : Type} (ref ref' : nat) (m m' : M A) : Prop :=
  ∀ σ σ', same_grid (σ !!! ref) (σ' !!! ref') →
    (m σ).1 = (m' σ').1
    ∧ same_grid ((m σ).2 !!! ref) ((m' σ').2 !!! ref').

(** [try: r = Ok(m()) except e: r = Raise(e)]: the outcome of a call as a
    value, so that the outcomes of two calls can be compared. *)
Definition outcome {A : Type} (m : M A) : M (result A) := λ σ,
  let '(r, σ') := m σ in (Ok r, σ').

Section rate_twice.
Variable list_of_set : list (nat * nat * Z) → list (nat * nat * Z).

(** [result1 = engine.rate_puzzle(copy.deepcopy(board));
     result2 = engine.rate_puzzle(copy.deepcopy(board))] *)
Definition rate_twice (board : nat)
  : M (result (string * Z * list string) * result (string * Z * list string)) :=
  copy1 ← deepcopy board;
  result1 ← outcome (rate_puzzle list_of_set copy1);
  copy2 ← deepcopy board;
  result2 ← outcome (rate_puzzle list_of_set copy2);
  mret (result1, result2).
End rate_twice.

(** *** Valid boards, weights *)

#[global] Instance is_9x9_dec g : Decision (is_9x9 g).
Proof. unfold is_9x9. apply _. Defined.

(** The non-zero cells of a unit hold different digits *)
Definition unit_distinct (g : Grid) (cells : list cell) : bool :=
  bool_decide
    (NoDup (filter (λ v, v ≠ 0%Z) ((λ rc, cell_value g rc.1 rc.2) <$> cells))).

(** The input the design asks for: nine rows of nine digits 0..9, no digit
    repeated among the non-zero cells of a row, a column or a box *)
Definition valid_board (g : Grid) : bool :=
  bool_decide (is_9x9 g)
  && forallb (forallb (λ v, bool_decide (0 ≤ v ≤ 9)%Z)) g
  && forallb (λ i,
       unit_distinct g ((λ c, (i, c)) <$> range9)
       && unit_distinct g ((λ r, (r, i)) <$> range9)
       && unit_distinct g (box_cells ((i / 3) * 3) ((i mod 3) * 3))) range9.

(** The tags of the seven techniques, in the order of the loop body *)
Definition technique_tags : list string :=
  ["naked_single"; "hidden_single"; "naked_pair"; "pointing_pair";
   "x_wing"; "swordfish"; "xy_wing"].

(** [max(TECHNIQUE_SCORES[tag] for tag in tags)], 0 for no tag *)
Definition hardest (tags : list string) : Z :=
  foldr (λ tag, Z.max (TECHNIQUE_SCORES !!! tag)) 0%Z tags.

(** What the loop maintains as long as it has not given up: one tag of
    the seven per iteration, and [max_score] the weight of the hardest of
    them. *)
Definition rated (st : locals) : Prop :=
  length (techniques_used st) = iteration st
  ∧ Forall (λ tag, tag ∈ technique_tags) (techniques_used st)
  ∧ max_score st = hardest (techniques_used st).

(** A valid board on which the loop never ends by itself: box 0 holds
    2..7 in its second and third row, so its first row is the only place
    for 1, 8 and 9 in the box, and the pointing pairs found there are
    found again in every iteration. *)
Definition cycling_grid : Grid :=
  [ [0; 0; 0; 0; 0; 0; 0; 0; 0];
    [2; 3; 4; 0; 0; 0; 0; 0; 0];
    [5; 6; 7; 0; 0; 0; 0; 0; 0];
    [0; 0; 0; 0; 0; 0; 0; 0; 0];
    [0; 0; 0; 0; 0; 0; 0; 0; 0];
    [0; 0; 0; 0; 0; 0; 0; 0; 0];
    [0; 0; 0; 0; 0; 0; 0; 0; 0];
    [0; 0; 0; 0; 0; 0; 0; 0; 0];
    [0; 0; 0; 0; 0; 0; 0; 0; 0] ]%Z.

(** The store after [board = SudokuBoard(g)] in a program that has no
    other object: the board is the object 0. *)
Definition one_board (g : Grid) : store :=
  (new_SudokuBoard g (seq 0 (length g)) ∅).2.

(** *** Ratings that return *)

(** A finding to assign names a cell of the board. *)
Definition in_range (finding : nat * nat * Z) : Prop :=
  finding.1.1 < 9 ∧ finding.1.2 < 9.

(** What [list(set(results))] guarantees whatever the order: the elements
    of [results], each once. *)
Definition set_order (list_of_set : list (nat * nat * Z) → list (nat * nat * Z))
  : Prop :=
  ∀ results,
    NoDup (list_of_set results)
    ∧ ∀ x, x ∈ list_of_set results ↔ x ∈ results.

(** On a board of nine rows of nine integers, the computation returns
    (it does not raise) a value that satisfies [Q], and leaves a board of
    nine rows of nine integers. *)
Definition returns_9x9 {A : Type} (ref : nat) (m : M A) (Q : A → Prop) : Prop :=
  ∀ σ, is_9x9 (grid (σ !!! ref)) →
    ∃ a σ', m σ = (Ok a, σ') ∧ is_9x9 (grid (σ' !!! ref)) ∧ Q a.

(** *** Example boards and candidate maps *)

(** The puzzle of [test_easy_puzzle_rating] and its solution *)
Definition easy_puzzle : Grid :=
  [ [5; 3; 4; 6; 7; 8; 9; 1; 2];
    [6; 7; 2; 1; 9; 5; 3; 4; 8];
    [1; 9; 8; 3; 4; 2; 5; 6; 7];
    [8; 5; 9; 7; 6; 1; 4; 2; 3];
    [4; 2; 6; 8; 5; 3; 7; 9; 1];
    [7; 1; 3; 9; 2; 4; 8; 5; 6];
    [9; 6; 1; 5; 3; 7; 2; 8; 0];
    [2; 8; 7; 4; 1; 9; 6; 0; 5];
    [3; 4; 5; 2; 8; 6; 0; 7; 9] ]%Z.

Definition solved_grid : Grid :=
  [ [5; 3; 4; 6; 7; 8; 9; 1; 2];
    [6; 7; 2; 1; 9; 5; 3; 4; 8];
    [1; 9; 8; 3; 4; 2; 5; 6; 7];
    [8; 5; 9; 7; 6; 1; 4; 2; 3];
    [4; 2; 6; 8; 5; 3; 7; 9; 1];
    [7; 1; 3; 9; 2; 4; 8; 5; 6];
    [9; 6; 1; 5; 3; 7; 2; 8; 4];
    [2; 8; 7; 4; 1; 9; 6; 3; 5];
    [3; 4; 5; 2; 8; 6; 1; 7; 9] ]%Z.

(** A solution of [cycling_grid] *)
Definition cycling_solution : Grid :=
  [ [1; 8; 9; 2; 3; 4; 5; 6; 7];
    [2; 3; 4; 5; 6; 7; 1; 8; 9];
    [5; 6; 7; 1; 8; 9; 2; 3; 4];
    [3; 1; 2; 4; 5; 6; 7; 9; 8];
    [4; 5; 6; 7; 9; 8; 3; 1; 2];
    [7; 9; 8; 3; 1; 2; 4; 5; 6];
    [6; 2; 1; 8; 4; 3; 9; 7; 5];
    [8; 4; 3; 9; 7; 5; 6; 2; 1];
    [9; 7; 5; 6; 2; 1; 8; 4; 3] ]%Z.

(** The board [SudokuBoard([[0] * 9] * 9)]: nine rows, all of them one
    list of nine zeros *)
Definition shared_rows_board : SudokuBoard :=
  mkSudokuBoard (replicate 9 (replicate 9 0%Z)) 9 (replicate 9 0).

#[global] Instance XYWing_eq_dec : EqDecision XYWing.
Proof. solve_decision. Defined.

(** Three bi-value cells in XY-Wing position, and a cell that sees both
    wings *)
Definition xy_wing_layout : candidates_map :=
  list_to_map
    [ ((0, 0), {[1; 2]}%Z); ((0, 4), {[1; 3]}%Z); ((4, 0), {[2; 3]}%Z);
      ((4, 4), {[3; 5; 7]}%Z); ((8, 8), {[3; 4]}%Z) ].

(** Digit 1 confined to columns 2 and 6 in rows 1 and 5, and present in
    these columns in rows 3 and 8 *)
Definition x_wing_rows_layout : candidates_map :=
  list_to_map
    [ ((1, 2), {[1; 4]}%Z); ((1, 6), {[1; 5]}%Z);
      ((5, 2), {[1; 6]}%Z); ((5, 6), {[1; 7]}%Z);
      ((3, 2), {[1; 8; 9]}%Z); ((8, 6), {[1; 2; 3]}%Z);
      ((3, 3), {[1; 4]}%Z) ].

(** The same layout with rows and columns exchanged *)
Definition x_wing_cols_layout : candidates_map :=
  list_to_map
    [ ((2, 1), {[1; 4]}%Z); ((6, 1), {[1; 5]}%Z);
      ((2, 5), {[1; 6]}%Z); ((6, 5), {[1; 7]}%Z);
      ((2, 3), {[1; 8; 9]}%Z); ((6, 8), {[1; 2; 3]}%Z);
      ((3, 3), {[1; 4]}%Z) ].

(** Digit 1 confined, inside the first box, to two cells of the first
    row, and present further along that row *)
Definition pointing_pair_layout : candidates_map :=
  list_to_map
    [ ((0, 0), {[1; 2]}%Z); ((0, 1), {[1; 3]}%Z);
      ((0, 5), {[1; 4; 5]}%Z); ((1, 4), {[1; 6]}%Z) ].

(** Digit 1 confined to columns 0, 3 and 6 in rows 0, 3 and 6, and
    present in column 0 in row 1 *)
Definition swordfish_layout : candidates_map :=
  list_to_map
    [ ((0, 0), {[1; 2]}%Z); ((0, 3), {[1; 3]}%Z);
      ((3, 3), {[1; 4]}%Z); ((3, 6), {[1; 5]}%Z);
      ((6, 0), {[1; 6]}%Z); ((6, 6), {[1; 7]}%Z);
      ((1, 0), {[1; 8; 9]}%Z) ].

(** *** Counting candidates *)

(** All the (cell, digit) pairs of a candidate map *)
Definition candidate_pairs (candidates : candidates_map) : gset (cell * Z) :=
  list_to_set (map_to_list candidates ≫= λ kv, pair kv.1 <$> elements kv.2).

(** The number of candidates of a candidate map, over all cells *)
Definition count_candidates (candidates : candidates_map) : nat :=
  base.size (candidate_pairs candidates).

(** *** Singles, stated on the board *)

(** The digit [d] can go in the cell [(r, c)] of the grid: it is one of
    1..9 and occurs nowhere in the row, the column or the box of the
    cell. *)
Definition consistent (g : Grid) (r c : nat) (d : Z) : Prop :=
  (1 ≤ d ≤ 9)%Z ∧
  ∀ r' c', r' < 9 → c' < 9 →
    r' = r ∨ c' = c ∨ (r' / 3 = r / 3 ∧ c' / 3 = c / 3) →
    cell_value g r' c' ≠ d.

(** In a unit (a list of cells), [rc] is the only cell that has [d] as a
    candidate. *)
Definition only_place (candidates : candidates_map) (unit_cells : list cell)
    (rc : cell) (d : Z) : Prop :=
  rc ∈ unit_cells ∧ candidate_at candidates rc d
  ∧ ∀ rc', rc' ∈ unit_cells → candidate_at candidates rc' d → rc' = rc.

(** The digit [d] is in none of the given cells of the grid. *)
Definition not_placed (g : Grid) (unit_cells : list cell) (d : Z) : Prop :=
  ∀ rc, rc ∈ unit_cells → cell_value g rc.1 rc.2 ≠ d.

(** The cells of the row, the column and the box of index [i] *)
Definition row_cells (i : nat) : list cell := (λ c, (i, c)) <$> range9.
Definition col_cells (i : nat) : list cell := (λ r, (r, i)) <$> range9.
Definition box_cells_of (i : nat) : list cell :=
  box_cells ((i / 3) * 3) ((i mod 3) * 3).

(** The cells of the unit that a finding names by its type and index *)
Definition unit_cells_of (unit_type : string) (i : nat) : list cell :=
  if String.eqb unit_type "row" then row_cells i
  else if String.eqb unit_type "col" then col_cells i
  else if String.eqb unit_type "box" then box_cells_of i
  else [].

(** The cell at position [cross] of the line [line], for an X-Wing or a
    Swordfish pattern of rows (the lines are rows, the positions are
    columns) or of columns; and the other way round, the line and the
    position of a cell. *)
Definition line_cell (pattern_type : string) (line cross : nat) : cell :=
  if String.eqb pattern_type "rows" then (line, cross) else (cross, line).
Definition line_of (pattern_type : string) (rc : cell) : nat :=
  if String.eqb pattern_type "rows" then rc.1 else rc.2.
Definition cross_of (pattern_type : string) (rc : cell) : nat :=
  if String.eqb pattern_type "rows" then rc.2 else rc.1.

(** *** One iteration, stated on the board *)

(** The candidate map of a grid, in the words of the design: the cells
    that have an entry are the empty cells of the board, and the entry of
    a cell holds the digits that can go there, those of 1..9 that occur
    nowhere in the row, the column and the box of the cell. *)
Definition candidates_of_grid (g : Grid) (candidates : candidates_map) : Prop :=
  ∀ r c s,
    candidates !! (r, c) = Some s ↔
      r < 9 ∧ c < 9 ∧ cell_value g r c = 0%Z ∧ ∀ d, d ∈ s ↔ consistent g r c d.

(** The digit that a list of assignments, made one after the other,
    leaves in the cell [(r, c)]: that of the last assignment which writes
    the cell, into its row or into a row that is the same list; [None]
    when no assignment writes the cell. *)
Fixpoint last_write (ids : list nat) (findings : list (nat * nat * Z))
    (r c : nat) : option Z :=
  match findings with
  | [] => None
  | (row, col, num) :: findings' =>
      match last_write ids findings' r c with
      | Some d => Some d
      | None => if decide (same_row ids r row ∧ c = col) then Some num else None
      end
  end.

(** The board [ref] after the assignments [findings], which no other
    object sees: the rows are the lists they were, the cells hold what
    the assignments have left in them. *)
Definition written (ref : nat) (findings : list (nat * nat * Z))
    (σ σ' : store) : Prop :=
  is_9x9 (grid (σ' !!! ref))
  ∧ size (σ' !!! ref) = size (σ !!! ref)
  ∧ row_ids (σ' !!! ref) = row_ids (σ !!! ref)
  ∧ (∀ other, other ≠ ref → σ' !! other = σ !! other)
  ∧ ∀ r c, r < 9 → c < 9 →
      cell_value (grid (σ' !!! ref)) r c =
        default (cell_value (grid (σ !!! ref)) r c)
          (last_write (row_ids (σ !!! ref)) findings r c).

(** The five eliminating techniques: what each does to a candidate map,
    with the number of eliminations it reports *)
Definition elimination_table
  : list (string * (candidates_map → candidates_map * nat)) :=
  [ ("naked_pair", λ cm, apply_naked_pairs cm (find_naked_pairs cm));
    ("pointing_pair", λ cm, apply_pointing_pairs cm (find_pointing_pairs cm));
    ("x_wing", λ cm, apply_x_wing cm (find_x_wing cm));
    ("swordfish", λ cm, apply_swordfish cm (find_swordfish cm));
    ("xy_wing", λ cm, apply_xy_wing cm (find_xy_wing cm)) ].

(** *** The backtracking search *)

(** A board object as the constructor makes it, holding nine rows of nine
    integers *)
Definition board9 (self : SudokuBoard) : Prop :=
  is_9x9 (grid self) ∧ size self = 9.

(** The number of empty cells of a grid *)
(** Rows that are the same list have the same content. *)
Definition rows_agree (self : SudokuBoard) : Prop :=
  ∀ i j, same_row (row_ids self) i j → grid self !! i = grid self !! j.

(** Every row of the grid is a list of its own: no list object stands at
    two positions of the grid. A grid written as nine lists, or read row
    by row, is of this kind; [[[0] * 9] * 9] is not. *)
Definition own_rows (self : SudokuBoard) : Prop := NoDup (row_ids self).

(** The boards the search is specified for *)
Definition plain9 (self : SudokuBoard) : Prop := board9 self ∧ own_rows self.

Definition zeros (g : Grid) : nat :=
  length (filter (λ rc : cell, cell_value g rc.1 rc.2 = 0%Z) all_cells).

(** Row-major order on the cells: the order in which [find_empty] scans *)
Definition scanned_before (rc' rc : cell) : Prop :=
  rc'.1 < rc.1 ∨ (rc'.1 = rc.1 ∧ rc'.2 < rc.2).

#[global] Instance scanned_before_dec : RelDecision scanned_before.
Proof. intros rc' rc. unfold scanned_before. apply _. Defined.

(** The grid [s] completes the grid [g]: the cells that [g] fills are the
    same in [s], and every cell that [g] leaves empty holds in [s] a digit
    of 1..9 that no other cell of its row, column or box holds. *)
Definition completes (g s : Grid) : Prop :=
  is_9x9 s
  ∧ ∀ r c, r < 9 → c < 9 →
      if decide (cell_value g r c = 0%Z)
      then (1 ≤ cell_value s r c ≤ 9)%Z
           ∧ ∀ r' c', r' < 9 → c' < 9 → (r', c') ≠ (r, c) →
               shares_unit (r, c) (r', c') →
               cell_value s r' c' ≠ cell_value s r c
      else cell_value s r c = cell_value g r c.

#[global] Instance shares_unit_dec a b : Decision (shares_unit a b).
Proof. unfold shares_unit. apply _. Defined.

(** The givens of a puzzle are digits of 1..9, and no given occurs twice
    in a row, a column or a box. *)
Definition valid_givens (g : Grid) : Prop :=
  Forall (λ rc : cell,
      cell_value g rc.1 rc.2 ≠ 0%Z →
      (1 ≤ cell_value g rc.1 rc.2 ≤ 9)%Z
      ∧ Forall (λ rc' : cell,
            rc' ≠ rc → shares_unit rc rc' →
            cell_value g rc'.1 rc'.2 ≠ 0%Z →
            cell_value g rc'.1 rc'.2 ≠ cell_value g rc.1 rc.2) all_cells)
    all_cells.

(** Every cell of the board holds a digit of 1..9 that no other cell of its
    row, column or box holds. *)
Definition proper (s : Grid) : Prop :=
  ∀ r c, r < 9 → c < 9 →
    (1 ≤ cell_value s r c ≤ 9)%Z
    ∧ ∀ r' c', r' < 9 → c' < 9 → (r', c') ≠ (r, c) →
        shares_unit (r, c) (r', c') →
        cell_value s r' c' ≠ cell_value s r c.

(** What the counter of [count_solutions] says about a set of grids when
    it goes from [n] to [n'], the search being cut at the second grid
    found: nothing was found, or the only grid, or two different grids. *)
Definition counted (Sols : Grid → Prop) (n n' : nat) : Prop :=
  n ≤ n' ∧ n' ≤ 2
  ∧ (n' = n → ∀ s, ¬ Sols s)
  ∧ (n = 0 → n' = 1 → ∃ s, Sols s ∧ ∀ s', Sols s' → s' = s)
  ∧ (n' = S n → ∃ s, Sols s)
  ∧ (n = 0 → n' = 2 → ∃ s s', Sols s ∧ Sols s' ∧ s ≠ s').

(** The values of a grid along a list of cells *)
Definition values (g : Grid) (cells : list cell) : list Z :=
  (λ rc, cell_value g rc.1 rc.2) <$> cells.

(** A solved Sudoku: nine rows of nine integers in which every row, every
    column and every box holds each of 1..9 once *)
Definition sudoku_solution (s : Grid) : Prop :=
  is_9x9 s
  ∧ ∀ i unit_cells, i < 9 →
      unit_cells ∈ [row_cells i; col_cells i; box_cells_of i] →
      values s unit_cells ≡ₚ digits.

(** The grid [s] keeps the digits that [g] has. *)
Definition extends (g s : Grid) : Prop :=
  ∀ r c, r < 9 → c < 9 → cell_value g r c ≠ 0%Z →
    cell_value s r c = cell_value g r c.

(** The grid [w] lies between the puzzle [g] and its solution [s]: it keeps
    the digits of [g], and [s] keeps the digits of [w]. *)
Definition on_the_way (g s w : Grid) : Prop :=
  is_9x9 w ∧ extends g w ∧ extends w s.

(** A candidate map that is right for the puzzle [g] and its solution [s]:
    its keys are the empty cells of the board, and the candidates of a cell
    contain the digit of the solution and only digits that occur nowhere in
    the row, the column and the box of the cell. *)
Definition sound_candidates (g s : Grid) (candidates : candidates_map)
  : Prop :=
  ∀ r c,
    (is_Some (candidates !! (r, c)) ↔ r < 9 ∧ c < 9 ∧ cell_value g r c = 0%Z)
    ∧ ∀ cands, candidates !! (r, c) = Some cands →
        cell_value s r c ∈ cands ∧ ∀ d, d ∈ cands → consistent g r c d.

(** The loop [for num in numbers] of [solve], of [solve_with_count] and of
    [count_solutions], with the recursive call as a parameter *)
Definition solve_numbers
    (rec : SudokuBoard → option (result bool * SudokuBoard)) (row col : nat)
  : list Z → SudokuBoard → option (result bool * SudokuBoard) :=
  fix try_numbers (numbers : list Z) (self : SudokuBoard) :=
    match numbers with
    | [] => Some (Ok false, self)
    | num :: numbers' =>
        match is_valid self row col num with
        | Raise e => Some (Raise e, self)
        | Ok false => try_numbers numbers' self
        | Ok true =>
            match assign self row col num with
            | Raise e => Some (Raise e, self)
            | Ok self1 =>
                match rec self1 with
                | None => None
                | Some (Raise e, self2) => Some (Raise e, self2)
                | Some (Ok true, self2) => Some (Ok true, self2)
                | Some (Ok false, self2) =>
                    match assign self2 row col 0 with
                    | Raise e => Some (Raise e, self2)
                    | Ok self3 => try_numbers numbers' self3
                    end
                end
            end
        end
    end.

Definition solve_with_count_numbers
    (rec : SudokuBoard → nat → option (result bool * SudokuBoard * nat))
    (row col : nat)
  : list Z → SudokuBoard → nat → option (result bool * SudokuBoard * nat) :=
  fix try_numbers (numbers : list Z) (self : SudokuBoard) (steps : nat) :=
    match numbers with
    | [] => Some (Ok false, self, steps)
    | num :: numbers' =>
        match is_valid self row col num with
        | Raise e => Some (Raise e, self, steps)
        | Ok false => try_numbers numbers' self steps
        | Ok true =>
            match assign self row col num with
            | Raise e => Some (Raise e, self, steps)
            | Ok self1 =>
                match rec self1 steps with
                | None => None
                | Some (Raise e, self2, steps) => Some (Raise e, self2, steps)
                | Some (Ok true, self2, steps) => Some (Ok true, self2, steps)
                | Some (Ok false, self2, steps) =>
                    match assign self2 row col 0 with
                    | Raise e => Some (Raise e, self2, steps)
                    | Ok self3 => try_numbers numbers' self3 steps
                    end
                end
            end
        end
    end.

Definition count_solutions_numbers
    (rec : SudokuBoard → nat → option (result unit * SudokuBoard * nat))
    (row col : nat)
  : list Z → SudokuBoard → nat → option (result unit * SudokuBoard * nat) :=
  fix try_numbers (numbers : list Z) (self : SudokuBoard)
      (solution_count : nat) :=
    match numbers with
    | [] => Some (Ok (), self, solution_count)
    | num :: numbers' =>
        match is_valid self row col num with
        | Raise e => Some (Raise e, self, solution_count)
        | Ok false => try_numbers numbers' self solution_count
        | Ok true =>
            match assign self row col num with
            | Raise e => Some (Raise e, self, solution_count)
            | Ok self1 =>
                match rec self1 solution_count with
                | None => None
                | Some (Raise e, self2, solution_count) =>
                    Some (Raise e, self2, solution_count)
                | Some (Ok _, self2, solution_count) =>
                    match assign self2 row col 0 with
                    | Raise e => Some (Raise e, self2, solution_count)
                    | Ok self3 =>
                        if decide (1 < solution_count)
                        then Some (Ok (), self3, solution_count)
                        else try_numbers numbers' self3 solution_count
                    end
                end
            end
        end
    end.

(** * Basic facts *)

Lemma result_bind_Ok {A B} (a : A) (f : A → result B) : Ok a ≫= f = f a.
Proof. reflexivity. Qed.

Lemma for_each_cons {A S} (body : S → A → result S) s x l :
  for_each body s (x :: l) = body s x ≫= λ s', for_each body s' l.
Proof. reflexivity. Qed.

Lemma Ok_inj {A} (x y : A) : Ok x = Ok y → x = y.
Proof. by intros [=]. Qed.

Lemma bind_Ok_inv {A B} (m : result A) (f : A → result B) b :
  m ≫= f = Ok b → ∃ a, m = Ok a ∧ f a = Ok b.
Proof. destruct m; simpl; [eauto | discriminate]. Qed.

Lemma elem_of_range9 i : i ∈ range9 ↔ i < 9.
Proof. unfold range9. rewrite elem_of_seq. lia. Qed.

Lemma elem_of_digits d : d ∈ digits ↔ (1 ≤ d ≤ 9)%Z.
Proof. unfold digits. rewrite elem_of_seqZ. lia. Qed.

Lemma elem_of_all_cells rc : rc ∈ all_cells ↔ rc.1 < 9 ∧ rc.2 < 9.
Proof.
  unfold all_cells. rewrite list_elem_of_bind. split.
  - intros (r & Hc & Hr). apply list_elem_of_bind in Hc as (c & Hrc & Hc).
    apply list_elem_of_singleton in Hrc as ->.
    apply elem_of_range9 in Hr, Hc. done.
  - destruct rc as [r c]. intros [Hr Hc]. exists r. split; [|by apply elem_of_range9].
    apply list_elem_of_bind. exists c. split; [by apply list_elem_of_singleton|].
    by apply elem_of_range9.
Qed.

Lemma elem_of_box_cells br bc rc :
  rc ∈ box_cells br bc ↔ (br ≤ rc.1 < br + 3) ∧ (bc ≤ rc.2 < bc + 3).
Proof.
  unfold box_cells. rewrite list_elem_of_bind. split.
  - intros (r & Hc & Hr). apply list_elem_of_bind in Hc as (c & Hrc & Hc).
    apply list_elem_of_singleton in Hrc as ->.
    apply elem_of_seq in Hr, Hc. simpl. lia.
  - destruct rc as [r c]. cbn [fst snd]. intros [Hr Hc]. exists r.
    split; [|apply elem_of_seq; lia].
    apply list_elem_of_bind. exists c. split; [by apply list_elem_of_singleton|].
    apply elem_of_seq; lia.
Qed.

Lemma same_box_iff r r' : r' / 3 = r / 3 ↔ (r / 3) * 3 ≤ r' < (r / 3) * 3 + 3.
Proof.
  pose proof (Nat.div_mod_eq r 3). pose proof (Nat.div_mod_eq r' 3).
  pose proof (Nat.mod_upper_bound r 3). pose proof (Nat.mod_upper_bound r' 3).
  lia.
Qed.

Lemma grid_at_9x9 g r c :
  is_9x9 g → r < 9 → c < 9 → grid_at g r c = Ok (cell_value g r c).
Proof.
  intros [Hl Hrows] Hr Hc. unfold grid_at, cell_value.
  destruct (g !! r) as [row|] eqn:Hrow.
  - assert (length row = 9) as Hlen.
    { eapply (proj1 (Forall_forall _ _) Hrows), list_elem_of_lookup_2, Hrow. }
    simpl. destruct (row !! c) as [v|] eqn:Hv; [done|].
    apply lookup_ge_None in Hv. lia.
  - apply lookup_ge_None in Hrow. lia.
Qed.

(** ** Writing a cell of a grid with shared rows *)

Lemma same_row_distinct ids i j : NoDup ids → same_row ids i j ↔ i = j.
Proof.
  intros Hids. split; [|by left]. intros [->|(k & Hi & Hj)]; [done|].
  by eapply NoDup_lookup.
Qed.

Lemma grid_write_lookup ids g row col num g' i :
  grid_write ids g row col num = Ok g' →
  g' !! i =
    (λ r', if decide (same_row ids i row) then <[col := num]> r' else r')
      <$> g !! i.
Proof.
  unfold grid_write. destruct (g !! row) as [line|]; [|done].
  destruct (line !! col); [|done]. intros [= <-]. apply list_lookup_imap.
Qed.

Lemma grid_write_length ids g row col num g' :
  grid_write ids g row col num = Ok g' → length g' = length g.
Proof.
  unfold grid_write. destruct (g !! row) as [line|]; [|done].
  destruct (line !! col); [|done]. intros [= <-]. apply length_imap.
Qed.

Lemma grid_write_keeps_9x9 ids g row col num g' :
  is_9x9 g → grid_write ids g row col num = Ok g' → is_9x9 g'.
Proof.
  intros [Hlen Hrows] Hwrite. split.
  - by rewrite (grid_write_length _ _ _ _ _ _ Hwrite).
  - apply Forall_lookup. intros i line Hi.
    rewrite (grid_write_lookup _ _ _ _ _ _ i Hwrite) in Hi.
    destruct (g !! i) as [line0|] eqn:Hline0; [|done]. injection Hi as <-.
    assert (length line0 = 9) as Hlen0
      by (eapply (proj1 (Forall_forall _ _) Hrows), list_elem_of_lookup_2, Hline0).
    case_decide; [by rewrite length_insert|done].
Qed.

Lemma grid_write_9x9 ids g row col num :
  is_9x9 g → row < 9 → col < 9 →
  ∃ g', grid_write ids g row col num = Ok g' ∧ is_9x9 g'.
Proof.
  intros Hg Hrow Hcol.
  assert (∃ g', grid_write ids g row col num = Ok g') as [g' Hwrite].
  { destruct Hg as [Hlen Hrows]. unfold grid_write.
    destruct (g !! row) as [r|] eqn:Hr.
    2: { apply lookup_ge_None in Hr. lia. }
    assert (length r = 9) as Hlenr
      by (eapply (proj1 (Forall_forall _ _) Hrows), list_elem_of_lookup_2, Hr).
    destruct (r !! col) as [v|] eqn:Hv; [by eexists|].
    apply lookup_ge_None in Hv. lia. }
  exists g'. split; [done|]. by eapply grid_write_keeps_9x9.
Qed.

(** After the write, the cells of column [col] in the rows that are the
    list written to hold [num]; every other cell is as before. *)
Lemma grid_write_cell_value ids g row col num g' :
  is_9x9 g → grid_write ids g row col num = Ok g' →
  ∀ r c, r < 9 →
    cell_value g' r c =
      if decide (same_row ids r row ∧ c = col) then num else cell_value g r c.
Proof.
  intros [Hlen Hrows] Hwrite r c Hr. unfold cell_value.
  rewrite (grid_write_lookup _ _ _ _ _ _ r Hwrite).
  assert (col < 9) as Hcol.
  { unfold grid_write in Hwrite. destruct (g !! row) as [line|] eqn:Hline; [|done].
    destruct (line !! col) eqn:Hv; [|done]. apply lookup_lt_Some in Hv.
    assert (length line = 9) as <-; [|done].
    eapply (proj1 (Forall_forall _ _) Hrows), list_elem_of_lookup_2, Hline. }
  destruct (g !! r) as [line|] eqn:Hline.
  2: { apply lookup_ge_None in Hline. lia. }
  assert (length line = 9) as Hlenr
    by (eapply (proj1 (Forall_forall _ _) Hrows), list_elem_of_lookup_2, Hline).
  cbn [fmap option_fmap option_map mbind option_bind].
  destruct (decide (same_row ids r row)) as [Hsame|Hsame].
  - destruct (decide (c = col)) as [->|Hc].
    + rewrite decide_True by done.
      by rewrite list_lookup_insert_eq by lia.
    + rewrite decide_False by (by intros [_ ?]).
      by rewrite list_lookup_insert_ne.
  - by rewrite decide_False by (by intros [? _]).
Qed.

Lemma same_row_trans ids i j k :
  same_row ids i j → same_row ids j k → same_row ids i k.
Proof.
  intros [->|(a & Hi & Hj)] [->|(b & Hj' & Hk)].
  - by left.
  - right. by exists b.
  - right. by exists a.
  - right. exists a. split; [done|]. congruence.
Qed.

Lemma same_row_sym ids i j : same_row ids i j → same_row ids j i.
Proof. intros [->|(a & Hi & Hj)]; [by left|]. right. by exists a. Qed.

(** Rows that are one list still have one content after a write. *)
Lemma assign_rows_agree self row col num self1 :
  rows_agree self → assign self row col num = Ok self1 → rows_agree self1.
Proof.
  unfold assign. intros Hagree (g' & Hwrite & [= <-])%bind_Ok_inv i j Hij.
  cbn [grid row_ids] in *.
  rewrite !(grid_write_lookup _ _ _ _ _ _ _ Hwrite), (Hagree i j Hij).
  destruct (grid self !! j) as [line|]; [|done]. cbn. f_equal.
  destruct (decide (same_row (row_ids self) i row)) as [Hi|Hi],
    (decide (same_row (row_ids self) j row)) as [Hj|Hj]; try done.
  - destruct Hj. eapply same_row_trans; [by apply same_row_sym|done].
  - destruct Hi. by eapply same_row_trans.
Qed.

(** On a grid whose rows are lists of their own, one cell changes. *)
Lemma grid_write_distinct ids g row col num :
  NoDup ids → grid_write ids g row col num = grid_set g row col num.
Proof.
  intros Hids. unfold grid_write, grid_set.
  destruct (g !! row) as [line|] eqn:Hline; [|done].
  destruct (line !! col); [|done]. f_equal.
  apply list_eq. intros i. rewrite list_lookup_imap.
  destruct (decide (i = row)) as [->|Hne].
  - rewrite list_lookup_insert_eq by (by eapply lookup_lt_Some).
    rewrite Hline. cbn. by rewrite decide_True by (by left).
  - rewrite list_lookup_insert_ne by done.
    destruct (g !! i); [|done]. cbn.
    by rewrite decide_False by (by rewrite same_row_distinct).
Qed.

(** ** Loops that can raise *)

Lemma for_each_inv_gen {A S} (body : S → A → result S)
    (I : list A → S → Prop) (l : list A) :
  ∀ done s,
    I done s →
    (∀ done' x s, I done' s → x ∈ l →
       ∃ s', body s x = Ok s' ∧ I (done' ++ [x]) s') →
    ∃ s', for_each body s l = Ok s' ∧ I (done ++ l) s'.
Proof.
  induction l as [|x l IH]; intros done s HI Hstep.
  - exists s. by rewrite app_nil_r.
  - destruct (Hstep done x s HI) as (s1 & Hb & HI1); [left|].
    destruct (IH (done ++ [x]) s1 HI1) as (s' & Hrun & HI').
    { intros d y t Ht Hy. apply Hstep; [done | by right]. }
    exists s'. simpl. rewrite Hb. simpl. rewrite Hrun.
    by rewrite <- app_assoc in HI'.
Qed.

Lemma for_each_inv {A S} (body : S → A → result S)
    (I : list A → S → Prop) (l : list A) (s : S) :
  I [] s →
  (∀ done x s, I done s → x ∈ l → ∃ s', body s x = Ok s' ∧ I (done ++ [x]) s') →
  ∃ s', for_each body s l = Ok s' ∧ I l s'.
Proof. intros. by apply (for_each_inv_gen body I l []). Qed.

(** ** The candidate map *)

Lemma placed_cons g rc cells :
  placed g (rc :: cells) =
    (if decide (cell_value g rc.1 rc.2 ≠ 0%Z)
     then {[cell_value g rc.1 rc.2]} else ∅) ∪ placed g cells.
Proof.
  unfold placed. rewrite fmap_cons, filter_cons.
  destruct (decide (cell_value g rc.1 rc.2 ≠ 0%Z)); set_solver.
Qed.

Lemma elem_of_placed g cells d :
  d ∈ placed g cells ↔ d ≠ 0%Z ∧ ∃ rc, rc ∈ cells ∧ cell_value g rc.1 rc.2 = d.
Proof.
  unfold placed. rewrite elem_of_list_to_set, list_elem_of_filter, list_elem_of_fmap.
  naive_solver.
Qed.

Lemma for_each_discard_placed g cells possible :
  Forall (λ rc, grid_at g rc.1 rc.2 = Ok (cell_value g rc.1 rc.2)) cells →
  for_each (discard_placed g) possible cells = Ok (possible ∖ placed g cells).
Proof.
  intros Hread. revert possible.
  induction Hread as [|rc cells Hrc _ IH]; intros possible.
  - simpl. f_equal. unfold placed. set_solver.
  - assert (discard_placed g possible rc =
            Ok (if decide (cell_value g rc.1 rc.2 ≠ 0%Z)
                then possible ∖ {[cell_value g rc.1 rc.2]} else possible)) as Hstep.
    { unfold discard_placed. by rewrite Hrc. }
    rewrite for_each_cons, Hstep, result_bind_Ok, IH, placed_cons. f_equal.
    destruct (decide (cell_value g rc.1 rc.2 ≠ 0%Z)); set_solver.
Qed.

Lemma readable_cells g cells :
  is_9x9 g → Forall (λ rc : cell, rc.1 < 9 ∧ rc.2 < 9) cells →
  Forall (λ rc, grid_at g rc.1 rc.2 = Ok (cell_value g rc.1 rc.2)) cells.
Proof.
  intros Hg Hcells. eapply Forall_impl; [exact Hcells|].
  intros rc [??]. by apply grid_at_9x9.
Qed.

Lemma box_cells_in_range r c :
  r < 9 → c < 9 →
  Forall (λ rc : cell, rc.1 < 9 ∧ rc.2 < 9) (box_cells (r / 3 * 3) (c / 3 * 3)).
Proof.
  intros Hr Hc. apply Forall_forall. intros rc [H1 H2]%elem_of_box_cells.
  apply same_box_iff in H1, H2.
  pose proof (Nat.div_mod_eq r 3). pose proof (Nat.div_mod_eq rc.1 3).
  pose proof (Nat.mod_upper_bound rc.1 3).
  pose proof (Nat.div_mod_eq c 3). pose proof (Nat.div_mod_eq rc.2 3).
  pose proof (Nat.mod_upper_bound rc.2 3). lia.
Qed.

Lemma row_cells_in_range r :
  r < 9 → Forall (λ rc : cell, rc.1 < 9 ∧ rc.2 < 9) ((λ c, (r, c)) <$> range9).
Proof.
  intros Hr. apply Forall_forall. intros rc (c & -> & Hc%elem_of_range9)%list_elem_of_fmap.
  done.
Qed.

Lemma col_cells_in_range c :
  c < 9 → Forall (λ rc : cell, rc.1 < 9 ∧ rc.2 < 9) ((λ r, (r, c)) <$> range9).
Proof.
  intros Hr. apply Forall_forall. intros rc (r & -> & Hc%elem_of_range9)%list_elem_of_fmap.
  done.
Qed.

(** What [_get_candidates] returns on a well-shaped grid *)
Lemma get_candidates_9x9 g r c :
  is_9x9 g → r < 9 → c < 9 →
  _get_candidates g r c =
    Ok (if decide (cell_value g r c ≠ 0%Z) then ∅
        else list_to_set digits
               ∖ placed g ((λ c', (r, c')) <$> range9)
               ∖ placed g ((λ r', (r', c)) <$> range9)
               ∖ placed g (box_cells (r / 3 * 3) (c / 3 * 3))).
Proof.
  intros Hg Hr Hc. unfold _get_candidates.
  rewrite grid_at_9x9, result_bind_Ok by done.
  destruct (decide (cell_value g r c ≠ 0%Z)); [done|]. cbv zeta.
  rewrite for_each_discard_placed, result_bind_Ok
    by (by apply readable_cells, row_cells_in_range).
  rewrite for_each_discard_placed, result_bind_Ok
    by (by apply readable_cells, col_cells_in_range).
  by rewrite for_each_discard_placed
    by (by apply readable_cells, box_cells_in_range).
Qed.

(** The digits consistent with the grid at an empty cell *)
Lemma elem_of_get_candidates g r c s d :
  is_9x9 g → r < 9 → c < 9 → cell_value g r c = 0%Z →
  _get_candidates g r c = Ok s →
  d ∈ s ↔
    (1 ≤ d ≤ 9)%Z ∧
    ∀ r' c', r' < 9 → c' < 9 →
      r' = r ∨ c' = c ∨ (r' / 3 = r / 3 ∧ c' / 3 = c / 3) →
      cell_value g r' c' ≠ d.
Proof.
  intros Hg Hr Hc Hv. rewrite get_candidates_9x9 by done.
  destruct (decide _) as [|_]; [done|]. intros <-%Ok_inj.
  rewrite !elem_of_difference, elem_of_list_to_set, elem_of_digits, !elem_of_placed.
  split.
  - intros [[[Hd Hrow] Hcol] Hbox]. split; [done|].
    intros r' c' Hr' Hc' [-> | [-> | [Hbr Hbc]]] Heq.
    + apply Hrow. split; [lia|]. exists (r, c'). split; [|done].
      apply list_elem_of_fmap. exists c'. by rewrite elem_of_range9.
    + apply Hcol. split; [lia|]. exists (r', c). split; [|done].
      apply list_elem_of_fmap. exists r'. by rewrite elem_of_range9.
    + apply Hbox. split; [lia|]. exists (r', c'). split; [|done].
      apply elem_of_box_cells. by rewrite <- !same_box_iff.
  - intros [Hd Hno]. split; [split; [split; [done|]|]|].
    + intros [_ (rc & (c' & -> & Hc'%elem_of_range9)%list_elem_of_fmap & Heq)].
      by eapply (Hno r c'); [..|exact Heq]; auto.
    + intros [_ (rc & (r' & -> & Hr'%elem_of_range9)%list_elem_of_fmap & Heq)].
      by eapply (Hno r' c); [..|exact Heq]; auto.
    + intros [_ (rc & Hin & Heq)].
      pose proof (box_cells_in_range r c Hr Hc) as Hrange.
      rewrite Forall_forall in Hrange. destruct (Hrange _ Hin).
      apply elem_of_box_cells in Hin as [H1 H2].
      rewrite <- !same_box_iff in H1, H2.
      by eapply (Hno rc.1 rc.2); [..|exact Heq]; auto.
Qed.

(** The loop of [_init_candidates], cell by cell *)
Lemma init_candidates_9x9 g :
  is_9x9 g →
  ∃ candidates,
    _init_candidates g = Ok candidates ∧
    ∀ rc, candidates !! rc =
            if decide (rc.1 < 9 ∧ rc.2 < 9 ∧ cell_value g rc.1 rc.2 = 0%Z)
            then match _get_candidates g rc.1 rc.2 with
                 | Ok s => Some s
                 | Raise _ => None
                 end
            else None.
Proof.
  intros Hg. unfold _init_candidates.
  set (I := λ (done : list cell) (cm : candidates_map),
    ∀ rc, cm !! rc =
            if decide (rc ∈ done ∧ cell_value g rc.1 rc.2 = 0%Z)
            then match _get_candidates g rc.1 rc.2 with
                 | Ok s => Some s
                 | Raise _ => None
                 end
            else None).
  match goal with
  | |- context [for_each ?body _ _] =>
      destruct (for_each_inv body I all_cells ∅) as (cm & Hrun & HI)
  end.
  - intros rc. rewrite lookup_empty. case_decide as H; [|done].
    destruct H as [H _]. by apply elem_of_nil in H.
  - intros done [r c] cm Hcm [Hr Hc]%elem_of_all_cells. cbn [fst snd] in *.
    rewrite grid_at_9x9, result_bind_Ok by done.
    destruct (decide (cell_value g r c = 0%Z)) as [Hz|Hnz].
    + rewrite get_candidates_9x9, result_bind_Ok by done. eexists. split; [done|].
      intros rc. destruct (decide (rc = (r, c))) as [->|Hne].
      * rewrite lookup_insert_eq, get_candidates_9x9 by done. cbn [fst snd].
        rewrite (decide_True (P := (r, c) ∈ done ++ [(r, c)] ∧ _)); [done|].
        split; [|done]. apply elem_of_app. right. by left.
      * rewrite lookup_insert_ne, Hcm by done.
        apply decide_ext. rewrite elem_of_app, list_elem_of_singleton. naive_solver.
    + eexists. split; [done|]. intros rc. rewrite Hcm.
      apply decide_ext. rewrite elem_of_app, list_elem_of_singleton.
      split; [naive_solver|]. intros [[?| ->] ?]; [done|]. done.
  - exists cm. split; [done|]. intros rc. rewrite HI.
    apply decide_ext. rewrite elem_of_all_cells. clear. tauto.
Qed.

(** C6. Immediately after the candidate map is built from a grid (of nine
    rows of nine integers, on which the construction does return a map),
    [candidates[(r, c)]] is defined if and only if [(r, c)] is a cell of
    the board with [grid[r][c] == 0], and for such a cell it is the set of
    the digits 1..9 that occur nowhere in the row, the column or the 3×3
    box of the cell. *)
Theorem init_candidates_invariant (g : Grid) :
  is_9x9 g →
  ∃ candidates,
    _init_candidates g = Ok candidates ∧
    ∀ r c,
      (is_Some (candidates !! (r, c)) ↔ r < 9 ∧ c < 9 ∧ cell_value g r c = 0%Z) ∧
      (∀ s, candidates !! (r, c) = Some s →
         ∀ d, d ∈ s ↔
           (1 ≤ d ≤ 9)%Z ∧
           ∀ r' c', r' < 9 → c' < 9 →
             r' = r ∨ c' = c ∨ (r' / 3 = r / 3 ∧ c' / 3 = c / 3) →
             cell_value g r' c' ≠ d).
Proof.
  intros Hg. destruct (init_candidates_9x9 g Hg) as (cm & Hrun & Hcm).
  exists cm. split; [done|]. intros r c. specialize (Hcm (r, c)).
  cbn [fst snd] in Hcm. split.
  - rewrite Hcm. case_decide as H.
    + destruct H as (Hr & Hc & Hv). rewrite get_candidates_9x9 by done.
      split; [done | by eexists].
    + split; [by intros [? ?] | done].
  - intros s Hs d. rewrite Hcm in Hs. case_decide as H; [|done].
    destruct H as (Hr & Hc & Hv).
    destruct (_get_candidates g r c) as [s'|] eqn:Hget; [|done].
    injection Hs as ->. by eapply elem_of_get_candidates.
Qed.

(** ** Elimination steps *)

Lemma eliminate_candidates num st rc :
  (eliminate num st rc).1 = alter (λ s, s ∖ {[num]}) rc st.1.
Proof.
  unfold eliminate. apply map_eq. intros k. rewrite lookup_alter.
  destruct (st.1 !! rc) as [s|] eqn:Hs.
  - destruct (decide (num ∈ s)) as [Hin|Hnin]; cbn [fst].
    + rewrite lookup_insert. by case_decide; subst; rewrite ?Hs.
    + case_decide; [|done]. subst. rewrite Hs. simpl. f_equal. set_solver.
  - cbn [fst]. case_decide; [|done]. subst. by rewrite Hs.
Qed.

Lemma eliminate_count num st rc :
  (eliminate num st rc).2 = st.2 + (if has_candidate st.1 num rc then 1 else 0).
Proof.
  unfold eliminate, has_candidate. destruct (st.1 !! rc) as [s|]; [|simpl; lia].
  destruct (decide (num ∈ s)).
  - rewrite bool_decide_eq_true_2 by done. simpl. lia.
  - rewrite bool_decide_eq_false_2 by done. simpl. lia.
Qed.

Lemma eliminate_same_count num st rc :
  (eliminate num st rc).2 = st.2 → eliminate num st rc = st.
Proof.
  unfold eliminate. destruct (st.1 !! rc) as [s|]; [|done].
  destruct (decide (num ∈ s)); [|done]. simpl. lia.
Qed.

Lemma run_eliminations_app steps1 steps2 st :
  run_eliminations (steps1 ++ steps2) st =
    run_eliminations steps2 (run_eliminations steps1 st).
Proof. apply foldl_app. Qed.

Lemma run_eliminations_count_le steps st :
  st.2 ≤ (run_eliminations steps st).2.
Proof.
  revert st. induction steps as [|step steps IH]; intros st; [done|].
  cbn [run_eliminations foldl]. etrans; [|apply IH].
  rewrite eliminate_count. lia.
Qed.

(** An applier that reports no elimination has left the candidates as
    they were. *)
Lemma run_eliminations_same_count steps st :
  (run_eliminations steps st).2 = st.2 → run_eliminations steps st = st.
Proof.
  revert st. induction steps as [|step steps IH]; intros st Hcount; [done|].
  cbn [run_eliminations foldl] in *.
  pose proof (run_eliminations_count_le steps (eliminate step.1 st step.2)) as Hle.
  unfold run_eliminations in Hle.
  assert ((eliminate step.1 st step.2).2 = st.2) as Hsame.
  { rewrite eliminate_count in *. lia. }
  apply eliminate_same_count in Hsame. rewrite Hsame in *. by apply IH.
Qed.

Lemma elem_of_eliminated_at steps rc num :
  num ∈ eliminated_at steps rc ↔ (num, rc) ∈ steps.
Proof.
  unfold eliminated_at.
  rewrite elem_of_list_to_set, list_elem_of_fmap. split.
  - intros ([n k] & -> & [Hk Hin]%list_elem_of_filter). simpl in *. by subst.
  - intros Hin. exists (num, rc). split; [done|].
    by apply list_elem_of_filter.
Qed.

(** What a sequence of steps leaves at each cell *)
Lemma run_eliminations_lookup steps st rc :
  (run_eliminations steps st).1 !! rc =
    (λ s, s ∖ eliminated_at steps rc) <$> st.1 !! rc.
Proof.
  revert st. induction steps as [|[num k] steps IH]; intros st.
  - cbn [run_eliminations foldl]. destruct (st.1 !! rc); [|done].
    simpl. f_equal. unfold eliminated_at. set_solver.
  - cbn [run_eliminations foldl fst snd].
    fold (run_eliminations steps (eliminate num st k)).
    rewrite IH, eliminate_candidates, lookup_alter.
    assert (eliminated_at ((num, k) :: steps) rc =
            (if decide (k = rc) then {[num]} else ∅) ∪ eliminated_at steps rc)
      as ->.
    { unfold eliminated_at. rewrite filter_cons. cbn [snd].
      destruct (decide (k = rc)); [|set_solver].
      rewrite fmap_cons. set_solver. }
    destruct (decide (k = rc)) as [->|Hne].
    + destruct (st.1 !! rc); [|done]. simpl. f_equal. set_solver.
    + destruct (st.1 !! rc); [|done]. simpl. f_equal. set_solver.
Qed.

Lemma run_eliminations_absent nums rc st :
  st.1 !! rc = None → run_eliminations ((λ num : Z, (num, rc)) <$> nums) st = st.
Proof.
  intros Hnone. induction nums as [|num nums IH]; [done|].
  rewrite fmap_cons. cbn [run_eliminations foldl fst snd].
  unfold eliminate at 2. rewrite Hnone. apply IH.
Qed.

Lemma foldl_run_eliminations {A} (f : candidates_map * nat → A → candidates_map * nat)
    (steps : A → list (Z * cell)) (l : list A) st :
  (∀ st x, x ∈ l → f st x = run_eliminations (steps x) st) →
  foldl f st l = run_eliminations (l ≫= steps) st.
Proof.
  revert st. induction l as [|x l IH]; intros st Hf; [done|].
  cbn [foldl]. rewrite bind_cons, run_eliminations_app, Hf by left.
  apply IH. intros st' y Hy. apply Hf. by right.
Qed.

(** ** The appliers as sequences of elimination steps *)

Lemma apply_naked_pairs_steps candidates pairs :
  apply_naked_pairs candidates pairs =
    run_eliminations (pairs ≫= naked_pair_steps) (candidates, 0).
Proof.
  unfold apply_naked_pairs. apply foldl_run_eliminations. intros st p _.
  assert (∀ st unit_cells,
    foldl (λ st rc,
        if decide (is_Some (st.1 !! rc) ∧ rc ∉ np_cells p)
        then foldl (λ st num, eliminate num st rc) st (np_nums p)
        else st) st unit_cells =
    run_eliminations
      (unit_cells ≫= λ rc,
         if decide (rc ∉ np_cells p)
         then (λ num, (num, rc)) <$> np_nums p else []) st) as Hothers.
  { intros st' unit_cells. apply foldl_run_eliminations. intros st'' rc _.
    destruct (decide (rc ∉ np_cells p)) as [Hout|Hin].
    - destruct (st''.1 !! rc) as [s|] eqn:Hs.
      + rewrite decide_True by (split; [by eexists | done]).
        unfold run_eliminations. by rewrite foldl_fmap.
      + rewrite decide_False by (by intros [[? ?] _]).
        by rewrite run_eliminations_absent.
    - by rewrite decide_False by (by intros [_ ?]). }
  unfold naked_pair_steps. cbv zeta.
  destruct (String.eqb (np_unit_type p) "row"); [apply Hothers|].
  destruct (String.eqb (np_unit_type p) "col"); [apply Hothers|].
  destruct (String.eqb (np_unit_type p) "box"); [apply Hothers|done].
Qed.

Lemma apply_pointing_pairs_steps candidates pointings :
  apply_pointing_pairs candidates pointings =
    run_eliminations (pointings ≫= pointing_pair_steps) (candidates, 0).
Proof.
  unfold apply_pointing_pairs. apply foldl_run_eliminations. intros st p _.
  cbv zeta.
  assert (∀ st line_cells,
    foldl (λ st (rc : cell),
        if negb (bool_decide
                   (pp_box_idx p / 3 * 3 ≤ rc.1 ∧ rc.1 < pp_box_idx p / 3 * 3 + 3
                    ∧ pp_box_idx p mod 3 * 3 ≤ rc.2
                    ∧ rc.2 < pp_box_idx p mod 3 * 3 + 3))
        then eliminate (pp_num p) st rc else st) st line_cells =
    run_eliminations
      (line_cells ≫= λ rc,
         if decide (pp_box_idx p / 3 * 3 ≤ rc.1 ∧ rc.1 < pp_box_idx p / 3 * 3 + 3
                    ∧ pp_box_idx p mod 3 * 3 ≤ rc.2
                    ∧ rc.2 < pp_box_idx p mod 3 * 3 + 3)
         then [] else [(pp_num p, rc)]) st) as Hline.
  { intros st' line_cells. apply foldl_run_eliminations. intros st'' rc _.
    case_decide.
    - by rewrite bool_decide_eq_true_2.
    - by rewrite bool_decide_eq_false_2. }
  unfold pointing_pair_steps. cbv zeta.
  destruct (String.eqb (pp_line_type p) "row"); [apply Hline|].
  destruct (String.eqb (pp_line_type p) "col"); [apply Hline|done].
Qed.

Lemma apply_x_wing_steps candidates x_wings :
  apply_x_wing candidates x_wings =
    run_eliminations (x_wings ≫= x_wing_steps) (candidates, 0).
Proof.
  unfold apply_x_wing. apply foldl_run_eliminations. intros st p _.
  unfold x_wing_steps. cbv zeta.
  destruct (xw_lines p) as [l1 l2], (xw_cross_lines p) as [x1 x2]. cbn [fst snd].
  destruct (String.eqb (xw_pattern_type p) "rows").
  { apply foldl_run_eliminations. intros st' row _. by case_decide. }
  destruct (String.eqb (xw_pattern_type p) "cols"); [|done].
  apply foldl_run_eliminations. intros st' col _. by case_decide.
Qed.

Lemma apply_swordfish_steps candidates swordfish_patterns :
  apply_swordfish candidates swordfish_patterns =
    run_eliminations (swordfish_patterns ≫= swordfish_steps) (candidates, 0).
Proof.
  unfold apply_swordfish. apply foldl_run_eliminations. intros st p _.
  unfold swordfish_steps. cbv zeta.
  destruct (String.eqb (sf_pattern_type p) "rows").
  - apply foldl_run_eliminations. intros st' col _.
    apply foldl_run_eliminations. intros st'' row _. by case_decide.
  - apply foldl_run_eliminations. intros st' row _.
    apply foldl_run_eliminations. intros st'' col _. by case_decide.
Qed.

Lemma apply_xy_wing_steps candidates xy_wing_patterns :
  apply_xy_wing candidates xy_wing_patterns =
    run_eliminations (xy_wing_patterns ≫= xy_wing_steps) (candidates, 0).
Proof.
  unfold apply_xy_wing. apply foldl_run_eliminations. intros st p _.
  unfold xy_wing_steps. cbv zeta.
  apply foldl_run_eliminations. intros st' rc _.
  case_decide; [done|].
  destruct (_can_see rc.1 rc.2 (xy_wing1 p).1 (xy_wing1 p).2
            && _can_see rc.1 rc.2 (xy_wing2 p).1 (xy_wing2 p).2).
  - case_decide as Hnone; [|done].
    cbn [run_eliminations foldl fst snd]. unfold eliminate. by rewrite Hnone.
  - by case_decide.
Qed.

(** Step 3 to 7 of the loop body: when the step falls through, the
    candidates of [tech] are the ones it started with. *)
Lemma try_elimination_steps {F} (find : candidates_map → list F) apply
    (steps : F → list (Z * cell)) candidates :
  (∀ cm found, apply cm found = run_eliminations (found ≫= steps) (cm, 0)) →
  try_elimination find apply candidates =
    (if bool_decide (0 < (apply candidates (find candidates)).2)
     then (apply candidates (find candidates)).1 else candidates,
     bool_decide (0 < (apply candidates (find candidates)).2)).
Proof.
  intros Happly. unfold try_elimination.
  destruct (find candidates) as [|x found] eqn:Hfound.
  - by rewrite Happly.
  - destruct (apply candidates (x :: found)) as [cm' n] eqn:Hres. cbn [fst snd].
    case_bool_decide as Hn; [done|].
    assert (n = 0) as -> by lia.
    rewrite Happly in Hres.
    pose proof (run_eliminations_same_count ((x :: found) ≫= steps) (candidates, 0)) as Hsame.
    rewrite Hres in Hsame. cbn [snd] in Hsame. specialize (Hsame eq_refl).
    by injection Hsame as ->.
Qed.

(** ** One iteration of the rating loop *)

Lemma M_bind_unfold {A B} (m : M A) (f : A → M B) σ :
  (m ≫= f) σ = match m σ with
               | (Ok a, σ') => f a σ'
               | (Raise e, σ') => (Raise e, σ')
               end.
Proof. reflexivity. Qed.

Lemma get_grid_bind {B} board (f : Grid → M B) σ :
  (get_grid board ≫= f) σ = f (grid (σ !!! board)) σ.
Proof. reflexivity. Qed.

Lemma lift_bind {A B} (r : result A) (f : A → M B) σ :
  (lift r ≫= f) σ = match r with
                    | Ok a => f a σ
                    | Raise e => (Raise e, σ)
                    end.
Proof. by destruct r. Qed.

Lemma first_effective_cons g cm tag technique table :
  first_effective g cm ((tag, technique) :: table) =
    technique g cm ≫= λ e,
      if nonzero e then Ok (Some (tag, e)) else first_effective g cm table.
Proof. reflexivity. Qed.

Lemma iteration_body_table list_of_set working_board st σ :
  iteration_body list_of_set working_board st σ =
    table_iteration list_of_set working_board st σ.
Proof.
  unfold iteration_body, table_iteration. cbv zeta.
  rewrite !get_grid_bind, !lift_bind.
  destruct (_init_candidates (grid (σ !!! working_board))) as [cm|]; [|done].
  rewrite lift_bind. unfold technique_table.
  rewrite first_effective_cons, result_bind_Ok. cbn [nonzero].
  destruct (find_naked_singles cm) as [|single singles].
  2: { by rewrite bool_decide_eq_true_2. }
  rewrite bool_decide_eq_false_2 by (by intros []).
  rewrite lift_bind, first_effective_cons.
  destruct (find_hidden_singles list_of_set (grid (σ !!! working_board)) cm)
    as [[|h hidden]|]; [| |done]; rewrite !result_bind_Ok; cbn [nonzero].
  2: { by rewrite bool_decide_eq_true_2. }
  rewrite bool_decide_eq_false_2 by (by intros []).
  rewrite (try_elimination_steps _ _ _ _ apply_naked_pairs_steps).
  rewrite first_effective_cons, result_bind_Ok. cbn [nonzero].
  case_bool_decide; [done|].
  rewrite (try_elimination_steps _ _ _ _ apply_pointing_pairs_steps).
  rewrite first_effective_cons, result_bind_Ok. cbn [nonzero].
  case_bool_decide; [done|].
  rewrite (try_elimination_steps _ _ _ _ apply_x_wing_steps).
  rewrite first_effective_cons, result_bind_Ok. cbn [nonzero].
  case_bool_decide; [done|].
  rewrite (try_elimination_steps _ _ _ _ apply_swordfish_steps).
  rewrite first_effective_cons, result_bind_Ok. cbn [nonzero].
  case_bool_decide; [done|].
  rewrite (try_elimination_steps _ _ _ _ apply_xy_wing_steps).
  rewrite first_effective_cons, result_bind_Ok. cbn [nonzero].
  case_bool_decide; done.
Qed.

(** ** XY-Wing *)

Lemma can_see_shares_unit a b :
  _can_see a.1 a.2 b.1 b.2 = true ↔ shares_unit a b.
Proof.
  unfold _can_see, shares_unit. repeat case_decide; naive_solver.
Qed.

Lemma sorted_pair s a b : sorted s = [a; b] → s = {[a; b]} ∧ a ≠ b.
Proof.
  unfold sorted. intros Hsorted.
  pose proof (merge_sort_Permutation Z.le (elements s)) as Hperm.
  rewrite Hsorted in Hperm. split.
  - rewrite <- (list_to_set_elements_L s). apply set_eq. intros x.
    rewrite elem_of_list_to_set, <- Hperm. set_solver.
  - pose proof (NoDup_elements s) as Hnodup. rewrite <- Hperm in Hnodup.
    apply NoDup_cons in Hnodup as [Hnotin _]. set_solver.
Qed.

Lemma pair_set_eq_singleton (a b y : Z) :
  ({[a; b]} : gset Z) = {[y; y]} → a = b.
Proof.
  intros Heq.
  assert (a ∈ ({[y; y]} : gset Z)) as Ha by (rewrite <- Heq; set_solver).
  assert (b ∈ ({[y; y]} : gset Z)) as Hb by (rewrite <- Heq; set_solver).
  clear Heq. set_solver.
Qed.

Lemma elem_of_bi_value_cells candidates rc a b :
  (rc, (a, b)) ∈ bi_value_cells candidates →
  rc ∈ all_cells ∧ candidates !! rc = Some {[a; b]} ∧ a ≠ b.
Proof.
  unfold bi_value_cells. intros (rc' & Hin & Hf)%list_elem_of_omap.
  destruct (candidates !! rc') as [s|] eqn:Hs; [|done].
  case_decide; [|done].
  destruct (sorted s) as [|a' [|b' [|? ?]]] eqn:Hsorted; try done.
  injection Hf as -> -> ->. apply sorted_pair in Hsorted as [-> ?]. done.
Qed.

Lemma elem_of_xy_wing_steps p num rc :
  (num, rc) ∈ xy_wing_steps p ↔
    num = xy_Z p ∧ rc.1 < 9 ∧ rc.2 < 9
    ∧ (rc ∉ [xy_pivot p; xy_wing1 p; xy_wing2 p])
    ∧ shares_unit rc (xy_wing1 p) ∧ shares_unit rc (xy_wing2 p).
Proof.
  unfold xy_wing_steps. rewrite list_elem_of_bind.
  setoid_rewrite elem_of_all_cells. rewrite <- !can_see_shares_unit. split.
  - intros (rc' & Hin & Hrc'). case_decide; [by apply elem_of_nil in Hin|].
    destruct (_can_see rc'.1 rc'.2 _ _) eqn:H1;
      [|by apply elem_of_nil in Hin].
    destruct (_can_see rc'.1 rc'.2 (xy_wing2 p).1 _) eqn:H2;
      [|by apply elem_of_nil in Hin].
    apply list_elem_of_singleton in Hin. injection Hin as -> ->. naive_solver.
  - intros (-> & Hr & Hc & Hnot & H1 & H2). exists rc. split; [|done].
    rewrite decide_False, H1, H2 by done. by apply list_elem_of_singleton.
Qed.


(** ** X-Wing *)

Lemma has_candidate_iff candidates d rc :
  has_candidate candidates d rc = true ↔ candidate_at candidates rc d.
Proof.
  unfold has_candidate, candidate_at. destruct (candidates !! rc) as [s|].
  - rewrite bool_decide_eq_true. naive_solver.
  - naive_solver.
Qed.

Lemma filter_none {A} (P : A → Prop) `{∀ x, Decision (P x)} (l : list A) :
  (∀ x, x ∈ l → ¬ P x) → filter P l = [].
Proof.
  induction l as [|x l IH]; intros Hnone; [done|].
  rewrite filter_cons, decide_False by (apply Hnone; left).
  apply IH. intros y Hy. apply Hnone. by right.
Qed.

Lemma seq_split_at a n i :
  i < n → seq a n = seq a i ++ (a + i) :: seq (S (a + i)) (n - S i).
Proof.
  intros Hi. replace n with (i + S (n - S i)) at 1 by lia.
  by rewrite seq_app.
Qed.

(** The positions of a line in which exactly two indices qualify *)
Lemma filter_range9_pair (P : nat → Prop) `{∀ x, Decision (P x)} x1 x2 :
  x1 < x2 < 9 →
  (∀ i, i < 9 → P i ↔ i = x1 ∨ i = x2) →
  filter P range9 = [x1; x2].
Proof.
  intros Hx HP. unfold range9.
  rewrite (seq_split_at 0 9 x1) by lia.
  rewrite (seq_split_at (S (0 + x1)) (9 - S x1) (x2 - S x1)) by lia.
  replace (S (0 + x1) + (x2 - S x1)) with x2 by lia.
  rewrite filter_app, filter_cons, filter_app, filter_cons.
  rewrite !filter_none.
  - rewrite !decide_True; [done| |]; apply HP; lia.
  - intros i Hi%elem_of_seq. rewrite HP; lia.
  - intros i Hi%elem_of_seq. rewrite HP; lia.
  - intros i Hi%elem_of_seq. rewrite HP; lia.
Qed.

Lemma elem_of_pairs_of_cons {A} (x y : A) l : y ∈ l → (x, y) ∈ pairs_of (x :: l).
Proof.
  intros Hy. cbn [pairs_of]. apply elem_of_app. left.
  by apply list_elem_of_fmap_2.
Qed.

Lemma elem_of_pairs_of_app {A} (p : A * A) l1 l2 :
  p ∈ pairs_of l2 → p ∈ pairs_of (l1 ++ l2).
Proof.
  intros Hp. induction l1 as [|x l1 IH]; [done|].
  cbn [app pairs_of]. apply elem_of_app. by right.
Qed.

(** Two lines kept by a search over [range(9)] are paired in the order of
    their indices. *)
Lemma elem_of_pairs_of_omap {A} (f : nat → option A) i j a b :
  i < j < 9 → f i = Some a → f j = Some b →
  (a, b) ∈ pairs_of (omap f range9).
Proof.
  intros Hij Ha Hb. unfold range9. rewrite (seq_split_at 0 9 i) by lia.
  change (0 + i) with i. rewrite omap_app. apply elem_of_pairs_of_app.
  cbn [omap list_omap]. rewrite Ha. apply elem_of_pairs_of_cons.
  apply list_elem_of_omap. exists j. split; [|done]. apply elem_of_seq. lia.
Qed.

Lemma find_x_wing_in_complete candidates D pattern_type (at_ : nat → nat → cell)
    l1 l2 x1 x2 :
  l1 < l2 < 9 → x1 < x2 < 9 →
  (∀ i, i < 9 → candidate_at candidates (at_ l1 i) D ↔ i = x1 ∨ i = x2) →
  (∀ i, i < 9 → candidate_at candidates (at_ l2 i) D ↔ i = x1 ∨ i = x2) →
  mkXWing pattern_type (l1, l2) (x1, x2) D
    ∈ find_x_wing_in candidates D pattern_type at_.
Proof.
  intros Hl Hx H1 H2. unfold find_x_wing_in.
  apply list_elem_of_bind. exists ((l1, (x1, x2)), (l2, (x1, x2))). split.
  - cbn [fst snd]. rewrite decide_True by done. by apply list_elem_of_singleton.
  - unfold x_wing_lines. apply (elem_of_pairs_of_omap _ l1 l2); [done| |].
    + unfold positions_of. rewrite (filter_range9_pair _ x1 x2); [done..|].
      intros i Hi. rewrite Is_true_true, has_candidate_iff. by apply H1.
    + unfold positions_of. rewrite (filter_range9_pair _ x1 x2); [done..|].
      intros i Hi. rewrite Is_true_true, has_candidate_iff. by apply H2.
Qed.

Lemma elem_of_x_wing_steps_rows l1 l2 x1 x2 D num rc :
  (num, rc) ∈ x_wing_steps (mkXWing "rows" (l1, l2) (x1, x2) D) ↔
    num = D ∧ rc.1 < 9 ∧ rc.1 ≠ l1 ∧ rc.1 ≠ l2 ∧ (rc.2 = x1 ∨ rc.2 = x2).
Proof.
  unfold x_wing_steps. cbn [xw_pattern_type xw_lines xw_cross_lines xw_num fst snd].
  change (String.eqb "rows" "rows") with true. cbv iota.
  rewrite list_elem_of_bind. setoid_rewrite elem_of_range9. split.
  - intros (row & Hin & Hrow). case_decide; [|by apply elem_of_nil in Hin].
    apply elem_of_cons in Hin as [Hin|Hin%list_elem_of_singleton];
      injection Hin as -> ->; cbn [fst snd]; naive_solver.
  - destruct rc as [r c]. cbn [fst snd].
    intros (-> & Hr & H1 & H2 & Hc). exists r. split; [|done].
    rewrite decide_True by done. destruct Hc as [-> | ->]; [left|right; left].
Qed.

Lemma elem_of_x_wing_steps_cols l1 l2 x1 x2 D num rc :
  (num, rc) ∈ x_wing_steps (mkXWing "cols" (l1, l2) (x1, x2) D) ↔
    num = D ∧ rc.2 < 9 ∧ rc.2 ≠ l1 ∧ rc.2 ≠ l2 ∧ (rc.1 = x1 ∨ rc.1 = x2).
Proof.
  unfold x_wing_steps. cbn [xw_pattern_type xw_lines xw_cross_lines xw_num fst snd].
  change (String.eqb "cols" "rows") with false.
  change (String.eqb "cols" "cols") with true. cbv iota.
  rewrite list_elem_of_bind. setoid_rewrite elem_of_range9. split.
  - intros (col & Hin & Hcol). case_decide; [|by apply elem_of_nil in Hin].
    apply elem_of_cons in Hin as [Hin|Hin%list_elem_of_singleton];
      injection Hin as -> ->; cbn [fst snd]; naive_solver.
  - destruct rc as [r c]. cbn [fst snd].
    intros (-> & Hc & H1 & H2 & Hr). exists c. split; [|done].
    rewrite decide_True by done. destruct Hr as [-> | ->]; [left|right; left].
Qed.

(** What applying one finding, or a list of findings that contains it,
    does to the candidates, from the steps of the finding. *)
Lemma apply_x_wing_one candidates p (target : cell → Prop)
    `{∀ rc, Decision (target rc)} :
  (∀ num rc, (num, rc) ∈ x_wing_steps p ↔ num = xw_num p ∧ target rc) →
  ∀ rc, (apply_x_wing candidates [p]).1 !! rc =
          if decide (target rc)
          then (λ s, s ∖ {[xw_num p]}) <$> candidates !! rc
          else candidates !! rc.
Proof.
  intros Hsteps rc. rewrite apply_x_wing_steps, run_eliminations_lookup.
  cbn [fst]. change ([p] ≫= x_wing_steps) with (x_wing_steps p ++ []).
  rewrite app_nil_r.
  assert (eliminated_at (x_wing_steps p) rc =
          if decide (target rc) then {[xw_num p]} else ∅) as ->.
  { apply set_eq. intros num. rewrite elem_of_eliminated_at, Hsteps.
    case_decide; set_solver. }
  case_decide; [done|].
  destruct (candidates !! rc); [|done]. simpl. f_equal. set_solver.
Qed.

Lemma apply_x_wing_all candidates p x_wings rc :
  p ∈ x_wings → (xw_num p, rc) ∈ x_wing_steps p →
  ¬ candidate_at (apply_x_wing candidates x_wings).1 rc (xw_num p).
Proof.
  intros Hp Hstep (s & Hs & Hin).
  rewrite apply_x_wing_steps, run_eliminations_lookup in Hs. cbn [fst] in Hs.
  destruct (candidates !! rc) as [s0|]; [|done]. injection Hs as <-.
  apply elem_of_difference in Hin as [_ Hnot]. apply Hnot.
  apply elem_of_eliminated_at, list_elem_of_bind. by exists p.
Qed.

(** C5. For every digit D between 1 and 9: if two rows have D as a
    candidate in exactly two columns each, and these are the same two
    columns, then [find_x_wing] reports the pattern; applying it with
    [apply_x_wing] removes D from the candidates of the cells of these two
    columns in every row of the board other than the two rows of the
    pattern and changes the candidates of no other cell; and after
    [apply_x_wing] has been given all the findings of [find_x_wing], D is
    a candidate of none of these cells. The same holds with rows and
    columns exchanged. *)
Theorem x_wing_pattern (candidates : candidates_map) (D : Z)
    (l1 l2 x1 x2 : nat) :
  (1 ≤ D ≤ 9)%Z → l1 < l2 < 9 → x1 < x2 < 9 →
  ((∀ c, c < 9 → candidate_at candidates (l1, c) D ↔ c = x1 ∨ c = x2) →
   (∀ c, c < 9 → candidate_at candidates (l2, c) D ↔ c = x1 ∨ c = x2) →
   let p := mkXWing "rows" (l1, l2) (x1, x2) D in
   p ∈ find_x_wing candidates
   ∧ (∀ rc : cell,
        (apply_x_wing candidates [p]).1 !! rc =
          if decide (rc.1 < 9 ∧ rc.1 ≠ l1 ∧ rc.1 ≠ l2 ∧ (rc.2 = x1 ∨ rc.2 = x2))
          then (λ s, s ∖ {[D]}) <$> candidates !! rc
          else candidates !! rc)
   ∧ (∀ r c, r < 9 → r ≠ l1 → r ≠ l2 → c = x1 ∨ c = x2 →
        ¬ candidate_at
            (apply_x_wing candidates (find_x_wing candidates)).1 (r, c) D))
  ∧
  ((∀ r, r < 9 → candidate_at candidates (r, l1) D ↔ r = x1 ∨ r = x2) →
   (∀ r, r < 9 → candidate_at candidates (r, l2) D ↔ r = x1 ∨ r = x2) →
   let p := mkXWing "cols" (l1, l2) (x1, x2) D in
   p ∈ find_x_wing candidates
   ∧ (∀ rc : cell,
        (apply_x_wing candidates [p]).1 !! rc =
          if decide (rc.2 < 9 ∧ rc.2 ≠ l1 ∧ rc.2 ≠ l2 ∧ (rc.1 = x1 ∨ rc.1 = x2))
          then (λ s, s ∖ {[D]}) <$> candidates !! rc
          else candidates !! rc)
   ∧ (∀ r c, c < 9 → c ≠ l1 → c ≠ l2 → r = x1 ∨ r = x2 →
        ¬ candidate_at
            (apply_x_wing candidates (find_x_wing candidates)).1 (r, c) D)).
Proof.
  intros HD Hl Hx. split; intros H1 H2 p.
  - assert (p ∈ find_x_wing candidates) as Hp.
    { unfold find_x_wing. apply elem_of_app. left.
      apply list_elem_of_bind. exists D. split; [|by apply elem_of_digits].
      by apply find_x_wing_in_complete. }
    split; [done|]. split.
    + apply (apply_x_wing_one candidates p
               (λ rc, rc.1 < 9 ∧ rc.1 ≠ l1 ∧ rc.1 ≠ l2 ∧ (rc.2 = x1 ∨ rc.2 = x2))).
      intros num rc. apply elem_of_x_wing_steps_rows.
    + intros r c Hr Hr1 Hr2 Hc.
      apply (apply_x_wing_all candidates p); [done|].
      by apply elem_of_x_wing_steps_rows.
  - assert (p ∈ find_x_wing candidates) as Hp.
    { unfold find_x_wing. apply elem_of_app. right.
      apply list_elem_of_bind. exists D. split; [|by apply elem_of_digits].
      by apply (find_x_wing_in_complete candidates D "cols"
                  (λ col row, (row, col))). }
    split; [done|]. split.
    + apply (apply_x_wing_one candidates p
               (λ rc, rc.2 < 9 ∧ rc.2 ≠ l1 ∧ rc.2 ≠ l2 ∧ (rc.1 = x1 ∨ rc.1 = x2))).
      intros num rc. apply elem_of_x_wing_steps_cols.
    + intros r c Hc Hc1 Hc2 Hr.
      apply (apply_x_wing_all candidates p); [done|].
      by apply elem_of_x_wing_steps_cols.
Qed.

(** ** The rating: classification and solved boards *)

Lemma deepcopy_unfold board σ :
  deepcopy board σ = (Ok (fresh (dom σ)), <[fresh (dom σ) := σ !!! board]> σ).
Proof. reflexivity. Qed.

Lemma rate_puzzle_unfold los board σ :
  rate_puzzle los board σ =
    match rate_puzzle_run los board σ with
    | (Ok (_, st), σ') =>
        (Ok (difficulty_of (max_score st), max_score st, techniques_used st), σ')
    | (Raise e, σ') => (Raise e, σ')
    end.
Proof.
  unfold rate_puzzle. rewrite M_bind_unfold.
  by destruct (rate_puzzle_run los board σ) as [[[e st]|] σ'].
Qed.

(** C7. The difficulty label of every rating that [rate_puzzle] returns is
    determined by the final [max_score], and by nothing else: it is "Easy"
    exactly when the score is at most 15, "Medium" exactly when the score
    is above 15 and at most 90, "Hard" exactly when the score is above
    90. *)
Theorem difficulty_label_boundaries list_of_set (board : nat) (σ : store)
    (difficulty : string) (score : Z) (techniques : list string) :
  (rate_puzzle list_of_set board σ).1 = Ok (difficulty, score, techniques) →
  ((score ≤ 15)%Z ↔ difficulty = "Easy")
  ∧ ((15 < score ≤ 90)%Z ↔ difficulty = "Medium")
  ∧ ((90 < score)%Z ↔ difficulty = "Hard").
Proof.
  rewrite rate_puzzle_unfold.
  destruct (rate_puzzle_run list_of_set board σ) as [[[e st]|] σ']; [|done].
  cbn [fst]. intros [= <- <- <-]. unfold difficulty_of.
  repeat case_decide; repeat split; intros; first [done | lia].
Qed.

Lemma is_solved_unfold board σ :
  _is_solved board σ =
    (Ok (forallb (λ row : list Z, negb (bool_decide (0%Z ∈ row)))
           (grid (σ !!! board))), σ).
Proof. reflexivity. Qed.

Lemma full_grid_solved g :
  is_9x9 g → (∀ r c, r < 9 → c < 9 → cell_value g r c ≠ 0%Z) →
  forallb (λ row : list Z, negb (bool_decide (0%Z ∈ row))) g = true.
Proof.
  intros [Hlen Hrows] Hfull. apply Is_true_true, forallb_True, Forall_forall.
  intros row Hrow. apply Is_true_true, negb_true_iff, bool_decide_eq_false.
  intros Hzero.
  apply list_elem_of_lookup in Hrow as [r Hr].
  apply list_elem_of_lookup in Hzero as [c Hc].
  apply (Hfull r c).
  - apply lookup_lt_Some in Hr. lia.
  - rewrite Forall_forall in Hrows.
    assert (length row = 9) as <- by (eapply Hrows, list_elem_of_lookup_2, Hr).
    by eapply lookup_lt_Some.
  - unfold cell_value. rewrite Hr. simpl. by rewrite Hc.
Qed.

(** C10. On a board whose grid has all 81 cells non-zero, [rate_puzzle]
    leaves its loop before the first iteration and returns
    [('Easy', 0, [])]. *)
Theorem solved_board_rating list_of_set (board : nat) (σ : store) :
  is_9x9 (grid (σ !!! board)) →
  (∀ r c, r < 9 → c < 9 → cell_value (grid (σ !!! board)) r c ≠ 0%Z) →
  (rate_puzzle_run list_of_set board σ).1 = Ok (Solved, mkLocals 0 0 [])
  ∧ (rate_puzzle list_of_set board σ).1 = Ok ("Easy", 0%Z, []).
Proof.
  intros Hshape Hfull.
  assert ((rate_puzzle_run list_of_set board σ).1 = Ok (Solved, mkLocals 0 0 []))
    as Hrun.
  { unfold rate_puzzle_run. rewrite M_bind_unfold, deepcopy_unfold.
    unfold max_iterations. cbn [rate_loop].
    rewrite M_bind_unfold, is_solved_unfold, lookup_total_insert_eq.
    by rewrite full_grid_solved. }
  split; [done|]. rewrite rate_puzzle_unfold.
  destruct (rate_puzzle_run list_of_set board σ) as [[[e st]|] σ']; [|done].
  cbn [fst] in *. by injection Hrun as -> ->.
Qed.

(** ** The store: what the rating writes *)

Lemma writes_only_ret {A} ref (a : A) : writes_only ref (mret a).
Proof. by intros σ other _. Qed.

Lemma writes_only_bind {A B} ref (m : M A) (f : A → M B) :
  writes_only ref m → (∀ a, writes_only ref (f a)) → writes_only ref (m ≫= f).
Proof.
  intros Hm Hf σ other Hne. rewrite M_bind_unfold.
  specialize (Hm σ other Hne). destruct (m σ) as [[a|e] σ1]; cbn [snd] in *.
  - by rewrite Hf.
  - done.
Qed.

Lemma writes_only_lift {A} ref (r : result A) : writes_only ref (lift r).
Proof. by intros σ other _. Qed.

Lemma writes_only_get_grid ref : writes_only ref (get_grid ref).
Proof. by intros σ other _. Qed.

Lemma writes_only_is_solved ref : writes_only ref (_is_solved ref).
Proof. by intros σ other _. Qed.

Lemma writes_only_set_cell ref row col num :
  writes_only ref (set_cell ref row col num).
Proof.
  intros σ other Hne. unfold set_cell.
  destruct (grid_write _ _ row col num); cbn [snd]; [|done].
  by rewrite lookup_insert_ne.
Qed.

Lemma writes_only_assign_all ref findings :
  writes_only ref (assign_all ref findings).
Proof.
  induction findings as [|[[row col] num] findings IH].
  - apply writes_only_ret.
  - cbn [assign_all]. apply writes_only_bind; [apply writes_only_set_cell|done].
Qed.

Lemma writes_only_ext {A} ref (m m' : M A) :
  (∀ σ, m σ = m' σ) → writes_only ref m' → writes_only ref m.
Proof. intros Heq Hm σ other Hne. rewrite Heq. by apply Hm. Qed.

Lemma writes_only_iteration_body los ref st :
  writes_only ref (iteration_body los ref st).
Proof.
  eapply writes_only_ext; [apply iteration_body_table|].
  unfold table_iteration. cbv zeta.
  apply writes_only_bind; [apply writes_only_get_grid|]. intros g.
  apply writes_only_bind; [apply writes_only_lift|]. intros cm.
  apply writes_only_bind; [apply writes_only_lift|]. intros [[tag e]|].
  - apply writes_only_bind; [|intros; apply writes_only_ret].
    destruct e; [apply writes_only_assign_all | apply writes_only_ret].
  - apply writes_only_ret.
Qed.

Lemma writes_only_rate_loop los remaining ref st :
  writes_only ref (rate_loop los remaining ref st).
Proof.
  revert st. induction remaining as [|remaining IH]; intros st; cbn [rate_loop].
  - apply writes_only_bind; [apply writes_only_is_solved|].
    intros []; apply writes_only_ret.
  - apply writes_only_bind; [apply writes_only_is_solved|].
    intros []; [apply writes_only_ret|].
    apply writes_only_bind; [apply writes_only_iteration_body|].
    intros [[] st']; [apply IH | apply writes_only_ret].
Qed.

Lemma rate_puzzle_run_store los board σ other :
  other ≠ fresh (dom σ) →
  (rate_puzzle_run los board σ).2 !! other = σ !! other.
Proof.
  intros Hne. unfold rate_puzzle_run. rewrite M_bind_unfold, deepcopy_unfold.
  rewrite (writes_only_rate_loop los max_iterations (fresh (dom σ))) by done.
  by rewrite lookup_insert_ne.
Qed.

Lemma rate_puzzle_store los board σ other :
  other ≠ fresh (dom σ) →
  (rate_puzzle los board σ).2 !! other = σ !! other.
Proof.
  intros Hne. rewrite rate_puzzle_unfold.
  pose proof (rate_puzzle_run_store los board σ other Hne) as Hrun.
  by destruct (rate_puzzle_run los board σ) as [[[e st]|] σ'].
Qed.

Lemma fresh_not_allocated (σ : store) ref : is_Some (σ !! ref) → ref ≠ fresh (dom σ).
Proof.
  intros Hsome%elem_of_dom ->. by apply (is_fresh (dom σ)).
Qed.

(** C8. [rate_puzzle] leaves the board of its caller as it was: the board
    object denotes the same grid after the call as before it, whether the
    call returns or raises, and so does every other object that existed
    before the call: the only object written to is the working copy, a
    new object made by [copy.deepcopy]. *)
Theorem rate_puzzle_preserves_board list_of_set (board : nat) (σ : store)
    (b : SudokuBoard) :
  σ !! board = Some b →
  (rate_puzzle list_of_set board σ).2 !! board = Some b
  ∧ σ !! fresh (dom σ) = None
  ∧ ∀ other, other ≠ fresh (dom σ) →
      (rate_puzzle list_of_set board σ).2 !! other = σ !! other.
Proof.
  intros Hb. split; [|split].
  - rewrite rate_puzzle_store; [done|]. apply fresh_not_allocated. by eexists.
  - apply not_elem_of_dom, is_fresh.
  - intros other Hne. by apply rate_puzzle_store.
Qed.

(** ** The rating is a function of the grid *)

Lemma same_on_grid_ret {A} ref ref' (a : A) :
  same_on_grid ref ref' (mret a) (mret a).
Proof. by intros σ σ' Hg. Qed.

Lemma same_on_grid_bind {A B} ref ref' (m m' : M A) (f f' : A → M B) :
  same_on_grid ref ref' m m' →
  (∀ a, same_on_grid ref ref' (f a) (f' a)) →
  same_on_grid ref ref' (m ≫= f) (m' ≫= f').
Proof.
  intros Hm Hf σ σ' Hg. rewrite !M_bind_unfold.
  destruct (Hm σ σ' Hg) as [Hres Hgrid].
  destruct (m σ) as [[a|e] σ1], (m' σ') as [[a'|e'] σ1'];
    cbn [fst snd] in *; try done.
  - injection Hres as <-. by apply Hf.
  - by destruct e, e'.
Qed.

Lemma same_on_grid_lift {A} ref ref' (r : result A) :
  same_on_grid ref ref' (lift r) (lift r).
Proof. by intros σ σ' Hg. Qed.

Lemma same_on_grid_get_grid ref ref' :
  same_on_grid ref ref' (get_grid ref) (get_grid ref').
Proof.
  intros σ σ' Hg. unfold get_grid. cbn [fst snd]. split; [|done].
  by rewrite (proj1 Hg).
Qed.

Lemma same_on_grid_is_solved ref ref' :
  same_on_grid ref ref' (_is_solved ref) (_is_solved ref').
Proof.
  intros σ σ' Hg. rewrite !is_solved_unfold. cbn [fst snd]. split; [|done].
  by rewrite (proj1 Hg).
Qed.

Lemma same_on_grid_set_cell ref ref' row col num :
  same_on_grid ref ref' (set_cell ref row col num) (set_cell ref' row col num).
Proof.
  intros σ σ' [Hg Hids]. unfold set_cell. rewrite Hg, Hids.
  destruct (grid_write _ (grid (σ' !!! ref')) row col num);
    cbn [fst snd]; [|done].
  by rewrite !lookup_total_insert_eq.
Qed.

Lemma same_on_grid_assign_all ref ref' findings :
  same_on_grid ref ref' (assign_all ref findings) (assign_all ref' findings).
Proof.
  induction findings as [|[[row col] num] findings IH].
  - apply same_on_grid_ret.
  - cbn [assign_all]. apply same_on_grid_bind; [apply same_on_grid_set_cell|done].
Qed.

Lemma same_on_grid_ext {A} ref ref' (m1 m2 m1' m2' : M A) :
  (∀ σ, m1 σ = m2 σ) → (∀ σ, m1' σ = m2' σ) →
  same_on_grid ref ref' m2 m2' → same_on_grid ref ref' m1 m1'.
Proof. intros H1 H2 Hm σ σ' Hg. rewrite H1, H2. by apply Hm. Qed.

Lemma same_on_grid_iteration_body los ref ref' st :
  same_on_grid ref ref' (iteration_body los ref st) (iteration_body los ref' st).
Proof.
  eapply same_on_grid_ext; [apply iteration_body_table..|].
  unfold table_iteration. cbv zeta.
  apply same_on_grid_bind; [apply same_on_grid_get_grid|]. intros g.
  apply same_on_grid_bind; [apply same_on_grid_lift|]. intros cm.
  apply same_on_grid_bind; [apply same_on_grid_lift|]. intros [[tag e]|].
  - apply same_on_grid_bind; [|intros; apply same_on_grid_ret].
    destruct e; [apply same_on_grid_assign_all | apply same_on_grid_ret].
  - apply same_on_grid_ret.
Qed.

Lemma same_on_grid_rate_loop los remaining ref ref' st :
  same_on_grid ref ref' (rate_loop los remaining ref st)
    (rate_loop los remaining ref' st).
Proof.
  revert st. induction remaining as [|remaining IH]; intros st; cbn [rate_loop].
  - apply same_on_grid_bind; [apply same_on_grid_is_solved|].
    intros []; apply same_on_grid_ret.
  - apply same_on_grid_bind; [apply same_on_grid_is_solved|].
    intros []; [apply same_on_grid_ret|].
    apply same_on_grid_bind; [apply same_on_grid_iteration_body|].
    intros [[] st']; [apply IH | apply same_on_grid_ret].
Qed.

(** The rating depends on the grid of the board it is given and on
    nothing else in the store. *)
Lemma rate_puzzle_function_of_grid los board board' σ σ' :
  same_grid (σ !!! board) (σ' !!! board') →
  (rate_puzzle los board σ).1 = (rate_puzzle los board' σ').1.
Proof.
  intros Hg. rewrite !rate_puzzle_unfold.
  assert ((rate_puzzle_run los board σ).1 = (rate_puzzle_run los board' σ').1)
    as Hrun.
  { unfold rate_puzzle_run. rewrite !M_bind_unfold, !deepcopy_unfold.
    apply same_on_grid_rate_loop. by rewrite !lookup_total_insert_eq. }
  destruct (rate_puzzle_run los board σ) as [[[e st]|x] σ1],
    (rate_puzzle_run los board' σ') as [[[e' st']|x'] σ1'];
    cbn [fst] in *; try done.
  - by injection Hrun as -> ->.
  - by destruct x, x'.
Qed.

Lemma outcome_unfold {A} (m : M A) σ : outcome m σ = (Ok (m σ).1, (m σ).2).
Proof. unfold outcome. by destruct (m σ). Qed.

(** C9. Two calls of [rate_puzzle], each on a fresh deep copy of the same
    board, have the same outcome: the same rating (label, score and
    sequence of techniques), or the same exception. *)
Theorem rate_puzzle_deterministic list_of_set (board : nat) (σ : store) :
  is_Some (σ !! board) →
  ∃ r σ', rate_twice list_of_set board σ = (Ok (r, r), σ').
Proof.
  intros Hboard. unfold rate_twice.
  rewrite M_bind_unfold, deepcopy_unfold.
  set (copy1 := fresh (dom σ)). set (σ1 := <[copy1 := σ !!! board]> σ).
  rewrite M_bind_unfold, outcome_unfold.
  set (σ2 := (rate_puzzle list_of_set copy1 σ1).2).
  rewrite M_bind_unfold, deepcopy_unfold.
  set (copy2 := fresh (dom σ2)). set (σ3 := <[copy2 := σ2 !!! board]> σ2).
  rewrite M_bind_unfold, outcome_unfold.
  assert ((rate_puzzle list_of_set copy2 σ3).1
          = (rate_puzzle list_of_set copy1 σ1).1) as ->; [|by eexists _, _].
  apply rate_puzzle_function_of_grid.
  unfold σ3, σ1. rewrite !lookup_total_insert_eq.
  enough (σ2 !!! board = σ !!! board) as -> by done.
  assert (board ≠ copy1) as Hne1 by (by apply fresh_not_allocated).
  assert (σ1 !! board = σ !! board) as H1 by (by apply lookup_insert_ne).
  assert (board ≠ fresh (dom σ1)) as Hne2.
  { apply fresh_not_allocated. by rewrite H1. }
  rewrite !lookup_total_alt. unfold σ2.
  by rewrite rate_puzzle_store, H1.
Qed.

(** ** Ratings that end at the iteration cap *)

Lemma first_effective_tag g cm table tag e :
  first_effective g cm table = Ok (Some (tag, e)) → tag ∈ table.*1.
Proof.
  induction table as [|[tag' technique] table IH]; [done|].
  rewrite first_effective_cons. intros (e' & _ & Hrest)%bind_Ok_inv.
  rewrite fmap_cons. destruct (nonzero e').
  - injection Hrest as -> _. left.
  - right. by apply IH.
Qed.

(** An iteration that goes on has recorded one of the seven techniques. *)
Lemma iteration_body_continue los ref st σ st' σ' :
  iteration_body los ref st σ = (Ok (Continue, st'), σ') →
  ∃ tag, tag ∈ technique_tags
    ∧ st' = mkLocals (S (iteration st))
              (Z.max (max_score st) (TECHNIQUE_SCORES !!! tag))
              (techniques_used st ++ [tag]).
Proof.
  rewrite iteration_body_table. unfold table_iteration. cbv zeta.
  rewrite get_grid_bind, lift_bind.
  destruct (_init_candidates _) as [cm|]; [|done]. rewrite lift_bind.
  destruct (first_effective _ cm _) as [[[tag e]|]|] eqn:Hwinner; [| |done].
  - apply first_effective_tag in Hwinner.
    rewrite M_bind_unfold. destruct e as [findings|eliminated].
    + destruct (assign_all ref findings σ) as [[[]|] σ1]; [|done].
      intros [= <- _]. by exists tag.
    + intros [= <- _]. by exists tag.
  - done.
Qed.

Lemma hardest_snoc tags tag :
  hardest (tags ++ [tag]) = Z.max (hardest tags) (TECHNIQUE_SCORES !!! tag).
Proof.
  unfold hardest. induction tags as [|t tags IH]; cbn [app foldr].
  - lia.
  - rewrite IH. lia.
Qed.

Lemma weight_bounds tag :
  tag ∈ technique_tags → (15 ≤ TECHNIQUE_SCORES !!! tag ≤ 180)%Z.
Proof.
  unfold technique_tags. rewrite !elem_of_cons, elem_of_nil.
  intros [->|[->|[->|[->|[->|[->|[->|[]]]]]]]]; vm_compute; split; discriminate.
Qed.

Lemma hardest_bounds tags :
  tags ≠ [] → Forall (λ tag, tag ∈ technique_tags) tags →
  (15 ≤ hardest tags ≤ 180)%Z.
Proof.
  intros Hne Htags. induction Htags as [|tag tags Htag Htags IH]; [done|].
  cbn [hardest foldr]. fold (hardest tags).
  pose proof (weight_bounds tag Htag).
  destruct tags as [|tag' tags'].
  - cbn [hardest foldr]. lia.
  - specialize (IH ltac:(done)). lia.
Qed.

Lemma rate_loop_capped los remaining ref st σ st' σ' :
  rated st →
  rate_loop los remaining ref st σ = (Ok (IterationCapped, st'), σ') →
  rated st' ∧ iteration st' = iteration st + remaining.
Proof.
  revert st σ. induction remaining as [|remaining IH]; intros st σ Hst;
    cbn [rate_loop]; rewrite M_bind_unfold, is_solved_unfold.
  - destruct (forallb _ _); [done|]. intros [= <- _]. split; [done|lia].
  - destruct (forallb _ _); [done|]. rewrite M_bind_unfold.
    destruct (iteration_body los ref st σ) as [[[[] st1]|] σ1] eqn:Hbody;
      [|done..].
    apply iteration_body_continue in Hbody as (tag & Htag & ->).
    intros Hloop. apply IH in Hloop as [Hrated Hiter].
    + split; [done|]. cbn [iteration] in Hiter. lia.
    + destruct Hst as (Hlen & Htags & Hmax). repeat split; cbn.
      * rewrite length_app. cbn. lia.
      * apply Forall_app. split; [done|]. by apply Forall_singleton.
      * by rewrite hardest_snoc, Hmax.
Qed.

(** C1, as the code has it. When [rate_puzzle] leaves its loop because the
    iteration cap is reached on an unsolved grid, it has recorded one of
    the seven technique tags in each of the 1000 iterations (never
    [requires_expert_technique]), [max_score] is the weight of the
    hardest technique recorded, between 15 and 180 and so below 200, and
    the rating returned carries the label that the thresholds give for
    this score. *)
Theorem capped_rating list_of_set (board : nat) (σ : store) (st : locals) :
  (rate_puzzle_run list_of_set board σ).1 = Ok (IterationCapped, st) →
  iteration st = max_iterations
  ∧ length (techniques_used st) = max_iterations
  ∧ Forall (λ tag, tag ∈ technique_tags) (techniques_used st)
  ∧ max_score st = hardest (techniques_used st)
  ∧ (15 ≤ max_score st ≤ 180)%Z
  ∧ (rate_puzzle list_of_set board σ).1 =
      Ok (difficulty_of (max_score st), max_score st, techniques_used st).
Proof.
  intros Hrun.
  assert ((rate_puzzle list_of_set board σ).1 =
      Ok (difficulty_of (max_score st), max_score st, techniques_used st))
    as Hrating.
  { rewrite rate_puzzle_unfold.
    destruct (rate_puzzle_run list_of_set board σ) as [[[e st0]|] σ0]; [|done].
    cbn [fst] in *. by injection Hrun as -> ->. }
  unfold rate_puzzle_run in Hrun. rewrite M_bind_unfold, deepcopy_unfold in Hrun.
  destruct (rate_loop _ _ _ _ _) as [r σ'] eqn:Hloop. cbn [fst] in Hrun. subst r.
  apply rate_loop_capped in Hloop as [(Hlen & Htags & Hmax) Hiter].
  2: { by repeat split. }
  cbn [iteration] in Hiter. rewrite Hiter in Hlen.
  assert (15 ≤ max_score st ≤ 180)%Z as Hbounds.
  { rewrite Hmax. apply hardest_bounds; [|done].
    intros Hnil. by rewrite Hnil in Hlen. }
  done.
Qed.

(** The cycling grid: every iteration finds no single and no naked pair,
    and eliminates 18 candidates by pointing pairs; the grid stays as it
    is. *)
Lemma cycling_iteration ref st σ :
  grid (σ !!! ref) = cycling_grid →
  iteration_body remove_dups ref st σ =
    (Ok (Continue,
         mkLocals (S (iteration st)) (Z.max (max_score st) 80)
           (techniques_used st ++ ["pointing_pair"])), σ).
Proof.
  intros Hgrid. rewrite iteration_body_table. unfold table_iteration. cbv zeta.
  rewrite get_grid_bind, Hgrid, lift_bind.
  assert ((cm ← _init_candidates cycling_grid;
           first_effective cycling_grid cm (technique_table remove_dups))
          = Ok (Some ("pointing_pair", Eliminations 18))) as Hwinner.
  { vm_compute. reflexivity. }
  destruct (_init_candidates cycling_grid) as [cm|]; [|done].
  rewrite result_bind_Ok in Hwinner. rewrite lift_bind, Hwinner.
  reflexivity.
Qed.

Lemma cycling_loop remaining ref st σ :
  grid (σ !!! ref) = cycling_grid →
  rate_loop remove_dups remaining ref st σ =
    (Ok (IterationCapped,
         mkLocals (iteration st + remaining)
           (Nat.iter remaining (λ m, Z.max m 80) (max_score st))
           (techniques_used st ++ replicate remaining "pointing_pair")), σ).
Proof.
  intros Hgrid. revert st. induction remaining as [|remaining IH]; intros st;
    cbn [rate_loop]; rewrite M_bind_unfold, is_solved_unfold, Hgrid.
  - change (forallb _ cycling_grid) with false. cbv iota.
    destruct st. cbn. by rewrite Nat.add_0_r, app_nil_r.
  - change (forallb _ cycling_grid) with false. cbv iota.
    rewrite M_bind_unfold, cycling_iteration by done. rewrite IH.
    cbn [iteration max_score techniques_used].
    rewrite Nat.iter_succ_r, <- app_assoc. cbn [replicate app].
    by replace (S (iteration st) + remaining)
      with (iteration st + S remaining) by lia.
Qed.

Lemma cycling_grid_run :
  (rate_puzzle_run remove_dups 0 (one_board cycling_grid)).1 =
    Ok (IterationCapped, mkLocals 1000 80 (replicate 1000 "pointing_pair")).
Proof.
  unfold rate_puzzle_run. rewrite M_bind_unfold, deepcopy_unfold.
  rewrite cycling_loop.
  - cbn [fst]. vm_compute. reflexivity.
  - rewrite lookup_total_insert_eq. vm_compute. reflexivity.
Qed.

(** C1 fails as stated. The cycling grid is a valid board; its rating ends
    at the iteration cap with the grid unsolved, and the rating returned
    has score 80 and label "Medium". *)
Lemma capped_rating_medium :
  valid_board cycling_grid = true
  ∧ (rate_puzzle_run remove_dups 0 (one_board cycling_grid)).1 =
      Ok (IterationCapped, mkLocals 1000 80 (replicate 1000 "pointing_pair"))
  ∧ (rate_puzzle remove_dups 0 (one_board cycling_grid)).1 =
      Ok ("Medium", 80%Z, replicate 1000 "pointing_pair").
Proof.
  split; [by vm_compute|]. split; [apply cycling_grid_run|].
  rewrite rate_puzzle_unfold. pose proof cycling_grid_run as Hrun.
  destruct (rate_puzzle_run _ _ _) as [[[e st]|] σ']; [|done].
  cbn [fst] in *. by injection Hrun as -> ->.
Qed.

(** ** Ratings of nine-by-nine grids return *)

Lemma set_order_remove_dups : set_order remove_dups.
Proof.
  intros results. split; [apply NoDup_remove_dups|].
  intros x. apply elem_of_remove_dups.
Qed.

Lemma mapM_result_Ok {A B} (f : A → result B) (g : A → B) (l : list A) :
  (∀ x, x ∈ l → f x = Ok (g x)) → mapM f l = Ok (g <$> l).
Proof.
  induction l as [|x l IH]; intros Hf; [done|].
  cbn [mapM]. rewrite Hf by left. rewrite result_bind_Ok.
  rewrite IH by (intros y Hy; apply Hf; by right). done.
Qed.

Lemma box_has_Ok g num cells :
  is_9x9 g → Forall (λ rc : cell, rc.1 < 9 ∧ rc.2 < 9) cells →
  ∃ found, box_has g num cells = Ok found.
Proof.
  intros Hg Hcells. induction Hcells as [|rc cells [Hr Hc] _ IH]; [by eexists|].
  cbn [box_has]. rewrite grid_at_9x9, result_bind_Ok by done.
  case_decide; [by eexists | done].
Qed.

Lemma box_cells_bounds br bc :
  br ≤ 6 → bc ≤ 6 → Forall (λ rc : cell, rc.1 < 9 ∧ rc.2 < 9) (box_cells br bc).
Proof.
  intros Hr Hc. apply Forall_forall. intros rc [H1 H2]%elem_of_box_cells. lia.
Qed.

Lemma box_of_index_bounds box_idx :
  box_idx < 9 → box_idx / 3 * 3 ≤ 6 ∧ box_idx mod 3 * 3 ≤ 6.
Proof.
  intros Hb. pose proof (Nat.div_mod_eq box_idx 3).
  pose proof (Nat.mod_upper_bound box_idx 3). lia.
Qed.

Lemma hidden_at_in_range candidates unit_cells num :
  Forall (λ rc : cell, rc.1 < 9 ∧ rc.2 < 9) unit_cells →
  Forall in_range (hidden_at candidates unit_cells num).
Proof.
  intros Hcells. unfold hidden_at.
  destruct (filter _ unit_cells) as [|rc [|rc' l]] eqn:Hfilter; try done.
  apply Forall_singleton. unfold in_range. cbn [fst snd].
  assert (rc ∈ filter (λ rc, has_candidate candidates num rc) unit_cells)
    as [_ Hin]%list_elem_of_filter by (rewrite Hfilter; left).
  rewrite Forall_forall in Hcells. by apply Hcells.
Qed.

(** The loop over the digits shared by the three [_find_hidden_in_*] *)
Lemma hidden_loop_in_range (body : list (nat * nat * Z) → Z → result (list (nat * nat * Z))) :
  (∀ results num, Forall in_range results →
     ∃ results', body results num = Ok results' ∧ Forall in_range results') →
  ∃ results, for_each body [] digits = Ok results ∧ Forall in_range results.
Proof.
  intros Hbody.
  apply (for_each_inv body (λ _ results, Forall in_range results)); [done|].
  intros done num results Hres _. by apply Hbody.
Qed.

Lemma find_hidden_in_row_9x9 g candidates row :
  is_9x9 g → row < 9 →
  ∃ results,
    _find_hidden_in_row g candidates row = Ok results ∧ Forall in_range results.
Proof.
  intros Hg Hrow. apply hidden_loop_in_range. intros results num Hres.
  unfold grid_row. destruct (g !! row) as [r|] eqn:Hr.
  2: { apply lookup_ge_None in Hr. destruct Hg. lia. }
  rewrite result_bind_Ok. case_decide; [by eexists|].
  eexists. split; [done|]. apply Forall_app. split; [done|].
  by apply hidden_at_in_range, row_cells_in_range.
Qed.

Lemma find_hidden_in_col_9x9 g candidates col :
  is_9x9 g → col < 9 →
  ∃ results,
    _find_hidden_in_col g candidates col = Ok results ∧ Forall in_range results.
Proof.
  intros Hg Hcol. apply hidden_loop_in_range. intros results num Hres.
  rewrite (mapM_result_Ok _ (λ r, cell_value g r col)), result_bind_Ok.
  2: { intros r Hr%elem_of_range9. by apply grid_at_9x9. }
  case_decide; [by eexists|].
  eexists. split; [done|]. apply Forall_app. split; [done|].
  by apply hidden_at_in_range, col_cells_in_range.
Qed.

Lemma find_hidden_in_box_9x9 g candidates box_idx :
  is_9x9 g → box_idx < 9 →
  ∃ results,
    _find_hidden_in_box g candidates box_idx = Ok results
    ∧ Forall in_range results.
Proof.
  intros Hg Hbox. destruct (box_of_index_bounds box_idx Hbox) as [Hr Hc].
  pose proof (box_cells_bounds _ _ Hr Hc) as Hcells.
  unfold _find_hidden_in_box. cbv zeta.
  apply hidden_loop_in_range. intros results num Hres.
  destruct (box_has_Ok g num _ Hg Hcells) as [found ->].
  rewrite result_bind_Ok. destruct found; [by eexists|].
  eexists. split; [done|]. apply Forall_app. split; [done|].
  by apply hidden_at_in_range.
Qed.

Lemma extend_each_in_range (f : nat → result (list (nat * nat * Z))) results :
  Forall in_range results →
  (∀ i, i < 9 → ∃ r, f i = Ok r ∧ Forall in_range r) →
  ∃ results', extend_each f results = Ok results' ∧ Forall in_range results'.
Proof.
  intros Hres Hf. unfold extend_each.
  match goal with
  | |- context [for_each ?body _ _] =>
      apply (for_each_inv body (λ _ results, Forall in_range results)); [done|]
  end.
  intros done i results0 Hres0 Hi%elem_of_range9.
  destruct (Hf i Hi) as (r & -> & Hr). rewrite result_bind_Ok.
  eexists. split; [done|]. by apply Forall_app.
Qed.

Lemma find_hidden_singles_9x9 los g candidates :
  set_order los → is_9x9 g →
  ∃ hidden,
    find_hidden_singles los g candidates = Ok hidden ∧ Forall in_range hidden.
Proof.
  intros Hlos Hg. unfold find_hidden_singles.
  destruct (extend_each_in_range (_find_hidden_in_row g candidates) [])
    as (r1 & -> & H1); [done | by intros; apply find_hidden_in_row_9x9 |].
  rewrite result_bind_Ok.
  destruct (extend_each_in_range (_find_hidden_in_col g candidates) r1)
    as (r2 & -> & H2); [done | by intros; apply find_hidden_in_col_9x9 |].
  rewrite result_bind_Ok.
  destruct (extend_each_in_range (_find_hidden_in_box g candidates) r2)
    as (r3 & -> & H3); [done | by intros; apply find_hidden_in_box_9x9 |].
  rewrite result_bind_Ok. eexists. split; [done|].
  apply Forall_forall. intros x Hx%(proj2 (Hlos r3)).
  rewrite Forall_forall in H3. by apply H3.
Qed.

Lemma find_naked_singles_in_range candidates :
  Forall in_range (find_naked_singles candidates).
Proof.
  apply Forall_forall. intros x. unfold find_naked_singles.
  intros ([rc cands] & Hx & Hin)%list_elem_of_bind.
  unfold candidates_items in Hin.
  apply list_elem_of_omap in Hin as (rc' & [Hr Hc]%elem_of_all_cells & Hf).
  destruct (candidates !! rc'); [|done]. injection Hf as -> ->.
  case_decide; [|by apply elem_of_nil in Hx].
  destruct (elements cands); [by apply elem_of_nil in Hx|].
  by apply list_elem_of_singleton in Hx as ->.
Qed.

Lemma first_effective_9x9 los g cm :
  set_order los → is_9x9 g →
  ∃ winner,
    first_effective g cm (technique_table los) = Ok winner
    ∧ ∀ tag findings,
        winner = Some (tag, Assignments findings) → Forall in_range findings.
Proof.
  intros Hlos Hg. unfold technique_table.
  rewrite first_effective_cons, result_bind_Ok.
  destruct (nonzero _).
  { eexists. split; [done|]. intros tag findings [= _ <-].
    apply find_naked_singles_in_range. }
  rewrite first_effective_cons.
  destruct (find_hidden_singles_9x9 los g cm Hlos Hg) as (hidden & -> & Hhidden).
  rewrite !result_bind_Ok. destruct (nonzero _).
  { eexists. split; [done|]. by intros tag findings [= _ <-]. }
  repeat (rewrite first_effective_cons, result_bind_Ok;
          destruct (nonzero _); [by eexists|]).
  by eexists.
Qed.

Lemma returns_ret {A} ref (a : A) (Q : A → Prop) :
  Q a → returns_9x9 ref (mret a) Q.
Proof. intros Ha σ Hσ. by exists a, σ. Qed.

Lemma returns_bind {A B} ref (m : M A) (f : A → M B) (Q : A → Prop)
    (R : B → Prop) :
  returns_9x9 ref m Q → (∀ a, Q a → returns_9x9 ref (f a) R) →
  returns_9x9 ref (m ≫= f) R.
Proof.
  intros Hm Hf σ Hσ. destruct (Hm σ Hσ) as (a & σ1 & Hrun & Hσ1 & Ha).
  rewrite M_bind_unfold, Hrun. by apply Hf.
Qed.

Lemma returns_lift {A} ref (r : result A) (Q : A → Prop) :
  (∃ a, r = Ok a ∧ Q a) → returns_9x9 ref (lift r) Q.
Proof. intros (a & -> & Ha) σ Hσ. by exists a, σ. Qed.

Lemma returns_get_grid ref : returns_9x9 ref (get_grid ref) is_9x9.
Proof. intros σ Hσ. by eexists _, σ. Qed.

Lemma returns_is_solved ref : returns_9x9 ref (_is_solved ref) (λ _, True).
Proof. intros σ Hσ. by eexists _, σ. Qed.

Lemma grid_set_9x9 g row col num :
  is_9x9 g → row < 9 → col < 9 →
  ∃ g', grid_set g row col num = Ok g' ∧ is_9x9 g'.
Proof.
  intros [Hlen Hrows] Hrow Hcol. unfold grid_set.
  destruct (g !! row) as [r|] eqn:Hr.
  2: { apply lookup_ge_None in Hr. lia. }
  assert (length r = 9) as Hlenr.
  { rewrite Forall_forall in Hrows. eapply Hrows, list_elem_of_lookup_2, Hr. }
  destruct (r !! col) as [v|] eqn:Hv.
  2: { apply lookup_ge_None in Hv. lia. }
  eexists. split; [done|]. split.
  - by rewrite length_insert.
  - apply Forall_insert; [done|]. by rewrite length_insert.
Qed.

Lemma returns_set_cell ref row col num :
  row < 9 → col < 9 → returns_9x9 ref (set_cell ref row col num) (λ _, True).
Proof.
  intros Hrow Hcol σ Hσ. unfold set_cell.
  destruct (grid_write_9x9 (row_ids (σ !!! ref)) _ row col num Hσ Hrow Hcol)
    as (g' & -> & Hg').
  eexists _, _. split; [done|]. by rewrite lookup_total_insert_eq.
Qed.

Lemma returns_assign_all ref findings :
  Forall in_range findings →
  returns_9x9 ref (assign_all ref findings) (λ _, True).
Proof.
  intros Hfindings.
  induction Hfindings as [|[[row col] num] findings [Hr Hc] _ IH].
  - by apply returns_ret.
  - cbn [assign_all]. eapply returns_bind; [by apply returns_set_cell|].
    by intros _ _.
Qed.

Lemma returns_ext {A} ref (m m' : M A) Q :
  (∀ σ, m σ = m' σ) → returns_9x9 ref m' Q → returns_9x9 ref m Q.
Proof. intros Heq Hm σ Hσ. rewrite Heq. by apply Hm. Qed.

Lemma returns_iteration_body los ref st :
  set_order los → returns_9x9 ref (iteration_body los ref st) (λ _, True).
Proof.
  intros Hlos. eapply returns_ext; [apply iteration_body_table|].
  unfold table_iteration. cbv zeta.
  eapply returns_bind; [apply returns_get_grid|]. intros g Hg.
  eapply (returns_bind _ _ _ (λ _, True)).
  { apply returns_lift. destruct (init_candidates_9x9 g Hg) as (cm & -> & _).
    by eexists. }
  intros cm _.
  eapply returns_bind.
  { apply returns_lift, (first_effective_9x9 los g cm Hlos Hg). }
  intros [[tag e]|] Hwinner; [|by apply returns_ret].
  eapply (returns_bind _ _ _ (λ _, True)); [|intros; by apply returns_ret].
  destruct e as [findings|n]; [|by apply returns_ret].
  apply returns_assign_all. by eapply Hwinner.
Qed.

Lemma returns_rate_loop los remaining ref st :
  set_order los →
  returns_9x9 ref (rate_loop los remaining ref st) (λ _, True).
Proof.
  intros Hlos. revert st.
  induction remaining as [|remaining IH]; intros st; cbn [rate_loop].
  - eapply returns_bind; [apply returns_is_solved|].
    intros [] _; by apply returns_ret.
  - eapply returns_bind; [apply returns_is_solved|].
    intros [] _; [by apply returns_ret|].
    eapply returns_bind; [by apply returns_iteration_body|].
    intros [[] st'] _; [apply IH | by apply returns_ret].
Qed.

(** C2, as the code has it. [rate_puzzle] does not validate its input and
    has no [InvalidBoard] error: for every grid of nine rows of nine
    integers, whatever the integers (digits outside 0..9, digits repeated
    in a row, column or box), it returns a rating. *)
Theorem rate_puzzle_returns list_of_set (board : nat) (σ : store) :
  set_order list_of_set →
  is_9x9 (grid (σ !!! board)) →
  ∃ rating, (rate_puzzle list_of_set board σ).1 = Ok rating.
Proof.
  intros Hlos Hg. rewrite rate_puzzle_unfold.
  unfold rate_puzzle_run. rewrite M_bind_unfold, deepcopy_unfold.
  destruct (returns_rate_loop list_of_set max_iterations (fresh (dom σ))
              (mkLocals 0 0 []) Hlos (<[fresh (dom σ) := σ !!! board]> σ))
    as ([e st] & σ' & -> & _); [by rewrite lookup_total_insert_eq|].
  by eexists.
Qed.

(** C2 fails as stated. Three malformed grids that are rated, none of
    them raising: a grid with the digit 1 in all 81 cells, an empty grid
    but for the number 10 in its first cell, and the grid with no row at
    all. *)
Lemma malformed_grids_rated :
  (valid_board (replicate 9 (replicate 9 1%Z)) = false
   ∧ (rate_puzzle remove_dups 0 (one_board (replicate 9 (replicate 9 1%Z)))).1
       = Ok ("Easy", 0%Z, []))
  ∧ (valid_board (<[0 := 10%Z :: replicate 8 0%Z]> (replicate 9 (replicate 9 0%Z)))
       = false
     ∧ (rate_puzzle remove_dups 0
          (one_board (<[0 := 10%Z :: replicate 8 0%Z]>
                        (replicate 9 (replicate 9 0%Z))))).1
         = Ok ("Hard", 200%Z, ["requires_expert_technique"]))
  ∧ (valid_board [] = false
     ∧ (rate_puzzle remove_dups 0 (one_board [])).1 = Ok ("Easy", 0%Z, [])).
Proof.
  split; [split; vm_compute; reflexivity|].
  split; split; vm_compute; reflexivity.
Qed.

(** * The theorems at concrete boards *)

Lemma capped_rating_witness :
  (rate_puzzle_run remove_dups 0 (one_board cycling_grid)).1 =
    Ok (IterationCapped, mkLocals 1000 80 (replicate 1000 "pointing_pair"))
  ∧ (1000 = max_iterations
     ∧ length (replicate 1000 "pointing_pair") = max_iterations
     ∧ Forall (λ tag, tag ∈ technique_tags) (replicate 1000 "pointing_pair")
     ∧ 80%Z = hardest (replicate 1000 "pointing_pair")
     ∧ (15 ≤ 80 ≤ 180)%Z
     ∧ (rate_puzzle remove_dups 0 (one_board cycling_grid)).1 =
         Ok (difficulty_of 80, 80%Z, replicate 1000 "pointing_pair")).
Proof.
  split; [apply cycling_grid_run|].
  apply (capped_rating remove_dups 0 (one_board cycling_grid)
           (mkLocals 1000 80 (replicate 1000 "pointing_pair"))).
  apply cycling_grid_run.
Defined.

Lemma rate_puzzle_returns_witness :
  set_order remove_dups
  ∧ is_9x9 (grid (one_board (replicate 9 (replicate 9 1%Z)) !!! 0))
  ∧ ∃ rating,
      (rate_puzzle remove_dups 0 (one_board (replicate 9 (replicate 9 1%Z)))).1
        = Ok rating.
Proof.
  assert (is_9x9 (grid (one_board (replicate 9 (replicate 9 1%Z)) !!! 0)))
    as Hshape by (apply (bool_decide_unpack _); vm_compute; exact I).
  split; [apply set_order_remove_dups|]. split; [exact Hshape|].
  apply (rate_puzzle_returns remove_dups 0
           (one_board (replicate 9 (replicate 9 1%Z))));
    [apply set_order_remove_dups | exact Hshape].
Defined.


Lemma x_wing_layout_line (candidates : candidates_map) (at_ : nat → cell)
    (x1 x2 : nat) :
  (positions_of candidates 1 at_ = [x1; x2]) →
  ∀ i, i < 9 → candidate_at candidates (at_ i) 1 ↔ i = x1 ∨ i = x2.
Proof.
  intros Hpos i Hi. rewrite <- has_candidate_iff.
  assert (i ∈ positions_of candidates 1 at_ ↔ i = x1 ∨ i = x2) as <-.
  { rewrite Hpos. rewrite !elem_of_cons, elem_of_nil. tauto. }
  unfold positions_of. rewrite list_elem_of_filter, elem_of_range9, Is_true_true.
  tauto.
Qed.

Lemma x_wing_pattern_witness :
  ((1 ≤ 1 ≤ 9)%Z ∧ 1 < 5 < 9 ∧ 2 < 6 < 9)
  ∧ (let p := mkXWing "rows" (1, 5) (2, 6) 1 in
     p ∈ find_x_wing x_wing_rows_layout
     ∧ (∀ rc : cell,
          (apply_x_wing x_wing_rows_layout [p]).1 !! rc =
            if decide (rc.1 < 9 ∧ rc.1 ≠ 1 ∧ rc.1 ≠ 5 ∧ (rc.2 = 2 ∨ rc.2 = 6))
            then (λ s, s ∖ {[1%Z]}) <$> x_wing_rows_layout !! rc
            else x_wing_rows_layout !! rc)
     ∧ (∀ r c, r < 9 → r ≠ 1 → r ≠ 5 → c = 2 ∨ c = 6 →
          ¬ candidate_at
              (apply_x_wing x_wing_rows_layout
                 (find_x_wing x_wing_rows_layout)).1 (r, c) 1))
  ∧ (let p := mkXWing "cols" (1, 5) (2, 6) 1 in
     p ∈ find_x_wing x_wing_cols_layout
     ∧ (∀ rc : cell,
          (apply_x_wing x_wing_cols_layout [p]).1 !! rc =
            if decide (rc.2 < 9 ∧ rc.2 ≠ 1 ∧ rc.2 ≠ 5 ∧ (rc.1 = 2 ∨ rc.1 = 6))
            then (λ s, s ∖ {[1%Z]}) <$> x_wing_cols_layout !! rc
            else x_wing_cols_layout !! rc)
     ∧ (∀ r c, c < 9 → c ≠ 1 → c ≠ 5 → r = 2 ∨ r = 6 →
          ¬ candidate_at
              (apply_x_wing x_wing_cols_layout
                 (find_x_wing x_wing_cols_layout)).1 (r, c) 1)).
Proof.
  assert ((1 ≤ 1 ≤ 9)%Z) as HD by lia.
  assert (1 < 5 < 9) as Hl by lia.
  assert (2 < 6 < 9) as Hx by lia.
  split; [done|]. split.
  - apply (proj1 (x_wing_pattern x_wing_rows_layout 1 1 5 2 6 HD Hl Hx)).
    + apply (x_wing_layout_line x_wing_rows_layout (λ c, (1, c))).
      vm_compute. reflexivity.
    + apply (x_wing_layout_line x_wing_rows_layout (λ c, (5, c))).
      vm_compute. reflexivity.
  - apply (proj2 (x_wing_pattern x_wing_cols_layout 1 1 5 2 6 HD Hl Hx)).
    + apply (x_wing_layout_line x_wing_cols_layout (λ r, (r, 1))).
      vm_compute. reflexivity.
    + apply (x_wing_layout_line x_wing_cols_layout (λ r, (r, 5))).
      vm_compute. reflexivity.
Defined.

Lemma init_candidates_invariant_witness :
  is_9x9 cycling_grid
  ∧ ∃ candidates,
      _init_candidates cycling_grid = Ok candidates ∧
      ∀ r c,
        (is_Some (candidates !! (r, c))
         ↔ r < 9 ∧ c < 9 ∧ cell_value cycling_grid r c = 0%Z) ∧
        (∀ s, candidates !! (r, c) = Some s →
           ∀ d, d ∈ s ↔
             (1 ≤ d ≤ 9)%Z ∧
             ∀ r' c', r' < 9 → c' < 9 →
               r' = r ∨ c' = c ∨ (r' / 3 = r / 3 ∧ c' / 3 = c / 3) →
               cell_value cycling_grid r' c' ≠ d).
Proof.
  assert (is_9x9 cycling_grid) as Hshape
    by (apply (bool_decide_unpack _); vm_compute; exact I).
  split; [exact Hshape|]. exact (init_candidates_invariant cycling_grid Hshape).
Defined.

Lemma difficulty_label_boundaries_witness :
  (rate_puzzle remove_dups 0 (one_board easy_puzzle)).1
    = Ok ("Easy", 15%Z, ["naked_single"])
  ∧ (((15 ≤ 15)%Z ↔ "Easy" = "Easy")
     ∧ ((15 < 15 ≤ 90)%Z ↔ "Easy" = "Medium")
     ∧ ((90 < 15)%Z ↔ "Easy" = "Hard")).
Proof.
  assert ((rate_puzzle remove_dups 0 (one_board easy_puzzle)).1
            = Ok ("Easy", 15%Z, ["naked_single"])) as Hrating
    by (vm_compute; reflexivity).
  split; [exact Hrating|].
  exact (difficulty_label_boundaries remove_dups 0 (one_board easy_puzzle)
           "Easy" 15 ["naked_single"] Hrating).
Defined.

Lemma rate_puzzle_preserves_board_witness :
  one_board easy_puzzle !! 0 = Some (mkSudokuBoard easy_puzzle 9 (seq 0 9))
  ∧ ((rate_puzzle remove_dups 0 (one_board easy_puzzle)).2 !! 0
       = Some (mkSudokuBoard easy_puzzle 9 (seq 0 9))
     ∧ one_board easy_puzzle !! fresh (dom (one_board easy_puzzle)) = None
     ∧ ∀ other, other ≠ fresh (dom (one_board easy_puzzle)) →
         (rate_puzzle remove_dups 0 (one_board easy_puzzle)).2 !! other
           = one_board easy_puzzle !! other).
Proof.
  assert (one_board easy_puzzle !! 0 = Some (mkSudokuBoard easy_puzzle 9 (seq 0 9)))
    as Hboard by (vm_compute; reflexivity).
  split; [exact Hboard|].
  exact (rate_puzzle_preserves_board remove_dups 0 (one_board easy_puzzle)
           (mkSudokuBoard easy_puzzle 9 (seq 0 9)) Hboard).
Defined.

Lemma rate_puzzle_deterministic_witness :
  is_Some (one_board easy_puzzle !! 0)
  ∧ ∃ r σ', rate_twice remove_dups 0 (one_board easy_puzzle) = (Ok (r, r), σ').
Proof.
  assert (is_Some (one_board easy_puzzle !! 0)) as Hboard
    by (exists (mkSudokuBoard easy_puzzle 9 (seq 0 9)); vm_compute; reflexivity).
  split; [exact Hboard|].
  exact (rate_puzzle_deterministic remove_dups 0 (one_board easy_puzzle) Hboard).
Defined.

Lemma solved_grid_full r c :
  r < 9 → c < 9 → cell_value (grid (one_board solved_grid !!! 0)) r c ≠ 0%Z.
Proof.
  intros Hr Hc.
  do 9 (destruct r as [|r];
        [do 9 (destruct c as [|c]; [vm_compute; discriminate|]); lia|]).
  lia.
Qed.

Lemma solved_board_rating_witness :
  is_9x9 (grid (one_board solved_grid !!! 0))
  ∧ (∀ r c, r < 9 → c < 9 →
       cell_value (grid (one_board solved_grid !!! 0)) r c ≠ 0%Z)
  ∧ ((rate_puzzle_run remove_dups 0 (one_board solved_grid)).1
       = Ok (Solved, mkLocals 0 0 [])
     ∧ (rate_puzzle remove_dups 0 (one_board solved_grid)).1
         = Ok ("Easy", 0%Z, [])).
Proof.
  assert (is_9x9 (grid (one_board solved_grid !!! 0))) as Hshape
    by (apply (bool_decide_unpack _); vm_compute; exact I).
  split; [exact Hshape|]. split; [exact solved_grid_full|].
  exact (solved_board_rating remove_dups 0 (one_board solved_grid) Hshape
           solved_grid_full).
Defined.


(** * Further properties of the techniques *)

(** ** What every applier does to the candidates *)

Lemma elem_of_candidate_pairs candidates rc d :
  (rc, d) ∈ candidate_pairs candidates ↔ candidate_at candidates rc d.
Proof.
  unfold candidate_pairs, candidate_at.
  rewrite elem_of_list_to_set, list_elem_of_bind. split.
  - intros ([k s] & Hin & Hkv%elem_of_map_to_list). cbn [fst snd] in Hin.
    apply list_elem_of_fmap in Hin as (d' & [= -> ->] & Hd%elem_of_elements).
    by exists s.
  - intros (s & Hs & Hd). exists (rc, s). split.
    + cbn [fst snd]. apply list_elem_of_fmap. exists d.
      by rewrite elem_of_elements.
    + by apply elem_of_map_to_list.
Qed.

Lemma eliminate_lookup num st rc k :
  (eliminate num st rc).1 !! k =
    if decide (rc = k) then (λ s, s ∖ {[num]}) <$> st.1 !! k else st.1 !! k.
Proof.
  rewrite eliminate_candidates, lookup_alter. by case_decide; subst.
Qed.

Lemma eliminate_pairs num st rc :
  candidate_pairs (eliminate num st rc).1 = candidate_pairs st.1 ∖ {[(rc, num)]}.
Proof.
  apply set_eq. intros [k d].
  rewrite elem_of_difference, !elem_of_candidate_pairs, elem_of_singleton.
  unfold candidate_at. rewrite eliminate_lookup. split.
  - intros (s & Hs & Hd). case_decide as Hk.
    + subst k. destruct (st.1 !! rc) as [s0|]; [|done].
      injection Hs as <-. apply elem_of_difference in Hd as [Hd Hne].
      split; [by exists s0|]. intros [= ->]. apply Hne. by apply elem_of_singleton.
    + split; [by exists s|]. by intros [= -> _].
  - intros [(s & Hs & Hd) Hne]. case_decide as Hk.
    + subst k. exists (s ∖ {[num]}). rewrite Hs. split; [done|].
      apply elem_of_difference. split; [done|].
      intros ->%elem_of_singleton. by apply Hne.
    + by exists s.
Qed.

Lemma eliminate_balance num st rc :
  (eliminate num st rc).2 + count_candidates (eliminate num st rc).1
    = st.2 + count_candidates st.1.
Proof.
  unfold count_candidates. rewrite eliminate_pairs, eliminate_count.
  destruct (has_candidate st.1 num rc) eqn:Hhas.
  - apply has_candidate_iff, elem_of_candidate_pairs in Hhas.
    assert (base.size (candidate_pairs st.1) =
            base.size (candidate_pairs st.1 ∖ {[(rc, num)]}) + 1) as ->; [|lia].
    rewrite size_difference by set_solver. rewrite size_singleton.
    assert (base.size (candidate_pairs st.1) ≠ 0); [|lia].
    intros Hz%size_empty_inv. set_solver.
  - assert ((rc, num) ∉ candidate_pairs st.1) as Hnot.
    { rewrite elem_of_candidate_pairs, <- has_candidate_iff. by rewrite Hhas. }
    replace (candidate_pairs st.1 ∖ {[(rc, num)]}) with (candidate_pairs st.1)
      by set_solver.
    lia.
Qed.

Lemma run_eliminations_balance steps st :
  (run_eliminations steps st).2 + count_candidates (run_eliminations steps st).1
    = st.2 + count_candidates st.1.
Proof.
  revert st. induction steps as [|step steps IH]; intros st; [done|].
  cbn [run_eliminations foldl]. fold (run_eliminations steps (eliminate step.1 st step.2)).
  rewrite IH. apply eliminate_balance.
Qed.

Lemma run_eliminations_subset steps st :
  candidate_pairs (run_eliminations steps st).1 ⊆ candidate_pairs st.1.
Proof.
  intros [rc d]. rewrite !elem_of_candidate_pairs. unfold candidate_at.
  rewrite run_eliminations_lookup. intros (s & Hs & Hd).
  destruct (st.1 !! rc) as [s0|]; [|done]. injection Hs as <-.
  exists s0. split; [done|]. set_solver.
Qed.

Lemma run_eliminations_dom steps st :
  dom (run_eliminations steps st).1 = dom st.1.
Proof.
  apply set_eq. intros rc. rewrite !elem_of_dom, run_eliminations_lookup.
  by rewrite fmap_is_Some.
Qed.

(** The three facts for an applier that runs the steps of its findings *)
Lemma applier_accounting {F} (apply : candidates_map → list F → candidates_map * nat)
    (steps : F → list (Z * cell)) candidates findings :
  (∀ cm fs, apply cm fs = run_eliminations (fs ≫= steps) (cm, 0)) →
  (apply candidates findings).2
      + count_candidates (apply candidates findings).1
    = count_candidates candidates
  ∧ candidate_pairs (apply candidates findings).1 ⊆ candidate_pairs candidates
  ∧ dom (apply candidates findings).1 = dom candidates.
Proof.
  intros ->. split; [|split].
  - by rewrite run_eliminations_balance.
  - apply (run_eliminations_subset _ (candidates, 0)).
  - apply (run_eliminations_dom _ (candidates, 0)).
Qed.

(** X1. Every applier returns exactly the number of candidates it has
    removed: the count it returns plus the number of (cell, digit)
    candidates left equals the number of candidates before. It only
    removes candidates, and the cells that have a candidate set are the
    same before and after. *)
Theorem appliers_count_removed (candidates : candidates_map) :
  (∀ pairs,
     let r := apply_naked_pairs candidates pairs in
     r.2 + count_candidates r.1 = count_candidates candidates
     ∧ candidate_pairs r.1 ⊆ candidate_pairs candidates
     ∧ dom r.1 = dom candidates)
  ∧ (∀ pointings,
       let r := apply_pointing_pairs candidates pointings in
       r.2 + count_candidates r.1 = count_candidates candidates
       ∧ candidate_pairs r.1 ⊆ candidate_pairs candidates
       ∧ dom r.1 = dom candidates)
  ∧ (∀ x_wings,
       let r := apply_x_wing candidates x_wings in
       r.2 + count_candidates r.1 = count_candidates candidates
       ∧ candidate_pairs r.1 ⊆ candidate_pairs candidates
       ∧ dom r.1 = dom candidates)
  ∧ (∀ swordfish_patterns,
       let r := apply_swordfish candidates swordfish_patterns in
       r.2 + count_candidates r.1 = count_candidates candidates
       ∧ candidate_pairs r.1 ⊆ candidate_pairs candidates
       ∧ dom r.1 = dom candidates)
  ∧ (∀ xy_wing_patterns,
       let r := apply_xy_wing candidates xy_wing_patterns in
       r.2 + count_candidates r.1 = count_candidates candidates
       ∧ candidate_pairs r.1 ⊆ candidate_pairs candidates
       ∧ dom r.1 = dom candidates).
Proof.
  split; [|split; [|split; [|split]]]; intros findings r; subst r.
  - apply (applier_accounting _ _ _ _ apply_naked_pairs_steps).
  - apply (applier_accounting _ _ _ _ apply_pointing_pairs_steps).
  - apply (applier_accounting _ _ _ _ apply_x_wing_steps).
  - apply (applier_accounting _ _ _ _ apply_swordfish_steps).
  - apply (applier_accounting _ _ _ _ apply_xy_wing_steps).
Qed.

Lemma run_eliminations_noop steps st :
  (∀ num rc, (num, rc) ∈ steps → ¬ candidate_at st.1 rc num) →
  run_eliminations steps st = st.
Proof.
  induction steps as [|[num rc] steps IH]; intros Hnone; [done|].
  cbn [run_eliminations foldl fst snd].
  assert (eliminate num st rc = st) as ->.
  { apply eliminate_same_count. rewrite eliminate_count.
    destruct (has_candidate st.1 num rc) eqn:Hhas; [|lia].
    apply has_candidate_iff in Hhas. destruct (Hnone num rc); [left|done]. }
  apply IH. intros num' rc' Hin. apply Hnone. by right.
Qed.

Lemma applier_twice {F} (apply : candidates_map → list F → candidates_map * nat)
    (steps : F → list (Z * cell)) candidates findings :
  (∀ cm fs, apply cm fs = run_eliminations (fs ≫= steps) (cm, 0)) →
  apply (apply candidates findings).1 findings
    = ((apply candidates findings).1, 0).
Proof.
  intros Happly. rewrite (Happly (apply _ _).1).
  apply (run_eliminations_noop _ (_, 0)). cbn [fst].
  intros num rc Hin (s & Hs & Hd). rewrite Happly in Hs.
  rewrite run_eliminations_lookup in Hs. cbn [fst] in Hs.
  destruct (candidates !! rc) as [s0|]; [|done]. injection Hs as <-.
  apply elem_of_difference in Hd as [_ Hnot]. apply Hnot.
  by apply elem_of_eliminated_at.
Qed.

(** X2. Applying the same findings a second time changes nothing and
    reports 0 eliminations, for every applier. *)
Theorem appliers_idempotent (candidates : candidates_map) :
  (∀ pairs,
     apply_naked_pairs (apply_naked_pairs candidates pairs).1 pairs
       = ((apply_naked_pairs candidates pairs).1, 0))
  ∧ (∀ pointings,
       apply_pointing_pairs (apply_pointing_pairs candidates pointings).1 pointings
         = ((apply_pointing_pairs candidates pointings).1, 0))
  ∧ (∀ x_wings,
       apply_x_wing (apply_x_wing candidates x_wings).1 x_wings
         = ((apply_x_wing candidates x_wings).1, 0))
  ∧ (∀ swordfish_patterns,
       apply_swordfish (apply_swordfish candidates swordfish_patterns).1
           swordfish_patterns
         = ((apply_swordfish candidates swordfish_patterns).1, 0))
  ∧ (∀ xy_wing_patterns,
       apply_xy_wing (apply_xy_wing candidates xy_wing_patterns).1
           xy_wing_patterns
         = ((apply_xy_wing candidates xy_wing_patterns).1, 0)).
Proof.
  split; [|split; [|split; [|split]]]; intros findings.
  - apply (applier_twice _ _ _ _ apply_naked_pairs_steps).
  - apply (applier_twice _ _ _ _ apply_pointing_pairs_steps).
  - apply (applier_twice _ _ _ _ apply_x_wing_steps).
  - apply (applier_twice _ _ _ _ apply_swordfish_steps).
  - apply (applier_twice _ _ _ _ apply_xy_wing_steps).
Qed.

(** ** Incremental update of the candidates *)

Lemma grid_set_cell_value g row col num g' :
  grid_set g row col num = Ok g' →
  ∀ r c, cell_value g' r c =
           if decide (r = row ∧ c = col) then num else cell_value g r c.
Proof.
  unfold grid_set. destruct (g !! row) as [line|] eqn:Hline; [|done].
  destruct (line !! col) as [v|] eqn:Hv; [|done]. intros [= <-] r c.
  unfold cell_value. destruct (decide (r = row)) as [->|Hr].
  - rewrite list_lookup_insert_eq by (by eapply lookup_lt_Some).
    rewrite Hline. cbn [mbind option_bind].
    destruct (decide (c = col)) as [->|Hc].
    + rewrite decide_True by done.
      by rewrite list_lookup_insert_eq by (by eapply lookup_lt_Some).
    + rewrite decide_False by (by intros [_ ?]).
      by rewrite list_lookup_insert_ne.
  - rewrite decide_False by (by intros [? _]).
    by rewrite list_lookup_insert_ne.
Qed.

Lemma grid_set_keeps_9x9 g row col num g' :
  is_9x9 g → grid_set g row col num = Ok g' → is_9x9 g'.
Proof.
  intros [Hlen Hrows]. unfold grid_set.
  destruct (g !! row) as [line|] eqn:Hline; [|done].
  destruct (line !! col) as [v|] eqn:Hv; [|done]. intros [= <-]. split.
  - by rewrite length_insert.
  - apply Forall_insert; [done|]. rewrite length_insert.
    rewrite Forall_forall in Hrows. eapply Hrows, list_elem_of_lookup_2, Hline.
Qed.

Lemma placed_grid_set g g' row col num cells :
  (∀ r c, cell_value g' r c =
            if decide (r = row ∧ c = col) then num else cell_value g r c) →
  cell_value g row col = 0%Z → num ≠ 0%Z →
  placed g' cells =
    placed g cells ∪ (if decide ((row, col) ∈ cells) then {[num]} else ∅).
Proof.
  intros Hg' Hzero Hnum. apply set_eq. intros d.
  rewrite elem_of_union, !elem_of_placed. split.
  - intros (Hd & [r c] & Hin & Hval). cbn [fst snd] in Hval.
    rewrite Hg' in Hval. case_decide as Hrc.
    + destruct Hrc as [-> ->]. right. rewrite decide_True by done.
      by apply elem_of_singleton.
    + left. split; [done|]. by exists (r, c).
  - intros [(Hd & [r c] & Hin & Hval)|Hd].
    + split; [done|]. exists (r, c). split; [done|]. cbn [fst snd] in *.
      rewrite Hg'. case_decide as Hrc; [|done].
      destruct Hrc as [-> ->]. congruence.
    + case_decide as Hin; [|by apply not_elem_of_empty in Hd].
      apply elem_of_singleton in Hd as ->. split; [done|].
      exists (row, col). split; [done|]. cbn [fst snd]. rewrite Hg'.
      by rewrite decide_True.
Qed.

Lemma discard_candidate_lookup num candidates rc k :
  discard_candidate num candidates rc !! k =
    if decide (rc = k) then (λ s, s ∖ {[num]}) <$> candidates !! k
    else candidates !! k.
Proof.
  unfold discard_candidate. destruct (candidates !! rc) as [s|] eqn:Hs.
  - rewrite lookup_insert. case_decide; [|done]. subst. by rewrite Hs.
  - case_decide; [|done]. subst. by rewrite Hs.
Qed.

Lemma foldl_discard_candidate_lookup num cells candidates k :
  foldl (discard_candidate num) candidates cells !! k =
    if decide (k ∈ cells) then (λ s, s ∖ {[num]}) <$> candidates !! k
    else candidates !! k.
Proof.
  revert candidates. induction cells as [|rc cells IH]; intros candidates.
  - cbn [foldl]. rewrite decide_False; [done|]. apply not_elem_of_nil.
  - cbn [foldl]. rewrite IH, discard_candidate_lookup.
    destruct (decide (rc = k)) as [->|Hne].
    + rewrite (decide_True (P := k ∈ k :: cells)) by left.
      case_decide; [|done]. destruct (candidates !! k); [|done].
      cbn. f_equal. set_solver.
    + apply decide_ext. rewrite elem_of_cons. naive_solver.
Qed.

Lemma update_candidates_lookup candidates row col num k :
  update_candidates candidates row col num !! k =
    if decide (k = (row, col)) then None
    else
      (λ s, if decide ((k.1 = row ∧ k.2 < 9) ∨ (k.2 = col ∧ k.1 < 9)
                       ∨ k ∈ box_cells (row / 3 * 3) (col / 3 * 3))
            then s ∖ {[num]} else s) <$> candidates !! k.
Proof.
  unfold update_candidates. cbv zeta.
  rewrite !foldl_discard_candidate_lookup.
  assert (∀ cm : candidates_map,
            match cm !! (row, col) with
            | Some _ => delete (row, col) cm
            | None => cm
            end !! k
            = if decide (k = (row, col)) then None else cm !! k) as ->.
  { intros cm. destruct (cm !! (row, col)) eqn:Hrc.
    - rewrite lookup_delete. by repeat case_decide; subst.
    - case_decide; [by subst|done]. }
  assert (k ∈ (λ c, (row, c)) <$> range9 ↔ k.1 = row ∧ k.2 < 9) as Hrow.
  { rewrite list_elem_of_fmap. setoid_rewrite elem_of_range9.
    destruct k as [r c]. cbn [fst snd]. naive_solver. }
  assert (k ∈ (λ r, (r, col)) <$> range9 ↔ k.2 = col ∧ k.1 < 9) as Hcol.
  { rewrite list_elem_of_fmap. setoid_rewrite elem_of_range9.
    destruct k as [r c]. cbn [fst snd]. naive_solver. }
  destruct (decide (k = (row, col))) as [->|Hne].
  { by repeat case_decide. }
  destruct (candidates !! k) as [s|]; [|by repeat case_decide].
  cbn [fmap option_fmap option_map].
  destruct (decide (k ∈ (λ c, (row, c)) <$> range9)) as [H1|H1];
    destruct (decide (k ∈ (λ r, (r, col)) <$> range9)) as [H2|H2];
    destruct (decide (k ∈ box_cells (row / 3 * 3) (col / 3 * 3))) as [H3|H3];
    rewrite ?Hrow, ?Hcol in H1, H2;
    cbn [fmap option_fmap option_map]; f_equal;
    (case_decide as Hany; [set_solver | tauto]).
Qed.

Lemma box_cells_symmetric r c row col :
  r < 9 → c < 9 → row < 9 → col < 9 →
  (r, c) ∈ box_cells (row / 3 * 3) (col / 3 * 3) ↔
  (row, col) ∈ box_cells (r / 3 * 3) (c / 3 * 3).
Proof.
  intros. rewrite !elem_of_box_cells. cbn [fst snd].
  rewrite <- !same_box_iff. naive_solver.
Qed.

Lemma recompute_sets (D A B C : gset Z) (num : Z) (P1 P2 P3 Q : Prop)
    `{!Decision P1, !Decision P2, !Decision P3, !Decision Q} :
  (Q ↔ P1 ∨ P2 ∨ P3) →
  D ∖ (A ∪ (if decide P1 then {[num]} else ∅))
    ∖ (B ∪ (if decide P2 then {[num]} else ∅))
    ∖ (C ∪ (if decide P3 then {[num]} else ∅))
  = (if decide Q then (D ∖ A ∖ B ∖ C) ∖ {[num]} else D ∖ A ∖ B ∖ C).
Proof.
  intros HQ.
  destruct (decide P1), (decide P2), (decide P3), (decide Q);
    try (exfalso; tauto); clear; set_solver.
Qed.

(** X3. Placing a non-zero number in an empty cell and updating the
    candidate map with [update_candidates] gives exactly the candidate map
    that [_init_candidates] builds from the new grid. *)
Theorem update_candidates_is_recomputation (g g' : Grid)
    (candidates : candidates_map) (row col : nat) (num : Z) :
  is_9x9 g → row < 9 → col < 9 →
  cell_value g row col = 0%Z → num ≠ 0%Z →
  _init_candidates g = Ok candidates →
  grid_set g row col num = Ok g' →
  _init_candidates g' = Ok (update_candidates candidates row col num).
Proof.
  intros Hg Hrow Hcol Hzero Hnum Hinit Hset.
  pose proof (grid_set_keeps_9x9 _ _ _ _ _ Hg Hset) as Hg'.
  pose proof (grid_set_cell_value _ _ _ _ _ Hset) as Hval.
  destruct (init_candidates_9x9 g Hg) as (cm & Hcm & Hlook).
  rewrite Hinit in Hcm. injection Hcm as <-.
  destruct (init_candidates_9x9 g' Hg') as (cm' & -> & Hlook').
  f_equal. apply map_eq. intros [r c].
  rewrite Hlook', update_candidates_lookup, Hlook. cbn [fst snd].
  rewrite Hval. destruct (decide ((r, c) = (row, col))) as [[= -> ->]|Hne].
  { rewrite (decide_True (P := row = row ∧ col = col)) by done.
    rewrite decide_False; [done|]. by intros (_ & _ & ?). }
  rewrite (decide_False (P := r = row ∧ c = col)) by (by intros [-> ->]).
  destruct (decide (r < 9 ∧ c < 9 ∧ cell_value g r c = 0%Z))
    as [(Hr & Hc & Hrc)|]; [|done].
  assert (cell_value g' r c = 0%Z) as Hrc'.
  { rewrite Hval, decide_False; [done|]. by intros [-> ->]. }
  rewrite !get_candidates_9x9 by done.
  rewrite (decide_False (P := cell_value g' r c ≠ 0%Z)) by (by intros ?).
  rewrite (decide_False (P := cell_value g r c ≠ 0%Z)) by (by intros ?).
  cbn [fmap option_fmap option_map]. f_equal.
  rewrite !(placed_grid_set g g' row col num) by done.
  assert ((row, col) ∈ (λ c', (r, c')) <$> range9 ↔ r = row) as Hinrow.
  { rewrite list_elem_of_fmap. setoid_rewrite elem_of_range9. naive_solver. }
  assert ((row, col) ∈ (λ r', (r', c)) <$> range9 ↔ c = col) as Hincol.
  { rewrite list_elem_of_fmap. setoid_rewrite elem_of_range9. naive_solver. }
  pose proof (box_cells_symmetric r c row col Hr Hc Hrow Hcol) as Hbox.
  apply recompute_sets. rewrite Hinrow, Hincol, <- Hbox. clear -Hr Hc. tauto.
Qed.


Lemma update_candidates_is_recomputation_witness :
  ∃ candidates g',
    _init_candidates easy_puzzle = Ok candidates
    ∧ grid_set easy_puzzle 6 8 4 = Ok g'
    ∧ _init_candidates g' = Ok (update_candidates candidates 6 8 4).
Proof.
  assert (is_9x9 easy_puzzle) as Hshape
    by (apply (bool_decide_unpack _); vm_compute; exact I).
  destruct (_init_candidates easy_puzzle) as [candidates|e] eqn:Hinit;
    [|vm_compute in Hinit; discriminate Hinit].
  assert (cell_value easy_puzzle 6 8 = 0%Z) as Hempty by reflexivity.
  assert (4 ≠ 0)%Z as Hnum by lia.
  assert (6 < 9) as Hrow by lia.
  assert (8 < 9) as Hcol by lia.
  destruct (grid_set easy_puzzle 6 8 4) as [g'|e] eqn:Hset;
    [|vm_compute in Hset; discriminate Hset].
  exists candidates, g'. split; [reflexivity|]. split; [reflexivity|].
  exact (update_candidates_is_recomputation easy_puzzle g' candidates 6 8 4
           Hshape Hrow Hcol Hempty Hnum Hinit Hset).
Defined.


(** ** Naked singles *)

Lemma elem_of_candidates_items candidates rc s :
  (rc, s) ∈ candidates_items candidates ↔
    rc.1 < 9 ∧ rc.2 < 9 ∧ candidates !! rc = Some s.
Proof.
  unfold candidates_items. rewrite list_elem_of_omap.
  setoid_rewrite elem_of_all_cells. split.
  - intros (rc' & [Hr Hc] & Hf). destruct (candidates !! rc') eqn:Hs; [|done].
    by injection Hf as -> ->.
  - intros (Hr & Hc & Hs). exists rc. by rewrite Hs.
Qed.

Lemma find_naked_singles_exact candidates r c d :
  (r, c, d) ∈ find_naked_singles candidates ↔
    r < 9 ∧ c < 9 ∧ candidates !! (r, c) = Some {[d]}.
Proof.
  unfold find_naked_singles. rewrite list_elem_of_bind. split.
  - intros ([rc s] & Hin & (Hr & Hc & Hs)%elem_of_candidates_items).
    case_decide as Hsize; [|by apply elem_of_nil in Hin].
    apply size_1_elem_of in Hsize as [x Hx]. apply leibniz_equiv in Hx. subst s.
    rewrite elements_singleton in Hin.
    apply list_elem_of_singleton in Hin. injection Hin as -> -> ->.
    destruct rc. done.
  - intros (Hr & Hc & Hs). exists ((r, c), {[d]}). split.
    + rewrite decide_True by apply size_singleton.
      rewrite elements_singleton. by apply list_elem_of_singleton.
    + by apply elem_of_candidates_items.
Qed.

Lemma init_candidates_lookup g candidates r c s :
  is_9x9 g → _init_candidates g = Ok candidates →
  candidates !! (r, c) = Some s ↔
    r < 9 ∧ c < 9 ∧ cell_value g r c = 0%Z ∧ ∀ d, d ∈ s ↔ consistent g r c d.
Proof.
  intros Hg Hinit. destruct (init_candidates_9x9 g Hg) as (cm & Hcm & Hlook).
  rewrite Hinit in Hcm. injection Hcm as <-.
  rewrite Hlook. cbn [fst snd]. case_decide as Hrc.
  - destruct Hrc as (Hr & Hc & Hz).
    destruct (_get_candidates g r c) as [s'|] eqn:Hget.
    2: { by rewrite get_candidates_9x9 in Hget. }
    pose proof (λ d, elem_of_get_candidates g r c s' d Hg Hr Hc Hz Hget) as Hs'.
    split.
    + intros [= <-]. done.
    + intros (_ & _ & _ & Hs). f_equal. apply set_eq. intros d.
      etrans; [apply Hs'|]. symmetry. apply Hs.
  - split; [done|]. intros (? & ? & ? & _). by destruct Hrc.
Qed.

(** X4. On a grid of nine rows of nine integers, [find_naked_singles]
    reports [(r, c, d)] exactly when [(r, c)] is an empty cell of the board
    and [d] is the one and only digit that can go there: the only digit of
    1..9 that occurs nowhere in the row, the column and the box of the
    cell. Every cell is reported at most once. *)
Theorem naked_singles_on_board (g : Grid) (candidates : candidates_map) :
  is_9x9 g → _init_candidates g = Ok candidates →
  (∀ r c d,
     (r, c, d) ∈ find_naked_singles candidates ↔
       r < 9 ∧ c < 9 ∧ cell_value g r c = 0%Z
       ∧ ∀ d', consistent g r c d' ↔ d' = d)
  ∧ NoDup (fst <$> find_naked_singles candidates).
Proof.
  intros Hg Hinit. split.
  - intros r c d. rewrite find_naked_singles_exact.
    rewrite (init_candidates_lookup g candidates r c {[d]} Hg Hinit).
    split.
    + intros (_ & _ & Hr & Hc & Hz & Hs).
      split; [done|]. split; [done|]. split; [done|].
      intros d'. rewrite <- Hs. apply elem_of_singleton.
    + intros (Hr & Hc & Hz & Hs).
      split; [done|]. split; [done|].
      split; [done|]. split; [done|]. split; [done|].
      intros d'. rewrite Hs. apply elem_of_singleton.
  - unfold find_naked_singles, candidates_items.
    assert (NoDup all_cells) as Hnodup.
    { apply (bool_decide_unpack _). by vm_compute. }
    induction Hnodup as [|rc cells Hnotin Hnodup IH]; [constructor|].
    cbn [omap list_omap]. destruct (candidates !! rc) as [s|] eqn:Hs; [|done].
    cbn [fmap option_fmap option_map]. rewrite bind_cons, fmap_app.
    apply NoDup_app. split; [|split; [|done]].
    + case_decide; [|constructor]. destruct (elements s); [constructor|].
      apply NoDup_singleton.
    + intros x Hx. case_decide; [|by apply elem_of_nil in Hx].
      destruct (elements s); [by apply elem_of_nil in Hx|].
      apply list_elem_of_singleton in Hx. cbn in Hx. subst x.
      intros (y & Hy1 & Hy2)%list_elem_of_fmap.
      apply list_elem_of_bind in Hy2 as ([rc' s'] & Hy2 & Hin).
      apply list_elem_of_omap in Hin as (rc'' & Hin & Hf).
      destruct (candidates !! rc''); [|done]. injection Hf as -> ->.
      case_decide; [|by apply elem_of_nil in Hy2].
      destruct (elements s'); [by apply elem_of_nil in Hy2|].
      apply list_elem_of_singleton in Hy2. subst y. cbn in Hy1.
      destruct rc, rc'. cbn in Hy1. injection Hy1 as -> ->. done.
Qed.

Lemma naked_singles_on_board_witness :
  ∃ candidates,
    _init_candidates easy_puzzle = Ok candidates
    ∧ (∀ r c d,
         (r, c, d) ∈ find_naked_singles candidates ↔
           r < 9 ∧ c < 9 ∧ cell_value easy_puzzle r c = 0%Z
           ∧ ∀ d', consistent easy_puzzle r c d' ↔ d' = d)
    ∧ NoDup (fst <$> find_naked_singles candidates).
Proof.
  assert (is_9x9 easy_puzzle) as Hshape
    by (apply (bool_decide_unpack _); vm_compute; exact I).
  destruct (_init_candidates easy_puzzle) as [candidates|e] eqn:Hinit;
    [|vm_compute in Hinit; discriminate Hinit].
  exists candidates. split; [reflexivity|].
  exact (naked_singles_on_board easy_puzzle candidates Hshape Hinit).
Defined.

(** ** Hidden singles *)

Lemma filter_singleton_iff {A} (P : A → Prop) `{∀ x, Decision (P x)}
    (l : list A) (x : A) :
  NoDup l →
  filter P l = [x] ↔ x ∈ l ∧ P x ∧ ∀ y, y ∈ l → P y → y = x.
Proof.
  intros Hnodup. split.
  - intros Hf.
    assert (∀ y, y ∈ l ∧ P y ↔ y = x) as Hiff.
    { intros y. rewrite <- list_elem_of_singleton, <- Hf, list_elem_of_filter.
      tauto. }
    split; [by apply Hiff|]. split; [by apply Hiff|].
    intros y Hy HP. by apply Hiff.
  - intros (Hx & HP & Huniq).
    pose proof (NoDup_filter P l Hnodup) as Hnd.
    assert (∀ y, y ∈ filter P l → y = x) as Hall.
    { intros y [HPy Hy]%list_elem_of_filter. by apply Huniq. }
    assert (x ∈ filter P l) as Hin by (by apply list_elem_of_filter).
    destruct (filter P l) as [|a [|b t]].
    + by apply elem_of_nil in Hin.
    + f_equal. apply Hall. left.
    + assert (a = x) as -> by (apply Hall; left).
      assert (b = x) as -> by (apply Hall; right; left).
      apply NoDup_cons in Hnd as [Hnotin _]. destruct Hnotin. left.
Qed.

Lemma elem_of_hidden_at candidates cells num f :
  NoDup cells →
  f ∈ hidden_at candidates cells num ↔
    f.2 = num ∧ only_place candidates cells f.1 num.
Proof.
  intros Hnodup. unfold hidden_at, only_place. cbv zeta.
  pose proof (filter_singleton_iff
    (λ rc, has_candidate candidates num rc) cells f.1 Hnodup) as Hsingle.
  assert (∀ rc, has_candidate candidates num rc ↔ candidate_at candidates rc num)
    as Hcand by (intros rc; rewrite Is_true_true; apply has_candidate_iff).
  assert (f.1 ∈ cells ∧ candidate_at candidates f.1 num
          ∧ (∀ rc', rc' ∈ cells → candidate_at candidates rc' num → rc' = f.1)
          ↔ filter (λ rc, has_candidate candidates num rc) cells = [f.1])
    as ->.
  { rewrite Hsingle, Hcand. split; intros (? & ? & Huniq);
      (split; [done|]); (split; [done|]); intros rc' ? ?;
      (apply Huniq; [done|]); by apply Hcand. }
  clear Hsingle Hcand.
  destruct (filter _ cells) as [|rc [|rc' l]].
  - split; [by intros ?%elem_of_nil | by intros [_ ?]].
  - rewrite list_elem_of_singleton. destruct f as [[r c] d], rc as [r' c'].
    cbn [fst snd]. split; [by intros [= -> -> ->] | by intros [-> [= -> ->]]].
  - split; [by intros ?%elem_of_nil | by intros [_ ?]].
Qed.

(** The loop over the digits of the three [_find_hidden_in_*], given what
    the test "is [num] already in the unit" answers *)
Lemma hidden_loop_exact g candidates cells
    (body : list (nat * nat * Z) → Z → result (list (nat * nat * Z))) :
  NoDup cells →
  (∀ results num, ∃ found : bool,
     body results num =
       Ok (if found then results
           else results ++ hidden_at candidates cells num)
     ∧ (found = false ↔ not_placed g cells num)) →
  ∃ results,
    for_each body [] digits = Ok results
    ∧ ∀ f, f ∈ results ↔
        (1 ≤ f.2 ≤ 9)%Z ∧ not_placed g cells f.2
        ∧ only_place candidates cells f.1 f.2.
Proof.
  intros Hnodup Hbody.
  destruct (for_each_inv body
    (λ done results, ∀ f, f ∈ results ↔
       f.2 ∈ done ∧ not_placed g cells f.2
       ∧ only_place candidates cells f.1 f.2) digits [])
    as (results & Hrun & Hres).
  - intros f. split; [by intros ?%elem_of_nil | by intros [?%elem_of_nil _]].
  - intros done num results Hres _.
    destruct (Hbody results num) as (found & -> & Hfound).
    eexists. split; [done|]. intros f.
    rewrite elem_of_app, list_elem_of_singleton. destruct found.
    + rewrite Hres. split; [tauto|]. intros [[Hin | Heq] [Hnp Hop]]; [done|].
      rewrite Heq in Hnp. apply Hfound in Hnp. done.
    + rewrite elem_of_app, Hres, (elem_of_hidden_at _ _ _ _ Hnodup).
      assert (not_placed g cells num) as Hnp by (by apply Hfound).
      split.
      * intros [(? & ? & ?) | [Heq Hop]]; [tauto|].
        rewrite Heq. tauto.
      * intros [[Hin | Heq] [Hnp' Hop]]; [tauto|].
        right. by rewrite Heq in Hop.
  - exists results. split; [done|]. intros f. rewrite Hres, elem_of_digits. done.
Qed.

Lemma NoDup_row_cells i : NoDup (row_cells i).
Proof.
  apply NoDup_fmap_2; [by intros c c' [=] | apply NoDup_seq].
Qed.

Lemma NoDup_col_cells i : NoDup (col_cells i).
Proof.
  apply NoDup_fmap_2; [by intros r r' [=] | apply NoDup_seq].
Qed.

Lemma NoDup_box_cells br bc : NoDup (box_cells br bc).
Proof.
  unfold box_cells. apply NoDup_bind.
  - intros r r' rc _ _ (c & ->%list_elem_of_singleton & _)%list_elem_of_bind
      (c' & Heq%list_elem_of_singleton & _)%list_elem_of_bind.
    by injection Heq.
  - intros r _. apply NoDup_bind.
    + intros c c' rc _ _ ->%list_elem_of_singleton Heq%list_elem_of_singleton.
      by injection Heq.
    + intros c _. apply NoDup_singleton.
    + apply NoDup_seq.
  - apply NoDup_seq.
Qed.

Lemma row_not_placed g row r num :
  is_9x9 g → g !! row = Some r →
  num ∉ r ↔ not_placed g (row_cells row) num.
Proof.
  intros [Hlen Hrows] Hr.
  assert (length r = 9) as Hlenr.
  { eapply (proj1 (Forall_forall _ _) Hrows), list_elem_of_lookup_2, Hr. }
  unfold not_placed, row_cells. split.
  - intros Hnotin rc (c & -> & Hc%elem_of_range9)%list_elem_of_fmap Heq.
    apply Hnotin. unfold cell_value in Heq. cbn [fst snd] in Heq.
    rewrite Hr in Heq. cbn in Heq.
    destruct (r !! c) as [v|] eqn:Hv.
    + cbn in Heq. subst v. by eapply list_elem_of_lookup_2.
    + apply lookup_ge_None in Hv. lia.
  - intros Hnp [c Hc]%list_elem_of_lookup.
    apply (Hnp (row, c)).
    + apply list_elem_of_fmap. exists c. split; [done|].
      apply elem_of_range9. apply lookup_lt_Some in Hc. lia.
    + unfold cell_value. cbn [fst snd]. rewrite Hr. cbn. by rewrite Hc.
Qed.

Lemma col_not_placed g col num :
  num ∉ (λ r, cell_value g r col) <$> range9 ↔ not_placed g (col_cells col) num.
Proof.
  unfold not_placed, col_cells. rewrite list_elem_of_fmap. split.
  - intros Hnotin rc (r & -> & Hr)%list_elem_of_fmap Heq.
    apply Hnotin. by exists r.
  - intros Hnp (r & -> & Hr). apply (Hnp (r, col)); [|done].
    apply list_elem_of_fmap. by exists r.
Qed.

Lemma box_has_not_placed g num cells :
  is_9x9 g → Forall (λ rc : cell, rc.1 < 9 ∧ rc.2 < 9) cells →
  ∃ found, box_has g num cells = Ok found
           ∧ (found = false ↔ not_placed g cells num).
Proof.
  intros Hg Hcells. unfold not_placed.
  induction Hcells as [|rc cells [Hr Hc] _ (found & IH & Hfound)].
  - exists false. split; [done|]. split; [|done]. by intros _ rc ?%elem_of_nil.
  - cbn [box_has]. rewrite grid_at_9x9, result_bind_Ok by done.
    case_decide as Hv.
    + exists true. split; [done|]. split; [done|].
      intros Hnp. destruct (Hnp rc); [left | done].
    + exists found. split; [done|]. rewrite Hfound. split.
      * intros Hnp rc' [-> | Hin]%elem_of_cons; [done | by apply Hnp].
      * intros Hnp rc' Hin. apply Hnp. by right.
Qed.

Lemma find_hidden_in_row_exact g candidates row :
  is_9x9 g → row < 9 →
  ∃ results,
    _find_hidden_in_row g candidates row = Ok results
    ∧ ∀ f, f ∈ results ↔
        (1 ≤ f.2 ≤ 9)%Z ∧ not_placed g (row_cells row) f.2
        ∧ only_place candidates (row_cells row) f.1 f.2.
Proof.
  intros Hg Hrow. apply hidden_loop_exact; [apply NoDup_row_cells|].
  intros results num. unfold grid_row. destruct (g !! row) as [r|] eqn:Hr.
  2: { apply lookup_ge_None in Hr. destruct Hg. lia. }
  rewrite result_bind_Ok. exists (bool_decide (num ∈ r)). split.
  - by case_decide; [rewrite bool_decide_eq_true_2 | rewrite bool_decide_eq_false_2].
  - rewrite bool_decide_eq_false. by apply row_not_placed.
Qed.

Lemma find_hidden_in_col_exact g candidates col :
  is_9x9 g → col < 9 →
  ∃ results,
    _find_hidden_in_col g candidates col = Ok results
    ∧ ∀ f, f ∈ results ↔
        (1 ≤ f.2 ≤ 9)%Z ∧ not_placed g (col_cells col) f.2
        ∧ only_place candidates (col_cells col) f.1 f.2.
Proof.
  intros Hg Hcol. apply hidden_loop_exact; [apply NoDup_col_cells|].
  intros results num.
  rewrite (mapM_result_Ok _ (λ r, cell_value g r col)), result_bind_Ok.
  2: { intros r Hr%elem_of_range9. by apply grid_at_9x9. }
  exists (bool_decide (num ∈ (λ r, cell_value g r col) <$> range9)). split.
  - by case_decide; [rewrite bool_decide_eq_true_2 | rewrite bool_decide_eq_false_2].
  - rewrite bool_decide_eq_false. apply col_not_placed.
Qed.

Lemma find_hidden_in_box_exact g candidates box_idx :
  is_9x9 g → box_idx < 9 →
  ∃ results,
    _find_hidden_in_box g candidates box_idx = Ok results
    ∧ ∀ f, f ∈ results ↔
        (1 ≤ f.2 ≤ 9)%Z ∧ not_placed g (box_cells_of box_idx) f.2
        ∧ only_place candidates (box_cells_of box_idx) f.1 f.2.
Proof.
  intros Hg Hbox. destruct (box_of_index_bounds box_idx Hbox) as [Hr Hc].
  pose proof (box_cells_bounds _ _ Hr Hc) as Hcells.
  unfold _find_hidden_in_box, box_cells_of. cbv zeta.
  apply hidden_loop_exact; [apply NoDup_box_cells|].
  intros results num.
  destruct (box_has_not_placed g num _ Hg Hcells) as (found & -> & Hfound).
  rewrite result_bind_Ok. exists found. split; [by destruct found | done].
Qed.

Lemma extend_each_exact {B} (f : nat → result (list B)) (P : nat → B → Prop)
    (results : list B) :
  (∀ i, i < 9 → ∃ r, f i = Ok r ∧ ∀ x, x ∈ r ↔ P i x) →
  ∃ results',
    extend_each f results = Ok results'
    ∧ ∀ x, x ∈ results' ↔ x ∈ results ∨ ∃ i, i < 9 ∧ P i x.
Proof.
  intros Hf. unfold extend_each.
  match goal with
  | |- context [for_each ?body _ _] =>
      destruct (for_each_inv body
        (λ done results', ∀ x, x ∈ results' ↔
           x ∈ results ∨ ∃ i, i ∈ done ∧ i < 9 ∧ P i x) range9 results)
        as (results' & Hrun & Hres)
  end.
  - intros x. split; [tauto|]. by intros [? | (i & ?%elem_of_nil & _)].
  - intros done i results0 Hres0 Hi%elem_of_range9.
    destruct (Hf i Hi) as (r & -> & Hr). rewrite result_bind_Ok.
    eexists. split; [done|]. intros x. rewrite elem_of_app, Hres0, Hr. split.
    + intros [[? | (j & Hj & ?)] | HP]; [by left | |].
      * right. exists j. split; [|done]. apply elem_of_app. by left.
      * right. exists i. split; [|done]. apply elem_of_app. right. left.
    + intros [? | (j & [Hj | ->%list_elem_of_singleton]%elem_of_app & Hj9 & HP)].
      * by left; left.
      * left. right. by exists j.
      * by right.
  - exists results'. split; [done|]. intros x. rewrite Hres.
    setoid_rewrite elem_of_range9. split.
    + intros [? | (i & _ & ? & ?)]; [by left | right; by exists i].
    + intros [? | (i & ? & ?)]; [by left | right; by exists i].
Qed.

Lemma find_hidden_singles_exact
    (list_of_set : list (nat * nat * Z) → list (nat * nat * Z)) (g : Grid)
    (candidates : candidates_map) :
  set_order list_of_set → is_9x9 g →
  ∃ hidden,
    find_hidden_singles list_of_set g candidates = Ok hidden
    ∧ NoDup hidden
    ∧ ∀ r c d,
        (r, c, d) ∈ hidden ↔
          (1 ≤ d ≤ 9)%Z
          ∧ ∃ i, i < 9
              ∧ ∃ unit_cells,
                  unit_cells ∈ [row_cells i; col_cells i; box_cells_of i]
                  ∧ not_placed g unit_cells d
                  ∧ only_place candidates unit_cells (r, c) d.
Proof.
  intros Hlos Hg. unfold find_hidden_singles.
  destruct (extend_each_exact (_find_hidden_in_row g candidates) _ []
              (λ i Hi, find_hidden_in_row_exact g candidates i Hg Hi))
    as (r1 & -> & H1).
  rewrite result_bind_Ok.
  destruct (extend_each_exact (_find_hidden_in_col g candidates) _ r1
              (λ i Hi, find_hidden_in_col_exact g candidates i Hg Hi))
    as (r2 & -> & H2).
  rewrite result_bind_Ok.
  destruct (extend_each_exact (_find_hidden_in_box g candidates) _ r2
              (λ i Hi, find_hidden_in_box_exact g candidates i Hg Hi))
    as (r3 & -> & H3).
  rewrite result_bind_Ok. eexists. split; [done|].
  split; [apply Hlos|]. intros r c d.
  rewrite (proj2 (Hlos r3)), H3, H2, H1. cbn [fst snd].
  clear. split.
  - intros [[[[]%elem_of_nil | (i & Hi & Hd & Hnp & Hop)]
            | (i & Hi & Hd & Hnp & Hop)] | (i & Hi & Hd & Hnp & Hop)];
      (split; [done|]); exists i; (split; [done|]); eexists;
      (split; [|done]).
    + left.
    + right; left.
    + right; right; left.
  - intros (Hd & i & Hi & cells & Hcells & Hnp & Hop).
    apply elem_of_cons in Hcells as [-> | Hcells].
    { left. left. right. by exists i. }
    apply elem_of_cons in Hcells as [-> | Hcells].
    { left. right. by exists i. }
    apply list_elem_of_singleton in Hcells as ->.
    right. by exists i.
Qed.

(** X5. On a grid of nine rows of nine integers, and for any candidate
    map, [find_hidden_singles] returns (it does not raise) a list without
    repetition that holds [(r, c, d)] exactly when [d] is one of 1..9 and
    there is a row, a column or a box in which [d] is not placed yet and in
    which [(r, c)] is the only cell that has [d] as a candidate. *)
Theorem hidden_singles_on_board
    (list_of_set : list (nat * nat * Z) → list (nat * nat * Z)) (g : Grid)
    (candidates : candidates_map) :
  set_order list_of_set → is_9x9 g →
  ∃ hidden,
    find_hidden_singles list_of_set g candidates = Ok hidden
    ∧ NoDup hidden
    ∧ ∀ r c d,
        (r, c, d) ∈ hidden ↔
          (1 ≤ d ≤ 9)%Z
          ∧ ∃ i, i < 9
              ∧ ∃ unit_cells,
                  unit_cells ∈ [row_cells i; col_cells i; box_cells_of i]
                  ∧ not_placed g unit_cells d
                  ∧ only_place candidates unit_cells (r, c) d.
Proof. apply find_hidden_singles_exact. Qed.

Lemma hidden_singles_on_board_witness :
  ∃ candidates hidden,
    _init_candidates easy_puzzle = Ok candidates
    ∧ find_hidden_singles remove_dups easy_puzzle candidates = Ok hidden
    ∧ NoDup hidden
    ∧ ∀ r c d,
        (r, c, d) ∈ hidden ↔
          (1 ≤ d ≤ 9)%Z
          ∧ ∃ i, i < 9
              ∧ ∃ unit_cells,
                  unit_cells ∈ [row_cells i; col_cells i; box_cells_of i]
                  ∧ not_placed easy_puzzle unit_cells d
                  ∧ only_place candidates unit_cells (r, c) d.
Proof.
  assert (is_9x9 easy_puzzle) as Hshape
    by (apply (bool_decide_unpack _); vm_compute; exact I).
  destruct (_init_candidates easy_puzzle) as [candidates|e] eqn:Hinit;
    [|vm_compute in Hinit; discriminate Hinit].
  exists candidates.
  destruct (hidden_singles_on_board remove_dups easy_puzzle candidates
              set_order_remove_dups Hshape) as (hidden & Hfind & Hhidden).
  exists hidden. split; [reflexivity|]. split; [exact Hfind | exact Hhidden].
Defined.

(** ** Naked pairs *)

Lemma elem_of_pairs_of_omap_iff {A B} (f : A → option B) (l : list A) a b :
  (a, b) ∈ pairs_of (omap f l) ↔
    ∃ x y, (x, y) ∈ pairs_of l ∧ f x = Some a ∧ f y = Some b.
Proof.
  induction l as [|x l IH].
  - split; [by intros ?%elem_of_nil | by intros (? & ? & ?%elem_of_nil & _)].
  - cbn [omap list_omap pairs_of]. destruct (f x) as [a'|] eqn:Hfx.
    + cbn [pairs_of]. rewrite elem_of_app, IH, list_elem_of_fmap. split.
      * intros [(b' & Heq & (y & Hy & Hfy)%list_elem_of_omap)
               | (x' & y' & Hin & Hx' & Hy')].
        -- injection Heq as -> ->. exists x, y. split; [|done].
           apply elem_of_app. left. by apply list_elem_of_fmap_2.
        -- exists x', y'. split; [|done]. apply elem_of_app. by right.
      * intros (x' & y' & [Hin | Hin]%elem_of_app & Hx' & Hy').
        -- apply list_elem_of_fmap in Hin as (y & Heq & Hy).
           injection Heq as -> ->. left. exists b. split; [congruence|].
           apply list_elem_of_omap. by exists y.
        -- right. by exists x', y'.
    + rewrite IH. split.
      * intros (x' & y' & Hin & Hx' & Hy'). exists x', y'. split; [|done].
        apply elem_of_app. by right.
      * intros (x' & y' & [Hin | Hin]%elem_of_app & Hx' & Hy').
        -- apply list_elem_of_fmap in Hin as (y & Heq & Hy).
           injection Heq as -> ->. congruence.
        -- by exists x', y'.
Qed.

Lemma elem_of_pairs_of_inv {A} (x y : A) (l : list A) :
  NoDup l → (x, y) ∈ pairs_of l → x ∈ l ∧ y ∈ l ∧ x ≠ y.
Proof.
  induction 1 as [|z l Hnotin Hnodup IH]; [by intros ?%elem_of_nil|].
  cbn [pairs_of]. intros [Hin | Hin]%elem_of_app.
  - apply list_elem_of_fmap in Hin as (y' & Heq & Hy). injection Heq as -> ->.
    split; [left|]. split; [by right|]. by intros ->.
  - destruct (IH Hin) as (? & ? & ?). split; [by right|]. split; [by right|done].
Qed.

Lemma elem_of_pairs_of_total {A} (x y : A) (l : list A) :
  x ∈ l → y ∈ l → x ≠ y → (x, y) ∈ pairs_of l ∨ (y, x) ∈ pairs_of l.
Proof.
  induction l as [|z l IH]; [by intros ?%elem_of_nil|].
  intros Hx Hy Hne. cbn [pairs_of]. rewrite !elem_of_app.
  apply elem_of_cons in Hx as [-> | Hx]; apply elem_of_cons in Hy as [-> | Hy].
  - done.
  - left. left. by apply list_elem_of_fmap_2.
  - right. left. by apply list_elem_of_fmap_2.
  - destruct (IH Hx Hy Hne); [left | right]; by right.
Qed.

Lemma elem_of_sorted (s : gset Z) d : d ∈ sorted s ↔ d ∈ s.
Proof. unfold sorted. by rewrite merge_sort_Permutation, elem_of_elements. Qed.

Lemma elem_of_find_pairs_in candidates unit_type unit_idx unit_cells p :
  p ∈ find_pairs_in candidates unit_type unit_idx unit_cells ↔
    ∃ rc1 rc2 s,
      (rc1, rc2) ∈ pairs_of unit_cells
      ∧ candidates !! rc1 = Some s ∧ candidates !! rc2 = Some s
      ∧ base.size s = 2
      ∧ p = mkNakedPair unit_type unit_idx [rc1; rc2] (sorted s).
Proof.
  unfold find_pairs_in, bi_value_in. rewrite list_elem_of_bind. split.
  - intros ([[rc1 s1] [rc2 s2]] & Hin & Hpair). cbn [fst snd] in Hin.
    case_decide as Heq; [|by apply elem_of_nil in Hin]. subst s2.
    apply list_elem_of_singleton in Hin.
    apply elem_of_pairs_of_omap_iff in Hpair as (x & y & Hxy & Hx & Hy).
    destruct (candidates !! x) as [sx|] eqn:Hsx; [|done].
    destruct (candidates !! y) as [sy|] eqn:Hsy; [|done].
    destruct (decide (base.size sx = 2)); [|done].
    destruct (decide (base.size sy = 2)); [|done].
    injection Hx as -> ->. injection Hy as -> ->.
    by exists rc1, rc2, s1.
  - intros (rc1 & rc2 & s & Hpair & H1 & H2 & Hsize & ->).
    exists ((rc1, s), (rc2, s)). split.
    + cbn [fst snd]. rewrite decide_True by done. by apply list_elem_of_singleton.
    + apply elem_of_pairs_of_omap_iff. exists rc1, rc2. split; [done|].
      rewrite H1, H2. rewrite !decide_True by done. done.
Qed.

Lemma elem_of_naked_pair_steps p num rc :
  (num, rc) ∈ naked_pair_steps p ↔
    rc ∈ unit_cells_of (np_unit_type p) (np_unit_idx p)
    ∧ (rc ∉ np_cells p) ∧ num ∈ np_nums p.
Proof.
  unfold naked_pair_steps. cbv zeta.
  change (if String.eqb (np_unit_type p) "row"
          then (λ col, (np_unit_idx p, col)) <$> range9
          else if String.eqb (np_unit_type p) "col"
          then (λ row, (row, np_unit_idx p)) <$> range9
          else if String.eqb (np_unit_type p) "box"
          then box_cells (np_unit_idx p / 3 * 3) (np_unit_idx p mod 3 * 3)
          else [])
    with (unit_cells_of (np_unit_type p) (np_unit_idx p)).
  rewrite list_elem_of_bind. split.
  - intros (rc' & Hin & Hrc'). case_decide; [|by apply elem_of_nil in Hin].
    apply list_elem_of_fmap in Hin as (num' & Heq & Hnum).
    injection Heq as -> ->. done.
  - intros (Hrc & Hout & Hnum). exists rc. split; [|done].
    rewrite decide_True by done. apply list_elem_of_fmap. by exists num.
Qed.

Lemma elem_of_find_naked_pairs candidates p :
  p ∈ find_naked_pairs candidates ↔
    ∃ unit_type i rc1 rc2 s,
      unit_type ∈ ["row"; "col"; "box"] ∧ i < 9
      ∧ (rc1, rc2) ∈ pairs_of (unit_cells_of unit_type i)
      ∧ candidates !! rc1 = Some s ∧ candidates !! rc2 = Some s
      ∧ base.size s = 2
      ∧ p = mkNakedPair unit_type i [rc1; rc2] (sorted s).
Proof.
  unfold find_naked_pairs. rewrite !elem_of_app, !list_elem_of_bind.
  unfold _find_pairs_in_row, _find_pairs_in_col, _find_pairs_in_box.
  setoid_rewrite elem_of_find_pairs_in. setoid_rewrite elem_of_range9.
  split.
  + intros [(i & (rc1 & rc2 & s & H) & Hi)
           | [(i & (rc1 & rc2 & s & H) & Hi)
             | (i & (rc1 & rc2 & s & H) & Hi)]].
    * exists "row", i, rc1, rc2, s. split; [left | done].
    * exists "col", i, rc1, rc2, s. split; [right; left | done].
    * exists "box", i, rc1, rc2, s. split; [right; right; left | done].
  + intros (unit_type & i & rc1 & rc2 & s & Htype & Hi & H).
    apply elem_of_cons in Htype as [-> | Htype].
    { left. exists i. split; [|done]. by exists rc1, rc2, s. }
    apply elem_of_cons in Htype as [-> | Htype].
    { right. left. exists i. split; [|done]. by exists rc1, rc2, s. }
    apply list_elem_of_singleton in Htype as ->.
    right. right. exists i. split; [|done]. by exists rc1, rc2, s.
Qed.

(** X6. [find_naked_pairs] reports exactly the naked pairs of the
    candidates: a finding names a row, a column or a box of the board and
    two different cells of it, scanned in this order, that have the same
    set of exactly two candidates, and carries these two digits; every such
    pair of cells is reported. Applying a finding with [apply_naked_pairs]
    removes its digits from the candidates of the other cells of the unit
    and changes the candidates of no other cell. *)
Theorem naked_pair_finding (candidates : candidates_map) (p : NakedPair) :
  (p ∈ find_naked_pairs candidates ↔
     ∃ unit_type i rc1 rc2 s,
       unit_type ∈ ["row"; "col"; "box"] ∧ i < 9
       ∧ (rc1, rc2) ∈ pairs_of (unit_cells_of unit_type i)
       ∧ candidates !! rc1 = Some s ∧ candidates !! rc2 = Some s
       ∧ base.size s = 2
       ∧ p = mkNakedPair unit_type i [rc1; rc2] (sorted s))
  ∧ (∀ unit_type i rc1 rc2,
       (rc1, rc2) ∈ pairs_of (unit_cells_of unit_type i) →
       rc1 ∈ unit_cells_of unit_type i ∧ rc2 ∈ unit_cells_of unit_type i
       ∧ rc1 ≠ rc2)
  ∧ (∀ unit_type i rc1 rc2,
       rc1 ∈ unit_cells_of unit_type i → rc2 ∈ unit_cells_of unit_type i →
       rc1 ≠ rc2 →
       (rc1, rc2) ∈ pairs_of (unit_cells_of unit_type i)
       ∨ (rc2, rc1) ∈ pairs_of (unit_cells_of unit_type i))
  ∧ ∀ rc : cell,
      (apply_naked_pairs candidates [p]).1 !! rc =
        if decide (rc ∈ unit_cells_of (np_unit_type p) (np_unit_idx p)
                   ∧ rc ∉ np_cells p)
        then (λ s, s ∖ list_to_set (np_nums p)) <$> candidates !! rc
        else candidates !! rc.
Proof.
  split; [|split; [|split]].
  - apply elem_of_find_naked_pairs.
  - intros unit_type i rc1 rc2. apply elem_of_pairs_of_inv.
    unfold unit_cells_of.
    destruct (String.eqb unit_type "row"); [apply NoDup_row_cells|].
    destruct (String.eqb unit_type "col"); [apply NoDup_col_cells|].
    destruct (String.eqb unit_type "box"); [apply NoDup_box_cells|].
    apply NoDup_nil_2.
  - intros unit_type i rc1 rc2. apply elem_of_pairs_of_total.
  - intros rc. rewrite apply_naked_pairs_steps, run_eliminations_lookup.
    cbn [fst]. change ([p] ≫= naked_pair_steps) with (naked_pair_steps p ++ []).
    rewrite app_nil_r.
    assert (eliminated_at (naked_pair_steps p) rc =
      if decide (rc ∈ unit_cells_of (np_unit_type p) (np_unit_idx p)
                 ∧ rc ∉ np_cells p)
      then list_to_set (np_nums p) else ∅) as ->.
    { apply set_eq. intros num.
      rewrite elem_of_eliminated_at, elem_of_naked_pair_steps.
      case_decide as Hrc.
      - rewrite elem_of_list_to_set. tauto.
      - rewrite elem_of_empty. tauto. }
    case_decide; [done|].
    destruct (candidates !! rc) as [s|]; [|done]. cbn. f_equal.
    apply set_eq. intros d. rewrite elem_of_difference, elem_of_empty. tauto.
Qed.

(** ** Pointing pairs *)

Lemma elem_of_row_cells i rc : rc ∈ row_cells i ↔ rc.1 = i ∧ rc.2 < 9.
Proof.
  unfold row_cells. rewrite list_elem_of_fmap. setoid_rewrite elem_of_range9.
  destruct rc as [r c]. cbn [fst snd]. split.
  - by intros (c' & [= -> ->] & Hc).
  - intros [-> Hc]. by exists c.
Qed.

Lemma elem_of_col_cells i rc : rc ∈ col_cells i ↔ rc.1 < 9 ∧ rc.2 = i.
Proof.
  unfold col_cells. rewrite list_elem_of_fmap. setoid_rewrite elem_of_range9.
  destruct rc as [r c]. cbn [fst snd]. split.
  - by intros (r' & [= -> ->] & Hr).
  - intros [Hr ->]. by exists r.
Qed.

Lemma elem_of_box_cells_of i rc :
  rc ∈ box_cells_of i ↔
    i / 3 * 3 ≤ rc.1 ∧ rc.1 < i / 3 * 3 + 3
    ∧ i mod 3 * 3 ≤ rc.2 ∧ rc.2 < i mod 3 * 3 + 3.
Proof. unfold box_cells_of. rewrite elem_of_box_cells. tauto. Qed.

Lemma elem_of_pointing_pair_steps p num rc :
  pp_line_type p = "row" ∨ pp_line_type p = "col" →
  (num, rc) ∈ pointing_pair_steps p ↔
    num = pp_num p
    ∧ rc ∈ unit_cells_of (pp_line_type p) (pp_line_idx p)
    ∧ rc ∉ box_cells_of (pp_box_idx p).
Proof.
  intros Htype. unfold pointing_pair_steps. cbv zeta.
  assert ((if String.eqb (pp_line_type p) "row"
           then (λ col, (pp_line_idx p, col)) <$> range9
           else if String.eqb (pp_line_type p) "col"
           then (λ row, (row, pp_line_idx p)) <$> range9
           else [])
          = unit_cells_of (pp_line_type p) (pp_line_idx p)) as ->.
  { by destruct Htype as [-> | ->]. }
  rewrite list_elem_of_bind. setoid_rewrite elem_of_box_cells_of. split.
  - intros (rc' & Hin & Hrc'). case_decide; [by apply elem_of_nil in Hin|].
    apply list_elem_of_singleton in Hin. injection Hin as -> ->. done.
  - intros (-> & Hrc & Hout). exists rc. split; [|done].
    rewrite decide_False by done. by apply list_elem_of_singleton.
Qed.

Lemma all_equal_first {A} `{Countable B} (f : A → B) (x : A) (l : list A) :
  base.size (list_to_set (f <$> x :: l) : gset B) = 1 →
  ∀ y, y ∈ x :: l → f y = f x.
Proof.
  intros [b Hb]%size_1_elem_of y Hy.
  assert (∀ z, z ∈ x :: l → f z = b) as Hall.
  { intros z Hz.
    assert (f z ∈ ({[b]} : gset B)) as Hfz; [|by apply elem_of_singleton in Hfz].
    rewrite <- Hb. apply elem_of_list_to_set. by apply list_elem_of_fmap_2. }
  rewrite (Hall y Hy). symmetry. apply Hall. left.
Qed.

Lemma find_pointing_pairs_sound candidates p :
  p ∈ find_pointing_pairs candidates →
  pp_box_idx p < 9 ∧ (1 ≤ pp_num p ≤ 9)%Z ∧ pp_line_idx p < 9
  ∧ (pp_line_type p = "row" ∨ pp_line_type p = "col")
  ∧ 2 ≤ length (pp_positions p)
  ∧ (∀ rc, rc ∈ pp_positions p ↔
       rc ∈ box_cells_of (pp_box_idx p)
       ∧ candidate_at candidates rc (pp_num p))
  ∧ (∀ rc, rc ∈ pp_positions p →
       rc ∈ unit_cells_of (pp_line_type p) (pp_line_idx p)).
Proof.
  intros Hin.
  unfold find_pointing_pairs in Hin. cbv zeta in Hin.
  apply list_elem_of_bind in Hin as (box_idx & Hin & Hbox%elem_of_range9).
  apply list_elem_of_bind in Hin as (num & Hin & Hnum%elem_of_digits).
  fold (box_cells_of box_idx) in Hin.
  assert (∀ rc,
    rc ∈ filter (λ rc, has_candidate candidates num rc) (box_cells_of box_idx)
    ↔ rc ∈ box_cells_of box_idx ∧ candidate_at candidates rc num) as Hpos.
  { intros rc. rewrite list_elem_of_filter, Is_true_true, has_candidate_iff.
    tauto. }
  assert (∀ rc, rc ∈ box_cells_of box_idx → rc.1 < 9 ∧ rc.2 < 9) as Hbounds.
  { intros rc Hrc. destruct (box_of_index_bounds box_idx Hbox) as [Hr Hc].
    pose proof (box_cells_bounds _ _ Hr Hc) as Hcells.
    rewrite Forall_forall in Hcells. by apply Hcells. }
  destruct (filter _ (box_cells_of box_idx)) as [|p0 positions] eqn:Hfilter.
  { rewrite decide_True in Hin by (cbn; lia). by apply elem_of_nil in Hin. }
  assert (p0 ∈ box_cells_of box_idx) as Hp0 by (apply Hpos; left).
  case_decide as Hlen; [by apply elem_of_nil in Hin|].
  case_decide as Hrows.
  - apply list_elem_of_singleton in Hin as ->.
    cbn [pp_box_idx pp_num pp_line_type pp_line_idx pp_positions].
    split; [done|]. split; [done|]. split; [by apply Hbounds|].
    split; [by left|]. split; [lia|]. split; [done|].
    intros rc Hrc. apply elem_of_row_cells.
    split; [by apply (all_equal_first fst p0 positions)|].
    apply Hbounds, Hpos, Hrc.
  - case_decide as Hcols; [|by apply elem_of_nil in Hin].
    apply list_elem_of_singleton in Hin as ->.
    cbn [pp_box_idx pp_num pp_line_type pp_line_idx pp_positions].
    split; [done|]. split; [done|]. split; [by apply Hbounds|].
    split; [by right|]. split; [lia|]. split; [done|].
    intros rc Hrc. apply elem_of_col_cells.
    split; [|by apply (all_equal_first snd p0 positions)].
    apply Hbounds, Hpos, Hrc.
Qed.

(** X7. Every finding of [find_pointing_pairs] names a box and a digit of
    1..9 that, inside the box, is a candidate of at least two cells, all of
    them on the reported row or column; the finding lists exactly those
    cells. Applying it with [apply_pointing_pairs] removes the digit from
    the candidates of the cells of that row or column outside the box and
    changes the candidates of no other cell. *)
Theorem pointing_pair_finding (candidates : candidates_map) (p : PointingPair) :
  p ∈ find_pointing_pairs candidates →
  (pp_box_idx p < 9 ∧ (1 ≤ pp_num p ≤ 9)%Z ∧ pp_line_idx p < 9
   ∧ (pp_line_type p = "row" ∨ pp_line_type p = "col")
   ∧ 2 ≤ length (pp_positions p)
   ∧ (∀ rc, rc ∈ pp_positions p ↔
        rc ∈ box_cells_of (pp_box_idx p)
        ∧ candidate_at candidates rc (pp_num p))
   ∧ (∀ rc, rc ∈ pp_positions p →
        rc ∈ unit_cells_of (pp_line_type p) (pp_line_idx p)))
  ∧ ∀ rc : cell,
      (apply_pointing_pairs candidates [p]).1 !! rc =
        if decide (rc ∈ unit_cells_of (pp_line_type p) (pp_line_idx p)
                   ∧ rc ∉ box_cells_of (pp_box_idx p))
        then (λ s, s ∖ {[pp_num p]}) <$> candidates !! rc
        else candidates !! rc.
Proof.
  intros Hin. pose proof (find_pointing_pairs_sound candidates p Hin) as Hsound.
  split; [exact Hsound|].
  destruct Hsound as (_ & _ & _ & Htype & _).
  intros rc. rewrite apply_pointing_pairs_steps, run_eliminations_lookup.
  cbn [fst]. change ([p] ≫= pointing_pair_steps) with (pointing_pair_steps p ++ []).
  rewrite app_nil_r.
  assert (eliminated_at (pointing_pair_steps p) rc =
    if decide (rc ∈ unit_cells_of (pp_line_type p) (pp_line_idx p)
               ∧ rc ∉ box_cells_of (pp_box_idx p))
    then {[pp_num p]} else ∅) as ->.
  { apply set_eq. intros num.
    rewrite elem_of_eliminated_at, (elem_of_pointing_pair_steps _ _ _ Htype).
    case_decide as Hrc.
    - rewrite elem_of_singleton. tauto.
    - rewrite elem_of_empty. tauto. }
  case_decide; [done|].
  destruct (candidates !! rc) as [s|]; [|done]. cbn. f_equal.
  apply set_eq. intros d. rewrite elem_of_difference, elem_of_empty. tauto.
Qed.

Lemma pointing_pair_finding_witness :
  let p := mkPointingPair 0 1 "row" 0 [(0, 0); (0, 1)] in
  p ∈ find_pointing_pairs pointing_pair_layout
  ∧ (pp_box_idx p < 9 ∧ (1 ≤ pp_num p ≤ 9)%Z ∧ pp_line_idx p < 9
     ∧ (pp_line_type p = "row" ∨ pp_line_type p = "col")
     ∧ 2 ≤ length (pp_positions p)
     ∧ (∀ rc, rc ∈ pp_positions p ↔
          rc ∈ box_cells_of (pp_box_idx p)
          ∧ candidate_at pointing_pair_layout rc (pp_num p))
     ∧ (∀ rc, rc ∈ pp_positions p →
          rc ∈ unit_cells_of (pp_line_type p) (pp_line_idx p)))
  ∧ ∀ rc : cell,
      (apply_pointing_pairs pointing_pair_layout [p]).1 !! rc =
        if decide (rc ∈ unit_cells_of (pp_line_type p) (pp_line_idx p)
                   ∧ rc ∉ box_cells_of (pp_box_idx p))
        then (λ s, s ∖ {[pp_num p]}) <$> pointing_pair_layout !! rc
        else pointing_pair_layout !! rc.
Proof.
  intros p.
  assert (find_pointing_pairs pointing_pair_layout = [p]) as Hfind
    by (vm_compute; reflexivity).
  assert (p ∈ find_pointing_pairs pointing_pair_layout) as Hp
    by (rewrite Hfind; apply list_elem_of_singleton; reflexivity).
  split; [exact Hp|]. exact (pointing_pair_finding pointing_pair_layout p Hp).
Defined.

(** ** Swordfish *)

Lemma elem_of_pairs_of_seq a n x y :
  (x, y) ∈ pairs_of (seq a n) → a ≤ x ∧ x < y ∧ y < a + n.
Proof.
  revert a. induction n as [|n IH]; intros a; [by intros ?%elem_of_nil|].
  cbn [seq pairs_of]. intros [Hin | Hin]%elem_of_app.
  - apply list_elem_of_fmap in Hin as (y' & Heq & Hy%elem_of_seq).
    injection Heq as -> ->. lia.
  - apply IH in Hin. lia.
Qed.

Lemma elem_of_triples_of_omap_seq {A} (f : nat → option A) a n t1 t2 t3 :
  (t1, t2, t3) ∈ triples_of (omap f (seq a n)) →
  ∃ x y z, a ≤ x ∧ x < y ∧ y < z ∧ z < a + n
           ∧ f x = Some t1 ∧ f y = Some t2 ∧ f z = Some t3.
Proof.
  revert a. induction n as [|n IH]; intros a; [by intros ?%elem_of_nil|].
  cbn [seq omap list_omap].
  assert ((t1, t2, t3) ∈ triples_of (omap f (seq (S a) n)) →
          ∃ x y z, a ≤ x ∧ x < y ∧ y < z ∧ z < a + S n
                   ∧ f x = Some t1 ∧ f y = Some t2 ∧ f z = Some t3) as Hrest.
  { intros (x & y & z & ? & ? & ? & ? & ?)%IH. exists x, y, z.
    split; [lia|]. split; [lia|]. split; [lia|]. split; [lia|]. done. }
  destruct (f a) as [v|] eqn:Hfa; [|exact Hrest].
  cbn [triples_of]. intros [Hin | Hin]%elem_of_app; [|by apply Hrest].
  apply list_elem_of_fmap in Hin as ([b c] & Heq & Hin).
  cbn [fst snd] in Heq. injection Heq as -> -> ->.
  apply elem_of_pairs_of_omap_iff in Hin as (y & z & Hyz & Hy & Hz).
  apply elem_of_pairs_of_seq in Hyz. exists a, y, z.
  split; [lia|]. split; [lia|]. split; [lia|]. split; [lia|]. done.
Qed.

Lemma elem_of_positions_of candidates num (at_ : nat → cell) x :
  x ∈ positions_of candidates num at_ ↔
    x < 9 ∧ candidate_at candidates (at_ x) num.
Proof.
  unfold positions_of.
  rewrite list_elem_of_filter, elem_of_range9, Is_true_true, has_candidate_iff.
  tauto.
Qed.

Lemma sorted_nat_spec (s : gset nat) :
  length (sorted_nat s) = base.size s ∧ NoDup (sorted_nat s)
  ∧ ∀ x, x ∈ sorted_nat s ↔ x ∈ s.
Proof.
  unfold sorted_nat. pose proof (merge_sort_Permutation le (elements s)) as Hp.
  split; [by rewrite Hp|]. split.
  - rewrite Hp. apply NoDup_elements.
  - intros x. by rewrite Hp, elem_of_elements.
Qed.

Lemma elem_of_find_swordfish_in candidates num pattern_type
    (at_ : nat → nat → cell) p :
  p ∈ find_swordfish_in candidates num pattern_type at_ →
  sf_pattern_type p = pattern_type ∧ sf_num p = num
  ∧ (∃ l1 l2 l3, sf_lines p = [l1; l2; l3] ∧ l1 < l2 ∧ l2 < l3 ∧ l3 < 9)
  ∧ length (sf_cross_lines p) = 3 ∧ NoDup (sf_cross_lines p)
  ∧ (∀ x, x ∈ sf_cross_lines p → x < 9)
  ∧ ∀ l, l ∈ sf_lines p →
      2 ≤ length (positions_of candidates num (at_ l)) ≤ 3
      ∧ ∀ x, x < 9 → candidate_at candidates (at_ l x) num →
             x ∈ sf_cross_lines p.
Proof.
  unfold find_swordfish_in.
  intros ([[[l1 s1] [l2 s2]] [l3 s3]] & Hin & Htriple)%list_elem_of_bind.
  cbn [fst snd] in Hin. cbv zeta in Hin.
  case_decide as Hsize; [|by apply elem_of_nil in Hin].
  apply list_elem_of_singleton in Hin as ->.
  cbn [sf_pattern_type sf_num sf_lines sf_cross_lines].
  unfold swordfish_lines, range9 in Htriple.
  apply elem_of_triples_of_omap_seq in Htriple
    as (x & y & z & _ & Hxy & Hyz & Hz & Hx' & Hy' & Hz').
  cbv zeta in Hx', Hy', Hz'.
  destruct (decide (2 ≤ length (positions_of candidates num (at_ x)) ≤ 3))
    as [Hlx|]; [|done].
  destruct (decide (2 ≤ length (positions_of candidates num (at_ y)) ≤ 3))
    as [Hly|]; [|done].
  destruct (decide (2 ≤ length (positions_of candidates num (at_ z)) ≤ 3))
    as [Hlz|]; [|done].
  injection Hx' as -> <-. injection Hy' as -> <-. injection Hz' as -> <-.
  destruct (sorted_nat_spec
    (list_to_set (positions_of candidates num (at_ l1))
     ∪ list_to_set (positions_of candidates num (at_ l2))
     ∪ list_to_set (positions_of candidates num (at_ l3))))
    as (Hlen & Hnodup & Helem).
  split; [done|]. split; [done|].
  split; [exists l1, l2, l3; split; [done | lia]|].
  split; [by rewrite Hlen|]. split; [done|]. split.
  - intros c. rewrite Helem, !elem_of_union, !elem_of_list_to_set,
      !elem_of_positions_of. tauto.
  - intros l Hl. setoid_rewrite Helem.
    setoid_rewrite elem_of_union. setoid_rewrite elem_of_union.
    setoid_rewrite elem_of_list_to_set. setoid_rewrite elem_of_positions_of.
    apply elem_of_cons in Hl as [-> | Hl]; [split; [done | tauto]|].
    apply elem_of_cons in Hl as [-> | Hl]; [split; [done | tauto]|].
    apply list_elem_of_singleton in Hl as ->. split; [done | tauto].
Qed.

Lemma elem_of_swordfish_steps p num rc :
  (num, rc) ∈ swordfish_steps p ↔
    num = sf_num p
    ∧ line_of (sf_pattern_type p) rc < 9
    ∧ (line_of (sf_pattern_type p) rc ∉ sf_lines p)
    ∧ cross_of (sf_pattern_type p) rc ∈ sf_cross_lines p.
Proof.
  unfold swordfish_steps, line_of, cross_of.
  destruct (String.eqb (sf_pattern_type p) "rows").
  - rewrite list_elem_of_bind. split.
    + intros (col & (row & Hin & Hrow%elem_of_range9)%list_elem_of_bind & Hcol).
      case_decide; [|by apply elem_of_nil in Hin].
      apply list_elem_of_singleton in Hin. injection Hin as -> ->. done.
    + intros (-> & Hline & Hout & Hcross). exists rc.2. split; [|done].
      apply list_elem_of_bind. exists rc.1. split; [|by apply elem_of_range9].
      rewrite decide_True by done. apply list_elem_of_singleton.
      by destruct rc.
  - rewrite list_elem_of_bind. split.
    + intros (row & (col & Hin & Hcol%elem_of_range9)%list_elem_of_bind & Hrow).
      case_decide; [|by apply elem_of_nil in Hin].
      apply list_elem_of_singleton in Hin. injection Hin as -> ->. done.
    + intros (-> & Hline & Hout & Hcross). exists rc.1. split; [|done].
      apply list_elem_of_bind. exists rc.2. split; [|by apply elem_of_range9].
      rewrite decide_True by done. apply list_elem_of_singleton.
      by destruct rc.
Qed.

Lemma find_swordfish_sound candidates p :
  p ∈ find_swordfish candidates →
  (sf_pattern_type p = "rows" ∨ sf_pattern_type p = "cols")
  ∧ (1 ≤ sf_num p ≤ 9)%Z
  ∧ (∃ l1 l2 l3, sf_lines p = [l1; l2; l3] ∧ l1 < l2 ∧ l2 < l3 ∧ l3 < 9)
  ∧ length (sf_cross_lines p) = 3 ∧ NoDup (sf_cross_lines p)
  ∧ (∀ x, x ∈ sf_cross_lines p → x < 9)
  ∧ ∀ l, l ∈ sf_lines p →
      2 ≤ length (positions_of candidates (sf_num p)
                    (line_cell (sf_pattern_type p) l)) ≤ 3
      ∧ ∀ x, x < 9 →
          candidate_at candidates (line_cell (sf_pattern_type p) l x)
            (sf_num p) →
          x ∈ sf_cross_lines p.
Proof.
  intros Hin.
  unfold find_swordfish in Hin.
  apply elem_of_app in Hin as [Hin | Hin];
    apply list_elem_of_bind in Hin as (num & Hin & Hnum%elem_of_digits);
    apply elem_of_find_swordfish_in in Hin
      as (Htype & <- & Hlines & Hlen & Hnodup & Hcross & Hpos);
    rewrite Htype; (split; [by auto|]); (split; [done|]);
    (split; [done|]); (split; [done|]); (split; [done|]);
    (split; [done|]); exact Hpos.
Qed.

(** X8. Every finding of [find_swordfish] is a Swordfish of the
    candidates: a digit of 1..9, three rows (or three columns) in
    increasing order, each with two or three cells that have the digit as a
    candidate, and three different columns (resp. rows) that hold all these
    cells. Applying the finding with [apply_swordfish] removes the digit
    from the candidates of the cells of the three columns (resp. rows) that
    are outside the three rows (resp. columns), and changes the candidates
    of no other cell. *)
Theorem swordfish_finding (candidates : candidates_map) (p : Swordfish) :
  p ∈ find_swordfish candidates →
  ((sf_pattern_type p = "rows" ∨ sf_pattern_type p = "cols")
   ∧ (1 ≤ sf_num p ≤ 9)%Z
   ∧ (∃ l1 l2 l3, sf_lines p = [l1; l2; l3] ∧ l1 < l2 ∧ l2 < l3 ∧ l3 < 9)
   ∧ length (sf_cross_lines p) = 3 ∧ NoDup (sf_cross_lines p)
   ∧ (∀ x, x ∈ sf_cross_lines p → x < 9)
   ∧ ∀ l, l ∈ sf_lines p →
       2 ≤ length (positions_of candidates (sf_num p)
                     (line_cell (sf_pattern_type p) l)) ≤ 3
       ∧ ∀ x, x < 9 →
           candidate_at candidates (line_cell (sf_pattern_type p) l x)
             (sf_num p) →
           x ∈ sf_cross_lines p)
  ∧ ∀ rc : cell,
      (apply_swordfish candidates [p]).1 !! rc =
        if decide (line_of (sf_pattern_type p) rc < 9
                   ∧ (line_of (sf_pattern_type p) rc ∉ sf_lines p)
                   ∧ cross_of (sf_pattern_type p) rc ∈ sf_cross_lines p)
        then (λ s, s ∖ {[sf_num p]}) <$> candidates !! rc
        else candidates !! rc.
Proof.
  intros Hin. split.
  - by apply find_swordfish_sound.
  - intros rc. rewrite apply_swordfish_steps, run_eliminations_lookup.
    cbn [fst]. change ([p] ≫= swordfish_steps) with (swordfish_steps p ++ []).
    rewrite app_nil_r.
    assert (eliminated_at (swordfish_steps p) rc =
      if decide (line_of (sf_pattern_type p) rc < 9
                 ∧ (line_of (sf_pattern_type p) rc ∉ sf_lines p)
                 ∧ cross_of (sf_pattern_type p) rc ∈ sf_cross_lines p)
      then {[sf_num p]} else ∅) as ->.
    { apply set_eq. intros num.
      rewrite elem_of_eliminated_at, elem_of_swordfish_steps.
      case_decide as Hrc.
      - rewrite elem_of_singleton. tauto.
      - rewrite elem_of_empty. tauto. }
    case_decide; [done|].
    destruct (candidates !! rc) as [s|]; [|done]. cbn. f_equal.
    apply set_eq. intros d. rewrite elem_of_difference, elem_of_empty. tauto.
Qed.

Lemma swordfish_finding_witness :
  let p := mkSwordfish "rows" [0; 3; 6] [0; 3; 6] 1 in
  p ∈ find_swordfish swordfish_layout
  ∧ ((sf_pattern_type p = "rows" ∨ sf_pattern_type p = "cols")
     ∧ (1 ≤ sf_num p ≤ 9)%Z
     ∧ (∃ l1 l2 l3, sf_lines p = [l1; l2; l3] ∧ l1 < l2 ∧ l2 < l3 ∧ l3 < 9)
     ∧ length (sf_cross_lines p) = 3 ∧ NoDup (sf_cross_lines p)
     ∧ (∀ x, x ∈ sf_cross_lines p → x < 9)
     ∧ ∀ l, l ∈ sf_lines p →
         2 ≤ length (positions_of swordfish_layout (sf_num p)
                       (line_cell (sf_pattern_type p) l)) ≤ 3
         ∧ ∀ x, x < 9 →
             candidate_at swordfish_layout (line_cell (sf_pattern_type p) l x)
               (sf_num p) →
             x ∈ sf_cross_lines p)
  ∧ ∀ rc : cell,
      (apply_swordfish swordfish_layout [p]).1 !! rc =
        if decide (line_of (sf_pattern_type p) rc < 9
                   ∧ (line_of (sf_pattern_type p) rc ∉ sf_lines p)
                   ∧ cross_of (sf_pattern_type p) rc ∈ sf_cross_lines p)
        then (λ s, s ∖ {[sf_num p]}) <$> swordfish_layout !! rc
        else swordfish_layout !! rc.
Proof.
  intros p.
  assert (find_swordfish swordfish_layout = [p]) as Hfind
    by (vm_compute; reflexivity).
  assert (p ∈ find_swordfish swordfish_layout) as Hp
    by (rewrite Hfind; apply list_elem_of_singleton; reflexivity).
  split; [exact Hp|]. exact (swordfish_finding swordfish_layout p Hp).
Defined.

(** ** X-Wing: what a finding says *)

Lemma filter_seq_sorted (P : nat → Prop) `{∀ x, Decision (P x)} a n :
  StronglySorted lt (filter P (seq a n)).
Proof.
  revert a. induction n as [|n IH]; intros a; [constructor|].
  cbn [seq]. rewrite filter_cons. case_decide; [|apply IH].
  constructor; [apply IH|]. apply Forall_forall.
  intros x [_ Hx%elem_of_seq]%list_elem_of_filter. lia.
Qed.

Lemma filter_range9_pair_inv (P : nat → Prop) `{∀ x, Decision (P x)} x1 x2 :
  filter P range9 = [x1; x2] →
  x1 < x2 ∧ x2 < 9 ∧ ∀ i, i < 9 → P i ↔ i = x1 ∨ i = x2.
Proof.
  intros Hf.
  assert (∀ i, i ∈ [x1; x2] ↔ P i ∧ i < 9) as Hiff.
  { intros i. by rewrite <- Hf, list_elem_of_filter, elem_of_range9. }
  pose proof (filter_seq_sorted P 0 9) as Hsorted.
  fold range9 in Hsorted. rewrite Hf in Hsorted.
  apply StronglySorted_inv in Hsorted as [_ Hlt].
  apply Forall_cons in Hlt as [Hlt _].
  split; [done|]. split.
  - apply (Hiff x2). right. left.
  - intros i Hi. specialize (Hiff i).
    rewrite !elem_of_cons, elem_of_nil in Hiff. tauto.
Qed.

Lemma elem_of_find_x_wing_in candidates num pattern_type
    (at_ : nat → nat → cell) p :
  p ∈ find_x_wing_in candidates num pattern_type at_ →
  xw_pattern_type p = pattern_type ∧ xw_num p = num
  ∧ (xw_lines p).1 < (xw_lines p).2 ∧ (xw_lines p).2 < 9
  ∧ (xw_cross_lines p).1 < (xw_cross_lines p).2 ∧ (xw_cross_lines p).2 < 9
  ∧ ∀ l, l = (xw_lines p).1 ∨ l = (xw_lines p).2 →
      ∀ x, x < 9 →
        candidate_at candidates (at_ l x) num ↔
          x = (xw_cross_lines p).1 ∨ x = (xw_cross_lines p).2.
Proof.
  unfold find_x_wing_in.
  intros ([[l1 [x1 x2]] [l2 [y1 y2]]] & Hin & Hpair)%list_elem_of_bind.
  cbn [fst snd] in Hin. case_decide as Heq; [|by apply elem_of_nil in Hin].
  injection Heq as <- <-. apply list_elem_of_singleton in Hin as ->.
  cbn [xw_pattern_type xw_num xw_lines xw_cross_lines fst snd].
  unfold x_wing_lines in Hpair.
  apply elem_of_pairs_of_omap_iff in Hpair as (a & b & Hab & Ha & Hb).
  apply elem_of_pairs_of_seq in Hab as (_ & Hab & Hb9).
  unfold positions_of in Ha, Hb.
  destruct (filter _ range9) as [|p1 [|p2 [|? ?]]] eqn:Hfa in Ha; try done.
  injection Ha as -> -> ->.
  destruct (filter _ range9) as [|q1 [|q2 [|? ?]]] eqn:Hfb in Hb; try done.
  injection Hb as -> -> ->.
  apply filter_range9_pair_inv in Hfa as (Hx & Hx9 & Hla).
  apply filter_range9_pair_inv in Hfb as (_ & _ & Hlb).
  split; [done|]. split; [done|]. split; [done|]. split; [lia|].
  split; [done|]. split; [done|].
  intros l [-> | ->] x Hx'; rewrite <- has_candidate_iff, <- Is_true_true.
  - by apply Hla.
  - by apply Hlb.
Qed.

Lemma find_x_wing_sound (candidates : candidates_map) (p : XWing) :
  p ∈ find_x_wing candidates →
  (xw_pattern_type p = "rows" ∨ xw_pattern_type p = "cols")
  ∧ (1 ≤ xw_num p ≤ 9)%Z
  ∧ (xw_lines p).1 < (xw_lines p).2 ∧ (xw_lines p).2 < 9
  ∧ (xw_cross_lines p).1 < (xw_cross_lines p).2 ∧ (xw_cross_lines p).2 < 9
  ∧ ∀ l, l = (xw_lines p).1 ∨ l = (xw_lines p).2 →
      ∀ x, x < 9 →
        candidate_at candidates (line_cell (xw_pattern_type p) l x) (xw_num p)
        ↔ x = (xw_cross_lines p).1 ∨ x = (xw_cross_lines p).2.
Proof.
  unfold find_x_wing.
  intros [Hin | Hin]%elem_of_app;
    apply list_elem_of_bind in Hin as (num & Hin & Hnum%elem_of_digits);
    apply elem_of_find_x_wing_in in Hin
      as (Htype & <- & Hl & Hl9 & Hx & Hx9 & Hpos);
    rewrite Htype; (split; [by auto|]); (split; [done|]);
    (split; [done|]); (split; [done|]); (split; [done|]);
    (split; [done|]); exact Hpos.
Qed.

(** X9. Every finding of [find_x_wing] is an X-Wing of the candidates: a
    digit of 1..9, two rows (or two columns) in increasing order and two
    columns (resp. rows) in increasing order such that, in each of the two
    rows (resp. columns), the digit is a candidate of the cells in the two
    columns (resp. rows) and of no other cell of the board. *)
Theorem x_wing_finding (candidates : candidates_map) (p : XWing) :
  p ∈ find_x_wing candidates →
  (xw_pattern_type p = "rows" ∨ xw_pattern_type p = "cols")
  ∧ (1 ≤ xw_num p ≤ 9)%Z
  ∧ (xw_lines p).1 < (xw_lines p).2 ∧ (xw_lines p).2 < 9
  ∧ (xw_cross_lines p).1 < (xw_cross_lines p).2 ∧ (xw_cross_lines p).2 < 9
  ∧ ∀ l, l = (xw_lines p).1 ∨ l = (xw_lines p).2 →
      ∀ x, x < 9 →
        candidate_at candidates (line_cell (xw_pattern_type p) l x) (xw_num p)
        ↔ x = (xw_cross_lines p).1 ∨ x = (xw_cross_lines p).2.
Proof. apply find_x_wing_sound. Qed.

Lemma x_wing_finding_witness :
  let p := mkXWing "rows" (1, 5) (2, 6) 1 in
  p ∈ find_x_wing x_wing_rows_layout
  ∧ (xw_pattern_type p = "rows" ∨ xw_pattern_type p = "cols")
  ∧ (1 ≤ xw_num p ≤ 9)%Z
  ∧ (xw_lines p).1 < (xw_lines p).2 ∧ (xw_lines p).2 < 9
  ∧ (xw_cross_lines p).1 < (xw_cross_lines p).2 ∧ (xw_cross_lines p).2 < 9
  ∧ ∀ l, l = (xw_lines p).1 ∨ l = (xw_lines p).2 →
      ∀ x, x < 9 →
        candidate_at x_wing_rows_layout (line_cell (xw_pattern_type p) l x)
          (xw_num p)
        ↔ x = (xw_cross_lines p).1 ∨ x = (xw_cross_lines p).2.
Proof.
  intros p.
  assert (find_x_wing x_wing_rows_layout = [p]) as Hfind
    by (vm_compute; reflexivity).
  assert (p ∈ find_x_wing x_wing_rows_layout) as Hp
    by (rewrite Hfind; apply list_elem_of_singleton; reflexivity).
  split; [exact Hp|]. exact (x_wing_finding x_wing_rows_layout p Hp).
Defined.

(** ** XY-Wing: every pattern is found *)

Lemma sorted_of_pair (a b : Z) : (a < b)%Z → sorted {[a; b]} = [a; b].
Proof.
  intros Hab. unfold sorted. apply (Sorted_unique Z.le).
  - apply Sorted_merge_sort. apply _.
  - repeat constructor. lia.
  - rewrite merge_sort_Permutation.
    rewrite elements_union_singleton by (rewrite elem_of_singleton; lia).
    by rewrite elements_singleton.
Qed.

Lemma size_pair (a b : Z) : a ≠ b → base.size ({[a; b]} : gset Z) = 2.
Proof.
  intros Hab. rewrite size_union by set_solver. by rewrite !size_singleton.
Qed.

Lemma bi_value_cells_complete candidates rc a b :
  rc.1 < 9 → rc.2 < 9 → candidates !! rc = Some {[a; b]} → (a < b)%Z →
  (rc, (a, b)) ∈ bi_value_cells candidates.
Proof.
  intros Hr Hc Hs Hab. unfold bi_value_cells. apply list_elem_of_omap.
  exists rc. split; [by apply elem_of_all_cells|].
  rewrite Hs, decide_True by (apply size_pair; lia).
  by rewrite sorted_of_pair.
Qed.

Lemma bi_value_cells_any candidates rc a b :
  rc.1 < 9 → rc.2 < 9 → candidates !! rc = Some {[a; b]} → a ≠ b →
  ∃ a' b', (rc, (a', b')) ∈ bi_value_cells candidates
           ∧ (a' = a ∧ b' = b ∨ a' = b ∧ b' = a).
Proof.
  intros Hr Hc Hs Hab. destruct (decide (a < b)%Z).
  - exists a, b. split; [by apply bi_value_cells_complete | by left].
  - exists b, a. split; [|by right].
    apply bi_value_cells_complete; [done | done | | lia].
    rewrite Hs. f_equal. set_solver.
Qed.

Lemma find_xy_wing_complete candidates pivot wing1 wing2 (X Y Z' : Z) :
  pivot.1 < 9 → pivot.2 < 9 → wing1.1 < 9 → wing1.2 < 9 →
  wing2.1 < 9 → wing2.2 < 9 →
  wing1 ≠ pivot → wing2 ≠ pivot → wing2 ≠ wing1 →
  (X < Y)%Z → Z' ≠ X → Z' ≠ Y →
  candidates !! pivot = Some {[X; Y]} →
  candidates !! wing1 = Some {[X; Z']} →
  candidates !! wing2 = Some {[Y; Z']} →
  shares_unit pivot wing1 → shares_unit pivot wing2 →
  mkXYWing pivot wing1 wing2 Z' ∈ find_xy_wing candidates.
Proof.
  intros ?????? Hw1 Hw2 Hw21 HXY HZX HZY Hp H1 H2
    Hsee1%can_see_shares_unit Hsee2%can_see_shares_unit.
  destruct (bi_value_cells_any candidates wing1 X Z')
    as (a1 & b1 & Hbi1 & Hab1); [done.. |].
  destruct (bi_value_cells_any candidates wing2 Y Z')
    as (a2 & b2 & Hbi2 & Hab2); [done.. |].
  unfold find_xy_wing. cbv zeta.
  apply list_elem_of_bind. exists (pivot, (X, Y)).
  split; [|by apply bi_value_cells_complete].
  apply list_elem_of_bind. exists (wing1, (a1, b1)). split; [|done].
  cbn [fst snd]. rewrite decide_False by done. rewrite Hsee1. cbn [negb].
  rewrite decide_False by (intros [? ?]; destruct Hab1 as [[? ?] | [? ?]]; congruence).
  assert ((if decide (a1 ≠ X) then a1 else b1) = Z') as ->.
  { destruct Hab1 as [[-> ->] | [-> ->]].
    - by rewrite decide_False by (by intros ?).
    - by rewrite decide_True by done. }
  apply list_elem_of_bind. exists (wing2, (a2, b2)). split; [|done].
  cbn [fst snd]. rewrite decide_False by done. rewrite decide_False by done.
  rewrite Hsee2. cbn [negb].
  rewrite decide_True; [by apply list_elem_of_singleton|].
  destruct Hab2 as [[-> ->] | [-> ->]]; [done|]. clear. set_solver.
Qed.

(** X10. [find_xy_wing] misses no XY-Wing: whenever three different cells
    of the board have the candidate sets {X, Y} (the pivot), {X, Z} and
    {Y, Z} (the wings) for three different digits, and each wing shares a
    row, a column or a box with the pivot, the pattern is reported with the
    digit Z, the wing that holds the smaller of X and Y being reported as
    the first wing. *)
Theorem xy_wing_complete (candidates : candidates_map)
    (pivot wing1 wing2 : cell) (X Y Z' : Z) :
  pivot.1 < 9 → pivot.2 < 9 → wing1.1 < 9 → wing1.2 < 9 →
  wing2.1 < 9 → wing2.2 < 9 →
  wing1 ≠ pivot → wing2 ≠ pivot → wing2 ≠ wing1 →
  X ≠ Y → Z' ≠ X → Z' ≠ Y →
  candidates !! pivot = Some {[X; Y]} →
  candidates !! wing1 = Some {[X; Z']} →
  candidates !! wing2 = Some {[Y; Z']} →
  shares_unit pivot wing1 → shares_unit pivot wing2 →
  (if decide (X < Y)%Z
   then mkXYWing pivot wing1 wing2 Z'
   else mkXYWing pivot wing2 wing1 Z') ∈ find_xy_wing candidates.
Proof.
  intros ?????? Hw1 Hw2 Hw21 HXY HZX HZY Hp H1 H2 Hsee1 Hsee2.
  case_decide as Hlt.
  - by apply (find_xy_wing_complete candidates pivot wing1 wing2 X Y Z').
  - apply (find_xy_wing_complete candidates pivot wing2 wing1 Y X Z');
      try done; [lia|].
    rewrite Hp. f_equal. clear. set_solver.
Qed.

Lemma xy_wing_complete_witness :
  (if decide (2 < 1)%Z
   then mkXYWing (0, 0) (4, 0) (0, 4) 3
   else mkXYWing (0, 0) (0, 4) (4, 0) 3) ∈ find_xy_wing xy_wing_layout.
Proof.
  assert (xy_wing_layout !! (0, 0) = Some {[2; 1]}%Z) as Hpivot
    by (vm_compute; reflexivity).
  assert (xy_wing_layout !! (4, 0) = Some {[2; 3]}%Z) as Hwing1
    by (vm_compute; reflexivity).
  assert (xy_wing_layout !! (0, 4) = Some {[1; 3]}%Z) as Hwing2
    by (vm_compute; reflexivity).
  assert (shares_unit (0, 0) (4, 0)) as Hsee1 by (right; left; reflexivity).
  assert (shares_unit (0, 0) (0, 4)) as Hsee2 by (left; reflexivity).
  refine (xy_wing_complete xy_wing_layout (0, 0) (4, 0) (0, 4) 2 1 3
            _ _ _ _ _ _ _ _ _ _ _ _ Hpivot Hwing1 Hwing2 Hsee1 Hsee2);
    cbn [fst snd]; first [lia | (intros [=]; lia) | discriminate].
Defined.

(** * The backtracking solver of SudokuBoard *)

(** ** The recursive methods, one call at a time *)

Lemma solve_unfold fuel self :
  solve (S fuel) self =
    match find_empty self with
    | Raise e => Some (Raise e, self)
    | Ok None => Some (Ok true, self)
    | Ok (Some (row, col)) =>
        solve_numbers (solve fuel) row col (seqZ 1 (Z.of_nat (size self))) self
    end.
Proof. reflexivity. Qed.

Lemma solve_with_count_unfold fuel self steps :
  solve_with_count (S fuel) self steps =
    match find_empty self with
    | Raise e => Some (Raise e, self, S steps)
    | Ok None => Some (Ok true, self, S steps)
    | Ok (Some (row, col)) =>
        solve_with_count_numbers (solve_with_count fuel) row col
          (seqZ 1 (Z.of_nat (size self))) self (S steps)
    end.
Proof. reflexivity. Qed.

Lemma count_solutions_unfold fuel self solution_count :
  count_solutions (S fuel) self solution_count =
    match find_empty self with
    | Raise e => Some (Raise e, self, solution_count)
    | Ok None => Some (Ok (), self, S solution_count)
    | Ok (Some (row, col)) =>
        count_solutions_numbers (count_solutions fuel) row col
          (seqZ 1 (Z.of_nat (size self))) self solution_count
    end.
Proof. reflexivity. Qed.

(** ** The validity test *)

Lemma not_placed_units g row col num :
  row < 9 → col < 9 →
  not_placed g (row_cells row) num
  ∧ not_placed g (col_cells col) num
  ∧ not_placed g (box_cells (row / 3 * 3) (col / 3 * 3)) num
  ↔ ∀ r' c', r' < 9 → c' < 9 → shares_unit (row, col) (r', c') →
      cell_value g r' c' ≠ num.
Proof.
  intros Hr Hc. unfold not_placed, shares_unit. cbn [fst snd]. split.
  - intros (Hrow & Hcol & Hbox) r' c' Hr' Hc' [<- | [<- | [Hbr Hbc]]].
    + apply (Hrow (row, c')). by apply elem_of_row_cells.
    + apply (Hcol (r', col)). by apply elem_of_col_cells.
    + apply (Hbox (r', c')). apply elem_of_box_cells. cbn [fst snd].
      split; by apply same_box_iff.
  - intros Hall. split; [|split].
    + intros [r' c'] [Hr' Hc']%elem_of_row_cells. cbn [fst snd] in *. subst r'.
      apply Hall; [done | done | by left].
    + intros [r' c'] [Hr' Hc']%elem_of_col_cells. cbn [fst snd] in *. subst c'.
      apply Hall; [done | done | by right; left].
    + intros [r' c'] Hin.
      pose proof (box_cells_in_range row col Hr Hc) as Hcells.
      rewrite Forall_forall in Hcells. destruct (Hcells _ Hin) as [Hr' Hc'].
      apply elem_of_box_cells in Hin as [Hbr Hbc]. cbn [fst snd] in *.
      apply same_box_iff in Hbr, Hbc.
      apply Hall; [done | done |]. right. right. by split.
Qed.

Lemma is_valid_9x9 self row col num :
  board9 self → row < 9 → col < 9 →
  ∃ b, is_valid self row col num = Ok b
       ∧ (b = true ↔
            ∀ r' c', r' < 9 → c' < 9 → shares_unit (row, col) (r', c') →
              cell_value (grid self) r' c' ≠ num).
Proof.
  intros [Hg Hsize] Hr Hc. unfold is_valid. rewrite Hsize.
  pose proof (not_placed_units (grid self) row col num Hr Hc) as Hunits.
  rewrite !(Nat.mul_comm 3).
  destruct (box_has_not_placed (grid self) num (row_cells row) Hg
              (row_cells_in_range row Hr)) as (found1 & H1 & Hfound1).
  destruct (box_has_not_placed (grid self) num (col_cells col) Hg
              (col_cells_in_range col Hc)) as (found2 & H2 & Hfound2).
  destruct (box_has_not_placed (grid self) num
              (box_cells (row / 3 * 3) (col / 3 * 3)) Hg
              (box_cells_in_range row col Hr Hc)) as (found3 & H3 & Hfound3).
  unfold row_cells, col_cells, range9 in H1, H2.
  rewrite H1, result_bind_Ok. destruct found1.
  { exists false. split; [done|]. rewrite <- Hunits. split; [done|].
    intros (Hn & _ & _). by apply Hfound1 in Hn. }
  rewrite H2, result_bind_Ok. destruct found2.
  { exists false. split; [done|]. rewrite <- Hunits. split; [done|].
    intros (_ & Hn & _). by apply Hfound2 in Hn. }
  rewrite H3, result_bind_Ok. destruct found3.
  { exists false. split; [done|]. rewrite <- Hunits. split; [done|].
    intros (_ & _ & Hn). by apply Hfound3 in Hn. }
  exists true. split; [done|]. rewrite <- Hunits. split; [|done]. intros _.
  split; [by apply Hfound1|]. split; [by apply Hfound2 | by apply Hfound3].
Qed.

(** X11. The validity test of the solver and the candidates of the
    techniques agree: on a board of nine rows of nine integers, for an
    empty cell and a digit of 1..9, [is_valid] answers [True] exactly when
    the digit is among the candidates that [_get_candidates] computes for
    the cell; neither of them raises. *)
Theorem is_valid_iff_candidate (self : SudokuBoard) (row col : nat) (num : Z) :
  board9 self → row < 9 → col < 9 →
  cell_value (grid self) row col = 0%Z → (1 ≤ num ≤ 9)%Z →
  ∃ s, _get_candidates (grid self) row col = Ok s
       ∧ is_valid self row col num = Ok (bool_decide (num ∈ s)).
Proof.
  intros Hboard Hr Hc Hempty Hnum.
  destruct (is_valid_9x9 self row col num Hboard Hr Hc) as (b & Hvalid & Hb).
  destruct Hboard as [Hg Hsize].
  destruct (_get_candidates (grid self) row col) as [s|] eqn:Hget.
  2: { by rewrite get_candidates_9x9 in Hget. }
  exists s. split; [done|]. rewrite Hvalid. f_equal.
  pose proof (elem_of_get_candidates _ _ _ s num Hg Hr Hc Hempty Hget) as Hs.
  assert (b = true ↔ num ∈ s) as Hiff.
  { rewrite Hb, Hs. unfold shares_unit. cbn [fst snd]. split.
    - intros Hall. split; [done|]. intros r' c' Hr' Hc' Hunit.
      apply Hall; [done | done |]. clear -Hunit.
      destruct Hunit as [-> | [-> | [-> ->]]]; auto.
    - intros [_ Hall] r' c' Hr' Hc' Hunit.
      apply Hall; [done | done |]. clear -Hunit.
      destruct Hunit as [-> | [-> | [-> ->]]]; auto. }
  destruct b.
  - symmetry. apply bool_decide_eq_true. by apply Hiff.
  - symmetry. apply bool_decide_eq_false. intros Hin. by apply Hiff in Hin.
Qed.

Lemma is_valid_iff_candidate_witness :
  ∃ s, _get_candidates (grid (mkSudokuBoard easy_puzzle 9 (seq 0 9))) 6 8 = Ok s
       ∧ is_valid (mkSudokuBoard easy_puzzle 9 (seq 0 9)) 6 8 4 = Ok (bool_decide (4%Z ∈ s)).
Proof.
  assert (board9 (mkSudokuBoard easy_puzzle 9 (seq 0 9))) as Hboard.
  { split; [apply (bool_decide_unpack _); vm_compute; exact I | reflexivity]. }
  assert (6 < 9) as Hrow by lia.
  assert (8 < 9) as Hcol by lia.
  assert (cell_value (grid (mkSudokuBoard easy_puzzle 9 (seq 0 9))) 6 8 = 0%Z) as Hempty
    by reflexivity.
  assert (1 ≤ 4 ≤ 9)%Z as Hnum by lia.
  exact (is_valid_iff_candidate (mkSudokuBoard easy_puzzle 9 (seq 0 9)) 6 8 4
           Hboard Hrow Hcol Hempty Hnum).
Defined.

(** ** The search for an empty cell *)

Lemma first_empty_split g cells :
  is_9x9 g → Forall (λ rc : cell, rc.1 < 9 ∧ rc.2 < 9) cells →
  (first_empty g cells = Ok None
   ∧ ∀ rc, rc ∈ cells → cell_value g rc.1 rc.2 ≠ 0%Z)
  ∨ ∃ before rc after,
      cells = before ++ rc :: after
      ∧ first_empty g cells = Ok (Some rc)
      ∧ cell_value g rc.1 rc.2 = 0%Z
      ∧ ∀ rc', rc' ∈ before → cell_value g rc'.1 rc'.2 ≠ 0%Z.
Proof.
  intros Hg Hcells. induction Hcells as [|rc cells [Hr Hc] _ IH].
  - left. split; [done|]. by intros rc ?%elem_of_nil.
  - cbn [first_empty]. rewrite grid_at_9x9, result_bind_Ok by done.
    case_decide as Hv.
    + right. exists [], rc, cells. split; [done|]. split; [done|].
      split; [done|]. by intros rc' ?%elem_of_nil.
    + destruct IH as [[Hnone Hfull]
                     | (before & rc0 & after & -> & Hsome & Hzero & Hbefore)].
      * left. split; [done|].
        intros rc' [-> | Hin]%elem_of_cons; [done | by apply Hfull].
      * right. exists (rc :: before), rc0, after. split; [done|].
        split; [done|]. split; [done|].
        intros rc' [-> | Hin]%elem_of_cons; [done | by apply Hbefore].
Qed.

Lemma all_cells_scanned : StronglySorted scanned_before all_cells.
Proof. apply (bool_decide_unpack _). by vm_compute. Qed.

Lemma find_empty_all_cells self :
  size self = 9 → find_empty self = first_empty (grid self) all_cells.
Proof. intros Hsize. unfold find_empty. by rewrite Hsize. Qed.

Lemma all_cells_bounds : Forall (λ rc : cell, rc.1 < 9 ∧ rc.2 < 9) all_cells.
Proof. apply Forall_forall. intros rc. apply elem_of_all_cells. Qed.

Lemma find_empty_9x9 self :
  board9 self →
  (find_empty self = Ok None
   ∧ ∀ r c, r < 9 → c < 9 → cell_value (grid self) r c ≠ 0%Z)
  ∨ ∃ r c,
      find_empty self = Ok (Some (r, c))
      ∧ r < 9 ∧ c < 9 ∧ cell_value (grid self) r c = 0%Z
      ∧ ∀ r' c', r' < 9 → c' < 9 → scanned_before (r', c') (r, c) →
          cell_value (grid self) r' c' ≠ 0%Z.
Proof.
  intros [Hg Hsize]. rewrite (find_empty_all_cells self Hsize).
  destruct (first_empty_split (grid self) all_cells Hg all_cells_bounds)
    as [[Hnone Hfull]
       | (before & [r c] & after & Hsplit & Hsome & Hzero & Hbefore)].
  - left. split; [done|]. intros r c Hr Hc.
    apply (Hfull (r, c)). by apply elem_of_all_cells.
  - right. exists r, c. split; [done|].
    assert ((r, c) ∈ all_cells) as [Hr Hc]%elem_of_all_cells.
    { rewrite Hsplit. apply elem_of_app. right. left. }
    split; [done|]. split; [done|]. split; [done|].
    intros r' c' Hr' Hc' Hlt.
    assert ((r', c') ∈ all_cells) as Hin by (by apply elem_of_all_cells).
    pose proof all_cells_scanned as Hsorted. rewrite Hsplit in Hin, Hsorted.
    apply elem_of_app in Hin as [Hin | Hin]; [by apply (Hbefore (r', c'))|].
    apply StronglySorted_app_1_r in Hsorted.
    apply StronglySorted_inv in Hsorted as [_ Hafter].
    rewrite Forall_forall in Hafter.
    apply elem_of_cons in Hin as [Heq | Hin].
    + injection Heq as -> ->. unfold scanned_before in Hlt. cbn in Hlt. lia.
    + apply Hafter in Hin. unfold scanned_before in Hlt, Hin. cbn in Hlt, Hin.
      lia.
Qed.

Lemma solved_iff_full g :
  is_9x9 g →
  forallb (λ row : list Z, negb (bool_decide (0%Z ∈ row))) g = true
  ↔ ∀ r c, r < 9 → c < 9 → cell_value g r c ≠ 0%Z.
Proof.
  intros Hg. split; [|by apply full_grid_solved].
  intros Hsolved r c Hr Hc Hzero.
  apply Is_true_true, forallb_True in Hsolved. rewrite Forall_forall in Hsolved.
  destruct Hg as [Hlen Hrows].
  destruct (g !! r) as [row|] eqn:Hrow.
  2: { apply lookup_ge_None in Hrow. lia. }
  assert (length row = 9) as Hlenr.
  { rewrite Forall_forall in Hrows. eapply Hrows, list_elem_of_lookup_2, Hrow. }
  destruct (row !! c) as [v|] eqn:Hv.
  2: { apply lookup_ge_None in Hv. lia. }
  unfold cell_value in Hzero. rewrite Hrow in Hzero. cbn in Hzero.
  rewrite Hv in Hzero. cbn in Hzero. subst v.
  specialize (Hsolved row (list_elem_of_lookup_2 _ _ _ Hrow)).
  apply Is_true_true, negb_true_iff, bool_decide_eq_false in Hsolved.
  apply Hsolved. by eapply list_elem_of_lookup_2.
Qed.

(** X12. On a board of nine rows of nine integers [find_empty] does not
    raise; it returns the first empty cell in row-major order, that is, the
    cell [(r, c)] that holds 0 while no cell of an earlier row, and no
    earlier cell of row [r], holds 0; it returns [None] exactly when no
    cell of the board holds 0, which is exactly when [_is_solved] of the
    difficulty engine answers [True] for a board with this grid. *)
Theorem find_empty_first_empty_cell (self : SudokuBoard) (board : nat)
    (σ : store) :
  board9 self → grid (σ !!! board) = grid self →
  (∃ found, find_empty self = Ok found)
  ∧ (∀ r c,
       find_empty self = Ok (Some (r, c)) ↔
         r < 9 ∧ c < 9 ∧ cell_value (grid self) r c = 0%Z
         ∧ ∀ r' c', r' < 9 → c' < 9 → scanned_before (r', c') (r, c) →
             cell_value (grid self) r' c' ≠ 0%Z)
  ∧ (find_empty self = Ok None ↔
       ∀ r c, r < 9 → c < 9 → cell_value (grid self) r c ≠ 0%Z)
  ∧ (find_empty self = Ok None ↔ (_is_solved board σ).1 = Ok true).
Proof.
  intros Hboard Hσ.
  assert (find_empty self = Ok None ↔
          ∀ r c, r < 9 → c < 9 → cell_value (grid self) r c ≠ 0%Z) as Hnone.
  { destruct (find_empty_9x9 self Hboard)
      as [[Hnone Hfull] | (r & c & Hsome & Hr & Hc & Hzero & _)].
    - by split.
    - rewrite Hsome. split; [done|]. intros Hfull. by destruct (Hfull r c). }
  split; [|split; [|split]].
  - destruct (find_empty_9x9 self Hboard)
      as [[Hnone' _] | (r & c & Hsome & _)]; by eexists.
  - intros r c.
    destruct (find_empty_9x9 self Hboard)
      as [[Hnone' Hfull] | (r0 & c0 & Hsome & Hr0 & Hc0 & Hzero0 & Hbefore0)].
    + rewrite Hnone'. split; [done|].
      intros (Hr & Hc & Hzero & _). by destruct (Hfull r c).
    + rewrite Hsome. split.
      * intros [= <- <-]. done.
      * intros (Hr & Hc & Hzero & Hbefore).
        assert (¬ scanned_before (r0, c0) (r, c)) as H1.
        { intros Hlt. by destruct (Hbefore r0 c0). }
        assert (¬ scanned_before (r, c) (r0, c0)) as H2.
        { intros Hlt. by destruct (Hbefore0 r c). }
        unfold scanned_before in H1, H2. cbn [fst snd] in H1, H2.
        assert (r0 = r ∧ c0 = c) as [-> ->] by lia. done.
  - exact Hnone.
  - rewrite Hnone, is_solved_unfold. cbn [fst]. rewrite Hσ.
    rewrite <- (solved_iff_full _ (proj1 Hboard)). split.
    + by intros ->.
    + by intros [= ->].
Qed.

Lemma find_empty_first_empty_cell_witness :
  (∃ found, find_empty (mkSudokuBoard easy_puzzle 9 (seq 0 9)) = Ok found)
  ∧ (∀ r c,
       find_empty (mkSudokuBoard easy_puzzle 9 (seq 0 9)) = Ok (Some (r, c)) ↔
         r < 9 ∧ c < 9
         ∧ cell_value (grid (mkSudokuBoard easy_puzzle 9 (seq 0 9))) r c = 0%Z
         ∧ ∀ r' c', r' < 9 → c' < 9 → scanned_before (r', c') (r, c) →
             cell_value (grid (mkSudokuBoard easy_puzzle 9 (seq 0 9))) r' c' ≠ 0%Z)
  ∧ (find_empty (mkSudokuBoard easy_puzzle 9 (seq 0 9)) = Ok None ↔
       ∀ r c, r < 9 → c < 9 →
         cell_value (grid (mkSudokuBoard easy_puzzle 9 (seq 0 9))) r c ≠ 0%Z)
  ∧ (find_empty (mkSudokuBoard easy_puzzle 9 (seq 0 9)) = Ok None ↔
       (_is_solved 0 (one_board easy_puzzle)).1 = Ok true).
Proof.
  assert (board9 (mkSudokuBoard easy_puzzle 9 (seq 0 9))) as Hboard.
  { split; [apply (bool_decide_unpack _); vm_compute; exact I | reflexivity]. }
  assert (grid (one_board easy_puzzle !!! 0) = grid (mkSudokuBoard easy_puzzle 9 (seq 0 9)))
    as Hgrid by (vm_compute; reflexivity).
  exact (find_empty_first_empty_cell (mkSudokuBoard easy_puzzle 9 (seq 0 9)) 0
           (one_board easy_puzzle) Hboard Hgrid).
Defined.

(** ** Writing a cell and writing it back *)

Lemma assign_9x9 self row col num :
  plain9 self → row < 9 → col < 9 →
  ∃ self1,
    assign self row col num = Ok self1 ∧ plain9 self1
    ∧ ∀ r c, cell_value (grid self1) r c =
               if decide (r = row ∧ c = col) then num
               else cell_value (grid self) r c.
Proof.
  intros [[Hg Hsize] Hown] Hr Hc. unfold assign.
  rewrite grid_write_distinct by done.
  destruct (grid_set_9x9 (grid self) row col num Hg Hr Hc) as (g' & Hset & Hg').
  rewrite Hset, result_bind_Ok. eexists. split; [done|]. split; [by split|].
  cbn [grid]. by apply grid_set_cell_value.
Qed.

Lemma grid_ext g g' :
  is_9x9 g → is_9x9 g' →
  (∀ r c, r < 9 → c < 9 → cell_value g r c = cell_value g' r c) → g = g'.
Proof.
  intros [Hlen Hrows] [Hlen' Hrows'] Heq. apply list_eq. intros r.
  destruct (decide (r < 9)) as [Hr|Hr].
  2: { rewrite !(proj2 (lookup_ge_None _ _)); [done | lia | lia]. }
  destruct (g !! r) as [row|] eqn:Hrow.
  2: { apply lookup_ge_None in Hrow. lia. }
  destruct (g' !! r) as [row'|] eqn:Hrow'.
  2: { apply lookup_ge_None in Hrow'. lia. }
  assert (length row = 9) as Hl.
  { rewrite Forall_forall in Hrows. eapply Hrows, list_elem_of_lookup_2, Hrow. }
  assert (length row' = 9) as Hl'.
  { rewrite Forall_forall in Hrows'. eapply Hrows', list_elem_of_lookup_2, Hrow'. }
  f_equal. apply list_eq. intros c.
  destruct (decide (c < 9)) as [Hc|Hc].
  2: { rewrite !(proj2 (lookup_ge_None _ _)); [done | lia | lia]. }
  specialize (Heq r c Hr Hc). unfold cell_value in Heq.
  rewrite Hrow, Hrow' in Heq. cbn in Heq.
  destruct (row !! c) as [v|] eqn:Hv.
  2: { apply lookup_ge_None in Hv. lia. }
  destruct (row' !! c) as [v'|] eqn:Hv'.
  2: { apply lookup_ge_None in Hv'. lia. }
  cbn in Heq. by subst.
Qed.

Lemma board_ext self self' :
  board9 self → board9 self' → row_ids self = row_ids self' →
  (∀ r c, r < 9 → c < 9 →
     cell_value (grid self) r c = cell_value (grid self') r c) →
  self = self'.
Proof.
  destruct self as [g n ids], self' as [g' n' ids']. cbn [grid row_ids].
  intros [Hg Hn] [Hg' Hn'] <- Heq. cbn in Hg, Hn, Hg', Hn'. subst n n'.
  f_equal. by apply grid_ext.
Qed.

Lemma assign_row_ids self row col num self1 :
  assign self row col num = Ok self1 → row_ids self1 = row_ids self.
Proof.
  unfold assign. intros (g & _ & [= <-])%bind_Ok_inv. done.
Qed.

Lemma assign_back self self1 self2 row col num :
  plain9 self → row < 9 → col < 9 →
  cell_value (grid self) row col = 0%Z →
  assign self row col num = Ok self1 →
  assign self1 row col 0 = Ok self2 →
  self2 = self.
Proof.
  intros Hboard Hr Hc Hzero H1 H2.
  destruct (assign_9x9 self row col num Hboard Hr Hc) as (s1 & Hs1 & Hb1 & Hv1).
  rewrite H1 in Hs1. injection Hs1 as <-.
  destruct (assign_9x9 self1 row col 0 Hb1 Hr Hc) as (s2 & Hs2 & Hb2 & Hv2).
  rewrite H2 in Hs2. injection Hs2 as <-.
  apply board_ext; [apply Hb2 | apply Hboard | |].
  { by rewrite (assign_row_ids _ _ _ _ _ H2), (assign_row_ids _ _ _ _ _ H1). }
  intros r c _ _. rewrite Hv2, Hv1.
  case_decide as Hrc; [|done]. by destruct Hrc as [-> ->].
Qed.

Lemma NoDup_all_cells : NoDup all_cells.
Proof. apply (bool_decide_unpack _). by vm_compute. Qed.

Lemma filter_ext_in {A} (P Q : A → Prop) `{∀ x, Decision (P x)}
    `{∀ x, Decision (Q x)} (l : list A) :
  (∀ y, y ∈ l → P y ↔ Q y) → filter P l = filter Q l.
Proof.
  induction l as [|x l IH]; intros Hext; [done|].
  rewrite !filter_cons.
  rewrite IH by (intros y Hy; apply Hext; by right).
  destruct (decide (P x)) as [HP|HP], (decide (Q x)) as [HQ|HQ]; try done.
  - destruct HQ. by apply (Hext x); [left|].
  - destruct HP. by apply (Hext x); [left|].
Qed.

Lemma filter_length_one_less {A} (P Q : A → Prop) `{∀ x, Decision (P x)}
    `{∀ x, Decision (Q x)} (l : list A) (x : A) :
  NoDup l → x ∈ l → P x → ¬ Q x → (∀ y, y ≠ x → P y ↔ Q y) →
  length (filter P l) = S (length (filter Q l)).
Proof.
  intros Hnodup Hx HP HQ Hext.
  induction Hnodup as [|z l Hnotin Hnodup IH]; [by apply elem_of_nil in Hx|].
  rewrite !filter_cons. apply elem_of_cons in Hx as [<- | Hx].
  - rewrite decide_True, decide_False by done. cbn [length]. f_equal. f_equal.
    apply filter_ext_in. intros y Hy. apply Hext. by intros ->.
  - assert (z ≠ x) as Hzx by (by intros ->).
    specialize (IH Hx). specialize (Hext z Hzx).
    destruct (decide (P z)) as [HPz|HPz], (decide (Q z)) as [HQz|HQz];
      cbn [length]; try tauto. by rewrite IH.
Qed.

Lemma zeros_assign g g1 row col num :
  row < 9 → col < 9 → cell_value g row col = 0%Z → num ≠ 0%Z →
  (∀ r c, cell_value g1 r c =
            if decide (r = row ∧ c = col) then num else cell_value g r c) →
  zeros g = S (zeros g1).
Proof.
  intros Hr Hc Hzero Hnum Hg1. unfold zeros.
  apply (filter_length_one_less _ _ _ (row, col)).
  - apply NoDup_all_cells.
  - by apply elem_of_all_cells.
  - done.
  - cbn [fst snd]. rewrite Hg1. by rewrite decide_True by done.
  - intros [r c] Hne. cbn [fst snd]. rewrite Hg1.
    rewrite decide_False; [done|]. intros [-> ->]. done.
Qed.

(** ** Completions *)

Lemma shares_unit_sym a b : shares_unit a b → shares_unit b a.
Proof. unfold shares_unit. intros [? | [? | [? ?]]]; auto. Qed.

Lemma completes_self g :
  is_9x9 g → (∀ r c, r < 9 → c < 9 → cell_value g r c ≠ 0%Z) → completes g g.
Proof.
  intros Hg Hfull. split; [done|]. intros r c Hr Hc.
  by rewrite decide_False by (by apply Hfull).
Qed.

Lemma completes_after_assign g g1 s row col num :
  row < 9 → col < 9 → cell_value g row col = 0%Z → (1 ≤ num ≤ 9)%Z →
  (∀ r c, cell_value g1 r c =
            if decide (r = row ∧ c = col) then num else cell_value g r c) →
  (∀ r' c', r' < 9 → c' < 9 → shares_unit (row, col) (r', c') →
     cell_value g r' c' ≠ num) →
  completes g1 s → completes g s.
Proof.
  intros Hr Hc Hzero Hnum Hg1 Hvalid [Hs Hcomp]. split; [done|].
  assert (cell_value s row col = num) as Hsnum.
  { specialize (Hcomp row col Hr Hc). rewrite Hg1 in Hcomp.
    rewrite (decide_True (P := row = row ∧ col = col)) in Hcomp by done.
    rewrite decide_False in Hcomp by lia. done. }
  intros r c Hr' Hc'. destruct (decide (r = row ∧ c = col)) as [[-> ->]|Hne].
  - rewrite decide_True by done. rewrite Hsnum. split; [done|].
    intros r' c' Hr'' Hc'' Hne Hunit.
    specialize (Hcomp r' c' Hr'' Hc''). rewrite Hg1 in Hcomp.
    rewrite (decide_False (P := r' = row ∧ c' = col)) in Hcomp
      by (intros [-> ->]; done).
    destruct (decide (cell_value g r' c' = 0%Z)) as [Hz|Hnz].
    + destruct Hcomp as [_ Hpeers]. intros Heq.
      apply (Hpeers row col Hr Hc); [by intros [= -> ->] | | congruence].
      by apply shares_unit_sym.
    + rewrite Hcomp. by apply Hvalid.
  - specialize (Hcomp r c Hr' Hc'). rewrite Hg1 in Hcomp.
    by rewrite (decide_False (P := r = row ∧ c = col)) in Hcomp by done.
Qed.

Lemma completes_with_value g g1 s row col :
  row < 9 → col < 9 → cell_value g row col = 0%Z →
  (∀ r c, cell_value g1 r c =
            if decide (r = row ∧ c = col) then cell_value s row col
            else cell_value g r c) →
  completes g s → completes g1 s.
Proof.
  intros Hr Hc Hzero Hg1 [Hs Hcomp]. split; [done|].
  intros r c Hr' Hc'. rewrite Hg1.
  destruct (decide (r = row ∧ c = col)) as [[-> ->]|Hne].
  - specialize (Hcomp row col Hr Hc). rewrite decide_True in Hcomp by done.
    by rewrite decide_False by lia.
  - by apply Hcomp.
Qed.

Lemma completes_value_valid g s row col :
  row < 9 → col < 9 → cell_value g row col = 0%Z → completes g s →
  ∀ r' c', r' < 9 → c' < 9 → shares_unit (row, col) (r', c') →
    cell_value g r' c' ≠ cell_value s row col.
Proof.
  intros Hr Hc Hzero [Hs Hcomp] r' c' Hr' Hc' Hunit.
  pose proof (Hcomp row col Hr Hc) as Hcell.
  rewrite decide_True in Hcell by done. destruct Hcell as [Hrange Hpeers].
  destruct (decide (cell_value g r' c' = 0%Z)) as [Hz|Hnz]; [lia|].
  specialize (Hcomp r' c' Hr' Hc'). rewrite decide_False in Hcomp by done.
  rewrite <- Hcomp. apply Hpeers; [done | done | | done].
  intros [= -> ->]. done.
Qed.

(** ** The search *)

Lemma solve_numbers_spec fuel self row col :
  (∀ self1, plain9 self1 → zeros (grid self1) < fuel →
     ∃ b self',
       solve fuel self1 = Some (Ok b, self') ∧ plain9 self'
       ∧ if b then completes (grid self1) (grid self')
         else self' = self1 ∧ ∀ s, ¬ completes (grid self1) s) →
  plain9 self → row < 9 → col < 9 →
  cell_value (grid self) row col = 0%Z → zeros (grid self) ≤ fuel →
  ∀ numbers, (∀ n, n ∈ numbers → (1 ≤ n ≤ 9)%Z) →
  ∃ b self',
    solve_numbers (solve fuel) row col numbers self = Some (Ok b, self')
    ∧ plain9 self'
    ∧ if b then completes (grid self) (grid self')
      else self' = self
           ∧ ∀ s, completes (grid self) s → cell_value s row col ∉ numbers.
Proof.
  intros IH Hboard Hr Hc Hzero Hfuel numbers.
  induction numbers as [|num numbers IHn]; intros Hnums.
  - exists false, self. split; [done|]. split; [done|]. split; [done|].
    intros s _. apply not_elem_of_nil.
  - assert (1 ≤ num ≤ 9)%Z as Hnum by (apply Hnums; left).
    specialize (IHn (λ n Hn, Hnums n (list_elem_of_further _ _ _ Hn))).
    cbn [solve_numbers].
    destruct (is_valid_9x9 self row col num (proj1 Hboard) Hr Hc) as (v & -> & Hv).
    destruct v.
    + destruct (assign_9x9 self row col num Hboard Hr Hc)
        as (self1 & Hassign & Hboard1 & Hg1).
      rewrite Hassign.
      assert (zeros (grid self) = S (zeros (grid self1))) as Hz.
      { apply (zeros_assign _ _ row col num); [done | done | done | lia | done]. }
      destruct (IH self1 Hboard1) as (b1 & self2 & -> & Hboard2 & Hres);
        [lia|].
      destruct b1.
      * exists true, self2. split; [done|]. split; [done|].
        apply (completes_after_assign _ (grid self1) _ row col num);
          try done. by apply Hv.
      * destruct Hres as [-> Hnone].
        destruct (assign_9x9 self1 row col 0 Hboard1 Hr Hc)
          as (self3 & Hback & _ & _).
        rewrite Hback.
        rewrite (assign_back self self1 self3 row col num) by done.
        destruct IHn as (b & self' & -> & Hboard' & Hres').
        exists b, self'. split; [done|]. split; [done|].
        destruct b; [done|]. destruct Hres' as [-> Hrest]. split; [done|].
        intros s Hs [Heq | Hin]%elem_of_cons; [|by apply (Hrest s)].
        apply (Hnone s).
        apply (completes_with_value (grid self) _ _ row col); try done.
        by rewrite Heq.
    + destruct IHn as (b & self' & -> & Hboard' & Hres').
      exists b, self'. split; [done|]. split; [done|].
      destruct b; [done|]. destruct Hres' as [-> Hrest]. split; [done|].
      intros s Hs [Heq | Hin]%elem_of_cons; [|by apply (Hrest s)].
      assert (true = false → False) as Hfalse by done. apply Hfalse.
      symmetry. apply Hv. rewrite <- Heq.
      by apply completes_value_valid.
Qed.

Lemma solve_spec fuel self :
  plain9 self → zeros (grid self) < fuel →
  ∃ b self',
    solve fuel self = Some (Ok b, self') ∧ plain9 self'
    ∧ if b then completes (grid self) (grid self')
      else self' = self ∧ ∀ s, ¬ completes (grid self) s.
Proof.
  revert self. induction fuel as [|fuel IH]; intros self Hboard Hfuel; [lia|].
  rewrite solve_unfold.
  destruct (find_empty_9x9 self (proj1 Hboard))
    as [[-> Hfull] | (row & col & -> & Hr & Hc & Hzero & _)].
  - exists true, self. split; [done|]. split; [done|].
    apply completes_self; [apply Hboard | done].
  - destruct (solve_numbers_spec fuel self row col IH Hboard Hr Hc Hzero)
      with (numbers := seqZ 1 (Z.of_nat (size self)))
      as (b & self' & -> & Hboard' & Hres); [lia | |].
    { intros n Hn%elem_of_seqZ. destruct Hboard as [[_ Hsize] _].
      rewrite Hsize in Hn. lia. }
    exists b, self'. split; [done|]. split; [done|].
    destruct b; [done|]. destruct Hres as [-> Hrest]. split; [done|].
    intros s Hs. apply (Hrest s Hs).
    destruct Hs as [_ Hcomp]. specialize (Hcomp row col Hr Hc).
    rewrite decide_True in Hcomp by done.
    apply elem_of_seqZ. destruct Hboard as [[_ ->] _]. lia.
Qed.

(** X13. [solve], called on a board of nine rows of nine integers in
    which every row is a list of its own, returns (the recursion ends, no
    index is out of range) as soon as the depth allowed exceeds the number
    of empty cells. When it returns [True] the board has become a
    completion of the board it was given: the filled cells are unchanged
    and every cell that was empty holds a digit of 1..9 that no other cell
    of its row, column or box holds. When it returns [False] the board is
    as it was before the call, and the board that was given has no
    completion at all. *)
Theorem solve_finds_completion (fuel : nat) (self : SudokuBoard) :
  board9 self → own_rows self → zeros (grid self) < fuel →
  ∃ b self',
    solve fuel self = Some (Ok b, self') ∧ board9 self' ∧ own_rows self'
    ∧ if b then completes (grid self) (grid self')
      else self' = self ∧ ∀ s, ¬ completes (grid self) s.
Proof.
  intros Hboard Hown Hfuel.
  destruct (solve_spec fuel self (conj Hboard Hown) Hfuel)
    as (b & self' & Hrun & [Hboard' Hown'] & Hres).
  by exists b, self'.
Qed.

Lemma solve_finds_completion_witness :
  ∃ b self',
    solve 4 (mkSudokuBoard easy_puzzle 9 (seq 0 9)) = Some (Ok b, self')
    ∧ board9 self' ∧ own_rows self'
    ∧ if b then completes (grid (mkSudokuBoard easy_puzzle 9 (seq 0 9))) (grid self')
      else self' = mkSudokuBoard easy_puzzle 9 (seq 0 9)
           ∧ ∀ s, ¬ completes (grid (mkSudokuBoard easy_puzzle 9 (seq 0 9))) s.
Proof.
  assert (board9 (mkSudokuBoard easy_puzzle 9 (seq 0 9))) as Hboard.
  { split; [apply (bool_decide_unpack _); vm_compute; exact I | reflexivity]. }
  assert (own_rows (mkSudokuBoard easy_puzzle 9 (seq 0 9))) as Hown
    by (apply (bool_decide_unpack _); vm_compute; exact I).
  assert (zeros (grid (mkSudokuBoard easy_puzzle 9 (seq 0 9))) < 4) as Hfuel
    by (vm_compute; lia).
  exact (solve_finds_completion 4 (mkSudokuBoard easy_puzzle 9 (seq 0 9)) Hboard Hown Hfuel).
Defined.

(** The rows have to be lists of their own. On the board
    [SudokuBoard([[0] * 9] * 9)] every assignment shows in all nine rows:
    [solve] returns [True] and leaves nine rows [1, 2, ..., 9], which
    complete nothing. *)
Lemma solve_on_shared_rows :
  board9 shared_rows_board
  ∧ solve 10 shared_rows_board
    = Some (Ok true, mkSudokuBoard (replicate 9 (seqZ 1 9)) 9 (replicate 9 0))
  ∧ ¬ completes (grid shared_rows_board) (replicate 9 (seqZ 1 9)).
Proof.
  split; [|split].
  - split; [apply (bool_decide_unpack _); vm_compute; exact I | reflexivity].
  - vm_compute. reflexivity.
  - intros [_ Hcomp]. specialize (Hcomp 0 0 ltac:(lia) ltac:(lia)).
    rewrite decide_True in Hcomp by reflexivity.
    destruct Hcomp as [_ Hpeers].
    apply (Hpeers 1 0); [lia | lia | done | by right; left | reflexivity].
Qed.

(** ** Completions of valid puzzles are Sudoku solutions *)

Lemma completes_proper g s : valid_givens g → completes g s → proper s.
Proof.
  intros Hgivens [Hs Hcomp] r c Hr Hc.
  pose proof (Hcomp r c Hr Hc) as Hcell.
  destruct (decide (cell_value g r c = 0%Z)) as [Hz|Hnz]; [done|].
  unfold valid_givens in Hgivens. rewrite Forall_forall in Hgivens.
  destruct (Hgivens (r, c)) as [Hrange Hpeers];
    [by apply elem_of_all_cells | done |].
  rewrite Forall_forall in Hpeers. cbn [fst snd] in Hrange, Hpeers.
  rewrite Hcell. split; [done|].
  intros r' c' Hr' Hc' Hne Hunit.
  pose proof (Hcomp r' c' Hr' Hc') as Hcell'.
  destruct (decide (cell_value g r' c' = 0%Z)) as [Hz'|Hnz'].
  - destruct Hcell' as [_ Hpeers']. rewrite <- Hcell. intros Heq.
    apply (Hpeers' r c Hr Hc); [by intros [= -> ->] | | done].
    by apply shares_unit_sym.
  - rewrite Hcell'. apply (Hpeers (r', c')); try done.
    by apply elem_of_all_cells.
Qed.

Lemma unit_cells_share i unit_cells rc rc' :
  i < 9 → unit_cells ∈ [row_cells i; col_cells i; box_cells_of i] →
  rc ∈ unit_cells → rc' ∈ unit_cells →
  rc.1 < 9 ∧ rc.2 < 9 ∧ shares_unit rc rc'.
Proof.
  intros Hi Hunit Hrc Hrc'. unfold shares_unit.
  apply elem_of_cons in Hunit as [-> | Hunit].
  { apply elem_of_row_cells in Hrc as [? ?], Hrc' as [? ?]. lia. }
  apply elem_of_cons in Hunit as [-> | Hunit].
  { apply elem_of_col_cells in Hrc as [? ?], Hrc' as [? ?]. lia. }
  apply list_elem_of_singleton in Hunit as ->.
  destruct (box_of_index_bounds i Hi) as [Hbr Hbc].
  pose proof (box_cells_bounds _ _ Hbr Hbc) as Hcells.
  rewrite Forall_forall in Hcells. destruct (Hcells rc Hrc) as [? ?].
  split; [done|]. split; [done|]. right. right.
  apply elem_of_box_cells_of in Hrc as (? & ? & ? & ?),
    Hrc' as (? & ? & ? & ?).
  pose proof (same_box_iff (i / 3 * 3) rc.1) as Hb1.
  pose proof (same_box_iff (i / 3 * 3) rc'.1) as Hb1'.
  pose proof (same_box_iff (i mod 3 * 3) rc.2) as Hb2.
  pose proof (same_box_iff (i mod 3 * 3) rc'.2) as Hb2'.
  rewrite !Nat.div_mul in Hb1, Hb1', Hb2, Hb2' by done. lia.
Qed.

Lemma common_unit r c r' c' :
  r < 9 → c < 9 → r' < 9 → c' < 9 → shares_unit (r, c) (r', c') →
  ∃ i unit_cells,
    i < 9 ∧ unit_cells ∈ [row_cells i; col_cells i; box_cells_of i]
    ∧ (r, c) ∈ unit_cells ∧ (r', c') ∈ unit_cells.
Proof.
  intros Hr Hc Hr' Hc'. unfold shares_unit. cbn [fst snd].
  intros [<- | [<- | [Hbr Hbc]]].
  - exists r, (row_cells r). split; [done|]. split; [left|].
    split; by apply elem_of_row_cells.
  - exists c, (col_cells c). split; [done|]. split; [right; left|].
    split; by apply elem_of_col_cells.
  - exists (r / 3 * 3 + c / 3), (box_cells_of (r / 3 * 3 + c / 3)).
    assert (r / 3 < 3) as Hr3 by (apply Nat.Div0.div_lt_upper_bound; lia).
    assert (c / 3 < 3) as Hc3 by (apply Nat.Div0.div_lt_upper_bound; lia).
    assert ((r / 3 * 3 + c / 3) / 3 = r / 3) as Hdiv.
    { rewrite Nat.div_add_l by done. rewrite (Nat.div_small (c / 3)) by done.
      lia. }
    assert ((r / 3 * 3 + c / 3) mod 3 = c / 3) as Hmod.
    { rewrite Nat.add_comm, Nat.Div0.mod_add. by apply Nat.mod_small. }
    split; [lia|]. split; [right; right; left|].
    rewrite !elem_of_box_cells_of, Hdiv, Hmod. cbn [fst snd].
    pose proof (same_box_iff r r) as H1. pose proof (same_box_iff r r') as H1'.
    pose proof (same_box_iff c c) as H2. pose proof (same_box_iff c c') as H2'.
    lia.
Qed.

Lemma NoDup_fmap_inj_on {A B} (f : A → B) (l : list A) x y :
  NoDup (f <$> l) → x ∈ l → y ∈ l → f x = f y → x = y.
Proof.
  induction l as [|z l IH]; [by intros _ ?%elem_of_nil|].
  rewrite fmap_cons, NoDup_cons.
  intros [Hnotin Hnodup] [-> | Hx]%elem_of_cons [-> | Hy]%elem_of_cons Heq.
  - done.
  - destruct Hnotin. rewrite Heq. by apply list_elem_of_fmap_2.
  - destruct Hnotin. rewrite <- Heq. by apply list_elem_of_fmap_2.
  - by apply IH.
Qed.

Lemma NoDup_unit_cells i unit_cells :
  unit_cells ∈ [row_cells i; col_cells i; box_cells_of i] → NoDup unit_cells.
Proof.
  intros [-> | Hunit]%elem_of_cons; [apply NoDup_row_cells|].
  apply elem_of_cons in Hunit as [-> | Hunit]; [apply NoDup_col_cells|].
  apply list_elem_of_singleton in Hunit as ->. apply NoDup_box_cells.
Qed.

Lemma length_unit_cells i unit_cells :
  unit_cells ∈ [row_cells i; col_cells i; box_cells_of i] →
  length unit_cells = 9.
Proof.
  intros [-> | Hunit]%elem_of_cons; [done|].
  apply elem_of_cons in Hunit as [-> | Hunit]; [done|].
  apply list_elem_of_singleton in Hunit as ->. done.
Qed.

Lemma proper_solution s : is_9x9 s → proper s → sudoku_solution s.
Proof.
  intros Hs Hproper. split; [done|]. intros i unit_cells Hi Hunit.
  apply submseteq_length_Permutation.
  - apply NoDup_submseteq.
    + apply NoDup_fmap_2_strong; [|by eapply NoDup_unit_cells].
      intros [r c] [r' c'] Hrc Hrc' Heq.
      destruct (unit_cells_share i _ _ _ Hi Hunit Hrc Hrc') as (Hr & Hc & Hsh).
      destruct (unit_cells_share i _ _ _ Hi Hunit Hrc' Hrc) as (Hr' & Hc' & _).
      cbn [fst snd] in *.
      destruct (decide ((r', c') = (r, c))) as [|Hne]; [done|].
      destruct (Hproper r c Hr Hc) as [_ Hpeers].
      by destruct (Hpeers r' c' Hr' Hc' Hne Hsh).
    + intros v ([r c] & -> & Hrc)%list_elem_of_fmap.
      destruct (unit_cells_share i _ _ _ Hi Hunit Hrc Hrc) as (Hr & Hc & _).
      apply elem_of_digits. by apply Hproper.
  - unfold values. rewrite length_fmap, (length_unit_cells i) by done. done.
Qed.

Lemma solution_proper s : sudoku_solution s → proper s.
Proof.
  intros [Hs Hunits] r c Hr Hc. split.
  - apply elem_of_digits. rewrite <- (Hunits r (row_cells r) Hr) by left.
    apply list_elem_of_fmap. exists (r, c). split; [done|].
    by apply elem_of_row_cells.
  - intros r' c' Hr' Hc' Hne Hsh Heq.
    destruct (common_unit r c r' c' Hr Hc Hr' Hc' Hsh)
      as (i & unit_cells & Hi & Hunit & Hin & Hin').
    apply Hne.
    apply (NoDup_fmap_inj_on (λ rc, cell_value s rc.1 rc.2) unit_cells);
      [|done | done | done].
    fold (values s unit_cells). rewrite (Hunits i unit_cells Hi Hunit).
    apply NoDup_seqZ.
Qed.

Lemma solution_completes g s :
  sudoku_solution s → extends g s → completes g s.
Proof.
  intros Hsol Hext. split; [apply Hsol|]. intros r c Hr Hc.
  destruct (decide (cell_value g r c = 0%Z)) as [Hz|Hnz].
  - by apply solution_proper.
  - by apply Hext.
Qed.

Lemma completes_extends g s : completes g s → extends g s.
Proof.
  intros [_ Hcomp] r c Hr Hc Hnz. specialize (Hcomp r c Hr Hc).
  by rewrite decide_False in Hcomp by done.
Qed.

(** X14. On a puzzle whose givens are valid (digits of 1..9, none twice in
    a row, a column or a box), on a board in which every row is a list of
    its own, [solve] decides whether the puzzle has a solution: when it
    returns [True] the board is a solved Sudoku (every row, every column
    and every box holds each of 1..9 once) that keeps the givens; when it
    returns [False] the board is unchanged and no solved Sudoku keeps the
    givens. *)
Theorem solve_decides_valid_puzzles (fuel : nat) (self : SudokuBoard) :
  board9 self → own_rows self → valid_givens (grid self) →
  zeros (grid self) < fuel →
  ∃ b self',
    solve fuel self = Some (Ok b, self')
    ∧ if b then sudoku_solution (grid self') ∧ extends (grid self) (grid self')
      else self' = self
           ∧ ∀ s, sudoku_solution s → ¬ extends (grid self) s.
Proof.
  intros Hboard9 Hown Hgivens Hfuel.
  pose proof (conj Hboard9 Hown : plain9 self) as Hboard.
  destruct (solve_spec fuel self Hboard Hfuel) as (b & self' & Hrun & Hb' & Hres).
  exists b, self'. split; [done|]. destruct b.
  - split; [|by apply completes_extends].
    apply proper_solution; [apply Hb'|]. by eapply completes_proper.
  - destruct Hres as [-> Hnone]. split; [done|].
    intros s Hsol Hext. apply (Hnone s). by apply solution_completes.
Qed.

Lemma solve_decides_valid_puzzles_witness :
  ∃ b self',
    solve 4 (mkSudokuBoard easy_puzzle 9 (seq 0 9)) = Some (Ok b, self')
    ∧ if b then sudoku_solution (grid self')
                ∧ extends (grid (mkSudokuBoard easy_puzzle 9 (seq 0 9))) (grid self')
      else self' = mkSudokuBoard easy_puzzle 9 (seq 0 9)
           ∧ ∀ s, sudoku_solution s →
                  ¬ extends (grid (mkSudokuBoard easy_puzzle 9 (seq 0 9))) s.
Proof.
  assert (board9 (mkSudokuBoard easy_puzzle 9 (seq 0 9))) as Hboard.
  { split; [apply (bool_decide_unpack _); vm_compute; exact I | reflexivity]. }
  assert (own_rows (mkSudokuBoard easy_puzzle 9 (seq 0 9))) as Hown
    by (apply (bool_decide_unpack _); vm_compute; exact I).
  assert (valid_givens (grid (mkSudokuBoard easy_puzzle 9 (seq 0 9)))) as Hgivens
    by (apply (bool_decide_unpack _); vm_compute; exact I).
  assert (zeros (grid (mkSudokuBoard easy_puzzle 9 (seq 0 9))) < 4) as Hfuel
    by (vm_compute; lia).
  exact (solve_decides_valid_puzzles 4 (mkSudokuBoard easy_puzzle 9 (seq 0 9))
           Hboard Hown Hgivens Hfuel).
Defined.

(** ** Counting the calls *)

Lemma solve_with_count_numbers_solve fuel row col :
  (∀ self steps,
     match solve fuel self with
     | None => solve_with_count fuel self steps = None
     | Some (r, self') =>
         ∃ steps', solve_with_count fuel self steps = Some (r, self', steps')
                   ∧ steps < steps'
     end) →
  ∀ numbers self steps,
    match solve_numbers (solve fuel) row col numbers self with
    | None =>
        solve_with_count_numbers (solve_with_count fuel) row col numbers
          self steps = None
    | Some (r, self') =>
        ∃ steps',
          solve_with_count_numbers (solve_with_count fuel) row col numbers
            self steps = Some (r, self', steps')
          ∧ steps ≤ steps'
    end.
Proof.
  intros IH numbers. induction numbers as [|num numbers IHn]; intros self steps.
  - exists steps. done.
  - cbn [solve_numbers solve_with_count_numbers].
    destruct (is_valid self row col num) as [[|]|e].
    + destruct (assign self row col num) as [self1|e].
      * specialize (IH self1 steps).
        destruct (solve fuel self1) as [[[[|]|e] self2]|].
        -- destruct IH as (steps1 & -> & Hlt). exists steps1. split; [done|lia].
        -- destruct IH as (steps1 & -> & Hlt).
           destruct (assign self2 row col 0) as [self3|e].
           ++ specialize (IHn self3 steps1).
              destruct (solve_numbers _ _ _ numbers self3) as [[r self']|].
              ** destruct IHn as (steps' & -> & Hle). exists steps'.
                 split; [done|lia].
              ** done.
           ++ exists steps1. split; [done|lia].
        -- destruct IH as (steps1 & -> & Hlt). exists steps1. split; [done|lia].
        -- by rewrite IH.
      * exists steps. done.
    + apply IHn.
    + exists steps. done.
Qed.

Lemma solve_with_count_solve fuel self steps :
  match solve fuel self with
  | None => solve_with_count fuel self steps = None
  | Some (r, self') =>
      ∃ steps', solve_with_count fuel self steps = Some (r, self', steps')
                ∧ steps < steps'
  end.
Proof.
  revert self steps. induction fuel as [|fuel IH]; intros self steps; [done|].
  rewrite solve_unfold, solve_with_count_unfold.
  destruct (find_empty self) as [[[row col]|]|e].
  - pose proof (solve_with_count_numbers_solve fuel row col IH
                  (seqZ 1 (Z.of_nat (size self))) self (S steps)) as Hloop.
    destruct (solve_numbers _ _ _ _ self) as [[r self']|]; [|done].
    destruct Hloop as (steps' & -> & Hle). exists steps'. split; [done|lia].
  - exists (S steps). split; [done|lia].
  - exists (S steps). split; [done|lia].
Qed.

(** X15. [count_solve_steps] does to the board exactly what [solve] does
    (it leaves the board solved when the puzzle can be solved, a side
    effect on the object it is called on) and ends the same way: it returns
    a count of at least 1 where [solve] returns, raises where [solve]
    raises, and needs the same depth of recursion. *)
Theorem count_solve_steps_like_solve (fuel : nat) (self : SudokuBoard) :
  match solve fuel self with
  | None => count_solve_steps fuel self = None
  | Some (Ok b, self') =>
      ∃ steps, count_solve_steps fuel self = Some (Ok steps, self') ∧ 1 ≤ steps
  | Some (Raise e, self') => count_solve_steps fuel self = Some (Raise e, self')
  end.
Proof.
  unfold count_solve_steps. pose proof (solve_with_count_solve fuel self 0) as H.
  destruct (solve fuel self) as [[[b|e] self']|].
  - destruct H as (steps & -> & Hlt). exists steps. split; [done|lia].
  - by destruct H as (steps & -> & Hlt).
  - by rewrite H.
Qed.

(** ** Counting the completions *)

Lemma counted_ext (A B : Grid → Prop) n n' :
  (∀ s, A s ↔ B s) → counted A n n' → counted B n n'.
Proof.
  intros Hext (H1 & H2 & Hnone & Hone & Hsome & Htwo).
  split; [done|]. split; [done|]. split; [|split; [|split]].
  - intros Heq s Hs. apply (Hnone Heq s). by apply Hext.
  - intros Hn Hn'. destruct (Hone Hn Hn') as (s & Hs & Huniq).
    exists s. split; [by apply Hext|]. intros s' Hs'. apply Huniq. by apply Hext.
  - intros Heq. destruct (Hsome Heq) as (s & Hs). exists s. by apply Hext.
  - intros Hn Hn'. destruct (Htwo Hn Hn') as (s & s' & Hs & Hs' & Hne).
    exists s, s'. split; [by apply Hext|]. split; [by apply Hext|done].
Qed.

Lemma counted_nil (A : Grid → Prop) n :
  n ≤ 1 → (∀ s, ¬ A s) → counted A n n.
Proof.
  intros Hn Hnone. split; [done|]. split; [lia|]. split; [done|].
  split; [lia|]. split; [lia|]. lia.
Qed.

Lemma counted_stop (A B : Grid → Prop) n :
  n ≤ 1 → counted A n 2 → counted (λ s, A s ∨ B s) n 2.
Proof.
  intros Hn (H1 & H2 & Hnone & Hone & Hsome & Htwo).
  split; [done|]. split; [done|]. split; [lia|]. split; [lia|]. split.
  - intros Heq. destruct (Hsome Heq) as (s & Hs). exists s. by left.
  - intros Hn0 _. destruct (Htwo Hn0 eq_refl) as (s & s' & Hs & Hs' & Hne).
    exists s, s'. split; [by left|]. split; [by left | done].
Qed.

Lemma counted_seq (A B : Grid → Prop) n m n' :
  counted A n m → m ≤ 1 → counted B m n' →
  (∀ a b, A a → B b → a ≠ b) →
  counted (λ s, A s ∨ B s) n n'.
Proof.
  intros (HA1 & HA2 & HAnone & HAone & HAsome & HAtwo) Hm
    (HB1 & HB2 & HBnone & HBone & HBsome & HBtwo) Hdisj.
  split; [lia|]. split; [done|]. split; [|split; [|split]].
  - intros Heq s [Hs | Hs].
    + apply (HAnone ltac:(lia) s Hs).
    + apply (HBnone ltac:(lia) s Hs).
  - intros Hn Hn'. destruct (decide (m = 0)) as [Hm0|Hm0].
    + destruct (HBone Hm0 Hn') as (s & Hs & Huniq). exists s.
      split; [by right|]. intros s' [Hs' | Hs']; [|by apply Huniq].
      destruct (HAnone ltac:(lia) s' Hs').
    + destruct (HAone Hn ltac:(lia)) as (s & Hs & Huniq). exists s.
      split; [by left|]. intros s' [Hs' | Hs']; [by apply Huniq|].
      destruct (HBnone ltac:(lia) s' Hs').
  - intros Heq. destruct (decide (m = n)) as [Hmn|Hmn].
    + destruct (HBsome ltac:(lia)) as (s & Hs). exists s. by right.
    + destruct (HAsome ltac:(lia)) as (s & Hs). exists s. by left.
  - intros Hn Hn'. destruct (decide (m = 0)) as [Hm0|Hm0].
    + destruct (HBtwo Hm0 Hn') as (s & s' & Hs & Hs' & Hne).
      exists s, s'. split; [by right|]. split; [by right | done].
    + destruct (HAone Hn ltac:(lia)) as (s & Hs & _).
      destruct (HBsome ltac:(lia)) as (s' & Hs').
      exists s, s'. split; [by left|]. split; [by right|]. by apply Hdisj.
Qed.

Lemma completes_assigned g g1 s row col num :
  row < 9 → col < 9 → cell_value g row col = 0%Z → (1 ≤ num ≤ 9)%Z →
  (∀ r c, cell_value g1 r c =
            if decide (r = row ∧ c = col) then num else cell_value g r c) →
  (∀ r' c', r' < 9 → c' < 9 → shares_unit (row, col) (r', c') →
     cell_value g r' c' ≠ num) →
  completes g1 s ↔ completes g s ∧ cell_value s row col = num.
Proof.
  intros Hr Hc Hzero Hnum Hg1 Hvalid. split.
  - intros Hs. split; [by apply (completes_after_assign g g1 s row col num)|].
    destruct Hs as [_ Hcomp]. specialize (Hcomp row col Hr Hc).
    rewrite Hg1 in Hcomp.
    rewrite (decide_True (P := row = row ∧ col = col)) in Hcomp by done.
    by rewrite decide_False in Hcomp by lia.
  - intros [Hs Hval]. apply (completes_with_value g g1 s row col); try done.
    by rewrite Hval.
Qed.

Lemma count_solutions_numbers_spec fuel self row col :
  (∀ self1 n, plain9 self1 → zeros (grid self1) < fuel → n ≤ 1 →
     ∃ n', count_solutions fuel self1 n = Some (Ok (), self1, n')
           ∧ counted (completes (grid self1)) n n') →
  plain9 self → row < 9 → col < 9 →
  cell_value (grid self) row col = 0%Z → zeros (grid self) ≤ fuel →
  ∀ numbers, NoDup numbers → (∀ n, n ∈ numbers → (1 ≤ n ≤ 9)%Z) →
  ∀ n, n ≤ 1 →
    ∃ n',
      count_solutions_numbers (count_solutions fuel) row col numbers self n
        = Some (Ok (), self, n')
      ∧ counted (λ s, completes (grid self) s ∧ cell_value s row col ∈ numbers)
          n n'.
Proof.
  intros IH Hboard Hr Hc Hzero Hfuel numbers.
  induction numbers as [|num numbers IHn]; intros Hnodup Hnums n Hn.
  - exists n. split; [done|]. apply counted_nil; [done|].
    by intros s [_ ?%elem_of_nil].
  - assert (1 ≤ num ≤ 9)%Z as Hnum by (apply Hnums; left).
    apply NoDup_cons in Hnodup as [Hnotin Hnodup].
    specialize (IHn Hnodup (λ n Hn, Hnums n (list_elem_of_further _ _ _ Hn))).
    cbn [count_solutions_numbers].
    destruct (is_valid_9x9 self row col num (proj1 Hboard) Hr Hc) as (v & -> & Hv).
    destruct v.
    + destruct (assign_9x9 self row col num Hboard Hr Hc)
        as (self1 & Hassign & Hboard1 & Hg1).
      rewrite Hassign.
      assert (zeros (grid self) = S (zeros (grid self1))) as Hz.
      { apply (zeros_assign _ _ row col num); [done | done | done | lia | done]. }
      destruct (IH self1 n Hboard1) as (n1 & -> & Hcount1); [lia | done |].
      destruct (assign_9x9 self1 row col 0 Hboard1 Hr Hc)
        as (self3 & Hback & _ & _).
      rewrite Hback.
      rewrite (assign_back self self1 self3 row col num) by done.
      assert (counted (λ s, completes (grid self) s ∧ cell_value s row col = num)
                n n1) as Hcount1'.
      { eapply counted_ext; [|exact Hcount1]. intros s.
        apply (completes_assigned _ _ _ row col num); try done. by apply Hv. }
      case_decide as Hstop.
      * exists n1. split; [done|].
        assert (n1 = 2) as -> by (destruct Hcount1 as (_ & ? & _); lia).
        eapply counted_ext;
          [|apply (counted_stop _
                     (λ s, completes (grid self) s
                           ∧ cell_value s row col ∈ numbers) n Hn Hcount1')].
        intros s. cbn beta. rewrite elem_of_cons. tauto.
      * destruct (IHn n1) as (n' & -> & Hcount'); [lia|].
        exists n'. split; [done|].
        eapply counted_ext;
          [|apply (counted_seq _ _ n n1 n' Hcount1' ltac:(lia) Hcount')].
        -- intros s. cbn beta. rewrite elem_of_cons. tauto.
        -- intros a b [_ Ha] [_ Hb] ->. by rewrite Ha in Hb.
    + destruct (IHn n Hn) as (n' & -> & Hcount').
      exists n'. split; [done|].
      eapply counted_ext; [|exact Hcount']. intros s. cbn beta.
      rewrite elem_of_cons. split; [tauto|].
      intros [Hs [Heq | Hin]]; [|done].
      assert (true = false → False) as Hfalse by done. destruct Hfalse.
      symmetry. apply Hv. rewrite <- Heq. by apply completes_value_valid.
Qed.

Lemma completes_full g s :
  is_9x9 g → (∀ r c, r < 9 → c < 9 → cell_value g r c ≠ 0%Z) →
  completes g s ↔ s = g.
Proof.
  intros Hg Hfull. split.
  - intros [Hs Hcomp]. apply grid_ext; [done | done|].
    intros r c Hr Hc. specialize (Hcomp r c Hr Hc).
    by rewrite decide_False in Hcomp by (by apply Hfull).
  - intros ->. by apply completes_self.
Qed.

Lemma count_solutions_spec fuel self n :
  plain9 self → zeros (grid self) < fuel → n ≤ 1 →
  ∃ n', count_solutions fuel self n = Some (Ok (), self, n')
        ∧ counted (completes (grid self)) n n'.
Proof.
  revert self n. induction fuel as [|fuel IH]; intros self n Hboard Hfuel Hn;
    [lia|].
  rewrite count_solutions_unfold.
  destruct (find_empty_9x9 self (proj1 Hboard))
    as [[-> Hfull] | (row & col & -> & Hr & Hc & Hzero & _)].
  - exists (S n). split; [done|].
    pose proof (completes_full (grid self) (grid self) (proj1 (proj1 Hboard))
                  Hfull)
      as Hself.
    split; [lia|]. split; [lia|]. split; [lia|]. split; [|split].
    + intros _ _. exists (grid self). split; [by apply Hself|].
      intros s'. by apply completes_full; [apply Hboard|].
    + intros _. exists (grid self). by apply Hself.
    + lia.
  - destruct (count_solutions_numbers_spec fuel self row col IH Hboard Hr Hc
                Hzero ltac:(lia) (seqZ 1 (Z.of_nat (size self))))
      with (n := n) as (n' & -> & Hcount); [apply NoDup_seqZ | | done |].
    { intros k Hk%elem_of_seqZ. destruct Hboard as [[_ Hsize] _].
      rewrite Hsize in Hk. lia. }
    exists n'. split; [done|].
    eapply counted_ext; [|exact Hcount]. intros s. cbn beta.
    split; [tauto|]. intros Hs. split; [done|].
    destruct Hs as [_ Hcomp]. specialize (Hcomp row col Hr Hc).
    rewrite decide_True in Hcomp by done.
    apply elem_of_seqZ. destruct Hboard as [[_ ->] _]. lia.
Qed.

(** X16. [has_unique_solution], called on a board of nine rows of nine
    integers in which every row is a list of its own, returns as soon as
    the depth allowed exceeds the number of empty cells, and leaves the
    board as it was. It returns [True] exactly when the board has one
    completion and no other; on a puzzle with valid givens, exactly when
    one solved Sudoku, and no other, keeps the givens. *)
Theorem has_unique_solution_correct (fuel : nat) (self : SudokuBoard) :
  board9 self → own_rows self → zeros (grid self) < fuel →
  ∃ b,
    has_unique_solution fuel self = Some (Ok b, self)
    ∧ (b = true ↔
         ∃ s, completes (grid self) s
              ∧ ∀ s', completes (grid self) s' → s' = s)
    ∧ (valid_givens (grid self) →
       b = true ↔
         ∃ s, (sudoku_solution s ∧ extends (grid self) s)
              ∧ ∀ s', sudoku_solution s' ∧ extends (grid self) s' → s' = s).
Proof.
  intros Hboard9 Hown Hfuel. unfold has_unique_solution.
  pose proof (conj Hboard9 Hown : plain9 self) as Hboard.
  destruct (count_solutions_spec fuel self 0 Hboard Hfuel ltac:(lia))
    as (n' & -> & (_ & Hle & Hnone & Hone & _ & Htwo)).
  eexists. split; [done|].
  assert (bool_decide (n' = 1) = true ↔
          ∃ s, completes (grid self) s
               ∧ ∀ s', completes (grid self) s' → s' = s) as Hunique.
  { rewrite bool_decide_eq_true. split; [by apply Hone|].
    intros (s & Hs & Huniq).
    destruct (decide (n' = 0)) as [->|Hn0]; [by destruct (Hnone eq_refl s)|].
    destruct (decide (n' = 2)) as [->|Hn2]; [|lia].
    destruct (Htwo eq_refl eq_refl) as (s1 & s2 & Hs1 & Hs2 & Hne).
    destruct Hne. by rewrite (Huniq s1), (Huniq s2). }
  split; [exact Hunique|]. intros Hgivens. rewrite Hunique.
  assert (∀ s, completes (grid self) s
               ↔ sudoku_solution s ∧ extends (grid self) s) as Hiff.
  { intros s. split.
    - intros Hs. split; [|by apply completes_extends].
      apply proper_solution; [apply Hs|]. by eapply completes_proper.
    - intros [Hsol Hext]. by apply solution_completes. }
  split; intros (s & Hs & Huniq); exists s;
    (split; [by apply Hiff|]); intros s' Hs'; apply Huniq; by apply Hiff.
Qed.

Lemma has_unique_solution_correct_witness :
  ∃ b,
    has_unique_solution 4 (mkSudokuBoard easy_puzzle 9 (seq 0 9))
      = Some (Ok b, mkSudokuBoard easy_puzzle 9 (seq 0 9))
    ∧ (b = true ↔
         ∃ s, completes (grid (mkSudokuBoard easy_puzzle 9 (seq 0 9))) s
              ∧ ∀ s', completes (grid (mkSudokuBoard easy_puzzle 9 (seq 0 9))) s' →
                      s' = s)
    ∧ (valid_givens (grid (mkSudokuBoard easy_puzzle 9 (seq 0 9))) →
       b = true ↔
         ∃ s, (sudoku_solution s
               ∧ extends (grid (mkSudokuBoard easy_puzzle 9 (seq 0 9))) s)
              ∧ ∀ s', sudoku_solution s'
                      ∧ extends (grid (mkSudokuBoard easy_puzzle 9 (seq 0 9))) s' →
                      s' = s).
Proof.
  assert (board9 (mkSudokuBoard easy_puzzle 9 (seq 0 9))) as Hboard.
  { split; [apply (bool_decide_unpack _); vm_compute; exact I | reflexivity]. }
  assert (own_rows (mkSudokuBoard easy_puzzle 9 (seq 0 9))) as Hown
    by (apply (bool_decide_unpack _); vm_compute; exact I).
  assert (zeros (grid (mkSudokuBoard easy_puzzle 9 (seq 0 9))) < 4) as Hfuel
    by (vm_compute; lia).
  exact (has_unique_solution_correct 4 (mkSudokuBoard easy_puzzle 9 (seq 0 9))
           Hboard Hown Hfuel).
Defined.

(** * The rating of a puzzle that has a solution *)

(** ** The singles are digits of the solution *)

Lemma solution_consistent g s r c :
  sudoku_solution s → extends g s → r < 9 → c < 9 →
  cell_value g r c = 0%Z → consistent g r c (cell_value s r c).
Proof.
  intros Hsol Hext Hr Hc Hzero.
  pose proof (solution_completes g s Hsol Hext) as Hcomp.
  split.
  - destruct Hcomp as [_ Hcomp]. specialize (Hcomp r c Hr Hc).
    rewrite decide_True in Hcomp by done. apply Hcomp.
  - intros r' c' Hr' Hc' Hunit.
    apply (completes_value_valid g s r c Hr Hc Hzero Hcomp r' c' Hr' Hc').
    unfold shares_unit. cbn [fst snd]. clear -Hunit.
    destruct Hunit as [-> | [-> | [-> ->]]]; auto.
Qed.

Lemma init_candidates_empty_cell g candidates r c :
  is_9x9 g → _init_candidates g = Ok candidates →
  r < 9 → c < 9 → cell_value g r c = 0%Z →
  ∃ cands, candidates !! (r, c) = Some cands
           ∧ ∀ d, d ∈ cands ↔ consistent g r c d.
Proof.
  intros Hg Hinit Hr Hc Hzero.
  destruct (init_candidates_9x9 g Hg) as (cm & Hcm & Hlook).
  rewrite Hinit in Hcm. injection Hcm as <-.
  specialize (Hlook (r, c)). cbn [fst snd] in Hlook.
  rewrite decide_True in Hlook by done.
  rewrite get_candidates_9x9 in Hlook by done.
  eexists. split; [exact Hlook|].
  apply (init_candidates_lookup g candidates r c _ Hg Hinit). exact Hlook.
Qed.

Lemma naked_single_of_solution g candidates s r c d :
  is_9x9 g → _init_candidates g = Ok candidates →
  sudoku_solution s → extends g s →
  (r, c, d) ∈ find_naked_singles candidates →
  r < 9 ∧ c < 9 ∧ cell_value g r c = 0%Z ∧ cell_value s r c = d.
Proof.
  intros Hg Hinit Hsol Hext (Hr & Hc & Hlook)%find_naked_singles_exact.
  apply (init_candidates_lookup g candidates r c _ Hg Hinit) in Hlook
    as (_ & _ & Hzero & Hcands).
  split; [done|]. split; [done|]. split; [done|].
  assert (cell_value s r c ∈ ({[d]} : gset Z)) as Hin
    by (by apply Hcands, solution_consistent).
  by apply elem_of_singleton in Hin.
Qed.

Lemma hidden_single_of_solution los g candidates hidden s r c d :
  set_order los → is_9x9 g → _init_candidates g = Ok candidates →
  sudoku_solution s → extends g s →
  find_hidden_singles los g candidates = Ok hidden →
  (r, c, d) ∈ hidden →
  r < 9 ∧ c < 9 ∧ cell_value g r c = 0%Z ∧ cell_value s r c = d.
Proof.
  intros Hlos Hg Hinit Hsol Hext Hfind Hin.
  destruct (find_hidden_singles_exact los g candidates Hlos Hg)
    as (hidden' & Hfind' & _ & Hexact).
  rewrite Hfind in Hfind'. injection Hfind' as <-.
  apply Hexact in Hin
    as (Hd & i & Hi & unit_cells & Hunit & Hnp & Hrc & Hcand & Honly).
  assert (d ∈ values s unit_cells) as Hds.
  { destruct Hsol as [_ Hunits]. rewrite (Hunits i unit_cells Hi Hunit).
    by apply elem_of_digits. }
  apply list_elem_of_fmap in Hds as ([r' c'] & Hval & Hrc').
  cbn [fst snd] in Hval.
  destruct (unit_cells_share i _ _ _ Hi Hunit Hrc' Hrc') as (Hr' & Hc' & _).
  cbn [fst snd] in Hr', Hc'.
  assert (cell_value g r' c' = 0%Z) as Hzero.
  { destruct (decide (cell_value g r' c' = 0%Z)) as [|Hnz]; [done|].
    destruct (Hnp (r', c') Hrc'). cbn [fst snd].
    rewrite <- (Hext r' c' Hr' Hc' Hnz). done. }
  destruct (init_candidates_empty_cell g candidates r' c' Hg Hinit Hr' Hc' Hzero)
    as (cands & Hlook & Hcands).
  assert ((r', c') = (r, c)) as Heq.
  { apply Honly; [done|]. exists cands. split; [done|].
    apply Hcands. rewrite Hval. by apply solution_consistent. }
  injection Heq as -> ->. done.
Qed.

Lemma first_effective_assignments los g cm tag findings :
  first_effective g cm (technique_table los)
    = Ok (Some (tag, Assignments findings)) →
  findings = find_naked_singles cm ∨ find_hidden_singles los g cm = Ok findings.
Proof.
  unfold technique_table. rewrite first_effective_cons, result_bind_Ok.
  destruct (nonzero _); [intros [= _ <-]; by left|].
  rewrite first_effective_cons.
  destruct (find_hidden_singles los g cm) as [hidden|]; [|done].
  rewrite !result_bind_Ok.
  destruct (nonzero _); [intros [= _ <-]; by right|].
  repeat (rewrite first_effective_cons, result_bind_Ok;
          destruct (nonzero _); [done|]).
  done.
Qed.

(** ** The working copy stays between the puzzle and its solution *)

Lemma extends_full_eq w s :
  is_9x9 w → is_9x9 s → extends w s →
  (∀ r c, r < 9 → c < 9 → cell_value w r c ≠ 0%Z) → w = s.
Proof.
  intros Hw Hs Hext Hfull. apply grid_ext; [done | done|].
  intros r c Hr Hc. symmetry. apply Hext; [done | done | by apply Hfull].
Qed.

Lemma assign_all_follows ref findings g0 s :
  Forall (λ f : nat * nat * Z,
      in_range f ∧ cell_value g0 f.1.1 f.1.2 = 0%Z
      ∧ cell_value s f.1.1 f.1.2 = f.2) findings →
  ∀ σ, on_the_way g0 s (grid (σ !!! ref)) → own_rows (σ !!! ref) →
    ∃ σ', assign_all ref findings σ = (Ok (), σ')
          ∧ on_the_way g0 s (grid (σ' !!! ref)) ∧ own_rows (σ' !!! ref).
Proof.
  induction 1 as [|[[row col] num] findings ([Hr Hc] & Hzero & Hval) _ IH];
    intros σ Hway Hown.
  - by exists σ.
  - cbn [fst snd] in Hr, Hc, Hzero, Hval. cbn [assign_all].
    rewrite M_bind_unfold. unfold set_cell.
    rewrite grid_write_distinct by done.
    destruct Hway as (Hw & Hgw & Hws).
    destruct (grid_set (grid (σ !!! ref)) row col num) as [g'|] eqn:Hset.
    2: { destruct (grid_set_9x9 _ row col num Hw Hr Hc) as (g' & Hg' & _).
         by rewrite Hg' in Hset. }
    pose proof (grid_set_cell_value _ _ _ _ _ Hset) as Hg'.
    apply IH; [|by rewrite lookup_total_insert_eq].
    rewrite lookup_total_insert_eq. cbn [grid].
    split; [by eapply grid_set_keeps_9x9|]. split.
    + intros r c Hr' Hc' Hnz. rewrite Hg'.
      rewrite decide_False by (intros [-> ->]; done). by apply Hgw.
    + intros r c Hr' Hc'. rewrite Hg'. case_decide as Hrc.
      * destruct Hrc as [-> ->]. done.
      * by apply Hws.
Qed.

Lemma iteration_body_follows los ref st g0 s σ :
  set_order los → sudoku_solution s →
  on_the_way g0 s (grid (σ !!! ref)) → own_rows (σ !!! ref) →
  ∃ c st' σ',
    iteration_body los ref st σ = (Ok (c, st'), σ')
    ∧ on_the_way g0 s (grid (σ' !!! ref)) ∧ own_rows (σ' !!! ref).
Proof.
  intros Hlos Hsol Hway Hown. rewrite iteration_body_table.
  unfold table_iteration. cbv zeta. rewrite get_grid_bind, lift_bind.
  pose proof Hway as (Hw & Hgw & Hws).
  destruct (init_candidates_9x9 _ Hw) as (cm & Hinit & _). rewrite Hinit.
  rewrite lift_bind.
  destruct (first_effective_9x9 los _ cm Hlos Hw) as (winner & Hwinner & Hrange).
  rewrite Hwinner. destruct winner as [[tag [findings|n]]|].
  - rewrite M_bind_unfold.
    destruct (assign_all_follows ref findings g0 s) with (σ := σ)
      as (σ' & -> & Hway'); [|done|done|by eexists _, _, _].
    apply Forall_forall. intros [[r c] d] Hin.
    assert (r < 9 ∧ c < 9 ∧ cell_value (grid (σ !!! ref)) r c = 0%Z
            ∧ cell_value s r c = d) as (Hr & Hc & Hzero & Hval).
    { apply first_effective_assignments in Hwinner as [-> | Hhidden].
      - by apply (naked_single_of_solution _ cm).
      - by apply (hidden_single_of_solution los _ cm findings). }
    split; [done|]. cbn [fst snd]. split; [|done].
    destruct (decide (cell_value g0 r c = 0%Z)) as [|Hnz]; [done|].
    rewrite <- (Hgw r c Hr Hc Hnz). done.
  - by eexists _, _, _.
  - by eexists _, _, _.
Qed.

Lemma rate_loop_follows los remaining ref st g0 s σ :
  set_order los → sudoku_solution s →
  on_the_way g0 s (grid (σ !!! ref)) → own_rows (σ !!! ref) →
  ∃ e st' σ',
    rate_loop los remaining ref st σ = (Ok (e, st'), σ')
    ∧ on_the_way g0 s (grid (σ' !!! ref))
    ∧ (e = Solved → grid (σ' !!! ref) = s).
Proof.
  intros Hlos Hsol. revert st σ.
  induction remaining as [|remaining IH]; intros st σ Hway Hown;
    cbn [rate_loop]; rewrite M_bind_unfold, is_solved_unfold.
  - destruct (forallb _ _) eqn:Hsolved.
    + eexists _, _, _. split; [done|]. split; [done|]. intros _.
      destruct Hway as (Hw & _ & Hws).
      apply extends_full_eq; [done | apply Hsol | done|].
      by apply solved_iff_full.
    + eexists _, _, _. split; [done|]. split; [done|]. done.
  - destruct (forallb _ _) eqn:Hsolved.
    + eexists _, _, _. split; [done|]. split; [done|]. intros _.
      destruct Hway as (Hw & _ & Hws).
      apply extends_full_eq; [done | apply Hsol | done|].
      by apply solved_iff_full.
    + rewrite M_bind_unfold.
      destruct (iteration_body_follows los ref st g0 s σ Hlos Hsol Hway Hown)
        as ([] & st' & σ' & -> & Hway' & Hown').
      * by apply IH.
      * eexists _, _, _. split; [done|]. split; [done|]. done.
Qed.

Lemma rate_puzzle_run_follows los board σ s :
  set_order los → is_9x9 (grid (σ !!! board)) → own_rows (σ !!! board) →
  sudoku_solution s → extends (grid (σ !!! board)) s →
  ∃ e st σ',
    rate_puzzle_run los board σ = (Ok (e, st), σ')
    ∧ on_the_way (grid (σ !!! board)) s (grid (σ' !!! fresh (dom σ)))
    ∧ (e = Solved → grid (σ' !!! fresh (dom σ)) = s).
Proof.
  intros Hlos Hg Hown Hsol Hext. unfold rate_puzzle_run.
  rewrite M_bind_unfold, deepcopy_unfold.
  apply rate_loop_follows; [done | done | | by rewrite lookup_total_insert_eq].
  rewrite lookup_total_insert_eq. split; [done|]. split; [|done].
  by intros r c _ _ _.
Qed.

(** X17. On a puzzle (nine rows of nine integers, every row a list of its
    own) that has a solution, the digits that [rate_puzzle] writes into
    its working copy are digits of the solution: the rating returns, and
    when its loop ends the working copy keeps the digits of the puzzle and
    the solution keeps the digits of the working copy. If the loop ends
    because the working copy is solved, the working copy is that solution,
    and the puzzle has no other solution. *)
Theorem rate_puzzle_follows_solution
    (list_of_set : list (nat * nat * Z) → list (nat * nat * Z))
    (board : nat) (σ : store) (s : Grid) :
  set_order list_of_set → is_9x9 (grid (σ !!! board)) →
  own_rows (σ !!! board) →
  sudoku_solution s → extends (grid (σ !!! board)) s →
  ∃ e st σ',
    rate_puzzle_run list_of_set board σ = (Ok (e, st), σ')
    ∧ is_9x9 (grid (σ' !!! fresh (dom σ)))
    ∧ extends (grid (σ !!! board)) (grid (σ' !!! fresh (dom σ)))
    ∧ extends (grid (σ' !!! fresh (dom σ))) s
    ∧ (e = Solved →
       grid (σ' !!! fresh (dom σ)) = s
       ∧ ∀ s', sudoku_solution s' → extends (grid (σ !!! board)) s' → s' = s).
Proof.
  intros Hlos Hg Hown Hsol Hext.
  destruct (rate_puzzle_run_follows list_of_set board σ s Hlos Hg Hown Hsol Hext)
    as (e & st & σ' & Hrun & (Hw & Hgw & Hws) & Hsolved).
  exists e, st, σ'. split; [done|]. split; [done|]. split; [done|].
  split; [done|]. intros He. split; [by apply Hsolved|].
  intros s' Hsol' Hext'.
  destruct (rate_puzzle_run_follows list_of_set board σ s' Hlos Hg Hown Hsol'
              Hext')
    as (e' & st' & σ'' & Hrun' & _ & Hsolved').
  rewrite Hrun in Hrun'. injection Hrun' as <- <- <-.
  rewrite <- (Hsolved He). symmetry. by apply Hsolved'.
Qed.

Lemma rate_puzzle_follows_solution_witness :
  ∃ e st σ',
    rate_puzzle_run remove_dups 0 (one_board easy_puzzle) = (Ok (e, st), σ')
    ∧ is_9x9 (grid (σ' !!! fresh (dom (one_board easy_puzzle))))
    ∧ extends (grid (one_board easy_puzzle !!! 0))
        (grid (σ' !!! fresh (dom (one_board easy_puzzle))))
    ∧ extends (grid (σ' !!! fresh (dom (one_board easy_puzzle)))) solved_grid
    ∧ (e = Solved →
       grid (σ' !!! fresh (dom (one_board easy_puzzle))) = solved_grid
       ∧ ∀ s', sudoku_solution s' →
               extends (grid (one_board easy_puzzle !!! 0)) s' →
               s' = solved_grid).
Proof.
  assert (is_9x9 (grid (one_board easy_puzzle !!! 0))) as Hshape
    by (apply (bool_decide_unpack _); vm_compute; exact I).
  assert (sudoku_solution solved_grid) as Hsol.
  { split; [apply (bool_decide_unpack _); vm_compute; exact I|].
    intros i unit_cells Hi Hunit.
    assert (Forall (λ i, Forall (λ unit_cells, values solved_grid unit_cells ≡ₚ digits)
                           [row_cells i; col_cells i; box_cells_of i]) range9)
      as Hall by (apply (bool_decide_unpack _); vm_compute; exact I).
    rewrite Forall_forall in Hall. specialize (Hall i (proj2 (elem_of_range9 i) Hi)).
    rewrite Forall_forall in Hall. by apply Hall. }
  assert (extends (grid (one_board easy_puzzle !!! 0)) solved_grid) as Hext.
  { assert (Forall (λ rc : cell,
                cell_value (grid (one_board easy_puzzle !!! 0)) rc.1 rc.2 ≠ 0%Z →
                cell_value solved_grid rc.1 rc.2
                = cell_value (grid (one_board easy_puzzle !!! 0)) rc.1 rc.2)
              all_cells)
      as Hall by (apply (bool_decide_unpack _); vm_compute; exact I).
    rewrite Forall_forall in Hall. intros r c Hr Hc.
    apply (Hall (r, c)). by apply elem_of_all_cells. }
  assert (own_rows (one_board easy_puzzle !!! 0)) as Hown
    by (apply (bool_decide_unpack _); vm_compute; exact I).
  exact (rate_puzzle_follows_solution remove_dups 0 (one_board easy_puzzle)
           solved_grid set_order_remove_dups Hshape Hown Hsol Hext).
Defined.

(** * The shape of every rating *)

Lemma iteration_body_break los ref st σ st' σ' :
  iteration_body los ref st σ = (Ok (Break, st'), σ') →
  st' = mkLocals (S (iteration st)) (Z.max (max_score st) 200)
          (techniques_used st ++ ["requires_expert_technique"]).
Proof.
  rewrite iteration_body_table. unfold table_iteration. cbv zeta.
  rewrite get_grid_bind, lift_bind.
  destruct (_init_candidates _) as [cm|]; [|done]. rewrite lift_bind.
  destruct (first_effective _ cm _) as [[[tag e]|]|] eqn:Hwinner; [| |done].
  - rewrite M_bind_unfold. destruct e as [findings|eliminated]; [|done].
    by destruct (assign_all ref findings σ) as [[[]|] σ1].
  - by intros [= <- _].
Qed.

Lemma rated_record st tag :
  rated st → tag ∈ technique_tags →
  rated (mkLocals (S (iteration st))
           (Z.max (max_score st) (TECHNIQUE_SCORES !!! tag))
           (techniques_used st ++ [tag])).
Proof.
  intros (Hlen & Htags & Hmax) Htag. split; [|split]; cbn.
  - rewrite length_app. cbn. lia.
  - apply Forall_app. split; [done|]. by apply Forall_singleton.
  - by rewrite hardest_snoc, Hmax.
Qed.

Lemma rate_loop_shape los remaining ref st σ e st' σ' :
  rated st →
  rate_loop los remaining ref st σ = (Ok (e, st'), σ') →
  iteration st' ≤ iteration st + remaining
  ∧ match e with
    | Stuck =>
        ∃ st0, rated st0
          ∧ st' = mkLocals (S (iteration st0)) (Z.max (max_score st0) 200)
                    (techniques_used st0 ++ ["requires_expert_technique"])
    | _ => rated st'
    end.
Proof.
  revert st σ. induction remaining as [|remaining IH]; intros st σ Hst;
    cbn [rate_loop]; rewrite M_bind_unfold, is_solved_unfold.
  - destruct (forallb _ _); intros [= <- <- _]; (split; [lia | done]).
  - destruct (forallb _ _); [intros [= <- <- _]; (split; [lia | done])|].
    rewrite M_bind_unfold.
    destruct (iteration_body los ref st σ) as [[[[] st1]|] σ1] eqn:Hbody;
      [| |done].
    + apply iteration_body_continue in Hbody as (tag & Htag & ->).
      intros Hloop. apply IH in Hloop as [Hiter Hshape];
        [|by apply rated_record].
      split; [|done]. cbn [iteration] in Hiter. lia.
    + apply iteration_body_break in Hbody as ->. intros [= <- <- _].
      split; [cbn; lia|]. by exists st.
Qed.

Lemma hardest_values tags :
  Forall (λ tag, tag ∈ technique_tags) tags →
  hardest tags ∈ [0; 15; 65; 80; 120; 160; 180]%Z.
Proof.
  induction 1 as [|tag tags Htag _ IH]; [left|].
  cbn [hardest foldr]. fold (hardest tags).
  assert (TECHNIQUE_SCORES !!! tag ∈ [15; 65; 80; 120; 160; 180]%Z) as Hw.
  { unfold technique_tags in Htag. rewrite !elem_of_cons, elem_of_nil in Htag.
    destruct Htag as [->|[->|[->|[->|[->|[->|[->|[]]]]]]]];
      apply (bool_decide_unpack _); by vm_compute. }
  set_unfold in IH. set_unfold in Hw. set_unfold. lia.
Qed.

(** X18. Every rating that [rate_puzzle] returns has one of two shapes.
    Either its tags are all among the seven technique tags and its score
    is the weight of the hardest of them (0 when there is none); or the
    loop got stuck, the tags are technique tags followed by
    [requires_expert_technique], the score is 200 and the label "Hard".
    In both cases there are at most 1000 tags, the label is the one of the
    thresholds, the score is one of 0, 15, 65, 80, 120, 160, 180, 200 (the
    weight 70 of [hidden_pair] never occurs), and the score is 0 exactly
    when no technique was needed. *)
Theorem rating_shape
    (list_of_set : list (nat * nat * Z) → list (nat * nat * Z))
    (board : nat) (σ : store) (label : string) (score : Z)
    (tags : list string) :
  (rate_puzzle list_of_set board σ).1 = Ok (label, score, tags) →
  label = difficulty_of score ∧ length tags ≤ max_iterations
  ∧ ((Forall (λ tag, tag ∈ technique_tags) tags ∧ score = hardest tags)
     ∨ (∃ tags', tags = tags' ++ ["requires_expert_technique"]
          ∧ Forall (λ tag, tag ∈ technique_tags) tags'
          ∧ score = 200%Z ∧ label = "Hard"))
  ∧ score ∈ [0; 15; 65; 80; 120; 160; 180; 200]%Z
  ∧ (score = 0%Z ↔ tags = []).
Proof.
  rewrite rate_puzzle_unfold.
  destruct (rate_puzzle_run list_of_set board σ) as [[[e st]|] σ'] eqn:Hrun;
    [|done].
  cbn [fst]. intros [= <- <- <-]. split; [done|].
  unfold rate_puzzle_run in Hrun. rewrite M_bind_unfold, deepcopy_unfold in Hrun.
  apply rate_loop_shape in Hrun as [Hiter Hshape]; [|by repeat split].
  cbn [iteration] in Hiter.
  assert (rated st →
    length (techniques_used st) ≤ max_iterations
    ∧ ((Forall (λ tag, tag ∈ technique_tags) (techniques_used st)
        ∧ max_score st = hardest (techniques_used st))
       ∨ (∃ tags', techniques_used st = tags' ++ ["requires_expert_technique"]
            ∧ Forall (λ tag, tag ∈ technique_tags) tags'
            ∧ max_score st = 200%Z
            ∧ difficulty_of (max_score st) = "Hard"))
    ∧ max_score st ∈ [0; 15; 65; 80; 120; 160; 180; 200]%Z
    ∧ (max_score st = 0%Z ↔ techniques_used st = [])) as Hother.
  { intros (Hlen & Htags & Hmax).
    split; [lia|]. split; [by left|].
    pose proof (hardest_values _ Htags) as Hv. rewrite <- Hmax in Hv.
    split.
    { set_unfold in Hv. set_unfold. lia. }
    split.
    - intros Hzero. destruct (techniques_used st) as [|tag tags] eqn:Hused;
        [done|].
      pose proof (hardest_bounds (tag :: tags) ltac:(done) Htags). lia.
    - intros Hnil. by rewrite Hmax, Hnil. }
  destruct e; [by apply Hother | | by apply Hother]. clear Hother.
  destruct Hshape as (st0 & (Hlen & Htags & Hmax) & ->).
  cbn [iteration max_score techniques_used] in *.
  assert (Z.max (max_score st0) 200 = 200%Z) as Hscore.
  { pose proof (hardest_values _ Htags) as Hv. rewrite <- Hmax in Hv.
    set_unfold in Hv. lia. }
  rewrite Hscore. split; [rewrite length_app; cbn; lia|].
  split; [right; by exists (techniques_used st0)|].
  split; [do 7 right; left|]. split; [done|].
  by destruct (techniques_used st0).
Qed.

Lemma rating_shape_witness :
  (rate_puzzle remove_dups 0 (one_board easy_puzzle)).1
    = Ok ("Easy", 15%Z, ["naked_single"])
  ∧ "Easy" = difficulty_of 15 ∧ length ["naked_single"] ≤ max_iterations
  ∧ ((Forall (λ tag, tag ∈ technique_tags) ["naked_single"]
      ∧ 15%Z = hardest ["naked_single"])
     ∨ (∃ tags', ["naked_single"] = tags' ++ ["requires_expert_technique"]
          ∧ Forall (λ tag, tag ∈ technique_tags) tags'
          ∧ 15%Z = 200%Z ∧ "Easy" = "Hard"))
  ∧ 15%Z ∈ [0; 15; 65; 80; 120; 160; 180; 200]%Z
  ∧ (15%Z = 0%Z ↔ ["naked_single"] = []).
Proof.
  assert ((rate_puzzle remove_dups 0 (one_board easy_puzzle)).1
          = Ok ("Easy", 15%Z, ["naked_single"])) as Hrating
    by (vm_compute; reflexivity).
  split; [exact Hrating|].
  exact (rating_shape remove_dups 0 (one_board easy_puzzle)
           "Easy" 15 ["naked_single"] Hrating).
Defined.

(** * The eliminations keep the digits of the solution *)

(** ** Candidate maps that are right for a solution *)

Lemma init_candidates_sound g s candidates :
  is_9x9 g → sudoku_solution s → extends g s →
  _init_candidates g = Ok candidates → sound_candidates g s candidates.
Proof.
  intros Hg Hsol Hext Hinit r c. split.
  - split.
    + intros [cands Hlook].
      by apply (init_candidates_lookup g candidates r c _ Hg Hinit) in Hlook
        as (? & ? & ? & _).
    + intros (Hr & Hc & Hzero).
      destruct (init_candidates_empty_cell g candidates r c Hg Hinit Hr Hc Hzero)
        as (cands & Hlook & _).
      by exists cands.
  - intros cands Hlook.
    apply (init_candidates_lookup g candidates r c _ Hg Hinit) in Hlook
      as (Hr & Hc & Hzero & Hcands).
    split; [by apply Hcands, solution_consistent|].
    intros d Hd. by apply Hcands.
Qed.

Lemma run_eliminations_sound g s candidates steps :
  sound_candidates g s candidates →
  (∀ num rc, (num, rc) ∈ steps → is_Some (candidates !! rc) →
     cell_value s rc.1 rc.2 ≠ num) →
  sound_candidates g s (run_eliminations steps (candidates, 0)).1.
Proof.
  intros Hsound Hsteps r c. rewrite run_eliminations_lookup. cbn [fst].
  destruct (Hsound r c) as [Hdom Hcell]. split.
  - by rewrite fmap_is_Some.
  - intros cands'. destruct (candidates !! (r, c)) as [cands|] eqn:Hlook;
      [|done].
    cbn. intros [= <-]. destruct (Hcell cands eq_refl) as [Hin Hcons]. split.
    + apply elem_of_difference. split; [done|].
      rewrite elem_of_eliminated_at. intros Hstep.
      by apply (Hsteps _ _ Hstep); [rewrite Hlook|].
    + intros d [Hd _]%elem_of_difference. by apply Hcons.
Qed.

Lemma sound_on_board g s candidates rc :
  sound_candidates g s candidates → is_Some (candidates !! rc) →
  rc.1 < 9 ∧ rc.2 < 9.
Proof.
  intros Hsound Hsome. destruct rc as [r c].
  destruct (Hsound r c) as [Hdom _]. apply Hdom in Hsome. cbn. tauto.
Qed.

Lemma sound_value g s candidates rc cands :
  sound_candidates g s candidates → candidates !! rc = Some cands →
  cell_value s rc.1 rc.2 ∈ cands.
Proof.
  intros Hsound Hlook. destruct rc as [r c].
  destruct (Hsound r c) as [_ Hcell]. by apply Hcell.
Qed.

(** Where the solution puts a digit in a unit, the digit is a candidate,
    as soon as it is a candidate somewhere in the unit. *)
Lemma solution_place_is_candidate g s candidates rc rc' d :
  sound_candidates g s candidates → extends g s →
  rc'.1 < 9 → rc'.2 < 9 → shares_unit rc rc' →
  candidate_at candidates rc d → cell_value s rc'.1 rc'.2 = d →
  candidate_at candidates rc' d.
Proof.
  intros Hsound Hext Hr' Hc' Hunit (cands & Hlook & Hd) Hval.
  destruct rc as [r c], rc' as [r' c']. cbn [fst snd] in *.
  destruct (Hsound r c) as [_ Hcell].
  destruct (Hcell cands Hlook) as [_ Hcons].
  destruct (Hcons d Hd) as [_ Hpeers].
  assert (cell_value g r' c' ≠ d) as Hne.
  { apply Hpeers; [done | done|]. unfold shares_unit in Hunit.
    cbn [fst snd] in Hunit. clear -Hunit.
    destruct Hunit as [-> | [-> | [-> ->]]]; auto. }
  assert (cell_value g r' c' = 0%Z) as Hzero.
  { destruct (decide (cell_value g r' c' = 0%Z)) as [|Hnz]; [done|].
    destruct Hne. by rewrite <- (Hext r' c' Hr' Hc' Hnz). }
  destruct (Hsound r' c') as [Hdom' Hcell'].
  destruct (proj2 Hdom') as [cands' Hlook']; [done|].
  exists cands'. split; [done|]. rewrite <- Hval. by apply Hcell'.
Qed.

Lemma solution_places s d i unit_cells :
  sudoku_solution s → (1 ≤ d ≤ 9)%Z → i < 9 →
  unit_cells ∈ [row_cells i; col_cells i; box_cells_of i] →
  ∃ rc, rc ∈ unit_cells ∧ cell_value s rc.1 rc.2 = d.
Proof.
  intros [_ Hunits] Hd Hi Hunit.
  assert (d ∈ values s unit_cells) as Hin.
  { rewrite (Hunits i unit_cells Hi Hunit). by apply elem_of_digits. }
  apply list_elem_of_fmap in Hin as (rc & Hval & Hrc). by exists rc.
Qed.

Lemma solution_distinct s rc rc' :
  sudoku_solution s → rc.1 < 9 → rc.2 < 9 → rc'.1 < 9 → rc'.2 < 9 →
  rc' ≠ rc → shares_unit rc rc' →
  cell_value s rc'.1 rc'.2 ≠ cell_value s rc.1 rc.2.
Proof.
  intros Hsol Hr Hc Hr' Hc' Hne Hunit. destruct rc as [r c], rc' as [r' c'].
  destruct (solution_proper s Hsol r c Hr Hc) as [_ Hpeers].
  by apply Hpeers.
Qed.

Lemma unit_cells_of_unit unit_type i :
  unit_type ∈ ["row"; "col"; "box"] →
  unit_cells_of unit_type i ∈ [row_cells i; col_cells i; box_cells_of i].
Proof.
  intros [-> | Htype]%elem_of_cons; [left|].
  apply elem_of_cons in Htype as [-> | Htype]; [right; left|].
  apply list_elem_of_singleton in Htype as ->. right. right. left.
Qed.

(** ** Naked pairs *)

Lemma pair_set_members (cands : gset Z) (a b x : Z) :
  base.size cands = 2 → a ∈ cands → b ∈ cands → a ≠ b → x ∈ cands →
  x = a ∨ x = b.
Proof.
  intros Hsize Ha Hb Hab Hx.
  assert (({[a; b]} : gset Z) = cands) as Heq.
  { apply set_subseteq_size_eq; [set_solver|].
    rewrite size_union by set_solver. rewrite !size_singleton. lia. }
  rewrite <- Heq in Hx. set_solver.
Qed.

Lemma naked_pair_steps_sound g s candidates p num rc :
  sound_candidates g s candidates → sudoku_solution s →
  p ∈ find_naked_pairs candidates →
  (num, rc) ∈ naked_pair_steps p → is_Some (candidates !! rc) →
  cell_value s rc.1 rc.2 ≠ num.
Proof.
  intros Hsound Hsol Hp Hstep Hsome.
  apply elem_of_find_naked_pairs in Hp
    as (unit_type & i & rc1 & rc2 & cands & Htype & Hi & Hpair & H1 & H2
        & Hsize & ->).
  apply elem_of_naked_pair_steps in Hstep as (Hrc & Hout & Hnum).
  cbn [np_unit_type np_unit_idx np_cells np_nums] in Hrc, Hout, Hnum.
  apply elem_of_sorted in Hnum.
  pose proof (unit_cells_of_unit unit_type i Htype) as Hunit.
  apply elem_of_pairs_of_inv in Hpair as (Hrc1 & Hrc2 & Hne);
    [|by eapply NoDup_unit_cells].
  destruct (unit_cells_share i _ _ _ Hi Hunit Hrc1 Hrc2) as (? & ? & Hsh12).
  destruct (unit_cells_share i _ _ _ Hi Hunit Hrc2 Hrc1) as (? & ? & _).
  destruct (unit_cells_share i _ _ _ Hi Hunit Hrc Hrc1) as (? & ? & Hsh1).
  destruct (unit_cells_share i _ _ _ Hi Hunit Hrc Hrc2) as (_ & _ & Hsh2).
  pose proof (sound_value g s candidates rc1 cands Hsound H1) as Hv1.
  pose proof (sound_value g s candidates rc2 cands Hsound H2) as Hv2.
  assert (cell_value s rc2.1 rc2.2 ≠ cell_value s rc1.1 rc1.2) as Hdiff
    by (apply solution_distinct; try done; by intros ->).
  assert (rc1 ≠ rc ∧ rc2 ≠ rc) as [Hne1 Hne2].
  { split; intros ->; apply Hout; [left | right; left]. }
  destruct (pair_set_members cands _ _ num Hsize Hv1 Hv2 ltac:(done) Hnum)
    as [-> | ->].
  - intros Heq. by apply (solution_distinct s rc rc1 Hsol).
  - intros Heq. by apply (solution_distinct s rc rc2 Hsol).
Qed.

(** ** Pointing pairs *)

Lemma pointing_pair_steps_sound g s candidates p num rc :
  sound_candidates g s candidates → sudoku_solution s → extends g s →
  p ∈ find_pointing_pairs candidates →
  (num, rc) ∈ pointing_pair_steps p → is_Some (candidates !! rc) →
  cell_value s rc.1 rc.2 ≠ num.
Proof.
  intros Hsound Hsol Hext Hp Hstep Hsome.
  destruct (find_pointing_pairs_sound candidates p Hp)
    as (Hbox & Hnum & Hline & Htype & Hlen & Hpos & Honline).
  apply (elem_of_pointing_pair_steps _ _ _ Htype) in Hstep
    as (-> & Hrc & Hout).
  intros Hval.
  destruct (pp_positions p) as [|p0 positions] eqn:Hpositions;
    [cbn in Hlen; lia|].
  assert (p0 ∈ p0 :: positions) as Hp0 by left.
  pose proof (proj1 (Hpos p0) Hp0) as [Hp0box Hp0cand].
  destruct (solution_places s (pp_num p) (pp_box_idx p)
              (box_cells_of (pp_box_idx p)) Hsol Hnum Hbox)
    as (rc' & Hrc'box & Hval'); [right; right; left|].
  destruct (unit_cells_share (pp_box_idx p) (box_cells_of (pp_box_idx p))
              p0 rc' Hbox) as (_ & _ & Hshare); [right; right; left | done..|].
  destruct (unit_cells_share (pp_box_idx p) (box_cells_of (pp_box_idx p))
              rc' rc' Hbox) as (Hr' & Hc' & _); [right; right; left | done..|].
  pose proof (solution_place_is_candidate g s candidates p0 rc' (pp_num p)
                Hsound Hext Hr' Hc' Hshare Hp0cand Hval') as Hcand'.
  assert (rc' ∈ unit_cells_of (pp_line_type p) (pp_line_idx p)) as Hrc'line.
  { apply Honline, Hpos. by split. }
  assert (unit_cells_of (pp_line_type p) (pp_line_idx p)
          ∈ [row_cells (pp_line_idx p); col_cells (pp_line_idx p);
             box_cells_of (pp_line_idx p)]) as Hunit.
  { apply unit_cells_of_unit. destruct Htype as [-> | ->];
      [left | right; left]. }
  destruct (unit_cells_share _ _ rc rc' Hline Hunit Hrc Hrc'line)
    as (Hr & Hc & Hshare').
  apply (solution_distinct s rc rc' Hsol Hr Hc Hr' Hc'); [|done|congruence].
  intros ->. done.
Qed.

(** ** X-Wing and Swordfish *)

Lemma line_cell_of t rc : line_cell t (line_of t rc) (cross_of t rc) = rc.
Proof.
  unfold line_cell, line_of, cross_of. destruct rc.
  by destruct (String.eqb t "rows").
Qed.

Lemma line_of_cell t l x : line_of t (line_cell t l x) = l.
Proof.
  unfold line_cell, line_of. by destruct (String.eqb t "rows").
Qed.

Lemma cross_of_cell t l x : cross_of t (line_cell t l x) = x.
Proof.
  unfold line_cell, cross_of. by destruct (String.eqb t "rows").
Qed.

Lemma line_cell_on_board t l x :
  (line_cell t l x).1 < 9 ∧ (line_cell t l x).2 < 9 ↔ l < 9 ∧ x < 9.
Proof.
  unfold line_cell. destruct (String.eqb t "rows"); cbn [fst snd]; lia.
Qed.

Lemma same_line_share t l x x' :
  shares_unit (line_cell t l x) (line_cell t l x').
Proof.
  unfold line_cell, shares_unit.
  destruct (String.eqb t "rows"); cbn [fst snd]; auto.
Qed.

Lemma same_cross_share t l l' x :
  shares_unit (line_cell t l x) (line_cell t l' x).
Proof.
  unfold line_cell, shares_unit.
  destruct (String.eqb t "rows"); cbn [fst snd]; auto.
Qed.

(** The solution puts the digit somewhere on every line. *)
Lemma solution_places_on_line s d t l :
  sudoku_solution s → (1 ≤ d ≤ 9)%Z → l < 9 →
  ∃ x, x < 9
       ∧ cell_value s (line_cell t l x).1 (line_cell t l x).2 = d.
Proof.
  intros Hsol Hd Hl. unfold line_cell. destruct (String.eqb t "rows").
  - destruct (solution_places s d l (row_cells l) Hsol Hd Hl)
      as ([r c] & [Hr Hc]%elem_of_row_cells & Hval); [left|].
    cbn [fst snd] in *. subst r. by exists c.
  - destruct (solution_places s d l (col_cells l) Hsol Hd Hl)
      as ([r c] & [Hr Hc]%elem_of_col_cells & Hval); [right; left|].
    cbn [fst snd] in *. subst c. by exists r.
Qed.

(** A fish: the digit [d] is confined, on each of the [lines], to the
    positions [crosses], and there are as many positions as lines. *)
Lemma fish_places g s candidates t d (crosses : list nat) (lines : list nat) :
  sound_candidates g s candidates → sudoku_solution s → extends g s →
  (1 ≤ d ≤ 9)%Z →
  (∀ l, l ∈ lines →
     l < 9
     ∧ (∃ x0, x0 < 9 ∧ candidate_at candidates (line_cell t l x0) d)
     ∧ ∀ x, x < 9 → candidate_at candidates (line_cell t l x) d →
            x ∈ crosses) →
  ∃ places : list nat,
    Forall2 (λ l x, x < 9 ∧ x ∈ crosses
                    ∧ cell_value s (line_cell t l x).1 (line_cell t l x).2 = d)
      lines places.
Proof.
  intros Hsound Hsol Hext Hd. induction lines as [|l lines IH]; intros Hlines.
  - exists []. constructor.
  - destruct IH as (places & Hplaces).
    { intros l' Hl'. apply Hlines. by right. }
    destruct (Hlines l) as (Hl & (x0 & Hx0 & Hcand0) & Hconf); [left|].
    destruct (solution_places_on_line s d t l Hsol Hd Hl) as (x & Hx & Hval).
    exists (x :: places). constructor; [|done].
    split; [done|]. split; [|done]. apply Hconf; [done|].
    apply (solution_place_is_candidate g s candidates (line_cell t l x0));
      try done.
    + by apply line_cell_on_board.
    + by apply line_cell_on_board.
    + apply same_line_share.
Qed.

Lemma fish_sound g s candidates t d (crosses lines : list nat) rc :
  sound_candidates g s candidates → sudoku_solution s → extends g s →
  (1 ≤ d ≤ 9)%Z → NoDup lines → NoDup crosses →
  length crosses ≤ length lines →
  (∀ l, l ∈ lines →
     l < 9
     ∧ (∃ x0, x0 < 9 ∧ candidate_at candidates (line_cell t l x0) d)
     ∧ ∀ x, x < 9 → candidate_at candidates (line_cell t l x) d →
            x ∈ crosses) →
  rc.1 < 9 → rc.2 < 9 →
  line_of t rc ∉ lines → cross_of t rc ∈ crosses →
  cell_value s rc.1 rc.2 ≠ d.
Proof.
  intros Hsound Hsol Hext Hd Hnd Hndx Hlen Hlines Hr Hc Hline Hcross Hval.
  destruct (fish_places g s candidates t d crosses lines
              Hsound Hsol Hext Hd Hlines) as (places & Hplaces).
  assert (NoDup places) as Hndp.
  { apply NoDup_alt. intros i j x Hi Hj.
    destruct (Forall2_lookup_r _ _ _ _ _ Hplaces Hi) as (li & Hli & Hxi & _ & Hvi).
    destruct (Forall2_lookup_r _ _ _ _ _ Hplaces Hj) as (lj & Hlj & _ & _ & Hvj).
    destruct (decide (li = lj)) as [->|Hne].
    { by apply (proj1 (NoDup_alt lines) Hnd i j lj). }
    assert (li < 9 ∧ lj < 9) as [Hli9 Hlj9].
    { split; [apply (Hlines li) | apply (Hlines lj)];
        by eapply list_elem_of_lookup_2. }
    destruct (solution_distinct s (line_cell t li x) (line_cell t lj x) Hsol);
      try (by apply line_cell_on_board); [| apply same_cross_share | congruence].
    intros Heq. apply Hne.
    by rewrite <- (line_of_cell t lj x), Heq, line_of_cell. }
  assert (places ≡ₚ crosses) as Hperm.
  { apply submseteq_length_Permutation.
    - apply NoDup_submseteq; [done|]. intros x [i Hi]%list_elem_of_lookup.
      by destruct (Forall2_lookup_r _ _ _ _ _ Hplaces Hi) as (? & _ & _ & ? & _).
    - rewrite <- (Forall2_length _ _ _ Hplaces). done. }
  rewrite <- Hperm in Hcross. apply list_elem_of_lookup in Hcross as [i Hi].
  destruct (Forall2_lookup_r _ _ _ _ _ Hplaces Hi) as (l & Hl & Hx & _ & Hvl).
  assert (l ∈ lines) as Hlin by (by eapply list_elem_of_lookup_2).
  assert (l < 9) as Hl9 by (by apply (Hlines l)).
  destruct (solution_distinct s rc (line_cell t l (cross_of t rc)) Hsol);
    try done; try (by apply line_cell_on_board).
  - intros Heq. apply Hline. by rewrite <- Heq, line_of_cell.
  - rewrite <- (line_cell_of t rc) at 1. apply same_cross_share.
  - congruence.
Qed.

Lemma elem_of_x_wing_steps p num rc :
  xw_pattern_type p = "rows" ∨ xw_pattern_type p = "cols" →
  (num, rc) ∈ x_wing_steps p ↔
    num = xw_num p
    ∧ line_of (xw_pattern_type p) rc < 9
    ∧ line_of (xw_pattern_type p) rc ≠ (xw_lines p).1
    ∧ line_of (xw_pattern_type p) rc ≠ (xw_lines p).2
    ∧ (cross_of (xw_pattern_type p) rc = (xw_cross_lines p).1
       ∨ cross_of (xw_pattern_type p) rc = (xw_cross_lines p).2).
Proof.
  destruct p as [t [l1 l2] [x1 x2] D].
  cbn [xw_pattern_type xw_lines xw_cross_lines xw_num fst snd].
  intros [-> | ->].
  - apply elem_of_x_wing_steps_rows.
  - apply elem_of_x_wing_steps_cols.
Qed.

Lemma x_wing_steps_sound g s candidates p num rc :
  sound_candidates g s candidates → sudoku_solution s → extends g s →
  p ∈ find_x_wing candidates →
  (num, rc) ∈ x_wing_steps p → is_Some (candidates !! rc) →
  cell_value s rc.1 rc.2 ≠ num.
Proof.
  intros Hsound Hsol Hext Hp Hstep Hsome.
  destruct (find_x_wing_sound candidates p Hp)
    as (Htype & Hnum & Hl & Hl9 & Hx & Hx9 & Hpos).
  apply (elem_of_x_wing_steps _ _ _ Htype) in Hstep
    as (-> & Hline & Hl1 & Hl2 & Hcross).
  destruct (sound_on_board g s candidates rc Hsound Hsome) as [Hr Hc].
  apply (fish_sound g s candidates (xw_pattern_type p) (xw_num p)
           [(xw_cross_lines p).1; (xw_cross_lines p).2]
           [(xw_lines p).1; (xw_lines p).2]); try done.
  - apply NoDup_cons. split; [|apply NoDup_singleton].
    rewrite list_elem_of_singleton. lia.
  - apply NoDup_cons. split; [|apply NoDup_singleton].
    rewrite list_elem_of_singleton. lia.
  - intros l Hl'.
    assert (l = (xw_lines p).1 ∨ l = (xw_lines p).2) as Hl''.
    { set_unfold in Hl'. tauto. }
    split; [lia|]. split.
    + exists (xw_cross_lines p).1. split; [lia|].
      apply Hpos; [done | lia | by left].
    + intros x Hx' Hcand. apply (Hpos l Hl'' x Hx') in Hcand. set_unfold. tauto.
  - set_unfold. lia.
  - set_unfold. tauto.
Qed.

Lemma swordfish_steps_sound g s candidates p num rc :
  sound_candidates g s candidates → sudoku_solution s → extends g s →
  p ∈ find_swordfish candidates →
  (num, rc) ∈ swordfish_steps p → is_Some (candidates !! rc) →
  cell_value s rc.1 rc.2 ≠ num.
Proof.
  intros Hsound Hsol Hext Hp Hstep Hsome.
  destruct (find_swordfish_sound candidates p Hp)
    as (Htype & Hnum & (l1 & l2 & l3 & Hlines & H12 & H23 & H39) & Hlen
        & Hnd & Hcross9 & Hpos).
  apply elem_of_swordfish_steps in Hstep as (-> & Hline & Hout & Hcross).
  destruct (sound_on_board g s candidates rc Hsound Hsome) as [Hr Hc].
  apply (fish_sound g s candidates (sf_pattern_type p) (sf_num p)
           (sf_cross_lines p) (sf_lines p)); try done.
  - rewrite Hlines. apply NoDup_cons. split; [set_unfold; lia|].
    apply NoDup_cons. split; [set_unfold; lia|]. apply NoDup_singleton.
  - rewrite Hlen, Hlines. done.
  - intros l Hl. destruct (Hpos l Hl) as [[Hlen2 _] Hconf].
    split; [rewrite Hlines in Hl; set_unfold in Hl; lia|]. split; [|done].
    destruct (positions_of candidates (sf_num p)
                (line_cell (sf_pattern_type p) l)) as [|x0 rest] eqn:Hpositions;
      [cbn in Hlen2; lia|].
    exists x0. apply elem_of_positions_of. rewrite Hpositions. left.
Qed.

(** ** XY-Wing *)

Lemma find_xy_wing_sound candidates p :
  p ∈ find_xy_wing candidates →
  ∃ X Y : Z,
    xy_wing1 p ≠ xy_pivot p ∧ xy_wing2 p ≠ xy_pivot p
    ∧ xy_wing2 p ≠ xy_wing1 p
    ∧ candidates !! xy_pivot p = Some {[X; Y]} ∧ X ≠ Y
    ∧ candidates !! xy_wing1 p = Some {[X; xy_Z p]}
    ∧ xy_Z p ≠ X ∧ xy_Z p ≠ Y
    ∧ candidates !! xy_wing2 p = Some {[Y; xy_Z p]}
    ∧ shares_unit (xy_pivot p) (xy_wing1 p)
    ∧ shares_unit (xy_pivot p) (xy_wing2 p).
Proof.
  intros Hin.
  unfold find_xy_wing in Hin. cbv zeta in Hin.
  apply list_elem_of_bind in Hin as ([pivot [X Y]] & Hin & Hpivot).
  apply list_elem_of_bind in Hin as ([wing1 [a1 b1]] & Hin & Hwing1).
  apply elem_of_bi_value_cells in Hpivot as (_ & Hpivot & HXY).
  apply elem_of_bi_value_cells in Hwing1 as (_ & Hwing1 & Hab1).
  cbn [fst snd] in Hin.
  case_decide as Hw1p; [by apply elem_of_nil in Hin|].
  destruct (_can_see pivot.1 pivot.2 wing1.1 wing1.2) eqn:Hsee1;
    [|by apply elem_of_nil in Hin]. cbn [negb] in Hin.
  case_decide as HX; [by apply elem_of_nil in Hin|].
  apply list_elem_of_bind in Hin as ([wing2 [a2 b2]] & Hin & Hwing2).
  apply elem_of_bi_value_cells in Hwing2 as (_ & Hwing2 & Hab2).
  cbn [fst snd] in Hin.
  case_decide as Hw2p; [by apply elem_of_nil in Hin|].
  case_decide as Hw2w1; [by apply elem_of_nil in Hin|].
  destruct (_can_see pivot.1 pivot.2 wing2.1 wing2.2) eqn:Hsee2;
    [|by apply elem_of_nil in Hin]. cbn [negb] in Hin.
  case_decide as Hset; [|by apply elem_of_nil in Hin].
  apply list_elem_of_singleton in Hin as ->. cbn [xy_pivot xy_wing1 xy_wing2 xy_Z].
  apply can_see_shares_unit in Hsee1, Hsee2.
  exists X, Y. rewrite Hpivot, Hwing1, Hwing2, Hset.
  assert (X = a1 ∨ X = b1) as HX'.
  { destruct (decide (X = a1)); [by left|].
    destruct (decide (X = b1)); [by right|]. by destruct HX. }
  case_decide as Ha1.
  + assert (X = b1) as -> by (by destruct HX' as [->| ->]).
    repeat split; try done.
    * f_equal. set_solver.
    * intros ->. by apply pair_set_eq_singleton in Hset.
  + subst a1. repeat split; try done.
    intros ->. by apply pair_set_eq_singleton in Hset.
Qed.

Lemma xy_wing_steps_sound g s candidates p num rc :
  sound_candidates g s candidates → sudoku_solution s →
  p ∈ find_xy_wing candidates →
  (num, rc) ∈ xy_wing_steps p → is_Some (candidates !! rc) →
  cell_value s rc.1 rc.2 ≠ num.
Proof.
  intros Hsound Hsol Hp Hstep Hsome.
  destruct (find_xy_wing_sound candidates p Hp)
    as (X & Y & Hw1 & Hw2 & Hw21 & Hpivot & HXY & Hwing1 & HZX & HZY
        & Hwing2 & Hsee1 & Hsee2).
  apply elem_of_xy_wing_steps in Hstep
    as (-> & Hr & Hc & Hout & Hsh1 & Hsh2).
  destruct (sound_on_board g s candidates (xy_pivot p) Hsound) as [Hpr Hpc];
    [by rewrite Hpivot|].
  destruct (sound_on_board g s candidates (xy_wing1 p) Hsound) as [H1r H1c];
    [by rewrite Hwing1|].
  destruct (sound_on_board g s candidates (xy_wing2 p) Hsound) as [H2r H2c];
    [by rewrite Hwing2|].
  pose proof (sound_value g s candidates _ _ Hsound Hpivot) as Hvp.
  pose proof (sound_value g s candidates _ _ Hsound Hwing1) as Hv1.
  pose proof (sound_value g s candidates _ _ Hsound Hwing2) as Hv2.
  pose proof (solution_distinct s (xy_pivot p) (xy_wing1 p) Hsol
                Hpr Hpc H1r H1c Hw1 Hsee1) as Hd1.
  pose proof (solution_distinct s (xy_pivot p) (xy_wing2 p) Hsol
                Hpr Hpc H2r H2c Hw2 Hsee2) as Hd2.
  assert (xy_wing1 p ≠ rc ∧ xy_wing2 p ≠ rc) as [Hne1 Hne2].
  { split; intros Heq; apply Hout; rewrite <- Heq;
      [right; left | right; right; left]. }
  pose proof (solution_distinct s rc (xy_wing1 p) Hsol Hr Hc H1r H1c
                Hne1 Hsh1) as Hr1.
  pose proof (solution_distinct s rc (xy_wing2 p) Hsol Hr Hc H2r H2c
                Hne2 Hsh2) as Hr2.
  set_unfold in Hvp. set_unfold in Hv1. set_unfold in Hv2.
  intros Hval. destruct Hvp as [HpX | HpY].
  - destruct Hv1 as [H1X | H1Z]; congruence.
  - destruct Hv2 as [H2Y | H2Z]; congruence.
Qed.

(** ** The five appliers *)

Lemma applier_sound {F} (find : candidates_map → list F)
    (apply : candidates_map → list F → candidates_map * nat)
    (steps_of : F → list (Z * cell)) g s candidates :
  (∀ cm fs, apply cm fs = run_eliminations (fs ≫= steps_of) (cm, 0)) →
  (∀ p num rc, p ∈ find candidates → (num, rc) ∈ steps_of p →
     is_Some (candidates !! rc) → cell_value s rc.1 rc.2 ≠ num) →
  sound_candidates g s candidates →
  sound_candidates g s (apply candidates (find candidates)).1.
Proof.
  intros Happly Hsteps Hsound. rewrite Happly.
  apply run_eliminations_sound; [done|].
  intros num rc (p & Hstep & Hp)%list_elem_of_bind Hsome.
  by apply (Hsteps p).
Qed.

(** X19. The eliminations of the five techniques are valid deductions.
    Let a puzzle (nine rows of nine integers) have a solution, and let a
    candidate map be right for them: its keys are the empty cells, and the
    candidates of a cell contain the digit of the solution and no digit
    that already occurs in the row, the column or the box of the cell (the
    map that [_init_candidates] builds is such a map). Then the map left
    by each of [apply_naked_pairs], [apply_pointing_pairs], [apply_x_wing],
    [apply_swordfish] and [apply_xy_wing], applied to what its detector
    finds, is right as well: no technique removes the digit of the
    solution. *)
Theorem eliminations_keep_solution (g s : Grid) (candidates : candidates_map) :
  is_9x9 g → sudoku_solution s → extends g s →
  (∀ cm, _init_candidates g = Ok cm → sound_candidates g s cm)
  ∧ (sound_candidates g s candidates →
     sound_candidates g s
       (apply_naked_pairs candidates (find_naked_pairs candidates)).1
     ∧ sound_candidates g s
         (apply_pointing_pairs candidates (find_pointing_pairs candidates)).1
     ∧ sound_candidates g s
         (apply_x_wing candidates (find_x_wing candidates)).1
     ∧ sound_candidates g s
         (apply_swordfish candidates (find_swordfish candidates)).1
     ∧ sound_candidates g s
         (apply_xy_wing candidates (find_xy_wing candidates)).1).
Proof.
  intros Hg Hsol Hext. split.
  { intros cm Hinit. by apply init_candidates_sound. }
  intros Hsound. split; [|split; [|split; [|split]]].
  - apply (applier_sound _ _ naked_pair_steps);
      [apply apply_naked_pairs_steps | | done].
    intros p num rc. by apply (naked_pair_steps_sound g s candidates).
  - apply (applier_sound _ _ pointing_pair_steps);
      [apply apply_pointing_pairs_steps | | done].
    intros p num rc. by apply (pointing_pair_steps_sound g s candidates).
  - apply (applier_sound _ _ x_wing_steps);
      [apply apply_x_wing_steps | | done].
    intros p num rc. by apply (x_wing_steps_sound g s candidates).
  - apply (applier_sound _ _ swordfish_steps);
      [apply apply_swordfish_steps | | done].
    intros p num rc. by apply (swordfish_steps_sound g s candidates).
  - apply (applier_sound _ _ xy_wing_steps);
      [apply apply_xy_wing_steps | | done].
    intros p num rc. by apply (xy_wing_steps_sound g s candidates).
Qed.

Lemma solved_grid_is_solution : sudoku_solution solved_grid.
Proof.
  split; [apply (bool_decide_unpack _); by vm_compute|].
  intros i unit_cells Hi Hunit.
  assert (Forall (λ i, Forall (λ unit_cells,
                                 values solved_grid unit_cells ≡ₚ digits)
                         [row_cells i; col_cells i; box_cells_of i]) range9)
    as Hall by (apply (bool_decide_unpack _); by vm_compute).
  rewrite Forall_forall in Hall.
  specialize (Hall i (proj2 (elem_of_range9 i) Hi)).
  rewrite Forall_forall in Hall. by apply Hall.
Qed.

Lemma easy_puzzle_extends : extends easy_puzzle solved_grid.
Proof.
  assert (Forall (λ rc : cell,
              cell_value easy_puzzle rc.1 rc.2 ≠ 0%Z →
              cell_value solved_grid rc.1 rc.2 = cell_value easy_puzzle rc.1 rc.2)
            all_cells)
    as Hall by (apply (bool_decide_unpack _); by vm_compute).
  rewrite Forall_forall in Hall. intros r c Hr Hc.
  apply (Hall (r, c)). by apply elem_of_all_cells.
Qed.

Lemma cycling_solution_is_solution : sudoku_solution cycling_solution.
Proof.
  split; [apply (bool_decide_unpack _); by vm_compute|].
  intros i unit_cells Hi Hunit.
  assert (Forall (λ i, Forall (λ unit_cells,
                                 values cycling_solution unit_cells ≡ₚ digits)
                         [row_cells i; col_cells i; box_cells_of i]) range9)
    as Hall by (apply (bool_decide_unpack _); by vm_compute).
  rewrite Forall_forall in Hall.
  specialize (Hall i (proj2 (elem_of_range9 i) Hi)).
  rewrite Forall_forall in Hall. by apply Hall.
Qed.

Lemma cycling_grid_extends : extends cycling_grid cycling_solution.
Proof.
  assert (Forall (λ rc : cell,
              cell_value cycling_grid rc.1 rc.2 ≠ 0%Z →
              cell_value cycling_solution rc.1 rc.2
              = cell_value cycling_grid rc.1 rc.2)
            all_cells)
    as Hall by (apply (bool_decide_unpack _); by vm_compute).
  rewrite Forall_forall in Hall. intros r c Hr Hc.
  apply (Hall (r, c)). by apply elem_of_all_cells.
Qed.

(** On [cycling_grid] the candidate map has three pointing pairs, whose
    application removes 18 candidates, none of them a digit of the
    solution. *)
Lemma eliminations_keep_solution_witness :
  ∃ candidates,
    _init_candidates cycling_grid = Ok candidates
    ∧ length (find_pointing_pairs candidates) = 3
    ∧ (apply_pointing_pairs candidates (find_pointing_pairs candidates)).2 = 18
    ∧ sound_candidates cycling_grid cycling_solution candidates
    ∧ sound_candidates cycling_grid cycling_solution
        (apply_naked_pairs candidates (find_naked_pairs candidates)).1
    ∧ sound_candidates cycling_grid cycling_solution
        (apply_pointing_pairs candidates (find_pointing_pairs candidates)).1
    ∧ sound_candidates cycling_grid cycling_solution
        (apply_x_wing candidates (find_x_wing candidates)).1
    ∧ sound_candidates cycling_grid cycling_solution
        (apply_swordfish candidates (find_swordfish candidates)).1
    ∧ sound_candidates cycling_grid cycling_solution
        (apply_xy_wing candidates (find_xy_wing candidates)).1.
Proof.
  assert (is_9x9 cycling_grid) as Hshape
    by (apply (bool_decide_unpack _); vm_compute; exact I).
  assert ((_init_candidates cycling_grid ≫= λ cm,
             Ok (length (find_pointing_pairs cm),
                 (apply_pointing_pairs cm (find_pointing_pairs cm)).2))
          = Ok (3, 18)) as Hfound by (vm_compute; reflexivity).
  destruct (_init_candidates cycling_grid) as [candidates|e] eqn:Hinit;
    [|discriminate Hfound].
  rewrite result_bind_Ok in Hfound. injection Hfound as Hpairs Hremoved.
  destruct (eliminations_keep_solution cycling_grid cycling_solution candidates
              Hshape cycling_solution_is_solution cycling_grid_extends)
    as [Hbuilt Happlied].
  pose proof (Hbuilt candidates Hinit) as Hsound.
  exists candidates. split; [reflexivity|]. split; [exact Hpairs|].
  split; [exact Hremoved|]. split; [exact Hsound|]. exact (Happlied Hsound).
Defined.

(** * Eliminations are lost between iterations *)

Lemma first_effective_kind los g cm tag e :
  first_effective g cm (technique_table los) = Ok (Some (tag, e)) →
  match e with
  | Assignments _ => tag ∈ ["naked_single"; "hidden_single"]
  | Eliminations _ => tag ∈ technique_tags
  end.
Proof.
  intros Hwinner. destruct e as [findings|n].
  - revert Hwinner. unfold technique_table.
    rewrite first_effective_cons, result_bind_Ok.
    destruct (nonzero _); [intros [= <- _]; left|].
    rewrite first_effective_cons.
    destruct (find_hidden_singles los g cm) as [hidden|]; [|done].
    rewrite !result_bind_Ok.
    destruct (nonzero _); [intros [= <- _]; right; left|].
    repeat (rewrite first_effective_cons, result_bind_Ok;
            destruct (nonzero _); [done|]).
    done.
  - by apply first_effective_tag in Hwinner.
Qed.

(** An iteration won by an elimination technique leaves the store as it
    is, whatever the local variables. *)
Lemma iteration_body_elimination los ref st σ cm tag n :
  _init_candidates (grid (σ !!! ref)) = Ok cm →
  first_effective (grid (σ !!! ref)) cm (technique_table los)
    = Ok (Some (tag, Eliminations n)) →
  iteration_body los ref st σ =
    (Ok (Continue,
         mkLocals (S (iteration st))
           (Z.max (max_score st) (TECHNIQUE_SCORES !!! tag))
           (techniques_used st ++ [tag])), σ).
Proof.
  intros Hinit Hwinner. rewrite iteration_body_table.
  unfold table_iteration. cbv zeta.
  by rewrite get_grid_bind, lift_bind, Hinit, lift_bind, Hwinner.
Qed.

Lemma rate_loop_repeats los ref σ cm tag n :
  (_is_solved ref σ).1 = Ok false →
  _init_candidates (grid (σ !!! ref)) = Ok cm →
  first_effective (grid (σ !!! ref)) cm (technique_table los)
    = Ok (Some (tag, Eliminations n)) →
  ∀ remaining st,
    ∃ st',
      rate_loop los remaining ref st σ = (Ok (IterationCapped, st'), σ)
      ∧ techniques_used st' = techniques_used st ++ replicate remaining tag.
Proof.
  intros Hunsolved Hinit Hwinner remaining.
  rewrite is_solved_unfold in Hunsolved. cbn [fst] in Hunsolved.
  injection Hunsolved as Hunsolved.
  induction remaining as [|remaining IH]; intros st;
    cbn [rate_loop]; rewrite M_bind_unfold, is_solved_unfold, Hunsolved.
  - exists st. split; [done|]. cbn. by rewrite app_nil_r.
  - rewrite M_bind_unfold.
    rewrite (iteration_body_elimination los ref st σ cm tag n Hinit Hwinner).
    destruct (IH (mkLocals (S (iteration st))
                    (Z.max (max_score st) (TECHNIQUE_SCORES !!! tag))
                    (techniques_used st ++ [tag]))) as (st' & -> & Htags).
    exists st'. split; [done|]. rewrite Htags. cbn [techniques_used replicate].
    by rewrite <- app_assoc.
Qed.

Lemma rate_loop_singles los remaining ref st σ e st' σ' :
  Forall (λ tag, tag ∈ ["naked_single"; "hidden_single"]) (techniques_used st) →
  rate_loop los remaining ref st σ = (Ok (e, st'), σ') →
  match e with
  | Solved =>
      Forall (λ tag, tag ∈ ["naked_single"; "hidden_single"])
        (techniques_used st')
  | Stuck =>
      ∃ tags, techniques_used st' = tags ++ ["requires_expert_technique"]
              ∧ Forall (λ tag, tag ∈ ["naked_single"; "hidden_single"]) tags
  | IterationCapped =>
      ∃ singles tag n,
        techniques_used st' = singles ++ replicate n tag
        ∧ Forall (λ tag, tag ∈ ["naked_single"; "hidden_single"]) singles
        ∧ tag ∈ technique_tags
  end.
Proof.
  revert st σ. induction remaining as [|remaining IH]; intros st σ Hst;
    cbn [rate_loop]; rewrite M_bind_unfold, is_solved_unfold.
  - destruct (forallb _ _); intros [= <- <- _]; [done|].
    exists (techniques_used st), "naked_single", 0.
    split; [by rewrite app_nil_r|]. split; [done | left].
  - destruct (forallb _ _) eqn:Hunsolved; [by intros [= <- <- _]|].
    rewrite M_bind_unfold.
    destruct (iteration_body los ref st σ) as [[[c st1]|] σ1] eqn:Hbody;
      [|done].
    pose proof Hbody as Hbody'. rewrite iteration_body_table in Hbody'.
    unfold table_iteration in Hbody'. cbv zeta in Hbody'.
    rewrite get_grid_bind, lift_bind in Hbody'.
    destruct (_init_candidates _) as [cm|] eqn:Hinit; [|done].
    rewrite lift_bind in Hbody'.
    destruct (first_effective _ cm _) as [[[tag [findings|n]]|]|] eqn:Hwinner;
      [| | |done].
    + pose proof (first_effective_kind _ _ _ _ _ Hwinner) as Htag.
      rewrite M_bind_unfold in Hbody'.
      destruct (assign_all ref findings σ) as [[[]|] σ2]; [|done].
      injection Hbody' as <- <- <-. apply IH. cbn [techniques_used].
      apply Forall_app. split; [done|]. by apply Forall_singleton.
    + pose proof (first_effective_kind _ _ _ _ _ Hwinner) as Htag.
      injection Hbody' as <- <- <-.
      destruct (rate_loop_repeats los ref σ cm tag n) with
        (remaining := remaining)
        (st := mkLocals (S (iteration st))
                 (Z.max (max_score st) (TECHNIQUE_SCORES !!! tag))
                 (techniques_used st ++ [tag]))
        as (st2 & -> & Htags); [|done|done|].
      { rewrite is_solved_unfold. cbn [fst]. by rewrite Hunsolved. }
      intros [= <- <- _]. exists (techniques_used st), tag, (S remaining).
      split; [|done]. rewrite Htags. cbn [techniques_used replicate].
      by rewrite <- app_assoc.
    + injection Hbody' as <- <- <-. intros [= <- <- _].
      by exists (techniques_used st).
Qed.

Lemma hardest_singles tags :
  Forall (λ tag, tag ∈ ["naked_single"; "hidden_single"]) tags →
  (hardest tags ≤ 15)%Z.
Proof.
  induction 1 as [|tag tags Htag _ IH]; [done|].
  cbn [hardest foldr]. fold (hardest tags).
  assert (TECHNIQUE_SCORES !!! tag = 15%Z) as ->.
  { set_unfold in Htag. by destruct Htag as [-> | [-> | []]]. }
  lia.
Qed.

(** X20. No puzzle is solved with the help of an elimination technique.
    The candidates are rebuilt from the grid in every iteration, so an
    iteration won by naked pairs, pointing pairs, X-Wing, Swordfish or
    XY-Wing changes nothing, and every later iteration repeats it until the
    cap. Hence a returned rating has one of three shapes: all its tags are
    [naked_single] or [hidden_single] and its score is at most 15; or its
    tags are such singles followed by [requires_expert_technique] and its
    score is 200; or it has exactly 1000 tags, some singles followed by one
    technique tag repeated. *)
Theorem eliminations_never_solve
    (list_of_set : list (nat * nat * Z) → list (nat * nat * Z))
    (board : nat) (σ : store) (label : string) (score : Z)
    (tags : list string) :
  (rate_puzzle list_of_set board σ).1 = Ok (label, score, tags) →
  (Forall (λ tag, tag ∈ ["naked_single"; "hidden_single"]) tags
   ∧ (score ≤ 15)%Z)
  ∨ (∃ tags', tags = tags' ++ ["requires_expert_technique"]
       ∧ Forall (λ tag, tag ∈ ["naked_single"; "hidden_single"]) tags'
       ∧ score = 200%Z)
  ∨ (length tags = max_iterations
     ∧ ∃ singles tag n,
         tags = singles ++ replicate n tag
         ∧ Forall (λ tag, tag ∈ ["naked_single"; "hidden_single"]) singles
         ∧ tag ∈ technique_tags).
Proof.
  rewrite rate_puzzle_unfold.
  destruct (rate_puzzle_run list_of_set board σ) as [[[e st]|] σ'] eqn:Hrun;
    [|done].
  cbn [fst]. intros [= <- <- <-].
  unfold rate_puzzle_run in Hrun. rewrite M_bind_unfold, deepcopy_unfold in Hrun.
  assert (rated (mkLocals 0 0 [])) as Hrated0 by (by repeat split).
  pose proof (rate_loop_singles _ _ _ (mkLocals 0 0 []) _ _ _ _
                (Forall_nil_2 _) Hrun) as Hsingles.
  pose proof (rate_loop_shape _ _ _ _ _ _ _ _ Hrated0 Hrun) as [_ Hshape].
  destruct e.
  - left. split; [done|]. destruct Hshape as (_ & _ & ->).
    by apply hardest_singles.
  - right. left. destruct Hsingles as (tags' & Htags & Hsingles).
    exists tags'. split; [done|]. split; [done|].
    destruct Hshape as (st0 & (_ & Htags0 & Hmax) & ->). cbn.
    pose proof (hardest_values _ Htags0) as Hv. rewrite <- Hmax in Hv.
    set_unfold in Hv. lia.
  - right. right. split; [|done].
    apply rate_loop_capped in Hrun as [(Hlen & _) Hiter]; [|done].
    cbn [iteration] in Hiter. lia.
Qed.

Lemma eliminations_never_solve_witness :
  (rate_puzzle remove_dups 0 (one_board easy_puzzle)).1
    = Ok ("Easy", 15%Z, ["naked_single"])
  ∧ ((Forall (λ tag, tag ∈ ["naked_single"; "hidden_single"]) ["naked_single"]
      ∧ (15 ≤ 15)%Z)
     ∨ (∃ tags', ["naked_single"] = tags' ++ ["requires_expert_technique"]
          ∧ Forall (λ tag, tag ∈ ["naked_single"; "hidden_single"]) tags'
          ∧ 15%Z = 200%Z)
     ∨ (length ["naked_single"] = max_iterations
        ∧ ∃ singles tag n,
            ["naked_single"] = singles ++ replicate n tag
            ∧ Forall (λ tag, tag ∈ ["naked_single"; "hidden_single"]) singles
            ∧ tag ∈ technique_tags)).
Proof.
  assert ((rate_puzzle remove_dups 0 (one_board easy_puzzle)).1
          = Ok ("Easy", 15%Z, ["naked_single"])) as Hrating
    by (vm_compute; reflexivity).
  split; [exact Hrating|].
  exact (eliminations_never_solve remove_dups 0 (one_board easy_puzzle)
           "Easy" 15 ["naked_single"] Hrating).
Defined.

(** * The rating loop and the backtracking solver agree *)

Lemma solution_valid_givens g s :
  sudoku_solution s → extends g s → valid_givens g.
Proof.
  intros Hsol Hext. apply Forall_forall.
  intros [r c] [Hr Hc]%elem_of_all_cells Hnz. cbn [fst snd] in *.
  destruct (solution_proper s Hsol r c Hr Hc) as [Hrange Hpeers].
  rewrite <- (Hext r c Hr Hc Hnz). split; [done|].
  apply Forall_forall.
  intros [r' c'] [Hr' Hc']%elem_of_all_cells Hne Hunit Hnz'.
  cbn [fst snd] in *. rewrite <- (Hext r' c' Hr' Hc' Hnz').
  apply Hpeers; try done.
Qed.

Lemma solve_numbers_row_ids
    (rec : SudokuBoard → option (result bool * SudokuBoard)) row col :
  (∀ self r self', rec self = Some (r, self') → row_ids self' = row_ids self) →
  ∀ numbers self r self',
    solve_numbers rec row col numbers self = Some (r, self') →
    row_ids self' = row_ids self.
Proof.
  intros Hrec numbers.
  induction numbers as [|num numbers IH]; intros self r self';
    cbn [solve_numbers].
  - by intros [= _ <-].
  - destruct (is_valid self row col num) as [[|]|e].
    + destruct (assign self row col num) as [self1|e] eqn:H1.
      2: { by intros [= _ <-]. }
      apply assign_row_ids in H1.
      destruct (rec self1) as [[[[|]|e] self2]|] eqn:Hrun; [| | |done].
      * apply Hrec in Hrun. intros [= _ <-]. congruence.
      * apply Hrec in Hrun.
        destruct (assign self2 row col 0) as [self3|e] eqn:H3.
        -- apply assign_row_ids in H3. intros Hrest%IH. congruence.
        -- intros [= _ <-]. congruence.
      * apply Hrec in Hrun. intros [= _ <-]. congruence.
    + apply IH.
    + by intros [= _ <-].
Qed.

(** [solve] replaces no row of the grid: it writes into the lists that
    are there. *)
Lemma solve_row_ids fuel self r self' :
  solve fuel self = Some (r, self') → row_ids self' = row_ids self.
Proof.
  revert self r self'. induction fuel as [|fuel IH]; intros self r self';
    [done|].
  rewrite solve_unfold. destruct (find_empty self) as [[[row col]|]|e].
  - by apply solve_numbers_row_ids.
  - by intros [= _ <-].
  - by intros [= _ <-].
Qed.

(** X21. The rating loop and the backtracking solver agree. On a puzzle
    that has a solution, on a board in which every row is a list of its
    own, if the loop of [rate_puzzle] ends because its working copy is
    solved, then [solve], called on the board that was rated, returns
    [True] and turns that board into the very grid that the working copy
    holds. *)
Theorem solved_rating_is_solve_result
    (list_of_set : list (nat * nat * Z) → list (nat * nat * Z))
    (board : nat) (σ σ' : store) (st : locals) (s : Grid) (fuel : nat) :
  set_order list_of_set → board9 (σ !!! board) → own_rows (σ !!! board) →
  sudoku_solution s → extends (grid (σ !!! board)) s →
  zeros (grid (σ !!! board)) < fuel →
  rate_puzzle_run list_of_set board σ = (Ok (Solved, st), σ') →
  solve fuel (σ !!! board)
    = Some (Ok true,
            mkSudokuBoard (grid (σ' !!! fresh (dom σ))) 9
              (row_ids (σ !!! board))).
Proof.
  intros Hlos Hboard Hown Hsol Hext Hfuel Hrun.
  destruct (rate_puzzle_run_follows list_of_set board σ s Hlos
              (proj1 Hboard) Hown Hsol Hext)
    as (e & st1 & σ1 & Hrun1 & _ & Hsolved).
  rewrite Hrun in Hrun1. injection Hrun1 as <- <- <-.
  rewrite (Hsolved eq_refl).
  destruct (solve_spec fuel (σ !!! board) (conj Hboard Hown) Hfuel)
    as (b & self' & Hsolve & Hboard' & Hres).
  rewrite Hsolve. apply solve_row_ids in Hsolve.
  destruct b.
  - f_equal. f_equal.
    assert (sudoku_solution (grid self')) as Hsol'.
    { apply proper_solution; [apply Hboard'|].
      apply (completes_proper (grid (σ !!! board))); [|done].
      by apply (solution_valid_givens _ s). }
    destruct (rate_puzzle_run_follows list_of_set board σ (grid self') Hlos
                (proj1 Hboard) Hown Hsol' (completes_extends _ _ Hres))
      as (e & st2 & σ2 & Hrun2 & _ & Hsolved2).
    rewrite Hrun in Hrun2. injection Hrun2 as <- <- <-.
    rewrite <- (Hsolved eq_refl), (Hsolved2 eq_refl), <- Hsolve.
    destruct self' as [g' n' ids']. destruct Hboard' as [[_ Hsize] _].
    cbn in Hsize. by subst n'.
  - destruct Hres as [_ Hnone]. destruct (Hnone s).
    by apply solution_completes.
Qed.

Lemma solved_rating_is_solve_result_witness :
  ∃ st σ',
    rate_puzzle_run remove_dups 0 (one_board easy_puzzle)
      = (Ok (Solved, st), σ')
    ∧ solve 4 (one_board easy_puzzle !!! 0)
      = Some (Ok true,
              mkSudokuBoard
                (grid (σ' !!! fresh (dom (one_board easy_puzzle)))) 9
                (row_ids (one_board easy_puzzle !!! 0))).
Proof.
  assert (board9 (one_board easy_puzzle !!! 0)) as Hboard.
  { split; [apply (bool_decide_unpack _); vm_compute; exact I
           | vm_compute; reflexivity]. }
  assert (extends (grid (one_board easy_puzzle !!! 0)) solved_grid) as Hext
    by exact easy_puzzle_extends.
  assert (zeros (grid (one_board easy_puzzle !!! 0)) < 4) as Hfuel
    by (vm_compute; lia).
  destruct (rate_puzzle_run remove_dups 0 (one_board easy_puzzle))
    as [[[e st]|] σ'] eqn:Hrun; [|vm_compute in Hrun; discriminate Hrun].
  assert (e = Solved) as ->.
  { vm_compute in Hrun. by injection Hrun as <- _ _. }
  exists st, σ'. split; [reflexivity|].
  assert (own_rows (one_board easy_puzzle !!! 0)) as Hown
    by (apply (bool_decide_unpack _); vm_compute; exact I).
  exact (solved_rating_is_solve_result remove_dups 0 (one_board easy_puzzle) σ'
           st solved_grid 4 set_order_remove_dups Hboard Hown
           solved_grid_is_solution Hext Hfuel Hrun).
Defined.

(** * Every single fills a cell *)

Lemma first_effective_elimination_tag los g cm tag n :
  first_effective g cm (technique_table los)
    = Ok (Some (tag, Eliminations n)) →
  tag ∈ ["naked_pair"; "pointing_pair"; "x_wing"; "swordfish"; "xy_wing"].
Proof.
  unfold technique_table. rewrite first_effective_cons, result_bind_Ok.
  destruct (nonzero _); [done|].
  rewrite first_effective_cons.
  destruct (find_hidden_singles los g cm) as [hidden|]; [|done].
  rewrite !result_bind_Ok. destruct (nonzero _); [done|].
  rewrite first_effective_cons, result_bind_Ok.
  destruct (nonzero _); [intros [= <- _]; left|].
  rewrite first_effective_cons, result_bind_Ok.
  destruct (nonzero _); [intros [= <- _]; right; left|].
  rewrite first_effective_cons, result_bind_Ok.
  destruct (nonzero _); [intros [= <- _]; do 2 right; left|].
  rewrite first_effective_cons, result_bind_Ok.
  destruct (nonzero _); [intros [= <- _]; do 3 right; left|].
  rewrite first_effective_cons, result_bind_Ok.
  destruct (nonzero _); [intros [= <- _]; do 4 right; left|].
  done.
Qed.

Lemma first_effective_nonzero g cm table tag e :
  first_effective g cm table = Ok (Some (tag, e)) → nonzero e = true.
Proof.
  induction table as [|[tag' technique] table IH]; [done|].
  rewrite first_effective_cons. intros (e' & _ & Hrest)%bind_Ok_inv.
  destruct (nonzero e') eqn:He'; [|by apply IH].
  by injection Hrest as _ <-.
Qed.

(** The singles that an iteration assigns are digits for empty cells. *)
Lemma assignments_fill_empty_cells los g cm tag findings :
  set_order los → is_9x9 g → _init_candidates g = Ok cm →
  first_effective g cm (technique_table los)
    = Ok (Some (tag, Assignments findings)) →
  findings ≠ []
  ∧ Forall (λ f : nat * nat * Z,
        in_range f ∧ cell_value g f.1.1 f.1.2 = 0%Z ∧ f.2 ≠ 0%Z) findings.
Proof.
  intros Hlos Hg Hinit Hwinner. split.
  { apply first_effective_nonzero in Hwinner. cbn in Hwinner.
    by apply bool_decide_eq_true in Hwinner. }
  apply Forall_forall. intros [[r c] d] Hin. unfold in_range. cbn [fst snd].
  assert (candidate_at cm (r, c) d ∧ (1 ≤ d ≤ 9)%Z) as [(cands & Hlook & Hd) Hd9].
  { apply first_effective_assignments in Hwinner as [-> | Hhidden].
    - apply find_naked_singles_exact in Hin as (Hr & Hc & Hlook).
      split; [exists {[d]}; split; [done | by apply elem_of_singleton]|].
      apply (init_candidates_lookup g cm r c _ Hg Hinit) in Hlook
        as (_ & _ & _ & Hcands).
      apply Hcands. by apply elem_of_singleton.
    - destruct (find_hidden_singles_exact los g cm Hlos Hg)
        as (hidden & Hfind & _ & Hexact).
      rewrite Hhidden in Hfind. injection Hfind as <-.
      apply Hexact in Hin as (Hd & i & Hi & unit_cells & _ & _ & _ & Hcand & _).
      done. }
  apply (init_candidates_lookup g cm r c _ Hg Hinit) in Hlook
    as (Hr & Hc & Hzero & _).
  split; [done|]. split; [done | lia].
Qed.

Lemma assign_all_zeros ref findings :
  Forall (λ f : nat * nat * Z, in_range f ∧ f.2 ≠ 0%Z) findings →
  ∀ σ, is_9x9 (grid (σ !!! ref)) →
    ∃ σ', assign_all ref findings σ = (Ok (), σ')
          ∧ is_9x9 (grid (σ' !!! ref))
          ∧ ∀ r c, cell_value (grid (σ' !!! ref)) r c = 0%Z →
                   cell_value (grid (σ !!! ref)) r c = 0%Z
                   ∧ (r, c) ∉ fst <$> findings.
Proof.
  induction 1 as [|[[row col] num] findings [[Hr Hc] Hnum] _ IH]; intros σ Hg.
  - exists σ. split; [done|]. split; [done|]. intros r c.
    rewrite fmap_nil. intros ?. split; [done|]. apply not_elem_of_nil.
  - cbn [fst snd] in Hr, Hc, Hnum. cbn [assign_all].
    rewrite M_bind_unfold. unfold set_cell.
    destruct (grid_write (row_ids (σ !!! ref)) (grid (σ !!! ref)) row col num)
      as [g'|] eqn:Hset.
    2: { destruct (grid_write_9x9 (row_ids (σ !!! ref)) _ row col num Hg Hr Hc)
           as (g' & Hg' & _).
         by rewrite Hg' in Hset. }
    pose proof (grid_write_cell_value _ _ _ _ _ _ Hg Hset) as Hg'.
    destruct (IH (<[ref := mkSudokuBoard g' (size (σ !!! ref))
                             (row_ids (σ !!! ref))]> σ))
      as (σ' & -> & Hshape & Hzeros).
    { rewrite lookup_total_insert_eq. by eapply grid_write_keeps_9x9. }
    exists σ'. split; [done|]. split; [done|]. intros r c Hzero.
    apply Hzeros in Hzero as [Hzero Hnotin].
    rewrite lookup_total_insert_eq in Hzero. cbn [grid] in Hzero.
    rewrite fmap_cons, not_elem_of_cons. cbn [fst].
    destruct (decide (r < 9)) as [Hr9|Hr9].
    + rewrite Hg' in Hzero by done. case_decide as Hrc; [done|].
      split; [done|]. split; [|done].
      intros [= -> ->]. apply Hrc. split; [by left | done].
    + split; [|split; [|done]].
      * unfold cell_value. rewrite (proj2 (lookup_ge_None _ _)); [done|].
        destruct Hg as [-> _]. lia.
      * intros [= -> ->]. lia.
Qed.

Lemma filter_length_lt {A} (P Q : A → Prop) `{∀ x, Decision (P x)}
    `{∀ x, Decision (Q x)} (l : list A) (x : A) :
  (∀ y, Q y → P y) → x ∈ l → P x → ¬ Q x →
  length (filter Q l) < length (filter P l).
Proof.
  intros Hsub Hx HP HQ.
  assert (∀ l', length (filter Q l') ≤ length (filter P l')) as Hle.
  { induction l' as [|y l' IH]; [done|]. rewrite !filter_cons.
    destruct (decide (Q y)) as [HQy|HQy], (decide (P y)) as [HPy|HPy];
      cbn [length]; try lia. destruct HPy. by apply Hsub. }
  induction l as [|y l IH]; [by apply elem_of_nil in Hx|].
  rewrite !filter_cons. apply elem_of_cons in Hx as [<- | Hx].
  - rewrite decide_False, decide_True by done. cbn [length].
    specialize (Hle l). lia.
  - specialize (IH Hx).
    destruct (decide (Q y)) as [HQy|HQy], (decide (P y)) as [HPy|HPy];
      cbn [length]; try lia. destruct HPy. by apply Hsub.
Qed.

Lemma iteration_body_progress los ref st σ st' σ' cm tag findings :
  set_order los → is_9x9 (grid (σ !!! ref)) →
  _init_candidates (grid (σ !!! ref)) = Ok cm →
  first_effective (grid (σ !!! ref)) cm (technique_table los)
    = Ok (Some (tag, Assignments findings)) →
  iteration_body los ref st σ = (Ok (Continue, st'), σ') →
  is_9x9 (grid (σ' !!! ref))
  ∧ zeros (grid (σ' !!! ref)) < zeros (grid (σ !!! ref)).
Proof.
  intros Hlos Hg Hinit Hwinner.
  destruct (assignments_fill_empty_cells los _ cm tag findings
              Hlos Hg Hinit Hwinner) as [Hne Hfindings].
  destruct (assign_all_zeros ref findings) with (σ := σ)
    as (σ1 & Hassign & Hshape & Hzeros); [|done|].
  { eapply Forall_impl; [exact Hfindings|]. intros f (? & _ & ?). done. }
  rewrite iteration_body_table. unfold table_iteration. cbv zeta.
  rewrite get_grid_bind, lift_bind, Hinit, lift_bind, Hwinner, M_bind_unfold.
  rewrite Hassign. intros [= _ <-]. split; [done|].
  destruct findings as [|[[r c] d] findings]; [done|].
  apply Forall_cons in Hfindings as [([Hr Hc] & Hzero & _) _].
  cbn [fst snd] in Hr, Hc, Hzero.
  unfold zeros. apply (filter_length_lt _ _ _ (r, c)).
  - intros [r' c']. cbn [fst snd]. intros Hz. by apply Hzeros.
  - by apply elem_of_all_cells.
  - done.
  - cbn [fst snd]. intros [_ Hnotin]%Hzeros. apply Hnotin. left.
Qed.

Lemma rate_loop_single_count los remaining ref st σ e st' σ' :
  set_order los → is_9x9 (grid (σ !!! ref)) →
  rate_loop los remaining ref st σ = (Ok (e, st'), σ') →
  length (filter (λ tag, tag ∈ ["naked_single"; "hidden_single"])
            (techniques_used st'))
  ≤ length (filter (λ tag, tag ∈ ["naked_single"; "hidden_single"])
              (techniques_used st))
    + zeros (grid (σ !!! ref)).
Proof.
  intros Hlos. revert st σ.
  induction remaining as [|remaining IH]; intros st σ Hg;
    cbn [rate_loop]; rewrite M_bind_unfold, is_solved_unfold.
  - destruct (forallb _ _); intros [= _ <- _]; lia.
  - destruct (forallb _ _) eqn:Hunsolved; [intros [= _ <- _]; lia|].
    rewrite M_bind_unfold.
    destruct (iteration_body los ref st σ) as [[[c st1]|] σ1] eqn:Hbody;
      [|done].
    pose proof Hbody as Hbody'. rewrite iteration_body_table in Hbody'.
    unfold table_iteration in Hbody'. cbv zeta in Hbody'.
    rewrite get_grid_bind, lift_bind in Hbody'.
    destruct (_init_candidates _) as [cm|] eqn:Hinit; [|done].
    rewrite lift_bind in Hbody'.
    destruct (first_effective _ cm _) as [[[tag [findings|n]]|]|] eqn:Hwinner;
      [| | |done].
    + rewrite M_bind_unfold in Hbody'.
      destruct (assign_all ref findings σ) as [[[]|] σ2]; [|done].
      injection Hbody' as <- <- <-.
      destruct (iteration_body_progress los ref st σ _ _ cm tag findings
                  Hlos Hg Hinit Hwinner Hbody) as [Hshape Hless].
      intros Hloop. apply IH in Hloop; [|done].
      cbn [techniques_used] in Hloop.
      rewrite filter_app, length_app in Hloop.
      assert (length (filter (λ tag, tag ∈ ["naked_single"; "hidden_single"])
                        [tag]) ≤ 1) as Hone.
      { rewrite filter_cons, filter_nil. case_decide; cbn [length]; lia. }
      lia.
    + apply first_effective_elimination_tag in Hwinner as Htag.
      injection Hbody' as <- <- <-.
      destruct (rate_loop_repeats los ref σ cm tag n) with
        (remaining := remaining)
        (st := mkLocals (S (iteration st))
                 (Z.max (max_score st) (TECHNIQUE_SCORES !!! tag))
                 (techniques_used st ++ [tag]))
        as (st2 & -> & Htags); [|done|done|].
      { rewrite is_solved_unfold. cbn [fst]. by rewrite Hunsolved. }
      intros [= _ <- _]. rewrite Htags. cbn [techniques_used].
      rewrite <- app_assoc, filter_app, length_app.
      change ([tag] ++ replicate remaining tag)
        with (replicate (S remaining) tag).
      assert (filter (λ tag, tag ∈ ["naked_single"; "hidden_single"])
                (replicate (S remaining) tag) = []) as ->;
        [|cbn [length]; lia].
      apply filter_none. intros x [-> _]%elem_of_replicate.
      set_unfold in Htag. set_unfold.
      destruct Htag as [-> | [-> | [-> | [-> | [-> | []]]]]];
        intros [? | [? | []]]; done.
    + injection Hbody' as <- <- <-. intros [= _ <- _].
      cbn [techniques_used]. rewrite filter_app, length_app.
      rewrite filter_cons, filter_nil, decide_False; [cbn [length]; lia|].
      set_unfold. intros [? | [? | []]]; done.
Qed.

Lemma filter_all {A} (P : A → Prop) `{∀ x, Decision (P x)} (l : list A) :
  Forall P l → filter P l = l.
Proof.
  induction 1 as [|x l HP _ IH]; [done|].
  by rewrite filter_cons, decide_True, IH by done.
Qed.

(** X22. Every iteration won by a single fills at least one empty cell of
    the working copy. So, on a grid of nine rows of nine integers, a
    returned rating has at most as many [naked_single] and [hidden_single]
    tags as the puzzle has empty cells, and its list of tags is either no
    longer than that number plus one (the loop ended by itself), or has
    exactly 1000 tags (the loop repeated an elimination until the cap). *)
Theorem singles_fill_cells
    (list_of_set : list (nat * nat * Z) → list (nat * nat * Z))
    (board : nat) (σ : store) (label : string) (score : Z)
    (tags : list string) :
  set_order list_of_set → is_9x9 (grid (σ !!! board)) →
  (rate_puzzle list_of_set board σ).1 = Ok (label, score, tags) →
  length (filter (λ tag, tag ∈ ["naked_single"; "hidden_single"]) tags)
    ≤ zeros (grid (σ !!! board))
  ∧ (length tags ≤ zeros (grid (σ !!! board)) + 1
     ∨ length tags = max_iterations).
Proof.
  intros Hlos Hg. rewrite rate_puzzle_unfold.
  destruct (rate_puzzle_run list_of_set board σ) as [[[e st]|] σ'] eqn:Hrun;
    [|done].
  cbn [fst]. intros [= <- <- <-].
  unfold rate_puzzle_run in Hrun. rewrite M_bind_unfold, deepcopy_unfold in Hrun.
  assert (rated (mkLocals 0 0 [])) as Hrated0 by (by repeat split).
  pose proof (rate_loop_singles _ _ _ (mkLocals 0 0 []) _ _ _ _
                (Forall_nil_2 _) Hrun) as Hsingles.
  pose proof (rate_loop_single_count _ _ _ _ _ _ _ _ Hlos
                ltac:(by rewrite lookup_total_insert_eq) Hrun) as Hcount.
  rewrite lookup_total_insert_eq in Hcount.
  cbn [techniques_used filter length] in Hcount.
  change (filter _ []) with (@nil string) in Hcount. cbn [length] in Hcount.
  split; [lia|]. destruct e.
  - left. rewrite (filter_all _ _ Hsingles) in Hcount. lia.
  - left. destruct Hsingles as (tags' & Htags & Hsingles).
    rewrite Htags, filter_app, length_app in Hcount.
    rewrite (filter_all _ _ Hsingles) in Hcount.
    rewrite Htags, length_app. cbn [length]. lia.
  - right.
    apply rate_loop_capped in Hrun as [(Hlen & _) Hiter]; [|done].
    cbn [iteration] in Hiter. lia.
Qed.

Lemma singles_fill_cells_witness :
  (rate_puzzle remove_dups 0 (one_board easy_puzzle)).1
    = Ok ("Easy", 15%Z, ["naked_single"])
  ∧ length (filter (λ tag, tag ∈ ["naked_single"; "hidden_single"])
              ["naked_single"])
    ≤ zeros (grid (one_board easy_puzzle !!! 0))
  ∧ (length ["naked_single"] ≤ zeros (grid (one_board easy_puzzle !!! 0)) + 1
     ∨ length ["naked_single"] = max_iterations).
Proof.
  assert (is_9x9 (grid (one_board easy_puzzle !!! 0))) as Hshape
    by (apply (bool_decide_unpack _); vm_compute; exact I).
  assert ((rate_puzzle remove_dups 0 (one_board easy_puzzle)).1
          = Ok ("Easy", 15%Z, ["naked_single"])) as Hrating
    by (vm_compute; reflexivity).
  split; [exact Hrating|].
  exact (singles_fill_cells remove_dups 0 (one_board easy_puzzle)
           "Easy" 15 ["naked_single"] set_order_remove_dups Hshape Hrating).
Defined.

(** * One iteration of the rating loop, on the board *)

Lemma assign_all_written ref findings :
  Forall in_range findings →
  ∀ σ, is_9x9 (grid (σ !!! ref)) →
    ∃ σ', assign_all ref findings σ = (Ok (), σ') ∧ written ref findings σ σ'.
Proof.
  induction 1 as [|[[row col] num] findings [Hr Hc] _ IH]; intros σ Hg.
  - exists σ. split; [done|]. split; [done|]. split; [done|].
    split; [done|]. split; [done|]. by intros r c _ _.
  - cbn [fst snd] in Hr, Hc. cbn [assign_all].
    rewrite M_bind_unfold. unfold set_cell.
    destruct (grid_write (row_ids (σ !!! ref)) (grid (σ !!! ref)) row col num)
      as [g'|] eqn:Hset.
    2: { destruct (grid_write_9x9 (row_ids (σ !!! ref)) _ row col num Hg Hr Hc)
           as (g' & Hg' & _).
         by rewrite Hg' in Hset. }
    pose proof (grid_write_cell_value _ _ _ _ _ _ Hg Hset) as Hg'.
    destruct (IH (<[ref := mkSudokuBoard g' (size (σ !!! ref))
                             (row_ids (σ !!! ref))]> σ))
      as (σ' & Hrun & Hshape & Hsize & Hids & Hother & Hcells).
    { rewrite lookup_total_insert_eq. by eapply grid_write_keeps_9x9. }
    exists σ'. split; [done|].
    rewrite lookup_total_insert_eq in Hsize, Hids, Hcells.
    cbn [grid size row_ids] in Hsize, Hids, Hcells.
    split; [done|]. split; [done|]. split; [done|]. split.
    + intros other Hne. rewrite Hother by done. by rewrite lookup_insert_ne.
    + intros r c Hr' Hc'. rewrite Hcells by done. cbn [last_write].
      destruct (last_write _ findings r c); [done|]. cbn [default].
      rewrite Hg' by done. by case_decide.
Qed.

Lemma first_effective_elimination los g cm tag n :
  first_effective g cm (technique_table los)
    = Ok (Some (tag, Eliminations n)) →
  ∃ applier, (tag, applier) ∈ elimination_table ∧ (applier cm).2 = n.
Proof.
  unfold technique_table, elimination_table.
  rewrite first_effective_cons, result_bind_Ok.
  destruct (nonzero _); [done|].
  rewrite first_effective_cons.
  destruct (find_hidden_singles los g cm) as [hidden|]; [|done].
  rewrite !result_bind_Ok. destruct (nonzero _); [done|].
  rewrite first_effective_cons, result_bind_Ok.
  destruct (nonzero _);
    [intros [= <- <-]; eexists; split; [left | reflexivity]|].
  rewrite first_effective_cons, result_bind_Ok.
  destruct (nonzero _);
    [intros [= <- <-]; eexists; split; [right; left | reflexivity]|].
  rewrite first_effective_cons, result_bind_Ok.
  destruct (nonzero _);
    [intros [= <- <-]; eexists; split; [do 2 right; left | reflexivity]|].
  rewrite first_effective_cons, result_bind_Ok.
  destruct (nonzero _);
    [intros [= <- <-]; eexists; split; [do 3 right; left | reflexivity]|].
  rewrite first_effective_cons, result_bind_Ok.
  destruct (nonzero _);
    [intros [= <- <-]; eexists; split; [do 4 right; left | reflexivity]|].
  done.
Qed.

Lemma elimination_table_accounting tag applier cm :
  (tag, applier) ∈ elimination_table →
  (applier cm).2 + count_candidates (applier cm).1 = count_candidates cm.
Proof.
  unfold elimination_table. intros Hin.
  apply elem_of_cons in Hin as [[= _ ->]|Hin];
    [apply (applier_accounting _ _ _ _ apply_naked_pairs_steps)|].
  apply elem_of_cons in Hin as [[= _ ->]|Hin];
    [apply (applier_accounting _ _ _ _ apply_pointing_pairs_steps)|].
  apply elem_of_cons in Hin as [[= _ ->]|Hin];
    [apply (applier_accounting _ _ _ _ apply_x_wing_steps)|].
  apply elem_of_cons in Hin as [[= _ ->]|Hin];
    [apply (applier_accounting _ _ _ _ apply_swordfish_steps)|].
  apply elem_of_cons in Hin as [[= _ ->]|Hin];
    [apply (applier_accounting _ _ _ _ apply_xy_wing_steps)|].
  by apply elem_of_nil in Hin.
Qed.

Lemma table_iteration_winner los ref st σ cm winner :
  _init_candidates (grid (σ !!! ref)) = Ok cm →
  first_effective (grid (σ !!! ref)) cm (technique_table los) = Ok winner →
  table_iteration los ref st σ =
    match winner with
    | Some (tag, e) =>
        match
          match e with
          | Assignments findings => assign_all ref findings σ
          | Eliminations _ => (Ok (), σ)
          end
        with
        | (Ok _, σ') =>
            (Ok (Continue,
                 mkLocals (S (iteration st))
                   (Z.max (max_score st) (TECHNIQUE_SCORES !!! tag))
                   (techniques_used st ++ [tag])), σ')
        | (Raise e, σ') => (Raise e, σ')
        end
    | None =>
        (Ok (Break,
             mkLocals (S (iteration st)) (Z.max (max_score st) 200)
               (techniques_used st ++ ["requires_expert_technique"])), σ)
    end.
Proof.
  intros Hinit Hwinner. unfold table_iteration. cbv zeta.
  rewrite get_grid_bind, lift_bind, Hinit, lift_bind, Hwinner.
  destruct winner as [[tag [findings|n]]|]; [|done|done].
  rewrite M_bind_unfold. by destruct (assign_all ref findings σ) as [[[]|] σ'].
Qed.

(** C3. One iteration of the loop of [rate_puzzle]. The seven techniques
    are tried in the order naked single, hidden single, naked pair,
    pointing pair, X-Wing, Swordfish, XY-Wing, and the loop body is the
    iteration by this ordered table. On an unsolved grid of nine rows of
    nine integers, the candidate map that the techniques are tried on is
    the one built from the current grid: its entries are the empty cells
    of the grid, each with the digits of 1..9 that occur nowhere in the
    row, the column and the box of the cell. The first technique with a
    nonzero effect has its tag appended to [techniques_used] and
    [max_score] raised to [max(max_score, weight[tag])], and the loop goes
    on: for a single, the findings are not empty, they are written into
    the working copy and nothing else, and the working copy has fewer
    empty cells than before; for an eliminating technique, the number of
    eliminations is positive, it is the number of candidates that the
    technique removes from the candidate map, and the working copy is
    untouched. When no technique has an effect, the tag
    [requires_expert_technique] is appended, [max_score] is raised to at
    least 200 and the loop halts. *)
Theorem rate_loop_iteration
    (list_of_set : list (nat * nat * Z) → list (nat * nat * Z))
    (remaining : nat) (working_board : nat) (st : locals) (σ : store) :
  (technique_table list_of_set).*1 = technique_tags
  ∧ rate_loop list_of_set (S remaining) working_board st σ =
      (solved ← _is_solved working_board;
       if solved : bool then mret (Solved, st)
       else
         '(c, st') ← table_iteration list_of_set working_board st;
         match c with
         | Break => mret (Stuck, st')
         | Continue => rate_loop list_of_set remaining working_board st'
         end) σ
  ∧ (set_order list_of_set → is_9x9 (grid (σ !!! working_board)) →
     _is_solved working_board σ = (Ok false, σ) →
     ∃ candidates winner,
       _init_candidates (grid (σ !!! working_board)) = Ok candidates
       ∧ candidates_of_grid (grid (σ !!! working_board)) candidates
       ∧ first_effective (grid (σ !!! working_board)) candidates
           (technique_table list_of_set) = Ok winner
       ∧ match winner with
         | Some (tag, Assignments findings) =>
             ∃ σ',
               rate_loop list_of_set (S remaining) working_board st σ =
                 rate_loop list_of_set remaining working_board
                   (mkLocals (S (iteration st))
                      (Z.max (max_score st) (TECHNIQUE_SCORES !!! tag))
                      (techniques_used st ++ [tag])) σ'
               ∧ findings ≠ []
               ∧ written working_board findings σ σ'
               ∧ zeros (grid (σ' !!! working_board))
                 < zeros (grid (σ !!! working_board))
         | Some (tag, Eliminations eliminated) =>
             rate_loop list_of_set (S remaining) working_board st σ =
               rate_loop list_of_set remaining working_board
                 (mkLocals (S (iteration st))
                    (Z.max (max_score st) (TECHNIQUE_SCORES !!! tag))
                    (techniques_used st ++ [tag])) σ
             ∧ 0 < eliminated
             ∧ ∃ applier,
                 (tag, applier) ∈ elimination_table
                 ∧ (applier candidates).2 = eliminated
                 ∧ eliminated + count_candidates (applier candidates).1
                   = count_candidates candidates
         | None =>
             rate_loop list_of_set (S remaining) working_board st σ =
               (Ok (Stuck,
                    mkLocals (S (iteration st)) (Z.max (max_score st) 200)
                      (techniques_used st ++ ["requires_expert_technique"])),
                σ)
         end).
Proof.
  split; [reflexivity|]. split.
  { cbn [rate_loop]. rewrite !M_bind_unfold.
    destruct (_is_solved working_board σ) as [[[]|] σ']; [done| |done].
    by rewrite !M_bind_unfold, iteration_body_table. }
  intros Hlos Hg Hunsolved.
  destruct (init_candidates_9x9 _ Hg) as (cm & Hinit & _).
  destruct (first_effective_9x9 list_of_set _ cm Hlos Hg)
    as (winner & Hwinner & Hrange).
  exists cm, winner. split; [done|]. split.
  { intros r c s. by apply init_candidates_lookup. }
  split; [done|].
  pose proof (table_iteration_winner list_of_set working_board st σ cm winner
                Hinit Hwinner) as Htable.
  rewrite <- iteration_body_table in Htable.
  destruct winner as [[tag [findings|n]]|].
  - destruct (assignments_fill_empty_cells list_of_set _ cm tag findings
                Hlos Hg Hinit Hwinner) as [Hne _].
    destruct (assign_all_written working_board findings
                (Hrange _ _ eq_refl) σ Hg) as (σ' & Hassign & Hwritten).
    rewrite Hassign in Htable. exists σ'. split.
    { cbn [rate_loop]. rewrite M_bind_unfold, Hunsolved.
      by rewrite M_bind_unfold, Htable. }
    split; [done|]. split; [done|].
    by apply (iteration_body_progress list_of_set working_board st σ _ σ' cm
                tag findings Hlos Hg Hinit Hwinner Htable).
  - split.
    { cbn [rate_loop]. rewrite M_bind_unfold, Hunsolved.
      by rewrite M_bind_unfold, Htable. }
    split.
    { apply first_effective_nonzero in Hwinner. cbn [nonzero] in Hwinner.
      by apply bool_decide_eq_true in Hwinner. }
    destruct (first_effective_elimination _ _ _ _ _ Hwinner)
      as (applier & Hin & Hn).
    exists applier. split; [done|]. split; [done|].
    rewrite <- Hn. by apply (elimination_table_accounting tag).
  - cbn [rate_loop]. rewrite M_bind_unfold, Hunsolved.
    by rewrite M_bind_unfold, Htable.
Qed.

Lemma rate_loop_iteration_witness :
  (∃ candidates σ',
     _init_candidates easy_puzzle = Ok candidates
     ∧ candidates_of_grid easy_puzzle candidates
     ∧ rate_loop remove_dups 1 0 (mkLocals 0 0 []) (one_board easy_puzzle)
       = rate_loop remove_dups 0 0 (mkLocals 1 15 ["naked_single"]) σ'
     ∧ written 0 [(6, 8, 4%Z); (7, 7, 3%Z); (8, 6, 1%Z)]
         (one_board easy_puzzle) σ'
     ∧ zeros (grid (σ' !!! 0)) < zeros easy_puzzle)
  ∧ (∃ candidates applier,
       _init_candidates cycling_grid = Ok candidates
       ∧ candidates_of_grid cycling_grid candidates
       ∧ rate_loop remove_dups 1 0 (mkLocals 0 0 []) (one_board cycling_grid)
         = rate_loop remove_dups 0 0 (mkLocals 1 80 ["pointing_pair"])
             (one_board cycling_grid)
       ∧ ("pointing_pair", applier) ∈ elimination_table
       ∧ (applier candidates).2 = 18
       ∧ 18 + count_candidates (applier candidates).1
         = count_candidates candidates).
Proof.
  split.
  - assert (is_9x9 (grid (one_board easy_puzzle !!! 0))) as Hshape
      by (apply (bool_decide_unpack _); vm_compute; exact I).
    assert (_is_solved 0 (one_board easy_puzzle)
            = (Ok false, one_board easy_puzzle)) as Hunsolved
      by (vm_compute; reflexivity).
    assert ((_init_candidates easy_puzzle ≫= λ cm,
               first_effective easy_puzzle cm (technique_table remove_dups))
            = Ok (Some ("naked_single",
                        Assignments [(6, 8, 4%Z); (7, 7, 3%Z); (8, 6, 1%Z)])))
      as Hfirst by (vm_compute; reflexivity).
    destruct (proj2 (proj2 (rate_loop_iteration remove_dups 0 0 (mkLocals 0 0 [])
                              (one_board easy_puzzle)))
                set_order_remove_dups Hshape Hunsolved)
      as (cm & winner & Hinit & Hcands & Hwinner & Hcase).
    change (grid (one_board easy_puzzle !!! 0)) with easy_puzzle in *.
    rewrite Hinit, result_bind_Ok, Hwinner in Hfirst.
    injection Hfirst as ->.
    destruct Hcase as (σ' & Hloop & _ & Hwritten & Hzeros).
    exists cm, σ'. split; [exact Hinit|]. split; [exact Hcands|].
    split; [exact Hloop|]. split; [exact Hwritten | exact Hzeros].
  - assert (is_9x9 (grid (one_board cycling_grid !!! 0))) as Hshape
      by (apply (bool_decide_unpack _); vm_compute; exact I).
    assert (_is_solved 0 (one_board cycling_grid)
            = (Ok false, one_board cycling_grid)) as Hunsolved
      by (vm_compute; reflexivity).
    assert ((_init_candidates cycling_grid ≫= λ cm,
               first_effective cycling_grid cm (technique_table remove_dups))
            = Ok (Some ("pointing_pair", Eliminations 18)))
      as Hfirst by (vm_compute; reflexivity).
    destruct (proj2 (proj2 (rate_loop_iteration remove_dups 0 0 (mkLocals 0 0 [])
                              (one_board cycling_grid)))
                set_order_remove_dups Hshape Hunsolved)
      as (cm & winner & Hinit & Hcands & Hwinner & Hcase).
    change (grid (one_board cycling_grid !!! 0)) with cycling_grid in *.
    rewrite Hinit, result_bind_Ok, Hwinner in Hfirst.
    injection Hfirst as ->.
    destruct Hcase as (Hloop & _ & applier & Hin & Hcount & Hremoved).
    exists cm, applier. split; [exact Hinit|]. split; [exact Hcands|].
    split; [exact Hloop|]. split; [exact Hin|].
    split; [exact Hcount | exact Hremoved].
Defined.
